(* ===== verification/_CoqProject ===== *)
-Q . S2P
Prelude.v
Bytes.v
Numerals.v
Calendar.v
Doubles.v
OrdMap.v
Types.v
Crc32c.v
MemTable.v
Files.v
Wal.v
SSTable.v
LSMTree.v
LSMReads.v
LSMScans.v
LSMRecovery.v
LSMDisk.v
LSMLayers.v
LSMRuns.v
LSMBackup.v
Locks.v
LockManager.v
Transactions.v
TransactionManager.v
TransactionOutcomes.v
TransactionInvariants.v
TransactionLocks.v
Serializability.v
TransactionProgress.v
TransactionContext.v
Search.v
SplitBrain.v
Partitions.v
Quorum.v
SplitBrainRuns.v
TimeSync.v
LogicalClock.v
TimeText.v
Timestamps.v
Hotspot.v
HotspotRuns.v
ServiceTypes.v
Server.v
ServerRuns.v
