(* ===== verification/Prelude.v ===== *)
(** * qc-database: a verification development

    The program is a distributed cache in C++.  Its parts, as far as they are
    implemented (some headers only declare), are a storage engine (a
    log-structured merge tree with a write-ahead log), a transaction manager
    with its lock manager, time synchronisation, split-brain detection, hot
    key management, and a server that puts them together.

    ** Files

    [Prelude]: outcomes, the state monad, mutexes, partial correctness
    ([wlp], [respects]), machine integers.  [Bytes]: bytes, strings and
    little-endian integers.  [Numerals]: decimal numbers as the standard
    library reads and writes them.  [Calendar]: broken-down time, [gmtime],
    [mktime], [put_time] and [get_time].  [Doubles]: [double] and its conversions
    to and from integers.  [OrdMap]: [std::map] as a sorted association list.
    [Types]: [common/types.h].

    Storage engine:
    - [Crc32c]: [crc32c.cpp], with its lazily initialised table;
    - [MemTable]: [storage/memtable.cpp];
    - [Files]: the disk, [std::fstream] and the clock, which are no code of
      the repository but what its code runs on;
    - [Wal]: [storage/wal.cpp]; [SSTable]: [storage/sstable.cpp];
    - [LSMTree]: [storage/lsm_tree.cpp] and the factory; [LSMReads],
      [LSMScans], [LSMRecovery]: what single calls of the engine do;
    - [LSMDisk]: the directory of an engine, and that opening it finds the
      tables; [LSMLayers]: what an engine promises, a stack of maps; [LSMRuns]:
      that runs of calls, turns of the background thread, restarts and crashes
      refine it; [LSMBackup]: backup and restore.

    Transactions, all from [transaction/transaction_manager.cpp] and its header:
    - [Locks]: lock modes, and [LockService], the interface between the lock
      manager and the transaction manager with its laws;
    - [LockManager]: [DefaultLockManager] and its instance of the interface;
    - [Transactions]: the data types and the interface [TransactionService];
    - [TransactionManager]: [DefaultTransactionManager];
    - [TransactionOutcomes], [TransactionInvariants], [TransactionLocks]: what
      its calls do, keep, and promise about locks;
    - [Serializability]: the history of a run of its calls, and a plain lock
      table as another instance of [LockService]; [TransactionProgress]: that
      the calls return;
    - [TransactionContext]: the client's handle.

    Cluster, from [cluster/split_brain_detector.cpp] and its header:
    - [Search]: the breadth-first search the file has twice, once over any
      graph, and the proof that it finds the connected components;
    - [SplitBrain]: [SplitBrainDetector], its two threads and
      [split_brain_utils]; a definition per method and per turn of a thread;
    - [Partitions]: the components the searches return; [Quorum]: what the
      quorum strategies decide; [SplitBrainRuns]: what runs of calls and turns
      keep.

    Time, from [time/time_sync.cpp] and its header:
    - [TimeSync]: [DefaultTimeService] (hybrid logical clock, offsets of other
      nodes, Berkeley algorithm, NTP client, threads) and [time_utils];
    - [LogicalClock]: its theorems; [TimeText]: timestamps and hybrid clocks as
      text;
    - [Timestamps]: [TimestampOrdering], over the interface
      [LogicalClockService] of a source of logical time, and the instance the
      time service is.

    Hot keys and the server:
    - [Hotspot]: [DefaultHotspotManager] of [hotspot/hotspot_manager.cpp] over
      any access recorder, and [hotspot_utils]; [HotspotRuns]: its theorems;
    - [ServiceTypes]: the data types, with their constructors and methods, of
      the headers that declare classes nobody implements;
    - [Server]: [CacheServer] of [cache_server.cpp], and the command line and the
      process of [main.cpp]; [ServerRuns]: their theorems.

    A method of a class is a definition of (nearly) the same name in the monad
    [M S], where [S] holds the fields of the object and the outside world it
    uses.  A loop is a [Fixpoint] over the container it walks, or takes a
    number of turns; a loop with turns is proved not to run out of them with
    the turns its callers give it (file size for the log and the tables, one
    turn per node for the cycle search, two for a request that finds its own
    mutex locked, one turn per node for the breadth-first search).  Running out
    of turns is an outcome of its own, or [None], and never an answer.

    ** What the theorems show

    - Storage: the checksum is the bit-serial CRC and finds every short burst;
      runs of the memtable refine a finite map and keep its order and its size
      counter; tables and log records read back what was written; [get] of the
      engine finds the newest live entry of its sources, range scans merge
      them, a flush changes no answer; over runs with restarts and crashes the
      engine is a stack of maps, what was flushed survives a crash and what was
      not does not, and a backup brings back what was flushed; and where the code falls short:
      deletions uncover older entries, compaction loses two tables, nothing
      put after [open] reaches the log, and some methods lock their own mutex
      twice.  What is said of restarts, crashes and backups holds for primary
      keys without a colon: the index that a new object reads back splits a
      stored key at the first one.  A scan always counts its end key in.
    - Locks: the tables stay consistent and the wait graph acyclic, the cycle
      search ends and is exact, and releasing all locks of a holder throws.
    - Transactions: commit and abort on every branch, the invariant of the
      table, strict and conflict serializable histories over any lock manager
      with the laws of the interface, that calls return and transactions commit
      over one whose own operations return, and that with the default one a
      transaction that wrote is never committed or aborted, whatever is called
      and whatever exceptions are caught: where its commit or its abort gets to
      the locks it throws, and leaves it COMMITTING or ABORTING.
    - Cluster: the searches return the connected components, and with the
      test the detector uses, all recently heard nodes are one of them; two
      majorities meet while the static and the dynamic strategy let both
      sides of a split go on; the status is a state machine; the set and the
      flags of isolated nodes agree but for one call, after which a node that
      is isolated counts for the quorum again once it has sent a heartbeat; a
      partition once found is found again for ever.
    - Time: logical timestamps increase strictly, whatever the system clock
      does; a received timestamp is ordered before what follows unless it is
      too far ahead, and sets a clock back that is ahead of the system's; the median is one; NTP's
      format reads back to a nanosecond until 2036; a timestamp written as text
      is read back to the millisecond where standard time is UTC, and shifted
      by the offset of standard time elsewhere, in summer, too.
    - Hot keys: recording the event of one throws, so a turn of detection records one
      key and no event, no event of detection or resolution ever exists, and
      a key that has cooled is never removed.  Server: the list of seed nodes is
      read back as it was written; SIGINT, SIGQUIT and SIGTERM end the process,
      in order or, on the statistics thread, not; SIGPIPE is ignored; and every
      other signal does what it does by default.
    - Threads: [stop] of the transaction manager, of the time service and of
      the split-brain detector joins threads under the mutex they need, and
      waits for ever when they are in a turn that goes on to lock it.  A join is
      the turn run with that mutex held ([joining]).

    ** Conventions and bounds

    Clock readings are arbitrary; where order of time matters, a theorem says
    so. In the storage files a reading whose value is discarded is not
    counted; in the later ones every reading is. The arithmetic of
    [std::chrono] is taken not to overflow. Directories exist and names of
    data directories end without a slash; memory allocation succeeds; a stream
    writes through. The runs of [LSMRuns] are those in which the clock has
    reached a millisecond whose file name sorts behind those of the tables
    when a flush needs one, the memtable fits the 32-bit offsets of a table,
    a scan has its start key not above its end key and a limit that cuts no
    source short, no compaction is due, which would lose tables, primary keys
    that are put or removed have no colon, removed keys are within
    [MAX_KEY_SIZE], and versions and timestamps fit 64 bits; they start from an
    engine as [open] leaves it ([alive]). The offset of the host's standard time
    from UTC ([mktime] is called with [tm_isdst] 0, which means standard time all
    the year), its offset at an instant ([localtime]), and what a [get_time]
    leaves behind that does not reach the end of its format, are parameters. An
    [unordered_map] iterates in an order that is a parameter.

    A thread that locks a mutex it holds exclusively has undefined behaviour by
    the standard. The model has what the library of the build (libstdc++ over
    glibc) does: a [std::mutex] blocks for ever ([Undefined RelockOwned]), a
    [std::shared_mutex] throws [std::system_error] ([Throws]). The exception
    releases the guards it passes, and what was changed on the way stays
    changed; the [try] blocks of the thread loops catch it and the thread goes
    on ([catching]); one that would leave a destructor ends the program
    ([noexcept]). A statement about calls that return says nothing of calls an
    exception leaves, unless it says so; the invariant of the lock manager, the
    exclusion of written keys, the fate of a transaction that wrote and that of
    hot keys cover both.

    Between two calls other threads may do anything a call does; a call itself
    is one step, and so is a turn of a background thread, except where the
    code sleeps or joins, which the models spell out.

    The random numbers of [std::rand], the hash of strings, the logarithm of the
    C library, [getopt_long], the system calls that make a daemon, the thread
    that takes a signal, the signals a process inherits as ignored and those whose
    default action ends it, the number of cores and the access recorder of the hot
    key manager are parameters: they are not code of the repository, or declared
    there and not written.

    ** Not modelled

    - The classes that are only declared: Raft, the hash ring, the shard, cluster
      and authentication managers, the cache service, the monitor, the abstract
      storage engine, [DefaultAccessRecorder], and the setters of the hot key
      manager that have no body.
    - The delays between turns of the threads, and a signal that interrupts a
      call of the server half way.
    - What [main] prints, and the table of long options that [getopt_long] reads.
    - Logging, the tests, the examples, and the file that CMake generates to
      identify the compiler.  *)

From Stdlib Require Import Ascii String ZArith NArith Lia.
From stdpp Require Import base numbers list strings gmap.

(** ** Outcomes, the state monad and its laws

    A method of the program returns, or an exception leaves it, or neither.

    The exception is the [std::system_error] of a [std::shared_mutex]: when a
    thread locks one that it holds exclusively, which the standard leaves
    undefined, the library of the build (libstdc++ over glibc) finds out and
    throws.  It carries the mutex it is about.  A [std::mutex] blocks instead,
    which is what [RelockOwned] stands for.

    The reasons to do neither that the program can reach are named: locking a
    [std::mutex] the calling thread already owns, using a variable that no read
    initialised, advancing an iterator past the end of its container, using a
    reference to an element that was erased, calling through a null pointer,
    converting a floating-point number to an integer type it does not fit, an
    exception that nothing catches, and joining a thread that waits for a mutex
    the caller holds.  The exception ends the program, the waits never end, and
    the others are undefined behaviour.  [OutOfFuel] is no behaviour of the
    program: it marks a loop that was given too few turns, and every loop is
    proved not to end so with the turns its callers give it. *)
Inductive ub :=
  | RelockOwned
  | Indeterminate
  | PastEnd
  | Dangling
  | NullPointer
  | CastRange
  | Terminated
  | JoinBlocked
  | OutOfFuel.

#[export] Instance ub_eq_dec : EqDecision ub.
Proof. solve_decision. Defined.

(** The mutexes of the program that a method can find locked by its caller, or
    a joined thread by the one that joins. *)
Inductive mutex :=
  | EngineMutex
  | WalMutex
  | SSTableMutex
  | LockManagerMutex
  | TransactionManagerMutex
  | DetectorMutex
  | TimeServiceMutex
  | TimestampMutex
  | HotspotMutex.

#[export] Instance mutex_eq_dec : EqDecision mutex.
Proof. solve_decision. Defined.

(** The others are [std::mutex]es. *)
Definition is_shared_mutex (m : mutex) : bool :=
  match m with WalMutex | SSTableMutex | TimestampMutex => false | _ => true end.

Inductive outcome (S A : Type) :=
  | Returns (a : A) (s : S)
  | Throws (m : mutex) (s : S)
  | Undefined (u : ub).
Arguments Returns {S A} a s.
Arguments Throws {S A} m s.
Arguments Undefined {S A} u.

(** A method of an object whose state is [S]. *)
Definition M (S A : Type) : Type := S → outcome S A.

#[export] Instance M_ret S : MRet (M S) := λ A a s, Returns a s.
#[export] Instance M_bind S : MBind (M S) := λ A B f m s,
  match m s with
  | Returns a s' => f a s'
  | Throws n s' => Throws n s'
  | Undefined u => Undefined u
  end.

Definition read_state {S} : M S S := λ s, Returns s s.
Definition gets {S A} (f : S → A) : M S A := λ s, Returns (f s) s.
Definition modify {S} (f : S → S) : M S unit := λ s, Returns tt (f s).
Definition undefined {S A} (u : ub) : M S A := λ _, Undefined u.

(** Running a method of a member object inside a method of its owner. *)
Definition zoom {S T A} (get : S → T) (set : T → S → S) (m : M T A) : M S A :=
  λ s, match m (get s) with
       | Returns a t => Returns a (set t s)
       | Throws n t => Throws n (set t s)
       | Undefined u => Undefined u
       end.

(** A pure method that yields a value and the next state. *)
Definition lift {S A} (f : S → A * S) : M S A :=
  λ s, let '(a, s') := f s in Returns a s'.

Fixpoint mfor {S A} (f : A → M S unit) (l : list A) : M S unit :=
  match l with
  | [] => mret tt
  | x :: l => _ ← f x; mfor f l
  end.

Section monad_laws.
Context {S : Type}.

Lemma M_bind_ret {A B} (a : A) (f : A → M S B) s :
  (mret a ≫= f) s = f a s.
Proof. done. Qed.

Lemma M_bind_assoc {A B C} (m : M S A) (f : A → M S B) (g : B → M S C) s :
  ((m ≫= f) ≫= g) s = (m ≫= (λ a, f a ≫= g)) s.
Proof. unfold mbind, M_bind. by destruct (m s). Qed.

Lemma M_bind_returns {A B} (m : M S A) (f : A → M S B) s b s'' :
  (m ≫= f) s = Returns b s'' ↔
  ∃ a s', m s = Returns a s' ∧ f a s' = Returns b s''.
Proof.
  unfold mbind, M_bind. destruct (m s) as [a s'|n s'|u].
  2, 3: split; [done|by intros (? & ? & ? & _)].
  split; [eauto|]. intros (a' & t & [= <- <-] & ?). done.
Qed.

Lemma M_bind_throws {A B} (m : M S A) (f : A → M S B) s n s' :
  m s = Throws n s' → (m ≫= f) s = Throws n s'.
Proof. intros E. unfold mbind, M_bind. by rewrite E. Qed.

Lemma M_bind_step {A B} (m : M S A) (f : A → M S B) s a s' :
  m s = Returns a s' → (m ≫= f) s = f a s'.
Proof. intros E. unfold mbind, M_bind. by rewrite E. Qed.

Lemma M_bind_throws_inv {A B} (m : M S A) (f : A → M S B) s n s'' :
  (m ≫= f) s = Throws n s'' →
  m s = Throws n s'' ∨ ∃ a s', m s = Returns a s' ∧ f a s' = Throws n s''.
Proof.
  unfold mbind, M_bind. destruct (m s) as [a s'|k s'|u]; [eauto| |done].
  intros [= <- <-]. by left.
Qed.

Lemma M_bind_undefined {A B} (m : M S A) (f : A → M S B) s u :
  m s = Undefined u → (m ≫= f) s = Undefined u.
Proof. intros E. unfold mbind, M_bind. by rewrite E. Qed.

Lemma M_bind_gets {A B} (g : S → A) (f : A → M S B) s : (gets g ≫= f) s = f (g s) s.
Proof. done. Qed.

Lemma M_bind_modify {B} (g : S → S) (f : unit → M S B) s : (modify g ≫= f) s = f tt (g s).
Proof. done. Qed.
End monad_laws.

(** Steps through a method body whose next statement is known to return. *)
Ltac mstep E := rewrite (M_bind_step _ _ _ _ _ E).
Ltac msimpl := rewrite ?M_bind_gets, ?M_bind_modify, ?M_bind_ret; cbn [fst snd].

(** ** Mutexes

    The state of a component that owns a mutex records whether the calling
    thread holds it.  [guarded m] is the body [m] of a method that opens with
    a lock guard on that mutex: the guard is released when the body returns,
    whichever return statement it takes, and when an exception passes. *)
Class HasMutex (S : Type) := {
  which_mutex : mutex;
  owned : S → bool;
  set_owned : bool → S → S;
  owned_set_owned b s : owned (set_owned b s) = b;
  set_owned_owned s : set_owned (owned s) s = s;
  set_owned_twice b b' s : set_owned b (set_owned b' s) = set_owned b s
}.

Arguments which_mutex S {_}.

(** Locking a mutex that the thread holds. *)
Definition relock {S} `{!HasMutex S} {A} : M S A := λ s,
  if is_shared_mutex (which_mutex S) then Throws (which_mutex S) s else Undefined RelockOwned.

Definition guarded {S} `{!HasMutex S} {A} (m : M S A) : M S A := λ s,
  if owned s then relock s
  else match m (set_owned true s) with
       | Returns a s' => Returns a (set_owned false s')
       | Throws n s' => Throws n (set_owned false s')
       | Undefined u => Undefined u
       end.

(** [try { m } catch (const std::exception&) {}]. *)
Definition catching {S} (m : M S unit) : M S unit := λ s,
  match m s with
  | Throws _ s' => Returns tt s'
  | o => o
  end.

(** A destructor: what an exception would leave ends the program. *)
Definition noexcept {S} (m : M S unit) : M S unit := λ s,
  match m s with
  | Throws _ _ => Undefined Terminated
  | o => o
  end.

(** A background thread is a position in its loop: [AtCheck] between two turns
    (asleep, or not yet started), where the stop flag is read next, and
    [InTurn] after the flag was read as not set. *)
Inductive thread_at := AtCheck | InTurn.

#[export] Instance thread_at_eq_dec : EqDecision thread_at.
Proof. solve_decision. Defined.

(** Waiting, with the mutex held, for another thread to end the turn it is in;
    [m] is the turn without the handler around it.  Where it would lock the
    mutex, it waits for the thread that waits for it.  An exception about a
    mutex of its own ends the turn. *)
Definition joining {S} `{!HasMutex S} (m : M S unit) : M S unit := λ s,
  match m s with
  | Returns _ s' => Returns tt s'
  | Throws n s' => if decide (n = which_mutex S) then Undefined JoinBlocked else Returns tt s'
  | Undefined RelockOwned => Undefined JoinBlocked
  | Undefined u => Undefined u
  end.

Section mutex.
Context {S : Type} `{!HasMutex S}.

Lemma guarded_relock {A} (m : M S A) s : owned s = true → guarded m s = relock s.
Proof. unfold guarded. by intros ->. Qed.

Lemma guarded_returns {A} (m : M S A) s a s' :
  owned s = false → m (set_owned true s) = Returns a s' →
  guarded m s = Returns a (set_owned false s').
Proof. unfold guarded. by intros -> ->. Qed.

Lemma guarded_returns_inv {A} (m : M S A) s a s' :
  guarded m s = Returns a s' →
  owned s = false ∧ owned s' = false ∧
  ∃ t, m (set_owned true s) = Returns a t ∧ s' = set_owned false t.
Proof.
  unfold guarded, relock. destruct (owned s); [by destruct (is_shared_mutex _)|].
  destruct (m _) as [b t| |]; [|done..]. intros [= <- <-].
  rewrite owned_set_owned. eauto.
Qed.

(** An exception either comes from finding the mutex locked, or from the body. *)
Lemma guarded_throws_inv {A} (m : M S A) s n s' :
  guarded m s = Throws n s' →
  (owned s = true ∧ s' = s) ∨
  (owned s = false ∧ ∃ t, m (set_owned true s) = Throws n t ∧ s' = set_owned false t).
Proof.
  unfold guarded, relock. destruct (owned s); [destruct (is_shared_mutex _); [|done]|].
  - intros [= _ <-]. by left.
  - destruct (m _) as [b t|n' t|]; [done| |done]. intros [= <- <-]. right. eauto.
Qed.

Lemma catching_returns_inv (m : M S unit) s a s' :
  catching m s = Returns a s' → m s = Returns tt s' ∨ ∃ n, m s = Throws n s'.
Proof. unfold catching. destruct (m s) as [[] t|n t|]; intros [= <- <-]; eauto. Qed.
End mutex.

(** ** Partial correctness

    [wlp m Q s]: if [m] returns from [s], then in a state and with a value that
    satisfy [Q].  [respects R m]: whatever state [m] returns in, or an exception
    leaves it in, is related by [R] to the one it started in. *)
Definition wlp {S A} (m : M S A) (Q : A → S → Prop) (s : S) : Prop :=
  match m s with Returns a s' => Q a s' | _ => True end.

Definition throws_in {S A} (m : M S A) (E : S → Prop) (s : S) : Prop :=
  match m s with Throws _ s' => E s' | _ => True end.

Definition respects {S} (R : relation S) {A} (m : M S A) : Prop :=
  ∀ s, wlp m (λ _, R s) s ∧ throws_in m (R s) s.

(** Whichever way a method is left. *)
Definition leaves {S A} (m : M S A) (s s' : S) : Prop :=
  (∃ a, m s = Returns a s') ∨ (∃ n, m s = Throws n s').

Lemma leaves_ignore {S A} (m : M S A) s s' : leaves (_ ← m; mret tt) s s' → leaves m s s'.
Proof.
  unfold leaves. intros [(r & H)|(n & H)].
  - apply M_bind_returns in H as (a & t & H & [= _ <-]). eauto.
  - apply M_bind_throws_inv in H as [H|(a & t & _ & ?)]; [eauto|done].
Qed.

Section wlp.
Context {S : Type}.

Lemma wlp_returns {A} (m : M S A) Q s a s' : wlp m Q s → m s = Returns a s' → Q a s'.
Proof. unfold wlp. by intros H E; rewrite E in H. Qed.

Lemma wlp_intro {A} (m : M S A) (Q : A → S → Prop) s :
  (∀ a s', m s = Returns a s' → Q a s') → wlp m Q s.
Proof. unfold wlp. destruct (m s); auto. Qed.

Lemma wlp_mono {A} (m : M S A) (Q Q' : A → S → Prop) s :
  wlp m Q s → (∀ a s', Q a s' → Q' a s') → wlp m Q' s.
Proof. unfold wlp. destruct (m s); auto. Qed.

Lemma wlp_bind {A B} (m : M S A) (f : A → M S B) Q s :
  wlp m (λ a, wlp (f a) Q) s → wlp (m ≫= f) Q s.
Proof. unfold wlp, mbind, M_bind. by destruct (m s). Qed.

Lemma wlp_mfor {A} (f : A → M S unit) l (I : S → Prop) s :
  (∀ x s, x ∈ l → I s → wlp (f x) (λ _, I) s) → I s → wlp (mfor f l) (λ _, I) s.
Proof.
  revert s. induction l as [|x l IH]; intros s Hf Hs; [done|]. cbn [mfor].
  apply wlp_bind. eapply wlp_mono; [apply Hf; [by left|done]|].
  intros [] s' Hs'. apply IH; [|done]. intros y t Hy. apply Hf. by right.
Qed.

Lemma wlp_guarded `{!HasMutex S} {A} (m : M S A) Q s :
  (owned s = false → wlp m (λ a s', Q a (set_owned false s')) (set_owned true s)) →
  wlp (guarded m) Q s.
Proof.
  unfold wlp, guarded, relock. destruct (owned s); [by destruct (is_shared_mutex _)|].
  intros H. specialize (H eq_refl). by destruct (m _).
Qed.

Lemma throws_bind {A B} (m : M S A) (f : A → M S B) E s :
  throws_in m E s → wlp m (λ a, throws_in (f a) E) s → throws_in (m ≫= f) E s.
Proof. unfold throws_in, wlp, mbind, M_bind. by destruct (m s). Qed.

Lemma throws_guarded `{!HasMutex S} {A} (m : M S A) (E : S → Prop) s :
  (owned s = true → E s) →
  (owned s = false → throws_in m (λ s', E (set_owned false s')) (set_owned true s)) →
  throws_in (guarded m) E s.
Proof.
  unfold throws_in, guarded, relock. destruct (owned s); intros H1 H2.
  - destruct (is_shared_mutex _); auto.
  - specialize (H2 eq_refl). by destruct (m _).
Qed.

Context (R : relation S) `{!PreOrder R}.

Lemma respects_wlp {A} (m : M S A) s : respects R m → wlp m (λ _, R s) s.
Proof. intros H. apply H. Qed.

Lemma respects_throws {A} (m : M S A) s : respects R m → throws_in m (R s) s.
Proof. intros H. apply H. Qed.

Lemma respects_returns {A} (m : M S A) s a s' : respects R m → m s = Returns a s' → R s s'.
Proof. intros H. by apply (wlp_returns _ (λ _, R s)), H. Qed.

Lemma respects_leaves {A} (m : M S A) s s' : respects R m → leaves m s s' → R s s'.
Proof.
  intros Hm. destruct (Hm s) as [H1 H2]. unfold wlp, throws_in in *.
  by intros [(a & E)|(n & E)]; rewrite E in *.
Qed.

Lemma respects_mono {A} (R' : relation S) (m : M S A) :
  (∀ s s', R s s' → R' s s') → respects R m → respects R' m.
Proof.
  intros HR Hm s. destruct (Hm s) as [H1 H2]. unfold wlp, throws_in in *.
  destruct (m s); split; auto.
Qed.

(** A method that no exception leaves. *)
Lemma respects_step {A} (m : M S A) :
  (∀ s, ∃ a s', m s = Returns a s' ∧ R s s') → respects R m.
Proof. intros H s. destruct (H s) as (a & s' & E & HR). unfold wlp, throws_in. by rewrite E. Qed.

Lemma respects_ret {A} (a : A) : respects R (mret a).
Proof. intros s. by unfold wlp, throws_in, mret, M_ret. Qed.

Lemma respects_gets {A} (g : S → A) : respects R (gets g).
Proof. intros s. by unfold wlp, throws_in, gets. Qed.

Lemma respects_undefined {A} u : respects R (undefined (A := A) u).
Proof. done. Qed.

Lemma respects_bind {A B} (m : M S A) (f : A → M S B) :
  respects R m → (∀ a, respects R (f a)) → respects R (m ≫= f).
Proof.
  intros Hm Hf s. split.
  - apply wlp_bind. eapply wlp_mono; [apply Hm|]. cbn. intros a s' Hs'.
    eapply wlp_mono; [apply Hf|]. cbn. intros b s'' Hs''. by trans s'.
  - apply throws_bind; [apply Hm|]. eapply wlp_mono; [apply Hm|]. cbn. intros a s' Hs'.
    pose proof (respects_throws (f a) s' (Hf a)) as Ht. unfold throws_in in *.
    destruct (f a s'); [done| |done]. by trans s'.
Qed.

(** From one state, where a step depends on it. *)
Definition respects_from {A} (m : M S A) (s : S) : Prop := wlp m (λ _, R s) s ∧ throws_in m (R s) s.

Lemma respects_gets_then {A B} (g : S → A) (f : A → M S B) :
  (∀ s, respects_from (f (g s)) s) → respects R (gets g ≫= f).
Proof. intros H s. apply (H s). Qed.

Lemma respects_modify_then {B} (g : S → S) (f : unit → M S B) s :
  R s (g s) → respects R (f tt) → respects_from (modify g ≫= f) s.
Proof.
  intros Hg Hf. destruct (Hf (g s)) as [H1 H2]. unfold respects_from, wlp, throws_in in *.
  rewrite M_bind_modify. destruct (f tt (g s)); split; try done; by trans (g s).
Qed.

(** Two steps with relations of their own. *)
Lemma wlp_bind_via {A B} (R1 R2 : relation S) (m : M S A) (f : A → M S B) s :
  (∀ s, wlp m (λ _, R1 s) s) → (∀ a s, wlp (f a) (λ _, R2 s) s) →
  wlp (m ≫= f) (λ _ s'', ∃ s', R1 s s' ∧ R2 s' s'') s.
Proof.
  intros Hm Hf. apply wlp_bind. eapply wlp_mono; [apply Hm|]. cbn. intros a s' H1.
  eapply wlp_mono; [apply Hf|]. cbn. eauto.
Qed.

Lemma respects_mfor {A} (f : A → M S unit) l :
  (∀ x, respects R (f x)) → respects R (mfor f l).
Proof.
  intros Hf. induction l as [|x l IH]; [apply respects_ret|].
  cbn [mfor]. by apply respects_bind.
Qed.

Lemma respects_guarded `{!HasMutex S} {A} (m : M S A) :
  (∀ b s, R s (set_owned b s)) → respects R m → respects R (guarded m).
Proof.
  intros Hb Hm s. split.
  - apply wlp_guarded. intros _. eapply wlp_mono; [apply Hm|]. cbn.
    intros a s' Hs'. by rewrite (Hb true s), Hs', <- (Hb false s').
  - apply throws_guarded; [done|]. intros _.
    pose proof (respects_throws m (set_owned true s) Hm) as Ht. unfold throws_in in *.
    destruct (m _) as [|n s'|]; [done| |done]. by rewrite (Hb true s), Ht, <- (Hb false s').
Qed.

(** While the mutex is held.  Locking it again changes nothing. *)
Definition held `{!HasMutex S} : relation S := λ s s', owned s = true → owned s' = true ∧ R s s'.

#[export] Instance held_preorder `{!HasMutex S} : PreOrder held.
Proof using All.
  split; [by intros s|]. intros s t u H1 H2 Hs. destruct (H1 Hs) as [Ht ?].
  destruct (H2 Ht). split; [done|by trans t].
Qed.

Lemma respects_held_guarded `{!HasMutex S} {A} (m : M S A) : respects held (guarded m).
Proof using All.
  intros s. unfold wlp, throws_in. destruct (owned s) eqn:Hs.
  - rewrite guarded_relock by done. unfold relock. by destruct (is_shared_mutex _).
  - unfold held. rewrite Hs. by destruct (guarded m s).
Qed.

Lemma respects_guarded_held `{!HasMutex S} {A} (m : M S A) :
  (∀ b s, R s (set_owned b s)) → respects held m → respects R (guarded m).
Proof using All.
  intros Hb Hm s. destruct (Hm (set_owned true s)) as [H1 H2].
  assert (∀ s', held (set_owned true s) s' → R s (set_owned false s')) as Hs.
  { intros s' [_ H]; [apply owned_set_owned|]. by rewrite (Hb true s), H, <- (Hb false s'). }
  unfold wlp, throws_in, guarded, relock in *. destruct (owned s); [by destruct (is_shared_mutex _)|].
  destruct (m _); auto.
Qed.

Lemma respects_catching (m : M S unit) : respects R m → respects R (catching m).
Proof.
  intros Hm s. destruct (Hm s) as [H1 H2]. unfold wlp, throws_in, catching in *.
  by destruct (m s).
Qed.

Lemma respects_noexcept (m : M S unit) : respects R m → respects R (noexcept m).
Proof.
  intros Hm s. destruct (Hm s) as [H1 H2]. unfold wlp, throws_in, noexcept in *.
  by destruct (m s).
Qed.

Lemma joining_no_throw `{!HasMutex S} (m : M S unit) E s : throws_in (joining m) E s.
Proof.
  unfold throws_in, joining. destruct (m s) as [|n t|[]]; try done. by destruct (decide _).
Qed.

Lemma respects_joining `{!HasMutex S} (m : M S unit) : respects R m → respects R (joining m).
Proof.
  intros Hm s. destruct (Hm s) as [H1 H2]. unfold wlp, throws_in, joining in *.
  destruct (m s) as [|n s'|[]]; try done. by destruct (decide _).
Qed.
End wlp.

Create HintDb respects.
#[export] Hint Extern 1 (PreOrder _) => apply _ : respects.

(** Goes through a method body; the primitives of a component are in the
    database [respects]. *)
Ltac respects_tac :=
  lazymatch goal with
  | |- ∀ _, _ => intros; respects_tac
  | |- respects _ (mbind _ _) => apply respects_bind; [apply _|respects_tac|respects_tac]
  | |- respects _ (mret _) => apply respects_ret; apply _
  | |- respects _ (gets _) => apply respects_gets; apply _
  | |- respects _ (undefined _) => apply respects_undefined
  | |- respects _ (mfor _ _) => apply respects_mfor; [apply _|respects_tac]
  | |- respects (held _) (guarded _) => apply respects_held_guarded; apply _
  | |- respects _ (guarded _) => apply respects_guarded; [apply _|respects_tac|respects_tac]
  | |- respects _ (catching _) => apply respects_catching; respects_tac
  | |- respects _ (noexcept _) => apply respects_noexcept; respects_tac
  | |- respects _ (joining _) => apply respects_joining; respects_tac
  | |- respects _ (match ?x with _ => _ end) => destruct x; respects_tac
  | |- _ => eauto with respects
  end.

(** ** Machine integers

    Unsigned integers of the program are values of [N], wrapped where the
    code computes; signed ones (the counts of [std::chrono] durations) are
    values of [Z]. *)
Definition wrap32 (n : N) : N := (n `mod` 2 ^ 32)%N.
Definition wrap64 (n : N) : N := (n `mod` 2 ^ 64)%N.

(** [x += y] and [x -= y] on a 64-bit unsigned variable. *)
Definition add64 (x y : N) : N := wrap64 (x + y).
Definition sub64 (x y : N) : N := wrap64 (x + 2 ^ 64 - wrap64 y).

(** The conversions between [int64_t] and [uint64_t]. *)
Definition u64_of_i64 (z : Z) : N := Z.to_N (z `mod` 2 ^ 64).
Definition i64_of_u64 (n : N) : Z :=
  if (n <? 2 ^ 63)%N then Z.of_N n else (Z.of_N n - 2 ^ 64)%Z.

Definition is_i64 (z : Z) : Prop := (- 2 ^ 63 ≤ z < 2 ^ 63)%Z.

Lemma wrap32_small n : (n < 2 ^ 32)%N → wrap32 n = n.
Proof. apply N.mod_small. Qed.

Lemma wrap64_small n : (n < 2 ^ 64)%N → wrap64 n = n.
Proof. apply N.mod_small. Qed.

Lemma wrap64_lt n : (wrap64 n < 2 ^ 64)%N.
Proof. by apply N.mod_lt. Qed.

Lemma add64_small x y : (x + y < 2 ^ 64)%N → add64 x y = (x + y)%N.
Proof. apply wrap64_small. Qed.

(** Subtracting what an addition put in is exact, whatever wrapped before. *)
Lemma sub64_add64 x y z :
  (x + y < z + 2 ^ 64)%N → (z ≤ x + y)%N → (z < 2 ^ 64)%N →
  sub64 (add64 x y) z = (x + y - z)%N.
Proof.
  unfold sub64, add64, wrap64. intros ???.
  rewrite (N.mod_small z) by done.
  assert (0 < 2 ^ 64)%N by done.
  destruct (N.lt_ge_cases (x + y) (2 ^ 64)).
  - rewrite (N.mod_small (x + y)) by done.
    replace (x + y + 2 ^ 64 - z)%N with (x + y - z + 1 * 2 ^ 64)%N by lia.
    rewrite N.Div0.mod_add. apply N.mod_small. lia.
  - replace (x + y)%N with (x + y - 2 ^ 64 + 1 * 2 ^ 64)%N at 1 by lia.
    rewrite N.Div0.mod_add, (N.mod_small (x + y - 2 ^ 64)) by lia.
    rewrite N.mod_small by lia. lia.
Qed.

Lemma i64_of_u64_of_i64 z : is_i64 z → i64_of_u64 (u64_of_i64 z) = z.
Proof.
  unfold is_i64, i64_of_u64, u64_of_i64. intros ?.
  destruct (Z.lt_ge_cases z 0).
  - replace (z `mod` 2 ^ 64)%Z with (z + 2 ^ 64)%Z.
    2: { symmetry. rewrite <- (Z.mod_add z 1) by lia. apply Z.mod_small. lia. }
    destruct (N.ltb_spec (Z.to_N (z + 2 ^ 64)) (2 ^ 63)); lia.
  - rewrite Z.mod_small by lia.
    destruct (N.ltb_spec (Z.to_N z) (2 ^ 63)); lia.
Qed.

Lemma u64_of_i64_lt z : (u64_of_i64 z < 2 ^ 64)%N.
Proof.
  unfold u64_of_i64. pose proof (Z.mod_pos_bound z (2 ^ 64)) as H. lia.
Qed.

(** ** Lists *)

Lemma filter_all {A} (P : A → Prop) `{!∀ x, Decision (P x)} (l : list A) :
  (∀ y, y ∈ l → P y) → filter P l = l.
Proof.
  induction l as [|x l IH]; intros Hall; [done|].
  rewrite filter_cons_True by (apply Hall; by left). f_equal. apply IH.
  intros y ?. apply Hall. by right.
Qed.
