(* ===== verification/Bytes.v ===== *)
(** * Bytes: raw buffers, [std::string] and little-endian integers

    A raw buffer (the contents of a file, a serialized record) is a
    [list ascii]; a [std::string] used as data is a [string], and the bytes a
    [std::string] contributes to a buffer are [bytes_of] it.  Fixed-width
    integers are written through [reinterpret_cast<const char*>(&x)], so they
    appear least significant byte first (the build is for x86-64). *)

From Stdlib Require Import Ascii String NArith Lia.
From stdpp Require Import base numbers list strings.
From S2P Require Import Prelude.

Abbreviation bytes := (list ascii).

Definition bytes_of (s : string) : bytes := list_ascii_of_string s.
Definition string_of (b : bytes) : string := string_of_list_ascii b.

Definition NUL : ascii := Ascii.zero.
Definition COLON : ascii := ":"%char.

(** [x] in [n] bytes, least significant byte first, and back. *)
Fixpoint le_encode (n : nat) (x : N) : bytes :=
  match n with
  | 0 => []
  | S n => ascii_of_N (x `mod` 256) :: le_encode n (x / 256)
  end.

Fixpoint le_decode (b : bytes) : N :=
  match b with
  | [] => 0
  | c :: b => (N_of_ascii c + 256 * le_decode b)%N
  end.

(** [data.find(c, pos)] on the bytes from [pos] on: the position of the first
    [c], or [None] for [npos]. *)
Fixpoint find_byte (c : ascii) (b : bytes) : option nat :=
  match b with
  | [] => None
  | d :: b => if decide (d = c) then Some 0 else S <$> find_byte c b
  end.

(** ** Lemmas *)

Lemma string_of_bytes_of s : string_of (bytes_of s) = s.
Proof. apply string_of_list_ascii_of_string. Qed.

Lemma bytes_of_string_of b : bytes_of (string_of b) = b.
Proof. apply list_ascii_of_string_of_list_ascii. Qed.

#[export] Instance bytes_of_inj : Inj (=) (=) bytes_of.
Proof. intros x y E. by rewrite <- (string_of_bytes_of x), E, string_of_bytes_of. Qed.

#[export] Instance string_of_inj : Inj (=) (=) string_of.
Proof. intros x y E. by rewrite <- (bytes_of_string_of x), E, bytes_of_string_of. Qed.

Lemma bytes_of_app s t : bytes_of (s +:+ t) = bytes_of s ++ bytes_of t.
Proof.
  induction s as [|c s IH]; [done|].
  change (c :: bytes_of (s +:+ t) = c :: bytes_of s ++ bytes_of t). by rewrite IH.
Qed.

Lemma length_bytes_of s : length (bytes_of s) = String.length s.
Proof. unfold bytes_of. induction s; cbn; auto. Qed.

Lemma ascii_N_lt (c : ascii) : (N_of_ascii c < 256)%N.
Proof. by destruct c as [[] [] [] [] [] [] [] []]. Qed.

Lemma length_le_encode n x : length (le_encode n x) = n.
Proof. revert x. induction n; intros x; cbn; auto. Qed.

Lemma le_decode_lt b : (le_decode b < 256 ^ N.of_nat (length b))%N.
Proof.
  induction b as [|c b IH]; [done|]. cbn [le_decode length].
  rewrite Nat2N.inj_succ, N.pow_succ_r'. pose proof (ascii_N_lt c). lia.
Qed.

Lemma le_decode_encode n x :
  le_decode (le_encode n x) = (x `mod` 256 ^ N.of_nat n)%N.
Proof.
  revert x. induction n as [|n IH]; intros x.
  - cbn. by rewrite N.mod_1_r.
  - cbn [le_encode le_decode]. rewrite IH, N_ascii_embedding by (by apply N.mod_lt).
    rewrite Nat2N.inj_succ, N.pow_succ_r', N.Div0.mod_mul_r. done.
Qed.

Lemma le_decode_encode_small n x :
  (x < 256 ^ N.of_nat n)%N → le_decode (le_encode n x) = x.
Proof. intros ?. rewrite le_decode_encode. by apply N.mod_small. Qed.

Lemma le_decode_encode4 x : le_decode (le_encode 4 x) = wrap32 x.
Proof. apply le_decode_encode. Qed.

Lemma le_decode_encode8 x : le_decode (le_encode 8 x) = wrap64 x.
Proof. apply le_decode_encode. Qed.

Lemma le_encode_decode b : le_encode (length b) (le_decode b) = b.
Proof.
  induction b as [|c b IH]; [done|]. cbn [length le_encode le_decode].
  pose proof (ascii_N_lt c) as Hc.
  rewrite (N.mul_comm 256), N.Div0.mod_add, N.mod_small by done.
  rewrite N.div_add, N.div_small, N.add_0_l by done.
  by rewrite ascii_N_embedding, IH.
Qed.

Lemma find_byte_app c b rest :
  c ∉ b → find_byte c (b ++ c :: rest) = Some (length b).
Proof.
  induction b as [|d b IH]; intros Hc; cbn.
  - by rewrite decide_True.
  - apply not_elem_of_cons in Hc as [??].
    rewrite decide_False by done. by rewrite IH.
Qed.

Lemma find_byte_None c b : c ∉ b → find_byte c b = None.
Proof.
  induction b as [|d b IH]; intros Hc; cbn; [done|].
  apply not_elem_of_cons in Hc as [??].
  rewrite decide_False by done. by rewrite IH.
Qed.

Lemma find_byte_Some c b i :
  find_byte c b = Some i →
  ∃ rest, b = take i b ++ (c :: rest) ∧ (c ∉ take i b) ∧ length (take i b) = i.
Proof.
  revert i. induction b as [|d b IH]; intros i; cbn; [done|].
  case_decide as Hd.
  - intros [= <-]. subst. exists b. split_and!; [done|apply not_elem_of_nil|done].
  - intros (j & Hj & ->)%fmap_Some.
    destruct (IH _ Hj) as (rest & Hb & Hn & Hl).
    exists rest. cbn. rewrite <- Hb, Hl. split_and!; [done| |done].
    apply not_elem_of_cons. auto.
Qed.

Create Rewrite HintDb bytes.
#[export] Hint Rewrite @length_app length_le_encode length_bytes_of
  string_of_bytes_of bytes_of_string_of : bytes.

(** ** The last occurrence of a character *)

(** [str.find_last_of(c)]: what is before and what is behind. *)
Fixpoint split_last (c : ascii) (s : bytes) : option (bytes * bytes) :=
  match s with
  | [] => None
  | x :: s =>
      match split_last c s with
      | Some (a, b) => Some (x :: a, b)
      | None => if decide (x = c) then Some ([], s) else None
      end
  end.

Lemma split_last_app c a b : c ∉ b → split_last c (a ++ c :: b) = Some (a, b).
Proof.
  intros Hb. assert (split_last c b = None) as Hn.
  { induction b as [|x b IH]; [done|]. apply not_elem_of_cons in Hb as [Hx Hb].
    cbn [split_last]. by rewrite IH, decide_False. }
  induction a as [|x a IH]; cbn [app split_last].
  - by rewrite Hn, decide_True.
  - by rewrite IH.
Qed.
