(* ===== verification/Numerals.v ===== *)
(** * Numerals: decimal numbers as the standard library reads and writes them

    [std::stoull], [std::stoi], [operator>>] for an [int], and the padding of
    [std::setw] with zeros.  [pretty] writes a number without padding. *)

From Stdlib Require Import Ascii String ZArith NArith Lia.
From stdpp Require Import base numbers list strings pretty.
From S2P Require Import Prelude Bytes.

Definition is_space (c : ascii) : bool :=
  let n := N_of_ascii c in bool_decide (n = 32)%N || ((9 <=? n) && (n <=? 13))%N.

Fixpoint skip_spaces (s : bytes) : bytes :=
  match s with
  | c :: s' => if is_space c then skip_spaces s' else s
  | [] => []
  end.

Fixpoint digits (s : bytes) (acc : option N) : option N :=
  match s with
  | c :: s =>
      let n := N_of_ascii c in
      if ((48 <=? n) && (n <=? 57))%N
      then digits s (Some (10 * default 0 acc + (n - 48)))%N
      else acc
  | [] => acc
  end.

(** The sign and what follows it. *)
Definition take_sign (s : bytes) : bool * bytes :=
  match s with
  | "-"%char :: s => (true, s)
  | "+"%char :: s => (false, s)
  | _ => (false, s)
  end.

(** [std::stoull(s)]: white space, a sign, decimal digits, the rest ignored.
    [None] is the exception it throws when there is no digit or the number does
    not fit. *)
Definition stoull (s : string) : option N :=
  let '(negative, s) := take_sign (skip_spaces (bytes_of s)) in
  n ← digits s None;
  if (2 ^ 64 <=? n)%N then None
  else Some (if negative : bool then sub64 0 n else n).

(** [std::stoi]: [None] is the exception it throws. *)
Definition stoi (s : string) : option Z :=
  let '(negative, s) := take_sign (skip_spaces (bytes_of s)) in
  n ← digits s None;
  let z := if negative : bool then (- Z.of_N n)%Z else Z.of_N n in
  if ((- 2 ^ 31 <=? z) && (z <? 2 ^ 31))%Z then Some z else None.

(** [stream >> n] for an [int]: the value it leaves in [n] when there is a
    character to read.  It is zero when that is not the start of a number, and
    the nearest [int] when the number is too large.  [None]: there is no
    character, and [n] keeps what it was. *)
Definition read_int (s : bytes) : option Z :=
  match skip_spaces s with
  | [] => None
  | s =>
      let '(negative, s) := take_sign s in
      Some (match digits s None with
            | None => 0
            | Some n =>
                let z := if negative : bool then (- Z.of_N n)%Z else Z.of_N n in
                Z.max (- 2 ^ 31) (Z.min z (2 ^ 31 - 1))
            end)%Z
  end.

(** [setfill('0') << setw(3)]. *)
Definition pad3 (s : string) : string :=
  string_of (replicate (3 - String.length s) "0"%char ++ bytes_of s).

(** ** Reading back what was written *)

Definition is_digit (c : ascii) : bool :=
  let n := N_of_ascii c in ((48 <=? n) && (n <=? 57))%N.

Lemma pretty_N_char_code n : (n < 10)%N → N_of_ascii (pretty_N_char n) = (48 + n)%N.
Proof.
  intros H. destruct n as [|p]; [done|].
  do 4 (destruct p as [p|p|]; try done; try lia).
Qed.

Lemma pretty_N_char_digit n : (n < 10)%N → is_digit (pretty_N_char n) = true.
Proof.
  intros H. unfold is_digit. rewrite pretty_N_char_code by done.
  apply andb_true_iff. split; apply N.leb_le; lia.
Qed.

Lemma pretty_N_go_digits n s :
  Forall (λ c, is_digit c = true) (bytes_of s) →
  Forall (λ c, is_digit c = true) (bytes_of (pretty_N_go n s)).
Proof.
  revert s. induction (N.lt_wf_0 n) as [n _ IH]. intros s Hs.
  destruct (decide (0 < n)%N) as [Hn|Hn].
  - rewrite pretty_N_go_step by done. apply IH; [by apply N.div_lt|].
    constructor; [|done]. apply pretty_N_char_digit. by apply N.mod_lt.
  - assert (n = 0%N) as -> by lia. by rewrite pretty_N_go_0.
Qed.

Lemma pretty_digits (n : N) : Forall (λ c, is_digit c = true) (bytes_of (pretty n)).
Proof.
  unfold pretty, pretty_N. case_decide; [by repeat constructor|].
  apply pretty_N_go_digits. constructor.
Qed.

Lemma digits_cons c s acc :
  is_digit c = true → digits (c :: s) acc = digits s (Some (10 * default 0 acc + (N_of_ascii c - 48)))%N.
Proof. unfold is_digit. cbn [digits]. by intros ->. Qed.

Lemma digits_pretty_go n s :
  (0 < n)%N → digits (bytes_of (pretty_N_go n s)) None = digits (bytes_of s) (Some n).
Proof.
  revert s. induction (N.lt_wf_0 n) as [n _ IH]. intros s Hn.
  rewrite pretty_N_go_step by done. set (c := pretty_N_char _).
  assert (∀ acc, digits (bytes_of (String c s)) acc =
    digits (bytes_of s) (Some (10 * default 0 acc + n `mod` 10)%N)) as Hc.
  { intros acc. change (bytes_of (String c s)) with (c :: bytes_of s).
    pose proof (N.mod_lt n 10 ltac:(lia)) as Hm. unfold c.
    rewrite digits_cons, pretty_N_char_code by (by apply pretty_N_char_digit || done).
    by rewrite (N.add_comm 48), N.add_sub. }
  destruct (decide (0 < n `div` 10)%N) as [Hd|Hd].
  - rewrite (IH (n `div` 10)%N); [|by apply N.div_lt|done]. rewrite Hc. cbn [from_option id].
    by rewrite <- N.div_mod by done.
  - assert (n `div` 10 = 0)%N as E by (by apply N.le_0_r, N.nlt_ge). rewrite E, pretty_N_go_0, Hc. cbn [from_option id].
    apply N.div_small_iff in E; [|done]. by rewrite N.mul_0_r, N.mod_small.
Qed.

Lemma digits_pretty (n : N) : digits (bytes_of (pretty n)) None = Some n.
Proof.
  unfold pretty, pretty_N. case_decide; [by subst|]. rewrite digits_pretty_go by lia. done.
Qed.

(** Digits are neither spaces nor signs. *)
Lemma digit_start c s :
  is_digit c = true → skip_spaces (c :: s) = c :: s ∧ take_sign (c :: s) = (false, c :: s).
Proof.
  destruct c as [[] [] [] [] [] [] [] []]; vm_compute; try discriminate; by intros _.
Qed.

Lemma stoull_pretty (n : N) : (n < 2 ^ 64)%N → stoull (pretty n) = Some n.
Proof.
  intros H. unfold stoull. pose proof (pretty_digits n) as Hd. pose proof (digits_pretty n) as E.
  destruct (bytes_of (pretty n)) as [|c s]; [done|].
  apply Forall_cons in Hd as [Hc _]. destruct (digit_start c s Hc) as [-> ->].
  rewrite E. cbn. by rewrite (proj2 (N.leb_gt _ _)).
Qed.

(** A number of milliseconds padded to three places is read back, unless it is
    a negative one of a single digit, whose sign the padding displaces. *)
Lemma read_int_pad3 ms :
  (-1000 < ms < 1000)%Z →
  read_int (bytes_of (pad3 (pretty ms))) =
    Some (if ((-10 <? ms) && (ms <? 0))%Z then 0%Z else ms).
Proof.
  intros H.
  assert (forallb (λ n, let ms := (Z.of_nat n - 999)%Z in
    bool_decide (read_int (bytes_of (pad3 (pretty ms))) =
      Some (if ((-10 <? ms) && (ms <? 0))%Z then 0%Z else ms))) (seq 0 1999) = true) as Hall
    by (vm_compute; reflexivity).
  rewrite List.forallb_forall in Hall. specialize (Hall (Z.to_nat (ms + 999))).
  cbv zeta in Hall. replace (Z.of_nat (Z.to_nat (ms + 999)) - 999)%Z with ms in Hall by lia.
  apply bool_decide_eq_true in Hall; [done|]. apply in_seq. lia.
Qed.
