(* ===== verification/Calendar.v ===== *)
(** * Calendar: broken-down time

    [struct tm], [gmtime] and [mktime] of the C library, the Gregorian calendar
    they count by, and [std::put_time] and [std::get_time] for the conversions
    the program uses: the year in four digits, the other fields in two. *)

From Stdlib Require Import Ascii String ZArith NArith Lia.
From stdpp Require Import base numbers list strings pretty.
From S2P Require Import Prelude Bytes Numerals.

Local Open Scope Z_scope.

(** ** The calendar *)

(** [struct tm], with the year and the month counted as people do. *)
Record tm := MkTm {
  tm_year : Z;
  tm_mon : Z;
  tm_mday : Z;
  tm_hour : Z;
  tm_min : Z;
  tm_sec : Z
}.

#[export] Instance tm_eq_dec : EqDecision tm.
Proof. solve_decision. Defined.

(** Days since 1970-01-01.  Years begin in March, so that the leap day is the
    last one; an era is 400 years. *)
Definition month_start (m : Z) : Z := (153 * ((m + 9) mod 12) + 2) / 5.
Definition year_start (yoe : Z) : Z := 365 * yoe + yoe / 4 - yoe / 100.

Definition year_days (y : Z) : Z := y / 400 * 146097 + year_start (y mod 400).

Definition days_of_civil (y m d : Z) : Z :=
  year_days (if m <=? 2 then y - 1 else y) + (month_start m + d - 1) - 719468.

Definition civil_of_days (days : Z) : Z * Z * Z :=
  let z := days + 719468 in
  let era := z / 146097 in
  let doe := z mod 146097 in
  let yoe := (doe - doe / 1460 + doe / 36524 - doe / 146096) / 365 in
  let doy := doe - year_start yoe in
  let mp := (5 * doy + 2) / 153 in
  let d := doy - (153 * mp + 2) / 5 + 1 in
  let m := if mp <? 10 then mp + 3 else mp - 9 in
  let y := yoe + era * 400 in
  (if m <=? 2 then y + 1 else y, m, d).

Definition leap (y : Z) : bool := (y mod 4 =? 0) && (negb (y mod 100 =? 0) || (y mod 400 =? 0)).

Definition month_length (y m : Z) : Z :=
  if m =? 2 then if leap y then 29 else 28
  else if (m =? 4) || (m =? 6) || (m =? 9) || (m =? 11) then 30 else 31.

Definition next_day (y m d : Z) : Z * Z * Z :=
  if d <? month_length y m then (y, m, d + 1)
  else if m <? 12 then (y, m + 1, 1)
  else (y + 1, 1, 1).

(** The count is the Gregorian one: it starts on 1970-01-01, and a day later it
    is one more. *)
Lemma days_of_civil_epoch : days_of_civil 1970 1 1 = 0.
Proof. reflexivity. Qed.

Lemma year_days_succ y : year_days y = year_days (y - 1) + (if leap y then 366 else 365).
Proof.
  unfold year_days, year_start, leap.
  destruct (Z.eqb_spec (y mod 4) 0), (Z.eqb_spec (y mod 100) 0), (Z.eqb_spec (y mod 400) 0);
    cbn [andb orb negb]; Z.to_euclidean_division_equations; lia.
Qed.

Ltac month_cases Hm := match type of Hm with 1 <= ?m <= 12 =>
  let H := fresh in
  assert (m = 1 ∨ m = 2 ∨ m = 3 ∨ m = 4 ∨ m = 5 ∨ m = 6 ∨ m = 7 ∨ m = 8 ∨ m = 9 ∨ m = 10 ∨
    m = 11 ∨ m = 12) as H by lia;
  destruct H as [->|[->|[->|[->|[->|[->|[->|[->|[->|[->|[->| ->]]]]]]]]]]]
  end.

(** Decides the tests that hold no variable. *)
Ltac closed_tests := repeat match goal with
  | |- context [if ?b then _ else _] =>
      let v := eval vm_compute in b in
      match v with true => change b with true | false => change b with false end; cbn iota
  end.

Lemma days_of_civil_next y m d :
  1 <= m <= 12 → 1 <= d <= month_length y m →
  let '(y', m', d') := next_day y m d in days_of_civil y' m' d' = days_of_civil y m d + 1.
Proof.
  intros Hm Hd. unfold next_day. destruct (Z.ltb_spec d (month_length y m)) as [Hlt|Hge].
  { unfold days_of_civil. lia. }
  assert (d = month_length y m) as -> by lia. clear Hd Hge.
  unfold days_of_civil, month_length. pose proof (year_days_succ y) as Hy.
  month_cases Hm; closed_tests; unfold month_start; rewrite ?Z.add_simpl_r;
    try destruct (leap y); Z.to_euclidean_division_equations; lia.
Qed.

Lemma yoe_bounds doe :
  0 <= doe < 146097 →
  let yoe := (doe - doe / 1460 + doe / 36524 - doe / 146096) / 365 in
  0 <= yoe < 400 ∧ year_start yoe <= doe <= year_start yoe + 365.
Proof. intros H yoe. subst yoe. unfold year_start. Z.to_euclidean_division_equations. lia. Qed.

(** A day of a year that begins in March: its month, and its day in it. *)
Lemma month_bounds doy :
  0 <= doy <= 365 →
  let mp := (5 * doy + 2) / 153 in
  let m := if mp <? 10 then mp + 3 else mp - 9 in
  1 <= m <= 12 ∧ month_start m = (153 * mp + 2) / 5 ∧ 1 <= doy - (153 * mp + 2) / 5 + 1 <= 31.
Proof.
  intros H mp m. unfold m, mp, month_start.
  destruct (Z.ltb_spec ((5 * doy + 2) / 153) 10); Z.to_euclidean_division_equations; lia.
Qed.

(** The two conversions of dates are inverse. *)
Lemma civil_of_days_inverse days :
  let '(y, m, d) := civil_of_days days in
  days_of_civil y m d = days ∧ 1 <= m <= 12 ∧ 1 <= d <= 31.
Proof.
  unfold civil_of_days. set (z := days + 719468).
  pose proof (Z.mod_pos_bound z 146097 eq_refl) as Hdoe.
  destruct (yoe_bounds _ Hdoe) as [Hyoe Hdoy]. set (doe := z mod 146097) in *.
  set (yoe := (doe - doe / 1460 + doe / 36524 - doe / 146096) / 365) in *.
  destruct (month_bounds (doe - year_start yoe)) as (Hm & Hs & Hd); [lia|].
  set (mp := (5 * (doe - year_start yoe) + 2) / 153) in *.
  set (m := if mp <? 10 then mp + 3 else mp - 9) in *.
  split; [|by split]. unfold days_of_civil. rewrite Hs.
  assert ((if m <=? 2 then (if m <=? 2 then yoe + z / 146097 * 400 + 1 else yoe + z / 146097 * 400) - 1
    else if m <=? 2 then yoe + z / 146097 * 400 + 1 else yoe + z / 146097 * 400) =
    yoe + z / 146097 * 400) as -> by (destruct (m <=? 2); lia).
  unfold year_days. rewrite Z.div_add, Z.mod_add by lia.
  rewrite Z.div_small, Z.mod_small by lia.
  pose proof (Z.div_mod z 146097). unfold doe, z in *. lia.
Qed.

(** ** [gmtime] and [mktime] *)

Definition gmtime (secs : Z) : tm :=
  let '(y, m, d) := civil_of_days (secs / 86400) in
  let rest := secs mod 86400 in
  MkTm y m d (rest / 3600) (rest / 60 mod 60) (rest mod 60).

Definition timegm (t : tm) : Z :=
  days_of_civil (tm_year t) (tm_mon t) (tm_mday t) * 86400 +
  tm_hour t * 3600 + tm_min t * 60 + tm_sec t.

(** [mktime] of a broken-down time whose [tm_isdst] is zero, which says that it
    is one of standard time; [zone] is how far the host's standard time is ahead
    of UTC at that time of the calendar.  Where the host keeps daylight saving
    time, its clock shows another hour at the resulting instant. *)
Definition mktime (zone : Z → Z) (t : tm) : Z := timegm t - zone (timegm t).

(** What a time of day and a date of four-digit years look like. *)
Record tm_ok (t : tm) : Prop := {
  ok_year : 0 <= tm_year t <= 9999;
  ok_mon : 1 <= tm_mon t <= 12;
  ok_mday : 1 <= tm_mday t <= 31;
  ok_hour : 0 <= tm_hour t <= 23;
  ok_min : 0 <= tm_min t <= 59;
  ok_sec : 0 <= tm_sec t <= 59
}.

Lemma timegm_gmtime secs : timegm (gmtime secs) = secs.
Proof.
  unfold gmtime. pose proof (civil_of_days_inverse (secs / 86400)) as H.
  destruct (civil_of_days _) as [[y m] d]. destruct H as (Hd & _ & _).
  unfold timegm. cbn [tm_year tm_mon tm_mday tm_hour tm_min tm_sec]. rewrite Hd.
  Z.to_euclidean_division_equations. lia.
Qed.

(** Every 64-bit number of nanoseconds is in a year of four digits. *)
Lemma gmtime_ok secs : - 2 ^ 34 <= secs < 2 ^ 34 → tm_ok (gmtime secs).
Proof.
  intros Hs. unfold gmtime. pose proof (civil_of_days_inverse (secs / 86400)) as H.
  destruct (civil_of_days _) as [[y m] d]. destruct H as (Hd & Hm & Hmd).
  split; cbn [tm_year tm_mon tm_mday tm_hour tm_min tm_sec]; try done;
    [|clear; Z.to_euclidean_division_equations; lia..].
  assert (0 <= month_start m <= 337) as Hms.
  { unfold month_start. Z.to_euclidean_division_equations. lia. }
  unfold days_of_civil, year_days in Hd. set (y' := if m <=? 2 then y - 1 else y) in *.
  assert (y - 1 <= y' <= y) as Hy' by (unfold y'; destruct (m <=? 2); lia).
  pose proof (Z.mod_pos_bound y' 400 eq_refl) as Hr.
  pose proof (Z.div_mod y' 400 ltac:(lia)) as Hq.
  assert (0 <= year_start (y' mod 400) <= 146097) as Hys.
  { unfold year_start. Z.to_euclidean_division_equations. lia. }
  assert (-198842 <= secs / 86400 <= 198842) as Hdays.
  { Z.to_euclidean_division_equations. lia. }
  lia.
Qed.

(** ** [put_time] and [get_time] *)

Inductive conversion := Year | Month | Day | Hour | Minute | Second | Literal (c : ascii).

(** [n] in [w] digits. *)
Fixpoint put_digits (w : nat) (n : Z) : bytes :=
  match w with
  | O => []
  | S w => put_digits w (n / 10) ++ [pretty_N_char (Z.to_N (n mod 10))]
  end.

Definition put_field (t : tm) (c : conversion) : bytes :=
  match c with
  | Year => put_digits 4 (tm_year t)
  | Month => put_digits 2 (tm_mon t)
  | Day => put_digits 2 (tm_mday t)
  | Hour => put_digits 2 (tm_hour t)
  | Minute => put_digits 2 (tm_min t)
  | Second => put_digits 2 (tm_sec t)
  | Literal c => [c]
  end.

Definition put_time (format : list conversion) (t : tm) : bytes :=
  concat (put_field t <$> format).

Fixpoint get_digits (w : nat) (s : bytes) (n : Z) : option (Z * bytes) :=
  match w with
  | O => Some (n, s)
  | S w =>
      match s with
      | c :: s => if is_digit c then get_digits w s (10 * n + (Z.of_N (N_of_ascii c) - 48)) else None
      | [] => None
      end
  end.

(** A number of [w] digits between [low] and [high]. *)
Definition get_number (w : nat) (low high : Z) (s : bytes) : option (Z * bytes) :=
  '(n, s) ← get_digits w s 0;
  if (low <=? n) && (n <=? high) then Some (n, s) else None.

(** The year has four digits; of two digits before anything else the library
    makes a year a century before 1900. *)
Definition get_year (s : bytes) : option (Z * bytes) :=
  match get_number 4 0 9999 s with
  | Some r => Some r
  | None =>
      '(n, s) ← get_number 2 0 99 s;
      match s with
      | c :: _ => if is_digit c then None else Some (n - 100, s)
      | [] => Some (n - 100, s)
      end
  end.

(** White space in the format stands for any amount of it. *)
Definition get_field (c : conversion) (t : tm) (s : bytes) : option (tm * bytes) :=
  let '(MkTm y mo d h mi sec) := t in
  match c with
  | Year => '(n, s) ← get_year s; Some (MkTm n mo d h mi sec, s)
  | Month => '(n, s) ← get_number 2 1 12 s; Some (MkTm y n d h mi sec, s)
  | Day => '(n, s) ← get_number 2 1 31 s; Some (MkTm y mo n h mi sec, s)
  | Hour => '(n, s) ← get_number 2 0 23 s; Some (MkTm y mo d n mi sec, s)
  | Minute => '(n, s) ← get_number 2 0 59 s; Some (MkTm y mo d h n sec, s)
  | Second => '(n, s) ← get_number 2 0 60 s; Some (MkTm y mo d h mi n, s)
  | Literal c =>
      if is_space c then Some (t, skip_spaces s)
      else match s with
           | c' :: s => if decide (c' = c) then Some (t, s) else None
           | [] => None
           end
  end.

Fixpoint get_fields (format : list conversion) (t : tm) (s : bytes) : option (tm * bytes) :=
  match format with
  | [] => Some (t, s)
  | c :: format => '(t, s) ← get_field c t s; get_fields format t s
  end.

(** [stream >> get_time(&t, format)]; [None]: the text does not match the format,
    which is a failure of the stream, or ends before it, which is none. *)
Definition get_time (format : list conversion) (t : tm) (s : bytes) : option (tm * bytes) :=
  get_fields format t (skip_spaces s).

(** ["%Y%m%d_%H%M%S"]. *)
Definition compact_format : list conversion :=
  [Year; Month; Day; Literal "_"; Hour; Minute; Second]%char.

(** *** Reading back *)

Lemma get_digits_add a b s n :
  get_digits (a + b) s n = '(n, s) ← get_digits a s n; get_digits b s n.
Proof.
  revert s n. induction a as [|a IH]; intros s n; [done|]. cbn [get_digits Nat.add].
  destruct s as [|c s]; [done|]. destruct (is_digit c); [apply IH|done].
Qed.

Lemma get_put_digits w n rest acc :
  0 <= n < 10 ^ Z.of_nat w →
  get_digits w (put_digits w n ++ rest) acc = Some (acc * 10 ^ Z.of_nat w + n, rest).
Proof.
  revert n rest. induction w as [|w IH]; intros n rest Hn.
  { cbn in *. do 2 f_equal. lia. }
  cbn [put_digits]. rewrite <- (assoc_L (++)), <- Nat.add_1_r, get_digits_add, IH.
  - cbn [mbind option_bind app get_digits].
    pose proof (Z.mod_pos_bound n 10 eq_refl) as Hm.
    rewrite pretty_N_char_digit, pretty_N_char_code by lia. do 2 f_equal.
    rewrite Nat.add_1_r, Nat2Z.inj_succ, Z.pow_succ_r by lia.
    pose proof (Z.div_mod n 10). lia.
  - rewrite Nat2Z.inj_succ, Z.pow_succ_r in Hn by lia.
    split; [apply Z.div_pos; lia|apply Z.div_lt_upper_bound; lia].
Qed.

Lemma get_put_number w low high n rest :
  0 <= low → low <= n <= high → high < 10 ^ Z.of_nat w →
  get_number w low high (put_digits w n ++ rest) = Some (n, rest).
Proof.
  intros Hl Hn Hh. unfold get_number. rewrite get_put_digits by lia. cbn [mbind option_bind].
  rewrite Z.mul_0_l, Z.add_0_l.
  by rewrite (proj2 (Z.leb_le _ _)), (proj2 (Z.leb_le _ _)) by lia.
Qed.

Lemma get_put_year n rest :
  0 <= n <= 9999 → get_year (put_digits 4 n ++ rest) = Some (n, rest).
Proof. intros Hn. unfold get_year. by rewrite get_put_number by lia. Qed.

(** Digits are all that is written but for the literals. *)
Lemma put_digits_digits w n : Forall (λ c, is_digit c = true) (put_digits w n).
Proof.
  revert n. induction w as [|w IH]; intros n; [constructor|]. cbn [put_digits].
  apply Forall_app. split; [apply IH|]. constructor; [|constructor].
  pose proof (Z.mod_pos_bound n 10 eq_refl). apply pretty_N_char_digit. lia.
Qed.

Lemma put_digits_free c w n : is_digit c = false → c ∉ put_digits w n.
Proof.
  intros Hc Hin. pose proof (put_digits_digits w n) as Hd. rewrite Forall_forall in Hd.
  by rewrite (Hd _ Hin) in Hc.
Qed.
