(* ===== verification/Doubles.v ===== *)
(** * Doubles: IEEE 754 double precision

    [double] is the 64-bit binary format: the specification floats of the
    Standard Library at 53 bits and exponent limit 1024, rounding to nearest
    even, which is what the build computes with. *)

From Stdlib Require Import ZArith NArith Lia SpecFloat.
From stdpp Require Import base numbers list.
From S2P Require Import Prelude.

Abbreviation double := spec_float.

Definition dadd : double → double → double := SFadd 53 1024.
Definition dsub : double → double → double := SFsub 53 1024.
Definition dmul : double → double → double := SFmul 53 1024.
Definition ddiv : double → double → double := SFdiv 53 1024.
Definition dsqrt : double → double := SFsqrt 53 1024.
Definition dltb : double → double → bool := SFltb.

(** The conversion of an integer. *)
Definition of_int (z : Z) : double := binary_normalize 53 1024 z 0 false.
Definition of_nat64 (n : N) : double := of_int (Z.of_N n).

(** [static_cast<int64_t>(x)]: truncation, undefined out of range. *)
Definition truncate (x : double) : option Z :=
  match x with
  | S754_zero _ => Some 0%Z
  | S754_finite s m e =>
      let z := if (0 <=? e)%Z then Z.shiftl (Zpos m) e else Z.shiftr (Zpos m) (- e) in
      Some (if s then - z else z)%Z
  | _ => None
  end.
Definition to_int64 (x : double) : option Z :=
  z ← truncate x;
  if ((- 2 ^ 63 <=? z) && (z <? 2 ^ 63))%Z then Some z else None.

Definition cast_int64 {S} (x : double) : M S Z :=
  match to_int64 x with
  | Some z => mret z
  | None => undefined CastRange
  end.

(** The literals of the program; those that are no integers are quotients that
    round to the same number. *)
Definition d0 : double := of_int 0.
Definition d1 : double := of_int 1.
Definition d2 : double := of_int 2.
Definition d10 : double := of_int 10.
Definition d100 : double := of_int 100.
Definition d_half : double := ddiv d1 d2.
Definition d_eighth : double := ddiv d1 (of_int 8).
Definition d_tenth : double := ddiv d1 d10.

(** [std::min], [std::max]. *)
Definition dmin (a b : double) : double := if dltb b a then b else a.
Definition dmax (a b : double) : double := if dltb a b then b else a.

(** [for (auto x : xs) acc += x;] *)
Definition dsum (xs : list double) : double := fold_left dadd xs d0.

Example d_tenth_literal : d_tenth = S754_finite false 7205759403792794 (-56).
Proof. reflexivity. Qed.
Example to_int64_toward_zero :
  to_int64 (ddiv (of_int (-7)) d2) = Some (-3)%Z ∧ to_int64 (ddiv d1 d0) = None.
Proof. split; reflexivity. Qed.
