(* ===== verification/OrdMap.v ===== *)
(** * OrdMap: [std::map], [std::lower_bound] and [std::upper_bound]

    A [std::map<K, V>] is the list of its pairs in increasing key order, which
    is the order its iterators visit; an iterator is a position in that list
    and [end()] is its length.  The algorithms on sorted vectors are the
    halving search of the standard library, proved equal to a linear scan on a
    sequence the predicate partitions. *)

From Stdlib Require Import Lia.
From stdpp Require Import base numbers list gmap.
From S2P Require Import Prelude.

(** A strict total order given by its boolean [operator<]. *)
Class StrictTotal {K : Type} (ltb : K → K → bool) : Prop := {
  ltb_irrefl k : ltb k k = false;
  ltb_trans k1 k2 k3 : ltb k1 k2 = true → ltb k2 k3 = true → ltb k1 k3 = true;
  ltb_total k1 k2 : ltb k1 k2 = false → ltb k2 k1 = false → k1 = k2
}.

Section ordmap.
Context {K V : Type} (ltb : K → K → bool).

(** [m.find(k)], as the value it points at. *)
Fixpoint omap_find (k : K) (m : list (K * V)) : option V :=
  match m with
  | [] => None
  | (k', v) :: m =>
      if ltb k k' then None
      else if ltb k' k then omap_find k m
      else Some v
  end.

(** [m[k] = v]. *)
Fixpoint omap_insert (k : K) (v : V) (m : list (K * V)) : list (K * V) :=
  match m with
  | [] => [(k, v)]
  | (k', v') :: m' =>
      if ltb k k' then (k, v) :: m
      else if ltb k' k then (k', v') :: omap_insert k v m'
      else (k, v) :: m'
  end.

(** [m.lower_bound(k)]: the first position whose key is not less than [k];
    [m.upper_bound(k)]: the first position whose key is greater than [k]. *)
Fixpoint omap_lower_bound (k : K) (m : list (K * V)) : nat :=
  match m with
  | [] => 0
  | (k', _) :: m => if ltb k' k then S (omap_lower_bound k m) else 0
  end.

Fixpoint omap_upper_bound (k : K) (m : list (K * V)) : nat :=
  match m with
  | [] => 0
  | (k', _) :: m => if ltb k k' then 0 else S (omap_upper_bound k m)
  end.

Fixpoint omap_sorted (m : list (K * V)) : bool :=
  match m with
  | [] => true
  | (k, _) :: m' =>
      match m' with
      | [] => true
      | (k', _) :: _ => ltb k k' && omap_sorted m'
      end
  end.
End ordmap.

Section binary_search.
Context {A : Type}.

(** The loop of [std::lower_bound] on [v]: [len] elements from [first] are
    left, and [before x] says that [x] precedes the position sought.  Every
    turn at least halves [len], so [length v] turns are enough. *)
Fixpoint bound_loop (turns : nat) (before : A → bool) (v : list A)
    (first len : nat) : nat :=
  match turns with
  | 0 => first
  | S turns =>
      if decide (len = 0) then first
      else
        let half := Nat.div2 len in
        match v !! (first + half) with
        | Some x =>
            if before x
            then bound_loop turns before v (S (first + half)) (len - half - 1)
            else bound_loop turns before v first half
        | None => first
        end
  end.

Definition std_bound (before : A → bool) (v : list A) : nat :=
  bound_loop (length v) before v 0 (length v).

Definition std_lower_bound {K} (ltb : K → K → bool) (key : A → K) (k : K)
    (v : list A) : nat :=
  std_bound (λ x, ltb (key x) k) v.

Definition std_upper_bound {K} (ltb : K → K → bool) (key : A → K) (k : K)
    (v : list A) : nat :=
  std_bound (λ x, negb (ltb k (key x))) v.

(** The number of leading elements that precede the position sought. *)
Fixpoint prefix_length (before : A → bool) (v : list A) : nat :=
  match v with
  | [] => 0
  | x :: v => if before x then S (prefix_length before v) else 0
  end.

Definition partitioned (before : A → bool) (v : list A) : Prop :=
  ∀ i x, v !! i = Some x → before x = bool_decide (i < prefix_length before v).
End binary_search.

(** ** The halving search is the linear one *)

Lemma prefix_length_le {A} (before : A → bool) v :
  prefix_length before v ≤ length v.
Proof. induction v as [|x v IH]; cbn; [lia|]. destruct (before x); lia. Qed.

Lemma bound_loop_correct {A} (before : A → bool) v turns first len :
  partitioned before v → len ≤ turns →
  first ≤ prefix_length before v ≤ first + len → first + len ≤ length v →
  bound_loop turns before v first len = prefix_length before v.
Proof.
  intros Hp. revert first len.
  induction turns as [|turns IH]; intros first len Hlen Hpos Hbound; cbn; [lia|].
  case_decide; [lia|].
  assert (Nat.div2 len < len) as Hhalf by (apply Nat.lt_div2; lia).
  destruct (lookup_lt_is_Some_2 v (first + Nat.div2 len)) as [x Hx]; [lia|].
  rewrite Hx, (Hp _ _ Hx). set (half := Nat.div2 len) in *. clearbody half.
  case_bool_decide; apply IH; lia.
Qed.

Lemma std_bound_correct {A} (before : A → bool) v :
  partitioned before v → std_bound before v = prefix_length before v.
Proof.
  intros Hp. pose proof (prefix_length_le before v).
  apply bound_loop_correct; [done|lia..].
Qed.

(** ** Sorted maps *)

Section laws.
Context {K V : Type} {ltb : K → K → bool} `{!StrictTotal ltb}.
Implicit Types m : list (K * V).

Lemma ltb_asym k1 k2 : ltb k1 k2 = true → ltb k2 k1 = false.
Proof.
  intros H. destruct (ltb k2 k1) eqn:E; [|done].
  pose proof (ltb_trans _ _ _ H E). pose proof (ltb_irrefl k1). congruence.
Qed.

Definition all_above (k : K) (m : list (K * V)) : Prop :=
  ∀ p, p ∈ m → ltb k p.1 = true.

Lemma all_above_nil k : all_above k [].
Proof. intros p Hp. by apply not_elem_of_nil in Hp. Qed.

Lemma all_above_cons k k' v m :
  all_above k ((k', v) :: m) ↔ ltb k k' = true ∧ all_above k m.
Proof.
  unfold all_above. split.
  - intros H. split; [apply (H (k', v)); by left|].
    intros p Hp. apply H. by right.
  - intros [? H] p [->|?]%elem_of_cons; [done|]. by apply H.
Qed.

Lemma omap_sorted_cons k v m :
  omap_sorted ltb ((k, v) :: m) = true ↔ all_above k m ∧ omap_sorted ltb m = true.
Proof.
  revert k v. induction m as [|[k' v'] m IH]; intros k v; cbn [omap_sorted].
  - split; [split; [apply all_above_nil|done]|done].
  - rewrite andb_true_iff, all_above_cons. split.
    + intros [H1 H2]. split_and!; [done| |done].
      apply (IH k' v') in H2 as [H2 _].
      intros p Hp. eapply ltb_trans; [done|by apply H2].
    + intros [[? ?] ?]. done.
Qed.

Lemma omap_find_above k m : all_above k m → omap_find ltb k m = None.
Proof.
  destruct m as [|[k' v] m]; [done|].
  intros [H _]%all_above_cons. cbn. by rewrite H.
Qed.

Lemma all_above_insert k k' v m :
  ltb k k' = true → all_above k m → all_above k (omap_insert ltb k' v m).
Proof.
  induction m as [|[k1 v1] m IH]; intros Hk Hm; cbn.
  - apply all_above_cons. split; [done|apply all_above_nil].
  - apply all_above_cons in Hm as [? ?].
    destruct (ltb k' k1) eqn:E1; [by rewrite !all_above_cons|].
    destruct (ltb k1 k') eqn:E2; rewrite all_above_cons; auto.
Qed.

Lemma omap_insert_sorted k v m :
  omap_sorted ltb m = true → omap_sorted ltb (omap_insert ltb k v m) = true.
Proof.
  induction m as [|[k1 v1] m IH]; intros Hm; [done|].
  cbn [omap_insert].
  destruct (ltb k k1) eqn:E1; [cbn [omap_sorted] in *; by rewrite E1, Hm|].
  apply omap_sorted_cons in Hm as [Ha Hm].
  destruct (ltb k1 k) eqn:E2; apply omap_sorted_cons.
  - split; [by apply all_above_insert|by apply IH].
  - by rewrite (ltb_total k k1).
Qed.

Lemma omap_find_insert k k' v m :
  omap_sorted ltb m = true →
  (ltb k k' = false → ltb k' k = false →
   omap_find ltb k (omap_insert ltb k' v m) = Some v) ∧
  (k ≠ k' → omap_find ltb k (omap_insert ltb k' v m) = omap_find ltb k m).
Proof.
  induction m as [|[k1 v1] m IH]; intros Hm.
  - cbn. split; [intros -> ->; done|]. intros Hk.
    destruct (ltb k k') eqn:E1, (ltb k' k) eqn:E2; try done.
    by destruct Hk; apply ltb_total.
  - pose proof Hm as [Ha Hm']%omap_sorted_cons. destruct (IH Hm') as [IH1 IH2].
    cbn [omap_insert]. destruct (ltb k' k1) eqn:E1; [|destruct (ltb k1 k') eqn:E2].
    + cbn. split; [by intros -> ->|]. intros Hk.
      destruct (ltb k k') eqn:E3.
      { by rewrite (ltb_trans _ _ _ E3 E1). }
      destruct (ltb k' k) eqn:E4; [done|]. by destruct Hk; apply ltb_total.
    + cbn. split.
      * intros H1 H2. pose proof (ltb_total k k' H1 H2) as ->.
        rewrite E1, E2. auto.
      * intros Hk. destruct (ltb k k1), (ltb k1 k); auto.
    + rewrite (ltb_total k' k1) by done. cbn. split; [by intros -> ->|].
      intros Hk. destruct (ltb k k1) eqn:E3; [done|].
      destruct (ltb k1 k) eqn:E4; [done|].
      destruct Hk. by apply ltb_total.
Qed.

Lemma omap_find_insert_eq k v m :
  omap_sorted ltb m = true → omap_find ltb k (omap_insert ltb k v m) = Some v.
Proof. intros Hm. by apply omap_find_insert; [|apply ltb_irrefl..]. Qed.

Lemma omap_find_insert_ne k k' v m :
  omap_sorted ltb m = true → k ≠ k' →
  omap_find ltb k (omap_insert ltb k' v m) = omap_find ltb k m.
Proof. intros Hm. by apply omap_find_insert. Qed.

Lemma omap_find_elem k v m :
  omap_sorted ltb m = true → omap_find ltb k m = Some v ↔ (k, v) ∈ m.
Proof.
  induction m as [|[k1 v1] m IH]; intros Hm.
  - cbn. split; [done|]. by intros ?%not_elem_of_nil.
  - apply omap_sorted_cons in Hm as [Ha Hm]. cbn. rewrite elem_of_cons.
    destruct (ltb k k1) eqn:E1.
    + split; [done|]. intros [[= -> ->]|Hin].
      * by rewrite ltb_irrefl in E1.
      * pose proof (Ha _ Hin) as H. cbn in H. by rewrite (ltb_asym _ _ E1) in H.
    + destruct (ltb k1 k) eqn:E2.
      * rewrite IH by done. split; [by right|]. intros [[= -> ->]|?]; [|done].
        by rewrite ltb_irrefl in E2.
      * rewrite (ltb_total k k1) by done. split; [intros [= ->]; by left|].
        intros [[= ->]|Hin]; [done|].
        pose proof (Ha _ Hin) as H. cbn in H. by rewrite ltb_irrefl in H.
Qed.

Lemma length_omap_insert k v m :
  omap_sorted ltb m = true →
  length (omap_insert ltb k v m) =
    match omap_find ltb k m with Some _ => length m | None => S (length m) end.
Proof.
  induction m as [|[k1 v1] m IH]; intros Hm; [done|].
  apply omap_sorted_cons in Hm as [_ Hm]. cbn.
  destruct (ltb k k1); [done|]. destruct (ltb k1 k); [|done].
  cbn. rewrite IH by done. by destruct (omap_find ltb k m).
Qed.

Lemma omap_ext m1 m2 :
  omap_sorted ltb m1 = true → omap_sorted ltb m2 = true →
  (∀ k, omap_find ltb k m1 = omap_find ltb k m2) → m1 = m2.
Proof.
  revert m2. induction m1 as [|[k1 v1] m1 IH]; intros [|[k2 v2] m2] H1 H2 Hf.
  - done.
  - specialize (Hf k2). cbn in Hf. by rewrite ltb_irrefl in Hf.
  - specialize (Hf k1). cbn in Hf. by rewrite ltb_irrefl in Hf.
  - apply omap_sorted_cons in H1 as [Ha1 H1], H2 as [Ha2 H2].
    assert (k1 = k2) as ->.
    { pose proof (Hf k1) as F1. pose proof (Hf k2) as F2. cbn in F1, F2.
      rewrite ltb_irrefl in F1, F2.
      destruct (ltb k1 k2) eqn:E1; [done|].
      destruct (ltb k2 k1) eqn:E2; [done|]. by apply ltb_total. }
    pose proof (Hf k2) as F. cbn in F. rewrite ltb_irrefl in F.
    injection F as ->. f_equal. apply IH; [done..|]. intros k.
    specialize (Hf k). cbn in Hf.
    destruct (ltb k k2) eqn:E1.
    + rewrite !omap_find_above; [done| |]; intros p Hp; eapply ltb_trans; eauto.
    + destruct (ltb k2 k) eqn:E2; [done|].
      rewrite (ltb_total k k2 E1 E2). rewrite !omap_find_above; auto.
Qed.
End laws.

(** ** Positions and filters

    On a partitioned sequence the bounds cut out exactly the elements a filter
    keeps. *)

Section ranges.
Context {A : Type}.
Implicit Types (P Q : A → bool) (l : list A).

Lemma partitioned_nil P : partitioned P [].
Proof. by intros i x. Qed.

Lemma partitioned_cons P x l :
  partitioned P (x :: l) ↔
  if P x then partitioned P l else ∀ y, y ∈ l → P y = false.
Proof.
  unfold partitioned. cbn. destruct (P x) eqn:E; split.
  - intros H i y Hy. rewrite (H (S i) y Hy). repeat case_bool_decide; lia.
  - intros H [|i] y Hy; [by injection Hy as <-|]. cbn in Hy.
    rewrite (H i y Hy). repeat case_bool_decide; lia.
  - intros H y [i Hy]%list_elem_of_lookup. rewrite (H (S i) y Hy).
    case_bool_decide; lia.
  - intros H [|i] y Hy; [injection Hy as <-; rewrite E; case_bool_decide; lia|].
    cbn in Hy. rewrite (H y); [case_bool_decide; lia|].
    apply list_elem_of_lookup. eauto.
Qed.

Lemma filter_none P l : (∀ y, y ∈ l → P y = false) → filter P l = [].
Proof.
  induction l as [|x l IH]; intros H; [done|].
  rewrite filter_cons_False; [apply IH|rewrite H; [by intros []|by left]].
  intros y ?. apply H. by right.
Qed.

Lemma filter_not_none P l : (∀ y, y ∈ l → P y = false) → filter (λ x, ¬ P x) l = l.
Proof.
  induction l as [|x l IH]; intros H; [done|].
  rewrite filter_cons_True; [|rewrite H; [by intros []|by left]].
  f_equal. apply IH. intros y ?. apply H. by right.
Qed.

Lemma filter_partitioned P l :
  partitioned P l →
  filter P l = take (prefix_length P l) l ∧
  filter (λ x, ¬ P x) l = drop (prefix_length P l) l.
Proof.
  induction l as [|x l IH]; intros H; [done|].
  apply partitioned_cons in H. cbn [prefix_length].
  destruct (P x) eqn:E; cbn [take drop].
  - destruct (IH H) as [H1 H2]. split.
    + rewrite filter_cons_True by (by rewrite E). by rewrite H1.
    + rewrite filter_cons_False; [done|]. rewrite E. naive_solver.
  - assert (∀ y, y ∈ x :: l → P y = false) as Hn
      by (by intros y [->|?]%elem_of_cons; auto).
    split; [by apply filter_none|by apply filter_not_none].
Qed.

Lemma partitioned_take P n l :
  partitioned P l →
  partitioned P (take n l) ∧
  prefix_length P (take n l) = n `min` prefix_length P l.
Proof.
  revert n. induction l as [|x l IH]; intros n H.
  - rewrite take_nil. cbn. split; [done|lia].
  - apply partitioned_cons in H. destruct n as [|n]; [split; [by apply partitioned_nil|done]|].
    cbn [take prefix_length]. rewrite partitioned_cons.
    destruct (P x) eqn:E; cbn [prefix_length]; rewrite ?E.
    + destruct (IH n H) as [? ->]. split; [done|lia].
    + split; [|done]. intros y Hy. apply H. by eapply elem_of_take in Hy as (? & ? & ?);
        apply list_elem_of_lookup; eauto.
Qed.

(** The elements past [P] and within [Q] are those between the two bounds. *)
Lemma filter_between P Q l :
  partitioned P l → partitioned Q l →
  filter (λ x, ¬ P x ∧ Q x) l =
  take (prefix_length Q l - prefix_length P l) (drop (prefix_length P l) l).
Proof.
  intros HP HQ. rewrite <- list_filter_filter.
  destruct (filter_partitioned _ _ HQ) as [-> _].
  destruct (partitioned_take P (prefix_length Q l) l HP) as [HP' Hlen].
  destruct (filter_partitioned _ _ HP') as [_ ->]. rewrite Hlen.
  rewrite skipn_firstn_comm. destruct (Nat.le_ge_cases (prefix_length P l) (prefix_length Q l)).
  - by rewrite Nat.min_r by done.
  - rewrite Nat.min_l by done. replace (prefix_length Q l - prefix_length P l) with 0 by lia.
    by rewrite Nat.sub_diag, !take_0.
Qed.
End ranges.

Section map_ranges.
Context {K V : Type} {ltb : K → K → bool} `{!StrictTotal ltb}.
Implicit Types m : list (K * V).

(** A predicate that holds below every key it holds of. *)
Lemma partitioned_sorted {A} (key : A → K) (P : K → bool) (l : list A) :
  (∀ a b, ltb a b = true → P b = true → P a = true) →
  (∀ i j x y, i < j → l !! i = Some x → l !! j = Some y → ltb (key x) (key y) = true) →
  partitioned (λ x, P (key x)) l.
Proof.
  intros HP. induction l as [|x l IH]; intros Hs; [apply partitioned_nil|].
  apply partitioned_cons. destruct (P (key x)) eqn:E.
  - apply IH. intros i j y z Hij Hy Hz. apply (Hs (S i) (S j)); [lia|done..].
  - intros y [i Hy]%list_elem_of_lookup.
    destruct (P (key y)) eqn:E'; [|done].
    rewrite (HP (key x) (key y)) in E; [done| |done].
    apply (Hs 0 (S i)); [lia|done..].
Qed.

Lemma omap_sorted_lookup m :
  omap_sorted ltb m = true →
  ∀ i j x y, i < j → m !! i = Some x → m !! j = Some y → ltb x.1 y.1 = true.
Proof.
  induction m as [|[k v] m IH]; intros Hs i j x y Hij Hx Hy; [done|].
  apply omap_sorted_cons in Hs as [Ha Hs].
  destruct i as [|i], j as [|j]; [lia| |lia|].
  - injection Hx as <-. apply Ha. apply list_elem_of_lookup. eauto.
  - eapply (IH Hs i j); [lia|done..].
Qed.

Lemma below_partitioned m k :
  omap_sorted ltb m = true → partitioned (λ p, ltb p.1 k) m.
Proof.
  intros Hs. apply (partitioned_sorted fst (λ a, ltb a k)).
  - intros a b. apply ltb_trans.
  - by apply omap_sorted_lookup.
Qed.

Lemma not_above_partitioned m k :
  omap_sorted ltb m = true → partitioned (λ p, negb (ltb k p.1)) m.
Proof.
  intros Hs. apply (partitioned_sorted fst (λ a, negb (ltb k a))).
  - intros a b Hab Hb. rewrite negb_true_iff in *.
    destruct (ltb k a) eqn:E; [|done]. by rewrite (ltb_trans _ _ _ E Hab) in Hb.
  - by apply omap_sorted_lookup.
Qed.

Lemma omap_lower_bound_prefix m k :
  omap_lower_bound ltb k m = prefix_length (λ p, ltb p.1 k) m.
Proof. induction m as [|[k' v] m IH]; cbn; [done|]. by rewrite IH. Qed.

Lemma omap_upper_bound_prefix m k :
  omap_upper_bound ltb k m = prefix_length (λ p, negb (ltb k p.1)) m.
Proof. induction m as [|[k' v] m IH]; cbn; [done|]. rewrite IH. by destruct (ltb k k'). Qed.
End map_ranges.
