(* ===== verification/Types.v ===== *)
(** * Types: the shared data types of [include/cache/common/types.h]

    Keys and their order, data entries, the status codes, the [Result] type
    every operation returns, and the size limits. *)

From Stdlib Require Import Ascii String ZArith NArith Lia.
From stdpp Require Import base numbers list strings gmap.
From S2P Require Import Prelude Bytes OrdMap.

(** ** Multi-level keys *)
Record MultiLevelKey := MkKey {
  primary_key : string;
  secondary_key : string
}.

#[export] Instance MultiLevelKey_eq_dec : EqDecision MultiLevelKey.
Proof. solve_decision. Defined.

#[export] Instance MultiLevelKey_countable : Countable MultiLevelKey.
Proof.
  refine (inj_countable' (λ k, (primary_key k, secondary_key k))
            (λ '(p, s), MkKey p s) _).
  by intros [].
Defined.

(** [MultiLevelKey::to_string]. *)
Definition key_to_string (k : MultiLevelKey) : string :=
  primary_key k +:+ ":" +:+ secondary_key k.

(** [operator==] and [operator<]; [<] on [std::string] compares bytes. *)
Definition key_eqb (a b : MultiLevelKey) : bool :=
  bool_decide (primary_key a = primary_key b) &&
  bool_decide (secondary_key a = secondary_key b).

Definition key_ltb (a b : MultiLevelKey) : bool :=
  if negb (bool_decide (primary_key a = primary_key b))
  then String.ltb (primary_key a) (primary_key b)
  else String.ltb (secondary_key a) (secondary_key b).

(** [MultiLevelKeyHash]; [hash] is [std::hash<std::string>]. *)
Definition MultiLevelKeyHash (hash : string → N) (key : MultiLevelKey) : N :=
  N.lxor (hash (primary_key key)) (wrap64 (N.shiftl (hash (secondary_key key)) 1)).

(** ** Clock readings

    A [system_clock::time_point] is its count of nanoseconds since the epoch
    (the period of the standard library the build uses); [Timestamp] counts
    milliseconds, to which [duration_cast] truncates. *)
Definition ns_per_ms : Z := 1000000.
Definition ms_of_ns (t : Z) : Z := Z.quot t ns_per_ms.

(** ** Data entries *)
Record DataEntry := MkEntry {
  value : string;
  version : N;
  timestamp : Z;
  deleted : bool
}.

#[export] Instance DataEntry_eq_dec : EqDecision DataEntry.
Proof. solve_decision. Defined.

(** The constructors; [now] is the clock reading they make. *)
Definition DataEntry_default (now : Z) : DataEntry :=
  MkEntry "" 0 (ms_of_ns now) false.
Definition DataEntry_of (now : Z) (val : string) (ver : N) : DataEntry :=
  MkEntry val ver (ms_of_ns now) false.

(** [entry.version = v], [entry.deleted = true; entry.timestamp = now]. *)
Definition with_version (v : N) (e : DataEntry) : DataEntry :=
  MkEntry (value e) v (timestamp e) (deleted e).
Definition mark_deleted (now : Z) (e : DataEntry) : DataEntry :=
  MkEntry (value e) (version e) (ms_of_ns now) true.

(** [sizeof(DataEntry)] for the x86-64 build: a 32-byte [std::string], two
    8-byte integers, a [bool], padded to a multiple of 8. *)
Definition sizeof_DataEntry : N := 56.

(** ** Operation kinds, status codes and results *)
Module OperationType.
Inductive t := GET | PUT | DELETE | RANGE_SCAN | MULTI_GET | MULTI_PUT.
#[global] Instance t_eq_dec : EqDecision t.
Proof. solve_decision. Defined.
End OperationType.

Module Status.
Inductive t :=
  | OK | NOT_FOUND | VERSION_CONFLICT | TIMEOUT | NETWORK_ERROR | STORAGE_ERROR
  | PERMISSION_DENIED | INVALID_ARGUMENT | CLUSTER_ERROR | ALREADY_EXISTS
  | NOT_IMPLEMENTED | SERVICE_UNAVAILABLE | UNAUTHORIZED | FORBIDDEN
  | DEADLOCK_DETECTED | INVALID_STATE | TRANSACTION_ABORTED | INSUFFICIENT_DATA.
#[global] Instance t_eq_dec : EqDecision t.
Proof. solve_decision. Defined.
End Status.

Record RangeQuery := MkRange {
  start_key : MultiLevelKey;
  end_key : MultiLevelKey;
  limit : N;
  inclusive_start : bool;
  inclusive_end : bool
}.

(** [RangeQuery()] with the two keys set. *)
Definition RangeQuery_default (s e : MultiLevelKey) : RangeQuery :=
  MkRange s e 1000 true false.

(** [Result<T>]: [Result(Status::OK, data)] or [Result::error(status, msg)].
    The program never passes [Status::OK] to [error]. *)
Inductive Result (A : Type) :=
  | ROk (data : A)
  | RErr (status : Status.t) (error_message : string).
Arguments ROk {A} data.
Arguments RErr {A} status error_message.

Definition is_ok {A} (r : Result A) : bool :=
  match r with ROk _ => true | RErr _ _ => false end.

Definition status_of {A} (r : Result A) : Status.t :=
  match r with ROk _ => Status.OK | RErr st _ => st end.

Definition data_of {A} (r : Result A) : option A :=
  match r with ROk a => Some a | RErr _ _ => None end.

(** [return Result::error(r.status, r.error_message)] for a failed [r]. *)
Definition rbind {A B} (r : Result A) (f : A → Result B) : Result B :=
  match r with ROk a => f a | RErr st msg => RErr st msg end.

(** [auto r = m; if (!r.is_ok()) return r; ...] inside a method. *)
Definition mtry {S A B} (m : M S (Result A)) (f : A → M S (Result B)) :
    M S (Result B) :=
  r ← m;
  match r with
  | ROk a => f a
  | RErr st msg => mret (RErr st msg)
  end.

Lemma respects_mtry {S A B} (R : relation S) `{!PreOrder R} (m : M S (Result A))
    (f : A → M S (Result B)) :
  respects R m → (∀ a, respects R (f a)) → respects R (mtry m f).
Proof.
  intros Hm Hf. apply respects_bind; [done..|]. intros [a|st msg]; [apply Hf|].
  by apply respects_ret.
Qed.

#[export] Hint Extern 1 (respects _ (mtry _ _)) =>
  apply respects_mtry; [apply _|respects_tac|respects_tac] : respects.

Lemma wlp_mtry {S A B} (m : M S (Result A)) (f : A → M S (Result B)) Q s :
  wlp m (λ r, match r with
              | ROk a => wlp (f a) Q
              | RErr st msg => Q (RErr st msg)
              end) s → wlp (mtry m f) Q s.
Proof.
  intros H. apply wlp_bind. eapply wlp_mono; [exact H|]. by intros [a|st msg].
Qed.

Notation "x ←? m ; k" := (mtry m (λ x, k))
  (at level 20, m at level 100, k at level 200, right associativity) : stdpp_scope.

(** ** Limits, [namespace config] *)
Definition MAX_KEY_SIZE : N := 256.
Definition MAX_VALUE_SIZE : N := 4 * 1024.
Definition DEFAULT_SHARD_COUNT : N := 1024.
Definition DEFAULT_REPLICATION_FACTOR : N := 3.
Definition DEFAULT_HEARTBEAT_INTERVAL_MS : N := 1000.
Definition DEFAULT_ELECTION_TIMEOUT_MS : N := 5000.
Definition DEFAULT_REQUEST_TIMEOUT_MS : N := 100.
Definition WAL_SYNC_INTERVAL_MS : N := 100.
Definition MEMTABLE_SIZE_LIMIT : N := 64 * 1024 * 1024.

(** ** The order on keys *)

Lemma string_compare_refl s : String.compare s s = Eq.
Proof.
  induction s as [|c s IH]; [done|]. cbn. unfold Ascii.compare.
  by rewrite N.compare_refl.
Qed.

#[export] Instance string_ltb_strict : StrictTotal String.ltb.
Proof.
  unfold String.ltb. split.
  - intros s. by rewrite string_compare_refl.
  - intros s1 s2 s3 H12 H23.
    assert (String.leb s1 s3) as H13.
    { trans s2; unfold String.le, String.leb.
      - by destruct (String.compare s1 s2).
      - by destruct (String.compare s2 s3). }
    unfold String.leb in H13.
    destruct (String.compare s1 s3) eqn:E; [|done|done].
    apply String.compare_eq_iff in E as ->. rewrite String.compare_antisym in H23.
    by destruct (String.compare s3 s2).
  - intros s1 s2 H12 H21. rewrite String.compare_antisym in H21.
    apply String.compare_eq_iff. by destruct (String.compare s1 s2).
Qed.

#[export] Instance key_ltb_strict : StrictTotal key_ltb.
Proof.
  unfold key_ltb. split.
  - intros k. rewrite bool_decide_true by done. apply ltb_irrefl.
  - intros [p1 s1] [p2 s2] [p3 s3]. cbn.
    repeat case_bool_decide; cbn; subst; try done; try apply ltb_trans.
    intros H12 H21. by rewrite (ltb_asym _ _ H12) in H21.
  - intros [p1 s1] [p2 s2]. cbn. do 2 case_bool_decide; cbn; subst; try done.
    + intros. f_equal. by apply ltb_total.
    + intros. by destruct H; apply ltb_total.
Qed.

Lemma key_eqb_eq a b : key_eqb a b = true ↔ a = b.
Proof.
  unfold key_eqb. rewrite andb_true_iff, !bool_decide_eq_true.
  destruct a, b; cbn. split; [intros [-> ->]; done|]. by intros [= -> ->].
Qed.

(** The highest bit of the hash of the second part is lost. *)
Lemma MultiLevelKeyHash_collision hash p s1 s2 :
  (hash s1 `mod` 2 ^ 63 = hash s2 `mod` 2 ^ 63)%N →
  MultiLevelKeyHash hash (MkKey p s1) = MultiLevelKeyHash hash (MkKey p s2).
Proof.
  intros Hs. unfold MultiLevelKeyHash, wrap64. cbn [primary_key secondary_key]. f_equal.
  rewrite !N.shiftl_mul_pow2. change (2 ^ 64)%N with (2 ^ 63 * 2 ^ 1)%N.
  rewrite !N.Div0.mul_mod_distr_r. by rewrite Hs.
Qed.
