(* ===== verification/Crc32c.v ===== *)
(** * Crc32c: the checksum of [src/crc32c.cpp]

    The table-driven CRC-32C, the lookup table it builds on first use, and the
    proof that it computes the bit-serial division by the reflected Castagnoli
    polynomial.  Since one step of that division is injective on 32-bit words,
    no corruption confined to four consecutive bytes goes unnoticed. *)

From Stdlib Require Import Ascii NArith Lia.
From stdpp Require Import base numbers list strings.
From S2P Require Import Prelude Bytes.

Definition kCrc32cPoly : N := 0x82F63B78.

(** The body of the inner loop of [init_table]. *)
Definition crc_shift (crc : N) : N :=
  if N.testbit crc 0 then N.lxor (N.shiftr crc 1) kCrc32cPoly else N.shiftr crc 1.

Definition table_entry (i : N) : N := Nat.iter 8 crc_shift i.

(** The two static variables of the file. *)
Record statics := MkStatics {
  crc32c_table : list N;
  table_initialized : bool
}.

Definition statics_init : statics := MkStatics (replicate 256 0%N) false.

Definition init_table (st : statics) : statics :=
  if table_initialized st then st
  else MkStatics (table_entry <$> (N.of_nat <$> seq 0 256)) true.

(** The body of the loop over the data. *)
Definition crc_byte (table : list N) (crc : N) (c : ascii) : N :=
  let byte := N_of_ascii c in
  N.lxor (default 0%N (table !! N.to_nat (N.land (N.lxor crc byte) 0xFF)))
         (N.shiftr crc 8).

Definition Crc32c_run (data : bytes) (st : statics) : N * statics :=
  let st := init_table st in
  (N.lxor (foldl (crc_byte (crc32c_table st)) 0xFFFFFFFF%N data) 0xFFFFFFFF, st).

Definition Extend_run (crc : N) (data : bytes) (st : statics) : N * statics :=
  let st := init_table st in
  (N.lxor (foldl (crc_byte (crc32c_table st)) (N.lxor crc 0xFFFFFFFF) data)
          0xFFFFFFFF, st).

(** What the two functions return in the running program, where the static
    variables are only ever touched by [init_table]. *)
Definition Crc32c (data : bytes) : N := (Crc32c_run data statics_init).1.
Definition Extend (crc : N) (data : bytes) : N := (Extend_run crc data statics_init).1.

(** ** The bit-serial reference *)

(** One byte: eight shifts of the register with the byte mixed in. *)
Definition crc_serial_byte (crc : N) (c : ascii) : N :=
  Nat.iter 8 crc_shift (N.lxor crc (N_of_ascii c)).

Definition crc_serial (data : bytes) : N :=
  N.lxor (foldl crc_serial_byte 0xFFFFFFFF%N data) 0xFFFFFFFF.

(** The static variables the functions can find when they are called. *)
Definition built_table : list N := table_entry <$> (N.of_nat <$> seq 0 256).
Definition statics_ok (st : statics) : Prop :=
  table_initialized st = true → crc32c_table st = built_table.

(** ** Linearity and injectivity of one shift *)

Definition word32 (x : N) : Prop := (x < 2 ^ 32)%N.

Lemma word32_bits x : word32 x ↔ ∀ i, (32 ≤ i)%N → N.testbit x i = false.
Proof.
  unfold word32. split.
  - intros Hx i Hi. destruct (decide (x = 0)%N) as [->|]; [apply N.bits_0|].
    apply N.bits_above_log2. apply N.log2_lt_pow2 in Hx; lia.
  - intros Hx. destruct (decide (x = 0)%N) as [->|]; [done|].
    apply N.log2_lt_pow2; [lia|]. apply N.lt_nge. intros Hl.
    specialize (Hx _ Hl). by rewrite N.bit_log2 in Hx.
Qed.

Lemma word32_lxor x y : word32 x → word32 y → word32 (N.lxor x y).
Proof.
  rewrite !word32_bits. intros Hx Hy i Hi. by rewrite N.lxor_spec, Hx, Hy.
Qed.

Lemma word32_shiftr x n : word32 x → word32 (N.shiftr x n).
Proof.
  rewrite !word32_bits. intros Hx i Hi. rewrite N.shiftr_spec' by lia. apply Hx. lia.
Qed.

Lemma word32_byte c : word32 (N_of_ascii c).
Proof. unfold word32. pose proof (ascii_N_lt c). lia. Qed.

Lemma crc_shift_alt x :
  crc_shift x = N.lxor (N.shiftr x 1) (if N.testbit x 0 then kCrc32cPoly else 0).
Proof. unfold crc_shift. by destruct (N.testbit x 0); rewrite ?N.lxor_0_r. Qed.

Lemma crc_shift_word32 x : word32 x → word32 (crc_shift x).
Proof.
  intros Hx. rewrite crc_shift_alt. apply word32_lxor; [by apply word32_shiftr|].
  by destruct (N.testbit x 0).
Qed.

Lemma crc_shift_lxor x y : crc_shift (N.lxor x y) = N.lxor (crc_shift x) (crc_shift y).
Proof.
  rewrite !crc_shift_alt, N.shiftr_lxor, N.lxor_spec.
  destruct (N.testbit x 0), (N.testbit y 0); cbn [xorb];
    apply N.bits_inj; intros i; rewrite ?N.lxor_spec, ?N.bits_0;
    destruct (N.testbit (N.shiftr x 1) i), (N.testbit (N.shiftr y 1) i),
      (N.testbit kCrc32cPoly i); done.
Qed.

Lemma crc_shift_inj0 x : word32 x → crc_shift x = 0%N → x = 0%N.
Proof.
  intros Hx H. rewrite word32_bits in Hx. rewrite crc_shift_alt in H.
  assert (N.testbit x 0 = false) as H0.
  { assert (N.testbit (N.lxor (N.shiftr x 1)
      (if N.testbit x 0 then kCrc32cPoly else 0%N)) 31 = false) as H31
      by (rewrite H; apply N.bits_0).
    rewrite N.lxor_spec, N.shiftr_spec', Hx in H31 by lia.
    by destruct (N.testbit x 0). }
  rewrite H0, N.lxor_0_r in H. apply N.bits_inj_0. intros i.
  destruct (decide (i = 0)%N) as [->|]; [done|].
  assert (N.testbit (N.shiftr x 1) (i - 1) = false) as Hi by (rewrite H; apply N.bits_0).
  rewrite N.shiftr_spec' in Hi. by replace (i - 1 + 1)%N with i in Hi by lia.
Qed.

Lemma iter_shift_lxor n x y :
  Nat.iter n crc_shift (N.lxor x y) =
  N.lxor (Nat.iter n crc_shift x) (Nat.iter n crc_shift y).
Proof. induction n as [|n IH]; [done|]. by rewrite !Nat.iter_succ, IH, crc_shift_lxor. Qed.

Lemma iter_shift_word32 n x : word32 x → word32 (Nat.iter n crc_shift x).
Proof. intros. induction n; [done|]. rewrite Nat.iter_succ. by apply crc_shift_word32. Qed.

Lemma iter_shift_inj n x y :
  word32 x → word32 y → Nat.iter n crc_shift x = Nat.iter n crc_shift y → x = y.
Proof.
  intros Hx Hy H. apply N.lxor_eq.
  assert (Nat.iter n crc_shift (N.lxor x y) = 0%N) as H0
    by (by rewrite iter_shift_lxor, H, N.lxor_nilpotent).
  clear H. assert (word32 (N.lxor x y)) as Hw by (by apply word32_lxor).
  induction n as [|n IH]; [done|]. rewrite Nat.iter_succ in H0.
  apply IH, crc_shift_inj0; [by apply iter_shift_word32|done].
Qed.

(** Bits above the ones shifted out only move down. *)
Lemma iter_shift_high n x :
  (∀ i, (i < N.of_nat n)%N → N.testbit x i = false) →
  Nat.iter n crc_shift x = N.shiftr x (N.of_nat n).
Proof.
  induction n as [|n IH]; intros Hx; [by rewrite N.shiftr_0_r|].
  rewrite Nat.iter_succ, IH by (intros; apply Hx; lia).
  unfold crc_shift. rewrite N.shiftr_spec', Hx by lia.
  rewrite N.shiftr_shiftr. f_equal. lia.
Qed.

(** ** The table does eight shifts at once *)

Lemma bits_high_of_mul_pow2 x i n : (i < n)%N → N.testbit (N.shiftl x n) i = false.
Proof. intros. by rewrite N.shiftl_spec_low. Qed.

Lemma split_low_byte x :
  x = N.lxor (N.land x 0xFF) (N.shiftl (N.shiftr x 8) 8).
Proof.
  apply N.bits_inj. intros i. rewrite N.lxor_spec, N.land_spec.
  replace 0xFF%N with (N.ones 8) by done.
  destruct (N.lt_ge_cases i 8) as [Hi|Hi].
  - rewrite N.ones_spec_low, N.shiftl_spec_low, andb_true_r, xorb_false_r by done. done.
  - rewrite N.ones_spec_high, N.shiftl_spec_high', N.shiftr_spec' by done.
    rewrite andb_false_r, xorb_false_l. f_equal. lia.
Qed.

Lemma shiftr_shiftl_8 x : x = N.shiftr (N.shiftl x 8) (N.of_nat 8).
Proof.
  change (N.of_nat 8) with 8%N. rewrite N.shiftr_shiftl_l by done.
  by rewrite N.shiftl_0_r.
Qed.

Lemma byte_shiftr8 c : N.shiftr (N_of_ascii c) 8 = 0%N.
Proof.
  rewrite N.shiftr_div_pow2. apply N.div_small. apply ascii_N_lt.
Qed.

Lemma init_table_ok st :
  statics_ok st →
  crc32c_table (init_table st) = built_table ∧
  table_initialized (init_table st) = true.
Proof.
  unfold statics_ok, init_table. intros H.
  destruct (table_initialized st) eqn:E; [|done]. auto.
Qed.

Lemma crc_byte_serial crc c :
  crc_byte built_table crc c = crc_serial_byte crc c.
Proof.
  unfold crc_byte, crc_serial_byte, built_table.
  set (x := N.lxor crc (N_of_ascii c)).
  assert (N.shiftr crc 8 = N.shiftr x 8) as ->
    by (unfold x; by rewrite N.shiftr_lxor, byte_shiftr8, N.lxor_0_r).
  assert (N.land x 0xFF < 256)%N as Hlow.
  { replace 0xFF%N with (N.ones 8) by done. rewrite N.land_ones. by apply N.mod_lt. }
  rewrite !list_lookup_fmap, lookup_seq_lt by lia. cbn [fmap option_fmap option_map default].
  rewrite Nat.add_0_l, N2Nat.id.
  rewrite (split_low_byte x) at 3. rewrite iter_shift_lxor. unfold table_entry. f_equal.
  rewrite iter_shift_high by (intros; by apply bits_high_of_mul_pow2).
  apply shiftr_shiftl_8.
Qed.

Lemma foldl_crc_byte_serial crc data :
  foldl (crc_byte built_table) crc data =
  foldl crc_serial_byte crc data.
Proof.
  revert crc. induction data as [|c data IH]; intros crc; [done|].
  cbn. by rewrite crc_byte_serial, IH.
Qed.

Lemma Crc32c_run_serial data st :
  statics_ok st →
  (Crc32c_run data st).1 = crc_serial data ∧
  table_initialized (Crc32c_run data st).2 = true ∧
  crc32c_table (Crc32c_run data st).2 = built_table.
Proof.
  intros [Ht Hi]%init_table_ok. unfold Crc32c_run. cbn [fst snd].
  by rewrite Ht, foldl_crc_byte_serial.
Qed.

Lemma Crc32c_serial data : Crc32c data = crc_serial data.
Proof. by apply Crc32c_run_serial. Qed.

Lemma Extend_serial crc data :
  Extend crc data =
  N.lxor (foldl crc_serial_byte (N.lxor crc 0xFFFFFFFF) data) 0xFFFFFFFF.
Proof.
  unfold Extend, Extend_run.
  destruct (init_table_ok statics_init) as [Ht _]; [done|].
  cbn -[init_table]. by rewrite Ht, foldl_crc_byte_serial.
Qed.

(** ** Blocks of bytes as one word *)

Lemma le_decode_cons_lxor c b :
  le_decode (c :: b) = N.lxor (N_of_ascii c) (N.shiftl (le_decode b) 8).
Proof.
  cbn [le_decode]. rewrite N.shiftl_mul_pow2, (N.mul_comm 256).
  change (2 ^ 8)%N with 256%N. symmetry. rewrite <- N.add_nocarry_lxor; [done|].
  apply N.bits_inj_0. intros i. rewrite N.land_spec.
  destruct (N.lt_ge_cases i 8).
  - change 256%N with (2 ^ 8)%N. rewrite N.mul_pow2_bits_low by done. apply andb_false_r.
  - destruct (decide (N_of_ascii c = 0)%N) as [->|]; [by rewrite N.bits_0|].
    rewrite N.bits_above_log2; [done|]. pose proof (ascii_N_lt c) as Hc.
    change 256%N with (2 ^ 8)%N in Hc. apply N.log2_lt_pow2 in Hc; lia.
Qed.

Lemma foldl_crc_serial_block s b :
  foldl crc_serial_byte s b =
  Nat.iter (8 * length b) crc_shift (N.lxor s (le_decode b)).
Proof.
  revert s. induction b as [|c b IH]; intros s; [cbn; by rewrite N.lxor_0_r|].
  cbn [foldl length]. rewrite IH, le_decode_cons_lxor.
  replace (8 * S (length b)) with (8 * length b + 8) by lia.
  rewrite Nat.iter_add. f_equal. unfold crc_serial_byte.
  rewrite <- N.lxor_assoc, (iter_shift_lxor 8 (N.lxor _ _)). f_equal.
  rewrite iter_shift_high by (intros; by apply bits_high_of_mul_pow2).
  rewrite <- shiftr_shiftl_8. done.
Qed.

Lemma foldl_crc_serial_word32 s b : word32 s → word32 (foldl crc_serial_byte s b).
Proof.
  revert s. induction b as [|c b IH]; intros s Hs; [done|]. cbn [foldl]. apply IH.
  unfold crc_serial_byte.
  apply iter_shift_word32, word32_lxor; [done|apply word32_byte].
Qed.

Lemma foldl_crc_serial_inj s1 s2 b :
  word32 s1 → word32 s2 →
  foldl crc_serial_byte s1 b = foldl crc_serial_byte s2 b → s1 = s2.
Proof.
  revert s1 s2. induction b as [|c b IH]; intros s1 s2 H1 H2 H; [done|].
  cbn [foldl] in H. apply IH in H; [|by apply (foldl_crc_serial_word32 _ [c])..].
  apply iter_shift_inj in H; [|by apply word32_lxor, word32_byte..].
  rewrite <- (N.lxor_0_r s1), <- (N.lxor_0_r s2), <- (N.lxor_nilpotent (N_of_ascii c)).
  by rewrite <- !N.lxor_assoc, H.
Qed.

Lemma le_decode_word32 b : length b ≤ 4 → word32 (le_decode b).
Proof.
  intros Hl. pose proof (le_decode_lt b) as H. unfold word32.
  eapply N.lt_le_trans; [done|].
  change (2 ^ 32)%N with (256 ^ 4)%N. apply N.pow_le_mono_r; lia.
Qed.

Lemma foldl_crc_serial_window s b1 b2 :
  word32 s → length b1 = length b2 → length b1 ≤ 4 →
  foldl crc_serial_byte s b1 = foldl crc_serial_byte s b2 → b1 = b2.
Proof.
  intros Hs Hl H4. rewrite !foldl_crc_serial_block, <- Hl.
  intros H%iter_shift_inj;
    [|apply word32_lxor; [done|]; apply le_decode_word32; lia..].
  rewrite <- (le_encode_decode b1), <- (le_encode_decode b2), <- Hl. f_equal.
  rewrite <- (N.lxor_0_l (le_decode b1)), <- (N.lxor_0_l (le_decode b2)).
  by rewrite <- (N.lxor_nilpotent s), !N.lxor_assoc, H.
Qed.

Lemma crc_serial_word32 data : word32 (crc_serial data).
Proof. apply word32_lxor; [by apply foldl_crc_serial_word32|done]. Qed.

Lemma crc_serial_burst pre mid mid' post :
  length mid = length mid' → length mid ≤ 4 →
  crc_serial (pre ++ mid ++ post) = crc_serial (pre ++ mid' ++ post) → mid = mid'.
Proof.
  intros Hl H4 H. unfold crc_serial in H. rewrite !foldl_app in H.
  assert (word32 (foldl crc_serial_byte 0xFFFFFFFF%N pre)) as Hw
    by (by apply foldl_crc_serial_word32).
  eapply foldl_crc_serial_window; [exact Hw|done|done|].
  eapply foldl_crc_serial_inj; [by apply foldl_crc_serial_word32..|].
  rewrite <- (N.lxor_0_r (foldl _ _ post)), <- (N.lxor_nilpotent 0xFFFFFFFF) at 1.
  rewrite <- N.lxor_assoc, H, N.lxor_assoc, N.lxor_nilpotent. apply N.lxor_0_r.
Qed.

Lemma Crc32c_lt data : (Crc32c data < 2 ^ 32)%N.
Proof. rewrite Crc32c_serial. apply crc_serial_word32. Qed.

(** ** Properties *)

(** C20. The table-driven Crc32c, whether the table is already built or not,
    computes the bit-serial CRC with the reflected Castagnoli polynomial;
    afterwards the flag says that the table is initialised, and every entry of
    it is the one init_table computes. *)
Theorem Crc32c_is_bit_serial_crc (data : bytes) (st : statics) (H : statics_ok st) :
  (Crc32c_run data st).1 = crc_serial data ∧
  table_initialized (Crc32c_run data st).2 = true ∧
  crc32c_table (Crc32c_run data st).2 = built_table.
Proof. by apply Crc32c_run_serial. Qed.

Lemma Crc32c_is_bit_serial_crc_witness :
  table_initialized (Crc32c_run (bytes_of "a") statics_init).2 = true ∧
  (Crc32c_run (bytes_of "123456789") statics_init).1 = 0xE3069283%N.
Proof.
  split; [apply (Crc32c_is_bit_serial_crc (bytes_of "a") statics_init); done|].
  rewrite (proj1 (Crc32c_is_bit_serial_crc (bytes_of "123456789") statics_init ltac:(done))).
  vm_compute. reflexivity.
Defined.

(** Extending the checksum of one buffer by another gives the checksum of their
    concatenation. *)
Theorem Extend_continues_Crc32c (a b : bytes) :
  Extend (Crc32c a) b = Crc32c (a ++ b).
Proof.
  rewrite Extend_serial, !Crc32c_serial. unfold crc_serial.
  by rewrite foldl_app, N.lxor_assoc, N.lxor_nilpotent, N.lxor_0_r.
Qed.

(** C21. Two buffers of equal length that differ only within four consecutive
    bytes have different checksums. *)
Theorem Crc32c_detects_burst (pre mid mid' post : bytes)
    (Hlen : length mid = length mid') (H4 : length mid ≤ 4) (Hne : mid ≠ mid') :
  Crc32c (pre ++ mid ++ post) ≠ Crc32c (pre ++ mid' ++ post).
Proof. rewrite !Crc32c_serial. by intros ?%crc_serial_burst. Qed.

Lemma Crc32c_detects_burst_witness :
  Crc32c (bytes_of "a" ++ bytes_of "pay!" ++ bytes_of "z") ≠
  Crc32c (bytes_of "a" ++ bytes_of "PAID" ++ bytes_of "z").
Proof.
  apply Crc32c_detects_burst; [reflexivity|cbn; lia|vm_compute; discriminate].
Defined.
