(* ===== verification/MemTable.v ===== *)
(** * MemTable: the in-memory table of [src/storage/memtable.cpp]

    Every method of [MemTable] holds its own mutex for its whole body and calls
    no other method of the object, so a method is one atomic transformation of
    the state below; the engine's own mutex is modelled in [LSMTree]. *)

From Stdlib Require Import Ascii String ZArith NArith Lia.
From stdpp Require Import base numbers list strings gmap.
From S2P Require Import Prelude Bytes OrdMap Types.

Abbreviation kv := (MultiLevelKey * DataEntry)%type.
Abbreviation kv_map := (list (MultiLevelKey * DataEntry)).

Record MemTable := MkMemTable {
  data_ : kv_map;
  memory_usage_ : N
}.

Definition MemTable_new : MemTable := MkMemTable [] 0.

(** [key.to_string().size()]. *)
Definition key_size (k : MultiLevelKey) : N := N.of_nat (String.length (key_to_string k)).
Definition value_size (e : DataEntry) : N := N.of_nat (String.length (value e)).

Definition entry_size (k : MultiLevelKey) (e : DataEntry) : N :=
  key_size k + value_size e + sizeof_DataEntry.

Definition memtable_get (key : MultiLevelKey) (mt : MemTable) : Result DataEntry :=
  match omap_find key_ltb key (data_ mt) with
  | None => RErr Status.NOT_FOUND "Key not found in memtable"
  | Some e =>
      if deleted e then RErr Status.NOT_FOUND "Key is marked as deleted"
      else ROk e
  end.

Definition memtable_put (key : MultiLevelKey) (entry : DataEntry) (mt : MemTable) :
    Result unit * MemTable :=
  if (MAX_KEY_SIZE <? key_size key)%N
  then (RErr Status.INVALID_ARGUMENT "Key size exceeds limit", mt)
  else if (MAX_VALUE_SIZE <? value_size entry)%N
  then (RErr Status.INVALID_ARGUMENT "Value size exceeds limit", mt)
  else
    let new_entry_size := entry_size key entry in
    let old_entry_size :=
      match omap_find key_ltb key (data_ mt) with
      | Some old => entry_size key old
      | None => 0%N
      end in
    (ROk tt,
     MkMemTable (omap_insert key_ltb key entry (data_ mt))
       (sub64 (add64 (memory_usage_ mt) new_entry_size) old_entry_size)).

Definition memtable_remove (now : Z) (key : MultiLevelKey) (mt : MemTable) :
    Result unit * MemTable :=
  match omap_find key_ltb key (data_ mt) with
  | None =>
      let delete_entry := mark_deleted now (DataEntry_default now) in
      (ROk tt,
       MkMemTable (omap_insert key_ltb key delete_entry (data_ mt))
         (add64 (memory_usage_ mt) (key_size key + sizeof_DataEntry)))
  | Some e =>
      (ROk tt,
       MkMemTable (omap_insert key_ltb key (mark_deleted now e) (data_ mt))
         (memory_usage_ mt))
  end.

(** The loop [for (it = start_it; it != end_it && count < limit; ++it, ++count)]:
    [rest] is the sequence from [it] on, so [None] is a dereference of [end()]. *)
Fixpoint scan_loop (rest : kv_map) (it end_it : nat) (count limit : N) : option kv_map :=
  if decide (it = end_it) then Some []
  else if (limit <=? count)%N then Some []
  else match rest with
       | [] => None
       | (k, e) :: rest =>
           results ← scan_loop rest (S it) end_it (count + 1)%N limit;
           Some (if deleted e then results else (k, e) :: results)
       end.

(** [start_it] and [end_it] after the two adjustments. *)
Definition scan_start (query : RangeQuery) (data : kv_map) : nat :=
  let start_it := omap_lower_bound key_ltb (start_key query) data in
  match data !! start_it with
  | Some (k, _) =>
      if negb (inclusive_start query) && key_eqb k (start_key query)
      then S start_it else start_it
  | None => start_it
  end.

Definition scan_end (query : RangeQuery) (data : kv_map) : nat :=
  let end_it := omap_upper_bound key_ltb (end_key query) data in
  match data !! end_it with
  | Some (k, _) =>
      if inclusive_end query && key_eqb k (end_key query)
      then S end_it else end_it
  | None => end_it
  end.

Definition memtable_range_scan (query : RangeQuery) (mt : MemTable) :
    outcome MemTable (Result kv_map) :=
  let start_it := scan_start query (data_ mt) in
  let end_it := scan_end query (data_ mt) in
  match scan_loop (drop start_it (data_ mt)) start_it end_it 0 (limit query) with
  | Some results => Returns (ROk results) mt
  | None => Undefined PastEnd
  end.

Definition memtable_size (mt : MemTable) : nat := length (data_ mt).

Definition should_flush (mt : MemTable) : bool :=
  (MEMTABLE_SIZE_LIMIT <=? memory_usage_ mt)%N.

Definition memtable_clear (mt : MemTable) : MemTable := MkMemTable [] 0.

(** ** Invariant and abstract view *)

Definition memtable_view (mt : MemTable) (k : MultiLevelKey) : option DataEntry :=
  omap_find key_ltb k (data_ mt).

(** The bytes the accounting of [put] and [remove] stands for. *)
Definition footprint (data : kv_map) : N :=
  foldr (λ p n, (entry_size p.1 p.2 + n)%N) 0%N data.

Record memtable_inv (mt : MemTable) : Prop := {
  inv_sorted : omap_sorted key_ltb (data_ mt) = true;
  inv_memory : memory_usage_ mt = wrap64 (footprint (data_ mt))
}.

(** The keys of a scan: from the start key, counted in or not, up to the end
    key, which counts in whatever [inclusive_end] says. *)
Definition between_keys (query : RangeQuery) (k : MultiLevelKey) : Prop :=
  (if inclusive_start query then key_ltb k (start_key query) = false
   else key_ltb (start_key query) k = true) ∧
  key_ltb (end_key query) k = false.

#[export] Instance between_keys_dec query k : Decision (between_keys query k).
Proof. unfold between_keys. destruct (inclusive_start query); apply _. Defined.

Definition live (p : kv) : Prop := deleted p.2 = false.

(** ** Memory accounting *)

Lemma footprint_cons k e data :
  footprint ((k, e) :: data) = (entry_size k e + footprint data)%N.
Proof. done. Qed.

Lemma footprint_insert k e data :
  omap_sorted key_ltb data = true →
  (footprint (omap_insert key_ltb k e data) +
    match omap_find key_ltb k data with Some old => entry_size k old | None => 0 end =
   footprint data + entry_size k e)%N.
Proof.
  induction data as [|[k' e'] data IH]; intros Hs.
  { cbn [omap_insert omap_find]. rewrite footprint_cons. lia. }
  apply omap_sorted_cons in Hs as [_ Hs]. specialize (IH Hs).
  cbn [omap_insert omap_find].
  destruct (key_ltb k k') eqn:E1; [rewrite !footprint_cons; lia|].
  destruct (key_ltb k' k) eqn:E2.
  - rewrite !footprint_cons. destruct (omap_find key_ltb k data); lia.
  - rewrite (ltb_total k k' E1 E2), !footprint_cons. lia.
Qed.

Lemma wrap64_add_l x y : wrap64 (wrap64 x + y) = wrap64 (x + y).
Proof. unfold wrap64. by rewrite N.Div0.add_mod_idemp_l. Qed.

Lemma sub64_wrap x z : (z ≤ x)%N → sub64 (wrap64 x) z = wrap64 (x - z).
Proof.
  unfold sub64. intros Hz.
  pose proof (N.Div0.div_mod z (2 ^ 64)) as Hd. unfold wrap64.
  assert ((z `mod` 2 ^ 64 < 2 ^ 64)%N) as Hr by (by apply N.mod_lt).
  set (B := (2 ^ 64)%N) in *. set (q := (z / B)%N) in *.
  set (r := (z `mod` B)%N) in *. clearbody B q r.
  assert ((x - z) `mod` B = (x + (B - r)) `mod` B)%N as ->.
  { rewrite <- (N.Div0.mod_add (x - z) (q + 1)). f_equal. lia. }
  rewrite <- (N.Div0.add_mod_idemp_l x). f_equal. generalize (x `mod` B)%N. lia.
Qed.

Lemma memory_update x new old :
  (old ≤ x + new)%N →
  sub64 (add64 (wrap64 x) new) old = wrap64 (x + new - old).
Proof. intros. unfold add64. rewrite wrap64_add_l. by apply sub64_wrap. Qed.

(** ** Operations on the view *)

Lemma memtable_put_cases key entry mt :
  (memtable_put key entry mt =
     (RErr Status.INVALID_ARGUMENT "Key size exceeds limit", mt) ∧
   (MAX_KEY_SIZE < key_size key)%N) ∨
  (memtable_put key entry mt =
     (RErr Status.INVALID_ARGUMENT "Value size exceeds limit", mt) ∧
   (key_size key ≤ MAX_KEY_SIZE)%N ∧ (MAX_VALUE_SIZE < value_size entry)%N) ∨
  (is_ok (memtable_put key entry mt).1 = true ∧
   (key_size key ≤ MAX_KEY_SIZE)%N ∧ (value_size entry ≤ MAX_VALUE_SIZE)%N ∧
   data_ (memtable_put key entry mt).2 = omap_insert key_ltb key entry (data_ mt)).
Proof.
  unfold memtable_put.
  destruct (N.ltb_spec MAX_KEY_SIZE (key_size key)); [by left|right].
  destruct (N.ltb_spec MAX_VALUE_SIZE (value_size entry)); [by left|by right].
Qed.

Lemma memtable_put_inv key entry mt :
  memtable_inv mt → memtable_inv (memtable_put key entry mt).2.
Proof.
  intros [Hs Hm]. unfold memtable_put.
  destruct (_ <? _)%N; [done|]. destruct (_ <? _)%N; [done|].
  pose proof (footprint_insert key entry _ Hs) as Hf.
  split; cbn [data_ memory_usage_ snd]; [by apply omap_insert_sorted|].
  rewrite Hm, memory_update; [f_equal|]; destruct (omap_find key_ltb key (data_ mt)); lia.
Qed.

Lemma entry_size_mark_deleted now k e :
  entry_size k (mark_deleted now e) = entry_size k e.
Proof. done. Qed.

Lemma memtable_remove_inv now key mt :
  memtable_inv mt → memtable_inv (memtable_remove now key mt).2.
Proof.
  intros [Hs Hm]. unfold memtable_remove.
  destruct (omap_find key_ltb key (data_ mt)) as [e|] eqn:E;
    split; cbn [data_ memory_usage_ snd]; try (by apply omap_insert_sorted).
  - pose proof (footprint_insert key (mark_deleted now e) _ Hs) as Hf.
    rewrite E, entry_size_mark_deleted in Hf. rewrite Hm. f_equal. lia.
  - pose proof (footprint_insert key (mark_deleted now (DataEntry_default now)) _ Hs) as Hf.
    rewrite E in Hf. unfold add64. rewrite Hm, wrap64_add_l. f_equal.
    unfold entry_size, value_size in Hf. cbn -[N.add] in Hf. lia.
Qed.

Lemma memtable_view_put key entry mt k :
  memtable_inv mt → is_ok (memtable_put key entry mt).1 = true →
  memtable_view (memtable_put key entry mt).2 k =
    if decide (k = key) then Some entry else memtable_view mt k.
Proof.
  intros [Hs _] Hok. unfold memtable_view.
  destruct (memtable_put_cases key entry mt) as [[H _]|[[H _]|(_ & _ & _ & H)]];
    [by rewrite H in Hok..|]. rewrite H.
  case_decide; [subst; by apply omap_find_insert_eq|by apply omap_find_insert_ne].
Qed.

Lemma memtable_view_remove now key mt k :
  memtable_inv mt →
  memtable_view (memtable_remove now key mt).2 k =
    if decide (k = key)
    then Some (mark_deleted now (default (DataEntry_default now) (memtable_view mt key)))
    else memtable_view mt k.
Proof.
  intros [Hs _]. unfold memtable_view, memtable_remove.
  destruct (omap_find key_ltb key (data_ mt)); cbn [data_ snd];
    (case_decide; [subst; by apply omap_find_insert_eq|by apply omap_find_insert_ne]).
Qed.

Lemma memtable_get_view key mt :
  data_of (memtable_get key mt) =
    match memtable_view mt key with
    | Some e => if deleted e then None else Some e
    | None => None
    end.
Proof.
  unfold memtable_get, memtable_view.
  destruct (omap_find _ _ _) as [e|]; [|done]. by destruct (deleted e).
Qed.

(** ** Range scans *)

Lemma scan_loop_spec rest it end_it count limit :
  it ≤ end_it → end_it - it ≤ length rest →
  scan_loop rest it end_it count limit =
    Some (filter live (take ((end_it - it) `min` N.to_nat (limit - count)) rest)).
Proof.
  revert it count. induction rest as [|[k e] rest IH]; intros it count Hle Hlen;
    cbn [scan_loop].
  - cbn in Hlen. rewrite decide_True by lia. by rewrite take_nil.
  - case_decide.
    { subst. by rewrite Nat.sub_diag. }
    destruct (N.leb_spec limit count).
    { replace (N.to_nat (limit - count)) with 0 by lia.
      by rewrite Nat.min_0_r. }
    cbn in Hlen. rewrite IH by lia. cbn [mbind option_bind].
    replace ((end_it - it) `min` N.to_nat (limit - count))
      with (S ((end_it - S it) `min` N.to_nat (limit - (count + 1)))) by lia.
    cbn [take]. destruct (deleted e) eqn:E.
    + rewrite filter_cons_False; [done|]. unfold live. cbn. by rewrite E.
    + by rewrite filter_cons_True.
Qed.

Lemma scan_start_prefix query data :
  omap_sorted key_ltb data = true →
  scan_start query data =
    prefix_length (λ p, if inclusive_start query then key_ltb p.1 (start_key query)
                        else negb (key_ltb (start_key query) p.1)) data.
Proof.
  unfold scan_start. generalize (start_key query) as a. intros a Hs.
  rewrite omap_lower_bound_prefix. destruct (inclusive_start query); cbn [negb andb].
  { by destruct (data !! _) as [[??]|]. }
  induction data as [|[k e] data IH]; [done|]. cbn [prefix_length fst].
  pose proof Hs as [Ha Hs']%omap_sorted_cons. specialize (IH Hs').
  destruct (key_ltb k a) eqn:E1.
  - rewrite (ltb_asym _ _ E1). cbn [negb lookup list_lookup]. rewrite <- IH.
    destruct (data !! _) as [[k' ?]|]; [|done]. by destruct (key_eqb k' a).
  - cbn. destruct (key_eqb k a) eqn:E2.
    + apply key_eqb_eq in E2 as ->. rewrite ltb_irrefl. cbn. f_equal.
      destruct data as [|[k' e'] data]; [done|]. cbn.
      apply all_above_cons in Ha as [-> _]. done.
    + destruct (key_ltb a k) eqn:E3; [done|]. exfalso.
      assert (k = a) as -> by (by apply ltb_total).
      assert (key_eqb a a = true) by (by apply key_eqb_eq). congruence.
Qed.

(** The adjustment for [inclusive_end] never fires: the key at an upper bound
    is greater than the end key. *)
Lemma scan_end_prefix query data :
  omap_sorted key_ltb data = true →
  scan_end query data = prefix_length (λ p, negb (key_ltb (end_key query) p.1)) data.
Proof.
  intros Hs. unfold scan_end. rewrite omap_upper_bound_prefix.
  set (P := λ p : kv, negb (key_ltb (end_key query) p.1)).
  destruct (data !! prefix_length P data) as [[k e]|] eqn:E; [|done].
  pose proof (not_above_partitioned data (end_key query) Hs _ _ E) as H. cbn in H.
  rewrite bool_decide_false in H by apply Nat.lt_irrefl. apply negb_false_iff in H.
  destruct (key_eqb k (end_key query)) eqn:E2; [|by rewrite andb_false_r].
  apply key_eqb_eq in E2 as ->. by rewrite ltb_irrefl in H.
Qed.

Lemma between_keys_filter query data :
  omap_sorted key_ltb data = true →
  filter (λ p, between_keys query p.1) data =
  take (scan_end query data - scan_start query data) (drop (scan_start query data) data).
Proof.
  intros Hs. rewrite scan_start_prefix, scan_end_prefix by done.
  rewrite <- filter_between; [| |by apply not_above_partitioned].
  - apply list_filter_iff. intros [k e]. unfold between_keys. cbn.
    destruct (inclusive_start query).
    + destruct (key_ltb k (start_key query)), (key_ltb (end_key query) k); naive_solver.
    + destruct (key_ltb (start_key query) k), (key_ltb (end_key query) k); naive_solver.
  - destruct (inclusive_start query);
      [by apply below_partitioned|by apply not_above_partitioned].
Qed.

Lemma prefix_length_mono {A} (P Q : A → bool) (l : list A) :
  (∀ x, P x = true → Q x = true) → prefix_length P l ≤ prefix_length Q l.
Proof.
  intros H. induction l as [|x l IH]; cbn; [done|].
  destruct (P x) eqn:E; [rewrite (H x E); lia|lia].
Qed.

Lemma scan_start_le_end query data :
  omap_sorted key_ltb data = true → key_ltb (end_key query) (start_key query) = false →
  scan_start query data ≤ scan_end query data.
Proof.
  intros Hs Hle. rewrite scan_start_prefix, scan_end_prefix by done.
  apply prefix_length_mono. intros [k e]. cbn. rewrite negb_true_iff.
  destruct (inclusive_start query); [|rewrite negb_true_iff]; intros H.
  - destruct (key_ltb (end_key query) k) eqn:E; [|done].
    by rewrite (ltb_trans _ _ _ E H) in Hle.
  - destruct (key_ltb (end_key query) k) eqn:E; [|done].
    destruct (key_ltb k (start_key query)) eqn:E2.
    + by rewrite (ltb_trans _ _ _ E E2) in Hle.
    + rewrite (ltb_total _ _ H E2) in Hle. congruence.
Qed.

Lemma memtable_range_scan_spec query mt :
  memtable_inv mt → key_ltb (end_key query) (start_key query) = false →
  memtable_range_scan query mt =
    Returns (ROk (filter live (take (N.to_nat (limit query))
                    (filter (λ p, between_keys query p.1) (data_ mt))))) mt.
Proof.
  intros [Hs _] Hle. unfold memtable_range_scan.
  pose proof (scan_start_le_end query _ Hs Hle).
  assert (scan_end query (data_ mt) ≤ length (data_ mt))
    by (rewrite scan_end_prefix by done; apply prefix_length_le).
  rewrite scan_loop_spec; [|lia|rewrite length_drop; lia].
  rewrite between_keys_filter, take_take, N.sub_0_r by done.
  by rewrite Nat.min_comm.
Qed.

(** ** Runs of operations and their abstract specification *)

Inductive memtable_op :=
  | OpPut (key : MultiLevelKey) (entry : DataEntry)
  | OpRemove (now : Z) (key : MultiLevelKey)
  | OpClear.

Definition memtable_exec (mt : MemTable) (op : memtable_op) : MemTable :=
  match op with
  | OpPut key entry => (memtable_put key entry mt).2
  | OpRemove now key => (memtable_remove now key mt).2
  | OpClear => memtable_clear mt
  end.

(** What a table promises: a finite map, where [put] is refused beyond the size
    limits and [remove] leaves a tombstone that keeps the old value. *)
Definition spec_exec (m : gmap MultiLevelKey DataEntry) (op : memtable_op) :
    gmap MultiLevelKey DataEntry :=
  match op with
  | OpPut key entry =>
      if decide (key_size key ≤ MAX_KEY_SIZE ∧ value_size entry ≤ MAX_VALUE_SIZE)%N
      then <[key := entry]> m else m
  | OpRemove now key =>
      <[key := mark_deleted now (default (DataEntry_default now) (m !! key))]> m
  | OpClear => ∅
  end.

Lemma memtable_new_inv : memtable_inv MemTable_new.
Proof. by split. Qed.

Lemma memtable_exec_inv mt op : memtable_inv mt → memtable_inv (memtable_exec mt op).
Proof.
  destruct op; cbn; [apply memtable_put_inv|apply memtable_remove_inv|].
  intros _. apply memtable_new_inv.
Qed.

Lemma memtable_runs_inv mt ops :
  memtable_inv mt → memtable_inv (foldl memtable_exec mt ops).
Proof.
  revert mt. induction ops as [|op ops IH]; intros mt Hmt; [done|].
  by apply IH, memtable_exec_inv.
Qed.

Lemma memtable_exec_refines mt m op :
  memtable_inv mt → (∀ k, memtable_view mt k = m !! k) →
  ∀ k, memtable_view (memtable_exec mt op) k = spec_exec m op !! k.
Proof.
  intros Hi Hv k. destruct op as [key entry|now key|]; cbn [memtable_exec spec_exec].
  - destruct (memtable_put_cases key entry mt) as [[H ?]|[[H ?]|(Hok & ? & ? & _)]].
    + rewrite H, decide_False by lia. apply Hv.
    + rewrite H, decide_False by lia. apply Hv.
    + rewrite decide_True, memtable_view_put, lookup_insert by done.
      repeat case_decide; congruence || auto.
  - rewrite memtable_view_remove, lookup_insert, Hv by done.
    repeat case_decide; congruence || auto.
  - by rewrite lookup_empty.
Qed.

(** ** Properties *)

(** After any run of put, remove and clear the entries are strictly sorted by
    key and memory_usage_ is the total size of the entries modulo 2^64. *)
Theorem memtable_runs_keep_invariant (ops : list memtable_op) :
  memtable_inv (foldl memtable_exec MemTable_new ops).
Proof. apply memtable_runs_inv, memtable_new_inv. Qed.

(** C12. After any run of put, remove and clear on a new memtable the table is
    the finite map obtained by the specification: put inserts unless a size
    limit refuses it, remove leaves a tombstone that keeps the old value. *)
Theorem memtable_runs_refine_map (ops : list memtable_op) (k : MultiLevelKey) :
  memtable_view (foldl memtable_exec MemTable_new ops) k =
  foldl spec_exec (∅ : gmap MultiLevelKey DataEntry) ops !! k.
Proof.
  assert (∀ mt m, memtable_inv mt → (∀ k, memtable_view mt k = m !! k) →
    memtable_view (foldl memtable_exec mt ops) k = foldl spec_exec m ops !! k) as H.
  { induction ops as [|op ops IH]; intros mt m Hi Hv; [apply Hv|].
    apply IH; [by apply memtable_exec_inv|by apply memtable_exec_refines]. }
  apply H; [apply memtable_new_inv|]. intros k'. by rewrite lookup_empty.
Qed.

(** With start_key not above end_key, a memtable scan returns, in order, the
    live ones among the first `limit` entries in the range, and the end key is
    included whatever inclusive_end says. *)
Theorem memtable_range_scan_correct (query : RangeQuery) (mt : MemTable)
    (Hinv : memtable_inv mt)
    (Hle : key_ltb (end_key query) (start_key query) = false) :
  memtable_range_scan query mt =
    Returns (ROk (filter live (take (N.to_nat (limit query))
                    (filter (λ p, between_keys query p.1) (data_ mt))))) mt.
Proof. by apply memtable_range_scan_spec. Qed.

Definition sample_table : MemTable :=
  foldl memtable_exec MemTable_new
    [OpPut (MkKey "a" "1") (MkEntry "x" 1 5 false);
     OpPut (MkKey "c" "1") (MkEntry "z" 1 5 false);
     OpPut (MkKey "b" "1") (MkEntry "y" 1 5 false);
     OpRemove 0 (MkKey "b" "1")].

Lemma memtable_range_scan_correct_witness :
  memtable_range_scan (MkRange (MkKey "a" "1") (MkKey "c" "1") 10 false false)
    sample_table =
  Returns (ROk [(MkKey "c" "1", MkEntry "z" 1 5 false)]) sample_table.
Proof.
  rewrite (memtable_range_scan_correct
    (MkRange (MkKey "a" "1") (MkKey "c" "1") 10 false false) sample_table
    (memtable_runs_inv _ _ memtable_new_inv) eq_refl).
  vm_compute. reflexivity.
Defined.

(** The default of [inclusive_end] is [false], yet the end key is returned
    whatever the flag says. *)
Lemma memtable_range_scan_ignores_inclusive_end query mt b :
  memtable_inv mt →
  memtable_range_scan
    (MkRange (start_key query) (end_key query) (limit query) (inclusive_start query) b) mt =
  memtable_range_scan query mt.
Proof.
  intros [Hs _]. unfold memtable_range_scan. by rewrite !scan_start_prefix, !scan_end_prefix.
Qed.

(** A memtable scan whose end position lies before its start position walks past
    the end of the map unless the limit stops it. *)
Theorem memtable_inverted_range_undefined (query : RangeQuery) (mt : MemTable)
    (Hinv : memtable_inv mt)
    (Hgt : scan_end query (data_ mt) < scan_start query (data_ mt))
    (Hlim : (N.of_nat (length (data_ mt)) < limit query)%N) :
  memtable_range_scan query mt = Undefined PastEnd.
Proof.
  unfold memtable_range_scan.
  assert (∀ rest it count, scan_end query (data_ mt) < it →
    (count + N.of_nat (length rest) < limit query)%N →
    scan_loop rest it (scan_end query (data_ mt)) count (limit query) = None) as H.
  { induction rest as [|[k e] rest IH]; intros it count Hit Hc; cbn [scan_loop];
      rewrite decide_False by lia;
      destruct (N.leb_spec (limit query) count); [lia|done|lia|].
    cbn [length] in Hc. rewrite IH; [done|lia|lia]. }
  rewrite H; [done|done|]. rewrite length_drop. lia.
Qed.

Lemma memtable_inverted_range_undefined_witness :
  memtable_range_scan (RangeQuery_default (MkKey "c" "0") (MkKey "a" "0")) sample_table =
  Undefined PastEnd.
Proof.
  apply memtable_inverted_range_undefined.
  - apply memtable_runs_inv, memtable_new_inv.
  - vm_compute. lia.
  - vm_compute. reflexivity.
Defined.
