(* ===== verification/Files.v ===== *)
(** * Files: the disk, the clock and [std::fstream]

    The part of the outside world the storage engine touches.  A disk maps
    paths to contents; the operating system may refuse to open some paths.  A
    clock is the sequence of values the calls of [system_clock::now()] return,
    whatever they are, and a count of the calls made so far.

    A stream has one position, shared by reading and writing, and the state
    bits that decide whether its operations do anything.  What a process
    writes through a stream is in the file at once: the buffer between the
    two is not modelled. *)

From Stdlib Require Import Ascii String ZArith NArith Lia.
From stdpp Require Import base numbers list strings gmap.
From S2P Require Import Prelude Bytes.

Record Clock := MkClock {
  reading : nat → Z;
  ticks : nat
}.

(** [system_clock::now()]. *)
Definition tick (c : Clock) : Z * Clock :=
  (reading c (ticks c), MkClock (reading c) (S (ticks c))).

(** The same clock, perhaps some readings later. *)
Definition clock_after (c c' : Clock) : Prop :=
  reading c' = reading c ∧ ticks c ≤ ticks c'.

#[export] Instance clock_after_preorder : PreOrder clock_after.
Proof.
  split.
  - done.
  - intros a b c [H1 ?] [H2 ?]. split; [by rewrite H2|lia].
Qed.

Lemma clock_after_tick c : clock_after c (tick c).2.
Proof. split; cbn; [done|lia]. Qed.

(** On the states of a component that reads the clock: time only passes. *)
Definition later {S} (clock_of : S → Clock) : relation S :=
  λ s s', clock_after (clock_of s) (clock_of s').

#[export] Instance later_preorder {S} (clock_of : S → Clock) : PreOrder (later clock_of).
Proof.
  split; unfold later.
  - by intros s.
  - by intros s t u ->.
Qed.

Record World := MkWorld {
  files : gmap string bytes;
  refused : gset string;
  clock : Clock
}.

Definition set_files (f : gmap string bytes) (w : World) : World :=
  MkWorld f (refused w) (clock w).
Definition set_clock (c : Clock) (w : World) : World :=
  MkWorld (files w) (refused w) c.

Definition content (path : string) (w : World) : bytes := default [] (files w !! path).

Record fstream := MkStream {
  stream_open : bool;
  position : nat;
  failbit : bool;
  eofbit : bool
}.

(** A default-constructed stream: no file, no bit set. *)
Definition fstream_new : fstream := MkStream false 0 false false.

Definition good (st : fstream) : bool := negb (failbit st) && negb (eofbit st).

(** A stream on which reading and writing does something. *)
Definition usable (st : fstream) : bool := good st && stream_open st.

Definition set_failed (st : fstream) : fstream :=
  MkStream (stream_open st) (position st) true (eofbit st).

(** [open(path, in | out)]: the file must exist.  A failed [open] sets
    [failbit]; a successful one clears the state. *)
Definition open_inout (path : string) (w : World) (st : fstream) : fstream :=
  if stream_open st then set_failed st
  else if decide (path ∈ refused w) then set_failed st
  else match files w !! path with
       | Some _ => MkStream true 0 false false
       | None => set_failed st
       end.

(** [open(path, out)]: creates the file, or empties it. *)
Definition open_out (path : string) (w : World) (st : fstream) : fstream * World :=
  if stream_open st then (set_failed st, w)
  else if decide (path ∈ refused w) then (set_failed st, w)
  else (MkStream true 0 false false, set_files (<[path := []]> (files w)) w).

Definition close_stream (st : fstream) : fstream :=
  MkStream false (position st) (failbit st) (eofbit st).

(** [seekg(p)] clears [eofbit] first; neither seek moves a failed stream. *)
Definition seekg (p : nat) (st : fstream) : fstream :=
  if failbit st then MkStream (stream_open st) (position st) true false
  else MkStream (stream_open st) p false false.

Definition seekp_end (size : nat) (st : fstream) : fstream :=
  if failbit st then st
  else MkStream (stream_open st) size (failbit st) (eofbit st).

(** [read(buf, n)]: the bytes stored, [gcount()] of them.  A stream that is
    not good reads nothing; hitting the end sets both bits. *)
Definition stream_read (n : nat) (data : bytes) (st : fstream) : bytes * fstream :=
  if usable st then
    let got := take n (drop (position st) data) in
    let short := negb (bool_decide (length got = n)) in
    (got, MkStream (stream_open st) (position st + length got) short short)
  else ([], set_failed st).

(** The file after [bs] is put at position [p]. *)
Definition overwrite (p : nat) (bs data : bytes) : bytes :=
  take p data ++ replicate (p - length data) NUL ++ bs ++ drop (p + length bs) data.

(** [write(bs, n)] to the file at [path]: a stream that is not good writes
    nothing. *)
Definition stream_write (path : string) (bs : bytes) (w : World) (st : fstream) :
    fstream * World :=
  if usable st then
    (MkStream (stream_open st) (position st + length bs) false false,
     set_files (<[path := overwrite (position st) bs (content path w)]> (files w)) w)
  else (set_failed st, w).

(** ** Lemmas *)

Lemma overwrite_end bs data : overwrite (length data) bs data = data ++ bs.
Proof.
  unfold overwrite. rewrite firstn_all, Nat.sub_diag, drop_ge by lia.
  by rewrite app_nil_r.
Qed.

Lemma stream_read_enough n data st pre got post :
  usable st = true → data = pre ++ got ++ post →
  position st = length pre → n = length got →
  stream_read n data st = (got, MkStream true (length (pre ++ got)) false false).
Proof.
  intros Hg -> Hp ->. unfold stream_read. rewrite Hg, Hp.
  apply andb_true_iff in Hg as [_ ->].
  rewrite drop_app_length, take_app_length, bool_decide_true by done.
  by rewrite length_app.
Qed.

Lemma stream_read_short n data st :
  usable st = true → length data < position st + n → position st ≤ length data →
  stream_read n data st = (drop (position st) data, MkStream true (length data) true true).
Proof.
  intros Hg Hlt Hle. unfold stream_read. rewrite Hg.
  apply andb_true_iff in Hg as [_ ->].
  rewrite take_ge by (rewrite length_drop; lia).
  rewrite bool_decide_false by (rewrite length_drop; lia). cbn.
  do 2 f_equal. rewrite length_drop. lia.
Qed.

Lemma stream_read_not_usable n data st :
  usable st = false → stream_read n data st = ([], set_failed st).
Proof. unfold stream_read. by intros ->. Qed.

Lemma stream_write_not_usable path bs w st :
  usable st = false → stream_write path bs w st = (set_failed st, w).
Proof. unfold stream_write. by intros ->. Qed.

Lemma stream_write_end path bs w st :
  usable st = true → position st = length (content path w) →
  stream_write path bs w st =
    (MkStream true (length (content path w ++ bs)) false false,
     set_files (<[path := content path w ++ bs]> (files w)) w).
Proof.
  intros Hg Hp. unfold stream_write. rewrite Hg, Hp, overwrite_end, length_app.
  by apply andb_true_iff in Hg as [_ ->].
Qed.

Lemma content_insert path data w :
  content path (set_files (<[path := data]> (files w)) w) = data.
Proof. unfold content. cbn. by rewrite lookup_insert_eq. Qed.

Lemma content_insert_ne path path' data w :
  path ≠ path' →
  content path' (set_files (<[path := data]> (files w)) w) = content path' w.
Proof. intros. unfold content. cbn. by rewrite lookup_insert_ne. Qed.
