(* ===== verification/Wal.v ===== *)
(** * Wal: the write-ahead log of [src/storage/wal.cpp]

    The record format, the log file read and written through one
    [std::fstream], and recovery.  The state of a log is the outside world
    together with the fields of the object; the mutex is a field, because
    [truncate] calls [replay_from] with the mutex held. *)

From Stdlib Require Import Ascii String ZArith NArith Lia.
From stdpp Require Import base numbers list strings gmap pretty.
From S2P Require Import Prelude Bytes OrdMap Types Crc32c Files.

(** ** Entries *)

(** [enum class WALEntryType : uint8_t]: any byte is a value of the type, the
    program names four of them. *)
Module WALEntryType.
Definition t := N.
Definition PUT : t := 1%N.
Definition DELETE : t := 2%N.
Definition FLUSH : t := 3%N.
Definition CHECKPOINT : t := 4%N.
End WALEntryType.

Record WALEntry := MkWALEntry {
  entry_type : WALEntryType.t;
  entry_key : MultiLevelKey;
  entry_data : DataEntry;
  sequence_number : N;
  checksum : N
}.

(** [static_cast<char>(type)], eight bytes of sequence number, the two keys
    each ended by a NUL, the value. *)
Definition serialize (e : WALEntry) : bytes :=
  [ascii_of_N (entry_type e)] ++
  le_encode 8 (sequence_number e) ++
  bytes_of (primary_key (entry_key e)) ++ [NUL] ++
  bytes_of (secondary_key (entry_key e)) ++ [NUL] ++
  bytes_of (value (entry_data e)).

Definition set_checksum (c : N) (e : WALEntry) : WALEntry :=
  MkWALEntry (entry_type e) (entry_key e) (entry_data e) (sequence_number e) c.

Definition calculate_checksum (e : WALEntry) : WALEntry :=
  set_checksum (Crc32c (serialize e)) e.

Definition verify_checksum (e : WALEntry) : bool :=
  let entry_copy := set_checksum 0 e in
  bool_decide (Crc32c (serialize entry_copy) = checksum e).

(** The four-argument constructor. *)
Definition WALEntry_new (t : WALEntryType.t) (k : MultiLevelKey) (d : DataEntry)
    (seq : N) : WALEntry :=
  calculate_checksum (MkWALEntry t k d seq 0).

(** [now] is the clock reading of [DataEntry()], [junk] the value of the member
    [checksum], which neither the constructor nor this function initialises. *)
Definition deserialize (now : Z) (junk : N) (data : bytes) : Result WALEntry :=
  match data with
  | [] => RErr Status.INVALID_ARGUMENT "Empty data"
  | t :: rest =>
      if decide (length rest < 8)
      then RErr Status.INVALID_ARGUMENT "Invalid data format"
      else
        let sequence_number := le_decode (take 8 rest) in
        let rest := drop 8 rest in
        match find_byte NUL rest with
        | None => RErr Status.INVALID_ARGUMENT "Invalid key format"
        | Some null_pos =>
            let primary := string_of (take null_pos rest) in
            let rest := drop (S null_pos) rest in
            match find_byte NUL rest with
            | None => RErr Status.INVALID_ARGUMENT "Invalid key format"
            | Some null_pos =>
                let secondary := string_of (take null_pos rest) in
                let rest := drop (S null_pos) rest in
                let fresh := DataEntry_default now in
                ROk (MkWALEntry (N_of_ascii t) (MkKey primary secondary)
                       (MkEntry (string_of rest) (version fresh) (timestamp fresh)
                          (deleted fresh))
                       sequence_number junk)
            end
        end
  end.

(** ** The log *)

Record WAL := MkWAL {
  wal_file_ : string;
  file_ : fstream;
  wal_mutex_ : bool;
  is_open_ : bool;
  sequence_number_ : N
}.

Definition WAL_new (filename : string) : WAL := MkWAL filename fstream_new false false 0.

Abbreviation WalSt := (World * WAL)%type.

Definition set_file (f : fstream) (l : WAL) : WAL :=
  MkWAL (wal_file_ l) f (wal_mutex_ l) (is_open_ l) (sequence_number_ l).
Definition set_wal_open (b : bool) (l : WAL) : WAL :=
  MkWAL (wal_file_ l) (file_ l) (wal_mutex_ l) b (sequence_number_ l).
Definition set_wal_mutex (b : bool) (l : WAL) : WAL :=
  MkWAL (wal_file_ l) (file_ l) b (is_open_ l) (sequence_number_ l).
Definition set_sequence (n : N) (l : WAL) : WAL :=
  MkWAL (wal_file_ l) (file_ l) (wal_mutex_ l) (is_open_ l) n.

#[export, refine] Instance WAL_mutex : HasMutex WalSt := {|
  which_mutex := WalMutex;
  owned := λ s, wal_mutex_ s.2;
  set_owned := λ b s, (s.1, set_wal_mutex b s.2)
|}.
Proof. all: by intros; destruct s as [? []]. Defined.

(** The operations on [file_] the methods use. *)
Definition log_bytes (s : WalSt) : bytes := content (wal_file_ s.2) s.1.

Definition on_file (f : fstream → fstream) : M WalSt unit :=
  modify (λ s, (s.1, set_file (f (file_ s.2)) s.2)).

Definition file_read (n : nat) : M WalSt bytes := lift (λ s,
  let '(got, st) := stream_read n (log_bytes s) (file_ s.2) in
  (got, (s.1, set_file st s.2))).

Definition file_write (bs : bytes) : M WalSt unit := lift (λ s,
  let '(st, w) := stream_write (wal_file_ s.2) bs s.1 (file_ s.2) in
  (tt, (w, set_file st s.2))).

Definition file_open_out : M WalSt unit := lift (λ s,
  let '(st, w) := open_out (wal_file_ s.2) s.1 (file_ s.2) in
  (tt, (w, set_file st s.2))).

Definition file_open_inout : M WalSt unit :=
  modify (λ s, (s.1, set_file (open_inout (wal_file_ s.2) s.1 (file_ s.2)) s.2)).

Definition file_seekp_end : M WalSt unit :=
  modify (λ s, (s.1, set_file (seekp_end (length (log_bytes s)) (file_ s.2)) s.2)).

Definition file_is_open (s : WalSt) : bool := stream_open (file_ s.2).

Definition wal_now : M WalSt Z := lift (λ s,
  let '(t, c) := tick (clock s.1) in (t, (set_clock c s.1, s.2))).

Definition wal_open : M WalSt (Result unit) := guarded (
  opened ← gets (λ s : WalSt, is_open_ s.2);
  if opened : bool then mret (ROk tt) else
  _ ← file_open_inout;
  fopen ← gets file_is_open;
  created ← (if fopen : bool then mret true else
    _ ← file_open_out;
    fopen ← gets file_is_open;
    if negb fopen then mret false else
    _ ← on_file close_stream;
    _ ← file_open_inout;
    mret true);
  path ← gets (λ s : WalSt, wal_file_ s.2);
  if negb created
  then mret (RErr Status.STORAGE_ERROR ("Failed to create WAL file: " +:+ path)) else
  fopen ← gets file_is_open;
  if negb fopen
  then mret (RErr Status.STORAGE_ERROR ("Failed to open WAL file: " +:+ path)) else
  _ ← file_seekp_end;
  _ ← modify (λ s, (s.1, set_wal_open true s.2));
  mret (ROk tt)).

Definition wal_close : M WalSt (Result unit) := guarded (
  opened ← gets (λ s : WalSt, is_open_ s.2);
  if negb opened then mret (ROk tt) else
  fopen ← gets file_is_open;
  _ ← (if fopen : bool then on_file close_stream else mret tt);
  _ ← modify (λ s, (s.1, set_wal_open false s.2));
  mret (ROk tt)).

(** The three writes of one record: length, checksum, payload. *)
Definition write_record (e : WALEntry) : M WalSt unit :=
  let serialized_entry := serialize e in
  let record_length := wrap32 (N.of_nat (length serialized_entry)) in
  let crc := Crc32c serialized_entry in
  _ ← file_write (le_encode 4 record_length);
  _ ← file_write (le_encode 4 crc);
  file_write serialized_entry.

Definition wal_append (e : WALEntry) : M WalSt (Result unit) := guarded (
  opened ← gets (λ s : WalSt, is_open_ s.2);
  if negb opened then mret (RErr Status.STORAGE_ERROR "WAL is not open") else
  _ ← write_record e;
  _ ← modify (λ s, (s.1, set_sequence (wrap64 (sequence_number_ s.2 + 1)) s.2));
  mret (ROk tt)).

Definition wal_sync : M WalSt (Result unit) := guarded (
  opened ← gets (λ s : WalSt, is_open_ s.2);
  if negb opened then mret (RErr Status.STORAGE_ERROR "WAL is not open") else
  mret (ROk tt)).

(** The rest of one record, once its header has been read. *)
Definition read_payload (record_length expected_crc junk : N) :
    M WalSt (Result WALEntry) :=
  record_data ← file_read (N.to_nat record_length);
  if negb (bool_decide (wrap32 (N.of_nat (length record_data)) = record_length))
  then mret (RErr Status.STORAGE_ERROR "Incomplete record in WAL") else
  let actual_crc := Crc32c record_data in
  if negb (bool_decide (actual_crc = expected_crc))
  then mret (RErr Status.STORAGE_ERROR "CRC mismatch in WAL record") else
  now ← wal_now;
  match deserialize now junk record_data with
  | RErr _ _ => mret (RErr Status.STORAGE_ERROR "Failed to deserialize WAL entry")
  | ROk e => mret (ROk e)
  end.

(** The [while (file_->good())] loop of [replay_from]. *)
Fixpoint replay_loop (turns : nat) (seq junk : N) (entries : list WALEntry) :
    M WalSt (Result (list WALEntry)) :=
  match turns with
  | 0 => undefined OutOfFuel
  | S turns =>
      ok ← gets (λ s : WalSt, good (file_ s.2));
      if negb ok then mret (ROk entries) else
      length_bytes ← file_read 4;
      if negb (bool_decide (length length_bytes = 4)) then mret (ROk entries) else
      crc_bytes ← file_read 4;
      if negb (bool_decide (length crc_bytes = 4)) then mret (ROk entries) else
      let record_length := le_decode length_bytes in
      let expected_crc := le_decode crc_bytes in
      if (1024 * 1024 <? record_length)%N
      then mret (RErr Status.STORAGE_ERROR
                   ("Invalid record length in WAL: " +:+ pretty record_length)) else
      e ←? read_payload record_length expected_crc junk;
      replay_loop turns seq junk
        (if (seq <=? sequence_number e)%N then entries ++ [e] else entries)
  end.

(** The calling convention of the loop: each turn that goes on has read at
    least eight bytes. *)
Definition replay_turns (s : WalSt) : nat := S (S (length (log_bytes s))).

Definition replay_from (seq junk : N) : M WalSt (Result (list WALEntry)) := guarded (
  opened ← gets (λ s : WalSt, is_open_ s.2);
  if negb opened then mret (RErr Status.STORAGE_ERROR "WAL is not open") else
  _ ← on_file (seekg 0);
  turns ← gets replay_turns;
  replay_loop turns seq junk []).

(** The loop that writes the kept entries to the fresh output file, and the
    output stream's own state: it was just opened, so its writes succeed. *)
Definition record_bytes (e : WALEntry) : bytes :=
  let serialized := serialize e in
  le_encode 4 (wrap32 (N.of_nat (length serialized))) ++
  le_encode 4 (Crc32c serialized) ++ serialized.

Definition wal_truncate (seq junk : N) : M WalSt (Result unit) := guarded (
  opened ← gets (λ s : WalSt, is_open_ s.2);
  if negb opened then mret (RErr Status.STORAGE_ERROR "WAL is not open") else
  replay_result ← replay_from seq junk;
  match replay_result with
  | RErr _ msg => mret (RErr Status.STORAGE_ERROR msg)
  | ROk entries =>
      _ ← on_file close_stream;
      path ← gets (λ s : WalSt, wal_file_ s.2);
      can_open ← gets (λ s, bool_decide (path ∉ refused s.1));
      if negb can_open
      then mret (RErr Status.STORAGE_ERROR "Failed to truncate WAL file") else
      _ ← modify (λ s : WalSt,
            (set_files (<[path := concat (record_bytes <$> entries)]> (files s.1)) s.1, s.2));
      _ ← file_open_inout;
      fopen ← gets file_is_open;
      if negb fopen
      then mret (RErr Status.STORAGE_ERROR "Failed to reopen WAL after truncation") else
      _ ← file_seekp_end;
      mret (ROk tt)
  end).

Definition wal_file_size : M WalSt nat := guarded (
  opened ← gets (λ s : WalSt, is_open_ s.2);
  if negb opened then mret 0 else
  gets (λ s, if failbit (file_ s.2) then 0 else position (file_ s.2))).

(** ** Specifications of the format and of recovery *)

Definition nul_free (s : string) : Prop := NUL ∉ bytes_of s.

(** The entries the format can represent within the limit of [replay_from]. *)
Record record_ok (e : WALEntry) : Prop := {
  ok_primary : nul_free (primary_key (entry_key e));
  ok_secondary : nul_free (secondary_key (entry_key e));
  ok_type : (entry_type e < 256)%N;
  ok_sequence : (sequence_number e < 2 ^ 64)%N;
  ok_length : (N.of_nat (length (serialize e)) ≤ 1024 * 1024)%N
}.

(** What comes back of an entry: version, timestamp and deleted flag are not
    in the record and are those of a fresh [DataEntry()]. *)
Definition recovered (now : Z) (junk : N) (e : WALEntry) : WALEntry :=
  MkWALEntry (entry_type e) (entry_key e)
    (MkEntry (value (entry_data e)) 0 (ms_of_ns now) false)
    (sequence_number e) junk.

Definition log_of (es : list WALEntry) : bytes := concat (record_bytes <$> es).

Fixpoint recovered_log (clk : Clock) (seq junk : N) (es : list WALEntry) : list WALEntry :=
  match es with
  | [] => []
  | e :: es =>
      let '(now, clk) := tick clk in
      if (seq <=? sequence_number e)%N
      then recovered now junk e :: recovered_log clk seq junk es
      else recovered_log clk seq junk es
  end.

Definition clock_ticked (n : nat) (c : Clock) : Clock := MkClock (reading c) (ticks c + n).

(** ** The record format *)

Lemma deserialize_serialize now junk e :
  nul_free (primary_key (entry_key e)) → nul_free (secondary_key (entry_key e)) →
  (entry_type e < 256)%N → (sequence_number e < 2 ^ 64)%N →
  deserialize now junk (serialize e) = ROk (recovered now junk e).
Proof.
  intros Hp Hs Ht Hq. unfold serialize, deserialize. cbn [app].
  rewrite decide_False by (rewrite length_app, length_le_encode; lia).
  rewrite take_app_length', drop_app_length' by (by rewrite length_le_encode).
  rewrite le_decode_encode8, wrap64_small by done.
  rewrite find_byte_app by done. rewrite take_app_length, string_of_bytes_of.
  rewrite (cons_middle NUL), app_assoc.
  rewrite drop_app_length' by (rewrite length_app; cbn; lia).
  rewrite find_byte_app by done. rewrite take_app_length, string_of_bytes_of.
  rewrite (cons_middle NUL), app_assoc.
  rewrite drop_app_length' by (rewrite length_app; cbn; lia).
  rewrite string_of_bytes_of, N_ascii_embedding by done.
  unfold recovered. by destruct (entry_key e).
Qed.

Lemma length_record_bytes e : length (record_bytes e) = 8 + length (serialize e).
Proof. unfold record_bytes. by rewrite !length_app, !length_le_encode. Qed.

Lemma record_ok_length e :
  record_ok e → wrap32 (N.of_nat (length (serialize e))) = N.of_nat (length (serialize e)).
Proof. intros [_ _ _ _ H]. apply wrap32_small. lia. Qed.

(** ** Reading the log *)

(** The log [l] with its stream good, at position [p]. *)
Definition at_pos (p : nat) (l : WAL) : WAL := set_file (MkStream true p false false) l.

Lemma at_pos_twice p q l : at_pos p (at_pos q l) = at_pos p l.
Proof. done. Qed.

Lemma log_bytes_at_pos w p l : log_bytes (w, at_pos p l) = log_bytes (w, l).
Proof. done. Qed.

Lemma file_read_enough n w l pre got post :
  log_bytes (w, l) = pre ++ got ++ post → n = length got →
  file_read n (w, at_pos (length pre) l) =
    Returns got (w, at_pos (length (pre ++ got)) l).
Proof.
  intros Hl Hn. unfold file_read, lift. cbn [fst snd].
  by rewrite (stream_read_enough _ _ _ pre got post).
Qed.

Lemma file_read_short n w l pre tail :
  log_bytes (w, l) = pre ++ tail → length tail < n →
  file_read n (w, at_pos (length pre) l) =
    Returns tail (w, set_file (MkStream true (length (pre ++ tail)) true true) l).
Proof.
  intros Hl Hn. unfold file_read, lift. cbn [fst snd].
  rewrite stream_read_short; rewrite ?log_bytes_at_pos, ?Hl; cbn; [|done|..].
  - by rewrite drop_app_length.
  - rewrite length_app. lia.
  - rewrite length_app. lia.
Qed.

Lemma file_read_not_usable n s :
  usable (file_ s.2) = false →
  file_read n s = Returns [] (s.1, set_file (set_failed (file_ s.2)) s.2).
Proof.
  intros H. unfold file_read, lift. by rewrite stream_read_not_usable.
Qed.

Lemma replay_loop_not_good turns seq junk es s :
  good (file_ s.2) = false →
  replay_loop (S turns) seq junk es s = Returns (ROk es) s.
Proof.
  intros H. cbn [replay_loop]. unfold mbind, M_bind, gets. cbn.
  by rewrite H.
Qed.

Lemma wal_now_step w l :
  wal_now (w, l) = Returns (tick (clock w)).1 (set_clock (tick (clock w)).2 w, l).
Proof. done. Qed.

Lemma mtry_step {S A B} (m : M S (Result A)) (f : A → M S (Result B)) s r s' :
  m s = Returns r s' →
  mtry m f s = match r with ROk a => f a s' | RErr st msg => Returns (RErr st msg) s' end.
Proof. intros E. unfold mtry. mstep E. by destruct r. Qed.

(** One turn over a complete header. *)
Lemma replay_loop_header turns seq junk es w l pre n crc rest :
  (n ≤ 1024 * 1024)%N → (crc < 2 ^ 32)%N →
  log_bytes (w, l) = pre ++ le_encode 4 n ++ le_encode 4 crc ++ rest →
  replay_loop (S turns) seq junk es (w, at_pos (length pre) l) =
  (e ←? read_payload n crc junk;
   replay_loop turns seq junk
     (if (seq <=? sequence_number e)%N then es ++ [e] else es))
    (w, at_pos (length ((pre ++ le_encode 4 n) ++ le_encode 4 crc)) l).
Proof.
  intros Hmax Hcrc Hl. cbn [replay_loop]. msimpl.
  cbn [good at_pos set_file file_ failbit eofbit negb andb].
  mstep (file_read_enough 4 w l pre _ _ Hl (eq_sym (length_le_encode _ _))).
  rewrite length_le_encode, bool_decide_true by done. cbn [negb].
  rewrite (assoc_L (++)) in Hl.
  mstep (file_read_enough 4 w l _ _ _ Hl (eq_sym (length_le_encode _ _))).
  rewrite length_le_encode, bool_decide_true by done. cbn [negb].
  rewrite !le_decode_encode4, !wrap32_small by lia.
  by rewrite (proj2 (N.ltb_ge _ _)) by lia.
Qed.

Lemma read_payload_ok n junk w l pre payload post :
  n = N.of_nat (length payload) → (n < 2 ^ 32)%N →
  log_bytes (w, l) = pre ++ payload ++ post →
  read_payload n (Crc32c payload) junk (w, at_pos (length pre) l) =
    Returns (match deserialize (tick (clock w)).1 junk payload with
             | RErr _ _ => RErr Status.STORAGE_ERROR "Failed to deserialize WAL entry"
             | ROk e => ROk e
             end)
      (set_clock (tick (clock w)).2 w, at_pos (length (pre ++ payload)) l).
Proof.
  intros -> Hn Hl. unfold read_payload.
  mstep (file_read_enough _ w l pre payload post Hl (Nat2N.id _)).
  rewrite bool_decide_true by (by rewrite wrap32_small). cbn [negb].
  rewrite bool_decide_true by done. cbn [negb].
  mstep (wal_now_step w (at_pos (length (pre ++ payload)) l)).
  by destruct (deserialize _ _ _).
Qed.

Lemma read_payload_corrupt n crc junk w l pre payload post :
  n = N.of_nat (length payload) → (n < 2 ^ 32)%N → Crc32c payload ≠ crc →
  log_bytes (w, l) = pre ++ payload ++ post →
  read_payload n crc junk (w, at_pos (length pre) l) =
    Returns (RErr Status.STORAGE_ERROR "CRC mismatch in WAL record")
      (w, at_pos (length (pre ++ payload)) l).
Proof.
  intros -> Hn Hc Hl. unfold read_payload.
  mstep (file_read_enough _ w l pre payload post Hl (Nat2N.id _)).
  rewrite bool_decide_true by (by rewrite wrap32_small). cbn [negb].
  by rewrite bool_decide_false.
Qed.

Lemma read_payload_short n crc junk w l pre tail :
  (n < 2 ^ 32)%N → (N.of_nat (length tail) < n)%N →
  log_bytes (w, l) = pre ++ tail →
  ∃ l', read_payload n crc junk (w, at_pos (length pre) l) =
    Returns (RErr Status.STORAGE_ERROR "Incomplete record in WAL") (w, l').
Proof.
  intros Hn Ht Hl. unfold read_payload.
  assert (length tail < N.to_nat n) as Ht' by lia.
  mstep (file_read_short (N.to_nat n) w l pre tail Hl Ht').
  rewrite bool_decide_false by (rewrite wrap32_small; lia). eauto.
Qed.

(** The log as the header lemma and the payload lemmas want it. *)
Lemma split_record {A} (pre n crc payload post : list A) :
  pre ++ (n ++ crc ++ payload) ++ post = pre ++ n ++ crc ++ payload ++ post ∧
  pre ++ (n ++ crc ++ payload) ++ post = ((pre ++ n) ++ crc) ++ payload ++ post ∧
  ((pre ++ n) ++ crc) ++ payload = pre ++ n ++ crc ++ payload.
Proof. by rewrite <- !(assoc_L (++)). Qed.

(** One turn over a complete, intact record. *)
Lemma replay_loop_record turns seq junk es w l pre e post :
  record_ok e → log_bytes (w, l) = pre ++ record_bytes e ++ post →
  replay_loop (S turns) seq junk es (w, at_pos (length pre) l) =
  replay_loop turns seq junk
    (if (seq <=? sequence_number e)%N
     then es ++ [recovered (tick (clock w)).1 junk e] else es)
    (set_clock (tick (clock w)).2 w, at_pos (length (pre ++ record_bytes e)) l).
Proof.
  intros Hok Hl. pose proof (record_ok_length e Hok) as Hlen.
  destruct Hok as [Hp Hs Ht Hq Hmax]. unfold record_bytes in Hl |- *.
  rewrite Hlen in Hl |- *.
  edestruct (split_record pre) as (H1 & H2 & H3).
  rewrite H1 in Hl. rewrite (replay_loop_header _ _ _ _ _ _ _ _ _ _ Hmax (Crc32c_lt _) Hl).
  rewrite <- H1, H2 in Hl.
  assert (N.of_nat (length (serialize e)) < 2 ^ 32)%N as H32 by lia.
  rewrite (mtry_step _ _ _ _ _ (read_payload_ok _ junk w l _ _ post eq_refl H32 Hl)).
  by rewrite deserialize_serialize, H3 by done.
Qed.

(** A tail too short for a header ends the loop; so does the end of the log. *)
Lemma replay_loop_tail turns seq junk es w l pre tail :
  log_bytes (w, l) = pre ++ tail → length tail < 8 →
  ∃ p, replay_loop (S turns) seq junk es (w, at_pos (length pre) l) =
    Returns (ROk es) (w, set_file (MkStream true p true true) l).
Proof.
  intros Hl H8. cbn [replay_loop]. msimpl.
  cbn [good at_pos set_file file_ failbit eofbit negb andb].
  destruct (decide (length tail < 4)) as [H4|H4].
  - mstep (file_read_short 4 w l pre tail Hl H4).
    rewrite bool_decide_false by lia. cbn [negb]. eauto.
  - rewrite <- (take_drop 4 tail) in Hl.
    assert (4 = length (take 4 tail)) as Ht by (rewrite length_take; lia).
    mstep (file_read_enough 4 w l pre _ _ Hl Ht).
    rewrite bool_decide_true by done. cbn [negb].
    rewrite (assoc_L (++)) in Hl.
    assert (length (drop 4 tail) < 4) as Hd by (rewrite length_drop; lia).
    mstep (file_read_short 4 w l _ _ Hl Hd).
    rewrite bool_decide_false by lia. cbn [negb]. eauto.
Qed.

(** A record cut inside its payload is an error. *)
Lemma replay_loop_torn turns seq junk es w l pre e cut :
  record_ok e → 8 ≤ cut < length (record_bytes e) →
  log_bytes (w, l) = pre ++ take cut (record_bytes e) →
  ∃ l', replay_loop (S turns) seq junk es (w, at_pos (length pre) l) =
    Returns (RErr Status.STORAGE_ERROR "Incomplete record in WAL") (w, l').
Proof.
  intros Hok Hcut Hl. pose proof (record_ok_length e Hok) as Hlen.
  destruct Hok as [Hp Hs Ht Hq Hmax]. rewrite length_record_bytes in Hcut.
  unfold record_bytes in Hl. rewrite Hlen, !take_app, !length_le_encode in Hl.
  rewrite !(take_ge (le_encode _ _)) in Hl by (rewrite length_le_encode; lia).
  rewrite (replay_loop_header _ _ _ _ _ _ _ _ _ _ Hmax (Crc32c_lt _) Hl).
  rewrite !(assoc_L (++)) in Hl.
  edestruct (read_payload_short (N.of_nat (length (serialize e)))
    (Crc32c (serialize e)) junk w l) as [l' El]; [lia| |exact Hl|].
  { rewrite length_take. lia. }
  exists l'. by rewrite (mtry_step _ _ _ _ _ El).
Qed.

(** So is one whose payload does not match its checksum. *)
Lemma replay_loop_corrupt turns seq junk es w l pre payload crc post :
  (N.of_nat (length payload) ≤ 1024 * 1024)%N → (crc < 2 ^ 32)%N →
  Crc32c payload ≠ crc →
  log_bytes (w, l) =
    pre ++ (le_encode 4 (N.of_nat (length payload)) ++ le_encode 4 crc ++ payload) ++ post →
  ∃ l', replay_loop (S turns) seq junk es (w, at_pos (length pre) l) =
    Returns (RErr Status.STORAGE_ERROR "CRC mismatch in WAL record") (w, l').
Proof.
  intros Hmax Hcrc Hne Hl. edestruct (split_record pre) as (H1 & H2 & _).
  rewrite H1 in Hl. rewrite (replay_loop_header _ _ _ _ _ _ _ _ _ _ Hmax Hcrc Hl).
  rewrite <- H1, H2 in Hl.
  assert (N.of_nat (length payload) < 2 ^ 32)%N as H32 by lia.
  rewrite (mtry_step _ _ _ _ _
    (read_payload_corrupt _ _ junk w l _ _ post eq_refl H32 Hne Hl)).
  eauto.
Qed.

(** The whole loop, over a log of intact records and whatever follows it. *)
Lemma replay_loop_log turns seq junk acc es w l pre tail :
  Forall record_ok es → log_bytes (w, l) = pre ++ log_of es ++ tail →
  replay_loop (length es + turns) seq junk acc (w, at_pos (length pre) l) =
  replay_loop turns seq junk (acc ++ recovered_log (clock w) seq junk es)
    (set_clock (clock_ticked (length es) (clock w)) w,
     at_pos (length (pre ++ log_of es)) l).
Proof.
  intros Hok. revert acc w pre. induction Hok as [|e es He Hok IH]; intros acc w pre Hl.
  - cbn. rewrite !app_nil_r. unfold clock_ticked. rewrite Nat.add_0_r.
    by destruct w as [?? []].
  - change (log_of (e :: es)) with (record_bytes e ++ log_of es) in *.
    cbn [length Nat.add]. rewrite <- (assoc_L (++)) in Hl.
    rewrite (replay_loop_record _ _ _ _ _ _ _ _ _ He Hl).
    rewrite (assoc_L (++)) in Hl. rewrite IH by exact Hl.
    cbn [recovered_log tick fst snd]. rewrite (assoc_L (++)).
    f_equal; [destruct (_ <=? _)%N; cbn; by rewrite <- ?(assoc_L (++))|].
    f_equal. unfold set_clock, clock_ticked. cbn. f_equal. f_equal. lia.
Qed.

(** ** [replay_from] *)

Definition unlock (s : WalSt) : WalSt := (s.1, set_wal_mutex false s.2).

(** A log that is open and whose stream can still be repositioned. *)
Record log_open (l : WAL) : Prop := {
  lo_unlocked : wal_mutex_ l = false;
  lo_open : is_open_ l = true;
  lo_stream : stream_open (file_ l) = true;
  lo_not_failed : failbit (file_ l) = false
}.

Lemma guarded_wal {A} (m : M WalSt A) w l :
  wal_mutex_ l = false →
  guarded m (w, l) =
    match m (w, set_wal_mutex true l) with
    | Returns a s => Returns a (unlock s)
    | Throws n s => Throws n (unlock s)
    | Undefined u => Undefined u
    end.
Proof. intros H. unfold guarded. cbn [owned WAL_mutex snd]. by rewrite H. Qed.

Lemma replay_from_start seq junk w l :
  log_open l →
  replay_from seq junk (w, l) =
    match replay_loop (replay_turns (w, l)) seq junk []
            (w, at_pos 0 (set_wal_mutex true l)) with
    | Returns r s => Returns r (unlock s)
    | Throws n s => Throws n (unlock s)
    | Undefined u => Undefined u
    end.
Proof.
  intros [Hm Ho Hs Hf]. unfold replay_from. rewrite guarded_wal by done. msimpl.
  cbn [is_open_ set_wal_mutex]. rewrite Ho. cbn [negb]. unfold on_file. msimpl.
  unfold seekg. cbn [file_ set_file set_wal_mutex]. by rewrite Hf, Hs.
Qed.

Lemma log_of_turns es tail w l :
  log_bytes (w, l) = log_of es ++ tail →
  ∃ k, replay_turns (w, l) = length es + S (S k).
Proof.
  intros Hl. unfold replay_turns. rewrite Hl, length_app.
  assert (length es ≤ length (log_of es)) as He.
  { clear Hl. induction es as [|e es IH]; [done|].
    change (log_of (e :: es)) with (record_bytes e ++ log_of es).
    rewrite length_app, length_record_bytes. cbn. lia. }
  exists (length (log_of es) + length tail - length es). lia.
Qed.

Lemma replay_from_log seq junk w l es tail :
  log_open l → Forall record_ok es →
  log_bytes (w, l) = log_of es ++ tail → length tail < 8 →
  ∃ p, replay_from seq junk (w, l) =
    Returns (ROk (recovered_log (clock w) seq junk es))
      (set_clock (clock_ticked (length es) (clock w)) w,
       set_file (MkStream true p true true) l).
Proof.
  intros Ho Hok Hl Ht. rewrite replay_from_start by done.
  destruct (log_of_turns _ _ _ _ Hl) as [k ->].
  set (l' := set_wal_mutex true l).
  change (log_bytes (w, l')  = [] ++ log_of es ++ tail) in Hl.
  pose proof (replay_loop_log (S (S k)) seq junk [] es w l' [] tail Hok Hl) as E.
  cbn [length app] in E. rewrite E. clear E.
  set (w' := set_clock _ w). change (log_bytes (w', l') = log_of es ++ tail) in Hl.
  destruct (replay_loop_tail (S k) seq junk (recovered_log (clock w) seq junk es)
              w' l' (log_of es) tail Hl Ht) as [p ->].
  exists p. unfold unlock, l'. cbn [fst snd].
  destruct Ho as [Hm _ _ _]. destruct l; cbn in *. by rewrite Hm.
Qed.

(** Whatever the file holds, a replay that returns entries has run into the end
    of the file (or found the stream already failed). *)
Lemma replay_loop_ok_not_good turns seq junk acc s r s' :
  replay_loop turns seq junk acc s = Returns (ROk r) s' → good (file_ s'.2) = false.
Proof.
  revert acc s. induction turns as [|turns IH]; intros acc s; [done|].
  cbn [replay_loop]. msimpl.
  destruct (good (file_ s.2)) eqn:Hg; cbn [negb]; [|by intros [= _ <-]].
  assert (∀ n s, ∃ got st, file_read n s = Returns got (s.1, set_file st s.2) ∧
    (length got ≠ n → good st = false)) as Hread.
  { clear. intros n [w l]. unfold file_read, lift. cbn [fst snd].
    unfold stream_read. destruct (usable (file_ l)) eqn:Hu; [|by eexists _, _].
    eexists _, _. split; [done|]. intros Hne. unfold good. cbn.
    by rewrite bool_decide_false. }
  destruct (Hread 4 s) as (g1 & st1 & E1 & Hg1). mstep E1.
  case_bool_decide as H1; cbn [negb]; [|by intros [= _ <-]; apply Hg1].
  destruct (Hread 4 (s.1, set_file st1 s.2)) as (g2 & st2 & E2 & Hg2). mstep E2.
  case_bool_decide as H2; cbn [negb]; [|by intros [= _ <-]; apply Hg2].
  destruct (1024 * 1024 <? le_decode g1)%N; [done|].
  intros (r1 & s1 & _ & H)%M_bind_returns. destruct r1; [by apply IH in H|done].
Qed.

(** ** Appending *)

Lemma file_write_lost bs s :
  usable (file_ s.2) = false →
  file_write bs s = Returns tt (s.1, set_file (set_failed (file_ s.2)) s.2).
Proof. intros H. unfold file_write, lift. by rewrite stream_write_not_usable. Qed.

Lemma wal_append_lost e w l :
  wal_mutex_ l = false → is_open_ l = true → good (file_ l) = false →
  ∃ l', wal_append e (w, l) = Returns (ROk tt) (w, l') ∧
    wal_mutex_ l' = false ∧ is_open_ l' = true ∧ failbit (file_ l') = true ∧
    wal_file_ l' = wal_file_ l.
Proof.
  intros Hm Ho Hg. unfold wal_append. rewrite guarded_wal by done.
  msimpl. cbn [is_open_ set_wal_mutex]. rewrite Ho.
  cbn [negb]. unfold write_record. rewrite M_bind_assoc.
  assert (usable (file_ l) = false) as Hu by (unfold usable; by rewrite Hg).
  rewrite (M_bind_step _ _ _ _ _ (file_write_lost _ (w, set_wal_mutex true l) Hu)).
  rewrite M_bind_assoc.
  mstep (file_write_lost (le_encode 4 (Crc32c (serialize e)))
    (w, set_file (set_failed (file_ l)) (set_wal_mutex true l)) eq_refl).
  mstep (file_write_lost (serialize e)
    (w, set_file (set_failed (set_failed (file_ l)))
          (set_file (set_failed (file_ l)) (set_wal_mutex true l))) eq_refl).
  eexists. split; [reflexivity|]. by cbn.
Qed.

(** A replay over a failed stream finds nothing. *)
Lemma replay_from_failed seq junk w l :
  wal_mutex_ l = false → is_open_ l = true → failbit (file_ l) = true →
  ∃ l', replay_from seq junk (w, l) = Returns (ROk []) (w, l').
Proof.
  intros Hm Ho Hf. unfold replay_from. rewrite guarded_wal by done. msimpl.
  cbn [is_open_ set_wal_mutex]. rewrite Ho. cbn [negb]. unfold on_file. msimpl.
  rewrite M_bind_gets. unfold replay_turns. rewrite replay_loop_not_good.
  - eexists. reflexivity.
  - unfold seekg. cbn [file_ set_file set_wal_mutex snd]. by rewrite Hf.
Qed.

(** The log [l] ready to append: open, unlocked, its stream at the end. *)
Definition at_end (w : World) (l : WAL) : Prop :=
  wal_mutex_ l = false ∧ is_open_ l = true ∧
  file_ l = MkStream true (length (log_bytes (w, l))) false false.

Lemma file_write_end bs w l :
  file_ l = MkStream true (length (log_bytes (w, l))) false false →
  file_write bs (w, l) =
    Returns tt
      (set_files (<[wal_file_ l := log_bytes (w, l) ++ bs]> (files w)) w,
       at_pos (length (log_bytes (w, l) ++ bs)) l).
Proof.
  intros Hf. unfold file_write, lift. cbn [fst snd].
  rewrite stream_write_end by (by rewrite Hf). done.
Qed.

Lemma write_record_end e w l :
  file_ l = MkStream true (length (log_bytes (w, l))) false false →
  write_record e (w, l) =
    Returns tt
      (set_files (<[wal_file_ l := log_bytes (w, l) ++ record_bytes e]> (files w)) w,
       at_pos (length (log_bytes (w, l) ++ record_bytes e)) l).
Proof.
  intros Hf. unfold write_record, record_bytes. set (p := serialize e).
  set (h := le_encode 4 (wrap32 _)). set (c := le_encode 4 (Crc32c _)).
  assert (∀ b1 q w, log_bytes (set_files (<[wal_file_ l := b1]> (files w)) w, at_pos q l) = b1)
    as Hlb by (intros; unfold log_bytes; cbn; apply content_insert).
  mstep (file_write_end h _ _ Hf). set (b := log_bytes (w, l)).
  assert (∀ bs w b1, file_write bs
      (set_files (<[wal_file_ l := b1]> (files w)) w, at_pos (length b1) l) =
    Returns tt (set_files (<[wal_file_ l := b1 ++ bs]> (files w)) w,
                at_pos (length (b1 ++ bs)) l)) as Hnext.
  { intros bs w' b1. rewrite file_write_end by (cbn; by rewrite Hlb).
    rewrite Hlb. cbn. unfold set_files. cbn. by rewrite insert_insert_eq. }
  mstep (Hnext c w (b ++ h)). rewrite Hnext. by rewrite <- !(assoc_L (++)).
Qed.

Lemma wal_append_end e w l :
  at_end w l →
  ∃ w' l', wal_append e (w, l) = Returns (ROk tt) (w', l') ∧ at_end w' l' ∧
    wal_file_ l' = wal_file_ l ∧ refused w' = refused w ∧ clock w' = clock w ∧
    log_bytes (w', l') = log_bytes (w, l) ++ record_bytes e.
Proof.
  intros (Hm & Ho & Hf). unfold wal_append. rewrite guarded_wal by done. msimpl.
  cbn [is_open_ set_wal_mutex]. rewrite Ho. cbn [negb].
  mstep (write_record_end e w (set_wal_mutex true l) Hf). msimpl.
  generalize (record_bytes e) as record. intros record.
  eexists _, _. split; [reflexivity|]. unfold at_end, log_bytes. cbn.
  rewrite content_insert. auto.
Qed.

(** The appends of a run, one after the other. *)
Definition append_all (es : list WALEntry) : M WalSt unit :=
  mfor (λ e, _ ← wal_append e; mret tt) es.

Lemma append_all_end es w l :
  at_end w l →
  ∃ w' l', append_all es (w, l) = Returns tt (w', l') ∧ at_end w' l' ∧
    wal_file_ l' = wal_file_ l ∧ refused w' = refused w ∧ clock w' = clock w ∧
    log_bytes (w', l') = log_bytes (w, l) ++ log_of es.
Proof.
  unfold append_all. revert w l. induction es as [|e es IH]; intros w l He.
  - exists w, l. cbn. rewrite app_nil_r. auto 10.
  - destruct (wal_append_end e w l He) as (w1 & l1 & E1 & H1 & Hp1 & Hr1 & Hc1 & Hb1).
    destruct (IH w1 l1 H1) as (w2 & l2 & E2 & H2 & Hp2 & Hr2 & Hc2 & Hb2).
    exists w2, l2. cbn [mfor]. rewrite M_bind_assoc. mstep E1. msimpl. rewrite E2.
    rewrite Hb2, Hb1, <- (assoc_L (++)). repeat split; congruence || apply H2.
Qed.

Lemma wal_close_end w l :
  at_end w l →
  wal_close (w, l) = Returns (ROk tt)
    (w, set_wal_open false (set_file (close_stream (file_ l)) l)).
Proof.
  intros (Hm & Ho & Hf). unfold wal_close. rewrite guarded_wal by done. msimpl.
  cbn [is_open_ set_wal_mutex]. rewrite Ho. cbn [negb].
  unfold file_is_open. cbn [file_ snd set_wal_mutex]. rewrite Hf. cbn [stream_open].
  unfold on_file. msimpl. unfold unlock. cbn. destruct l; cbn in *. by rewrite Hm, Hf.
Qed.

(** Opening a closed log whose file exists. *)
Lemma wal_open_existing w l data :
  wal_mutex_ l = false → is_open_ l = false → stream_open (file_ l) = false →
  wal_file_ l ∉ refused w → files w !! wal_file_ l = Some data →
  ∃ l', wal_open (w, l) = Returns (ROk tt) (w, l') ∧ at_end w l' ∧
    wal_file_ l' = wal_file_ l.
Proof.
  intros Hm Ho Hs Hr Hd. unfold wal_open. rewrite guarded_wal by done. msimpl.
  cbn [is_open_ set_wal_mutex]. rewrite Ho. unfold file_open_inout. msimpl.
  unfold file_is_open, open_inout.
  cbn [file_ snd fst set_file set_wal_mutex wal_file_]. rewrite Hs, decide_False, Hd by done.
  cbn [stream_open]. msimpl. cbn [negb stream_open file_ set_file]. msimpl.
  unfold file_seekp_end. msimpl. eexists. split; [reflexivity|]. by cbn.
Qed.

(** ** Termination of recovery *)

(** Whatever the stream's state, a read ends with at most [n] bytes, leaves the
    file alone, and spoils the stream when it is short. *)
Lemma file_read_any n s :
  ∃ got st, file_read n s = Returns got (s.1, set_file st s.2) ∧
    (length got ≠ n → good st = false) ∧
    (0 < n → length got = n →
     position st = position (file_ s.2) + n ∧ position st ≤ length (log_bytes s)).
Proof.
  destruct s as [w l]. unfold file_read, lift, stream_read. cbn [fst snd].
  destruct (usable (file_ l)).
  - eexists _, _. split; [reflexivity|]. cbn [position]. split.
    + intros Hne. unfold good. cbn. by rewrite bool_decide_false.
    + intros Hn Hlen. rewrite length_take, length_drop in Hlen |- *. lia.
  - eexists _, _. split; [reflexivity|]. cbn. split; [done|lia].
Qed.

Lemma read_payload_any n crc junk s :
  ∃ r st w, read_payload n crc junk s = Returns r (w, set_file st s.2) ∧
    files w = files s.1 ∧
    (position (file_ s.2) ≤ length (log_bytes s) →
     position (file_ s.2) ≤ position st ≤ length (log_bytes s)).
Proof.
  destruct s as [w l]. unfold read_payload.
  set (stuck := stream_read (N.to_nat n) (log_bytes (w, l)) (file_ l)).
  assert (file_read (N.to_nat n) (w, l) = Returns stuck.1 (w, set_file stuck.2 l)) as E.
  { unfold file_read, lift, stuck. cbn [fst snd]. by destruct (stream_read _ _ _). }
  assert (position (file_ l) ≤ length (log_bytes (w, l)) →
    position (file_ l) ≤ position stuck.2 ≤ length (log_bytes (w, l))) as Hpos.
  { unfold stuck, stream_read. destruct (usable _); cbn; [|lia].
    rewrite length_take, length_drop. lia. }
  mstep E. case_bool_decide; cbn [negb]; [|eexists _, _, _; eauto].
  case_bool_decide; cbn [negb]; [|eexists _, _, _; eauto].
  mstep (wal_now_step w (set_file stuck.2 l)).
  destruct (deserialize _ _ _); eexists _, _, _; split; [reflexivity| |reflexivity|]; auto.
Qed.

Lemma replay_loop_returns turns seq junk acc s :
  length (log_bytes s) < turns + position (file_ s.2) →
  position (file_ s.2) ≤ length (log_bytes s) →
  ∃ r w st, replay_loop turns seq junk acc s = Returns r (w, set_file st s.2) ∧
    files w = files s.1.
Proof.
  revert acc s. induction turns as [|turns IH]; intros acc [w l] Hlt Hle; [lia|].
  cbn [replay_loop]. msimpl. destruct (good _); cbn [negb]; cycle 1.
  { eexists _, _, (file_ l). split; [|done]. by destruct l. }
  destruct (file_read_any 4 (w, l)) as (g1 & st1 & E1 & _ & H1). mstep E1.
  cbn [fst snd] in *. case_bool_decide as Hg1; cbn [negb]; [|eauto 10].
  destruct (H1 ltac:(lia) Hg1) as [Hp1 Hb1].
  destruct (file_read_any 4 (w, set_file st1 l)) as (g2 & st2 & E2 & _ & H2). mstep E2.
  cbn [fst snd] in *. case_bool_decide as Hg2; cbn [negb]; [|eexists _, _, _; eauto].
  destruct (H2 ltac:(lia) Hg2) as [Hp2 Hb2]. cbn [file_ set_file] in Hp2.
  destruct (_ <? _)%N; [eexists _, _, _; eauto|].
  destruct (read_payload_any (le_decode g1) (le_decode g2) junk (w, set_file st2 l))
    as (r & st3 & w3 & E3 & Hf3 & Hp3).
  cbn [fst snd file_ set_file] in *.
  change (set_file st2 (set_file st1 l)) with (set_file st2 l).
  change (log_bytes (w, set_file st1 l)) with (log_bytes (w, l)) in *.
  change (log_bytes (w, set_file st2 l)) with (log_bytes (w, l)) in *.
  change (log_bytes (w, set_file st2 (set_file st1 l))) with (log_bytes (w, l)) in *.
  rewrite (mtry_step _ _ _ _ _ E3). destruct r as [e|]; [|eexists _, _, _; eauto].
  assert (log_bytes (w3, set_file st3 l) = log_bytes (w, l)) as Hl3
    by (unfold log_bytes, content; cbn; by rewrite Hf3).
  edestruct (IH (if (seq <=? sequence_number e)%N then acc ++ [e] else acc)
    (w3, set_file st3 l)) as (r & w4 & st4 & E4 & Hf4).
  1-2: rewrite Hl3; cbn [file_ snd set_file]; lia.
  exists r, w4, st4. split; [exact E4|]. by rewrite Hf4.
Qed.

(** Appending to an open log answers OK whatever the state of its stream, and
    touches no other file. *)
Lemma file_write_frame bs w l :
  ∃ w' st, file_write bs (w, l) = Returns tt (w', set_file st l) ∧
    refused w' = refused w ∧ clock w' = clock w ∧
    ∀ p, p ≠ wal_file_ l → files w' !! p = files w !! p.
Proof.
  unfold file_write, lift, stream_write. cbn [fst snd].
  destruct (usable (file_ l)); eexists _, _; (split; [reflexivity|]); [|done].
  split; [done|]. split; [done|]. intros p Hp. cbn. by rewrite lookup_insert_ne.
Qed.

Lemma wal_append_frame e w l :
  wal_mutex_ l = false → is_open_ l = true →
  ∃ w' l', wal_append e (w, l) = Returns (ROk tt) (w', l') ∧
    wal_mutex_ l' = false ∧ is_open_ l' = true ∧ wal_file_ l' = wal_file_ l ∧
    refused w' = refused w ∧ clock w' = clock w ∧
    (good (file_ l) = false → good (file_ l') = false ∧ files w' = files w) ∧
    ∀ p, p ≠ wal_file_ l → files w' !! p = files w !! p.
Proof.
  intros Hm Ho. destruct (good (file_ l)) eqn:Hg.
  2: { destruct (wal_append_lost e w l Hm Ho Hg) as (l' & E & ? & ? & Hf & ?).
       exists w, l'. split_and!; try done. by unfold good; rewrite Hf. }
  unfold wal_append. rewrite guarded_wal by done. msimpl.
  cbn [is_open_ set_wal_mutex]. rewrite Ho. cbn [negb].
  unfold write_record. rewrite M_bind_assoc. set (l1 := set_wal_mutex true l).
  destruct (file_write_frame (le_encode 4 (wrap32 (N.of_nat (length (serialize e))))) w l1)
    as (w1 & st1 & E1 & Hr1 & Hc1 & Hf1). mstep E1. rewrite M_bind_assoc.
  destruct (file_write_frame (le_encode 4 (Crc32c (serialize e))) w1 (set_file st1 l1))
    as (w2 & st2 & E2 & Hr2 & Hc2 & Hf2). mstep E2.
  destruct (file_write_frame (serialize e) w2 (set_file st2 (set_file st1 l1)))
    as (w3 & st3 & E3 & Hr3 & Hc3 & Hf3). mstep E3. msimpl.
  eexists _, _. split; [reflexivity|]. cbn. split_and!; try congruence; auto.
  intros p Hp. by rewrite Hf3, Hf2, Hf1.
Qed.

(** Recovery changes nothing of the log but its stream, and no file. *)
Lemma replay_loop_frame turns seq junk acc s r s' :
  replay_loop turns seq junk acc s = Returns r s' →
  ∃ w st, s' = (w, set_file st s.2) ∧ files w = files s.1 ∧ refused w = refused s.1.
Proof.
  assert (∀ n s, ∃ got st, file_read n s = Returns got (s.1, set_file st s.2)) as Hread.
  { clear. intros n s. destruct (file_read_any n s) as (got & st & E & _). eauto. }
  revert acc s. induction turns as [|turns IH]; intros acc [w l]; [done|].
  cbn [replay_loop]. msimpl. destruct (good _); cbn [negb].
  2: { intros [= _ <-]. exists w, (file_ l). by destruct l. }
  destruct (Hread 4 (w, l)) as (g1 & st1 & E1). mstep E1. cbn [fst snd].
  case_bool_decide; cbn [negb]; [|intros [= _ <-]; eauto].
  destruct (Hread 4 (w, set_file st1 l)) as (g2 & st2 & E2). mstep E2. cbn [fst snd].
  case_bool_decide; cbn [negb]; [|intros [= _ <-]; by eexists _, _].
  destruct (_ <? _)%N; [intros [= _ <-]; by eexists _, _|].
  intros (r1 & s1 & E3 & Hk)%M_bind_returns.
  assert (∃ w3 st3, s1 = (w3, set_file st3 l) ∧ files w3 = files w ∧ refused w3 = refused w)
    as (w3 & st3 & -> & Hf3 & Hr3).
  { revert E3. unfold read_payload.
    destruct (Hread (N.to_nat (le_decode g1)) (w, set_file st2 (set_file st1 l)))
      as (g3 & st3 & E3). mstep E3. cbn [fst snd].
    case_bool_decide; cbn [negb]; [|intros [= _ <-]; by eexists _, _].
    case_bool_decide; cbn [negb]; [|intros [= _ <-]; by eexists _, _].
    mstep (wal_now_step w (set_file st3 (set_file st2 (set_file st1 l)))).
    destruct (deserialize _ _ _); intros [= _ <-]; by eexists _, _. }
  destruct r1 as [e|]; [|injection Hk as _ <-; eauto].
  apply IH in Hk as (w4 & st4 & -> & Hf4 & Hr4). exists w4, st4. cbn in *.
  split; [done|]. split; congruence.
Qed.

(** A replay that succeeds found the log open and leaves its stream unusable. *)
Lemma replay_from_ok seq junk s r s' :
  replay_from seq junk s = Returns (ROk r) s' →
  is_open_ s'.2 = true ∧ wal_mutex_ s'.2 = false ∧ good (file_ s'.2) = false ∧
  wal_file_ s'.2 = wal_file_ s.2 ∧ files s'.1 = files s.1 ∧ refused s'.1 = refused s.1.
Proof.
  intros (_ & Hm & t & E & ->)%guarded_returns_inv. revert E. msimpl.
  destruct (is_open_ _) eqn:Ho; cbn [negb]; [|done].
  unfold on_file. rewrite M_bind_modify, M_bind_gets. intros E.
  pose proof (replay_loop_ok_not_good _ _ _ _ _ _ _ E) as Hg.
  apply replay_loop_frame in E as (w & st & -> & Hf & Hr). by destruct s as [? []].
Qed.

(** ** The properties of the log *)

(** Deserializing a serialized entry whose keys hold no NUL byte gives back the
    type, key, value and sequence number, with version 0, a fresh timestamp and
    the deleted flag cleared. *)
Theorem wal_entry_round_trip now junk t k d seq :
  nul_free (primary_key k) → nul_free (secondary_key k) →
  (t < 256)%N → (seq < 2 ^ 64)%N →
  deserialize now junk (serialize (WALEntry_new t k d seq)) =
    ROk (MkWALEntry t k (MkEntry (value d) 0 (ms_of_ns now) false) seq junk).
Proof. intros. by rewrite deserialize_serialize. Qed.

Lemma wal_entry_round_trip_witness :
  deserialize 5000000 0
    (serialize (WALEntry_new WALEntryType.PUT (MkKey "user" "7") (MkEntry "v" 3 9 true) 41)) =
    ROk (MkWALEntry WALEntryType.PUT (MkKey "user" "7") (MkEntry "v" 0 5 false) 41 0).
Proof.
  apply (wal_entry_round_trip 5000000 0 WALEntryType.PUT (MkKey "user" "7") (MkEntry "v" 3 9 true) 41).
  - unfold nul_free. cbn. set_solver.
  - unfold nul_free. cbn. set_solver.
  - done.
  - done.
Defined.

(** The entry [e] with its data replaced after construction. *)
Definition with_data (d : DataEntry) (e : WALEntry) : WALEntry :=
  MkWALEntry (entry_type e) (entry_key e) d (sequence_number e) (checksum e).

Lemma serialize_value t k seq :
  ∃ hd, ∀ d c, serialize (MkWALEntry t k d seq c) = hd ++ bytes_of (value d).
Proof.
  exists ([ascii_of_N t] ++ le_encode 8 seq ++ bytes_of (primary_key k) ++ [NUL] ++
    bytes_of (secondary_key k) ++ [NUL]).
  intros. unfold serialize. cbn [entry_type entry_key entry_data sequence_number].
  by rewrite <- !(assoc_L (++)).
Qed.

(** verify_checksum rejects an entry whose value was changed within four
    consecutive bytes after construction, and accepts any change of version,
    timestamp or deleted flag. *)
Theorem wal_checksum_covers_value_only t k d d' seq pre mid mid' post :
  bytes_of (value d) = pre ++ mid ++ post → bytes_of (value d') = pre ++ mid' ++ post →
  length mid = length mid' → length mid ≤ 4 →
  verify_checksum (with_data d' (WALEntry_new t k d seq)) = bool_decide (mid = mid').
Proof.
  intros Hd Hd' Hl H4. unfold verify_checksum. apply bool_decide_ext.
  cbn [WALEntry_new calculate_checksum with_data set_checksum checksum].
  rewrite !Crc32c_serial. destruct (serialize_value t k seq) as [hd Hs].
  unfold set_checksum, with_data. cbn [entry_type entry_key entry_data sequence_number].
  rewrite !Hs, Hd, Hd', !(assoc_L (++) hd). split; [|by intros ->].
  intros H. exact (crc_serial_burst (hd ++ pre) mid mid' post Hl H4 (eq_sym H)).
Qed.

Lemma wal_checksum_covers_value_only_witness :
  verify_checksum (with_data (MkEntry "pax" 7 8 true)
    (WALEntry_new 1%N (MkKey "a" "b") (MkEntry "pay" 0 0 false) 3%N)) = false ∧
  verify_checksum (with_data (MkEntry "pay" 7 8 true)
    (WALEntry_new 1%N (MkKey "a" "b") (MkEntry "pay" 0 0 false) 3%N)) = true.
Proof.
  split.
  - apply (wal_checksum_covers_value_only 1%N (MkKey "a" "b") (MkEntry "pay" 0 0 false)
      (MkEntry "pax" 7 8 true) 3%N (bytes_of "pa") (bytes_of "y") (bytes_of "x") []);
      [reflexivity..|cbn; lia].
  - apply (wal_checksum_covers_value_only 1%N (MkKey "a" "b") (MkEntry "pay" 0 0 false)
      (MkEntry "pay" 7 8 true) 3%N (bytes_of "pa") (bytes_of "y") (bytes_of "y") []);
      [reflexivity..|cbn; lia].
Defined.

(** C38. On any file contents replay_from returns, with entries or an error,
    never runs out of turns, changes no file and releases the mutex. *)
Theorem wal_replay_returns seq junk w l :
  wal_mutex_ l = false → position (file_ l) ≤ length (log_bytes (w, l)) →
  ∃ r w' l', replay_from seq junk (w, l) = Returns r (w', l') ∧ files w' = files w ∧
    wal_mutex_ l' = false.
Proof.
  intros Hm Hp. unfold replay_from. rewrite guarded_wal by done. msimpl.
  cbn [is_open_ set_wal_mutex]. destruct (is_open_ l); cbn [negb]; cycle 1.
  { eexists _, _, _. split; [reflexivity|]. by cbn. }
  unfold on_file. msimpl. set (s := (w, set_file _ _)).
  destruct (replay_loop_returns (replay_turns s) seq junk [] s) as (r & w' & st & E & Hf).
  1-2: unfold s, seekg; cbn [snd fst file_ set_file set_wal_mutex];
    unfold replay_turns, log_bytes in *; destruct (failbit _); cbn in *; lia.
  rewrite M_bind_gets, E. eexists _, _, _. by split.
Qed.

Lemma wal_replay_returns_witness :
  let w := MkWorld {[ "log" := bytes_of "garbage, not a log" ]} ∅ (MkClock (λ _, 0%Z) 0) in
  let l := MkWAL "log" (MkStream true 3 false false) false true 0 in
  ∃ r w' l', replay_from 0 0 (w, l) = Returns r (w', l') ∧ files w' = files w ∧
    wal_mutex_ l' = false.
Proof. intros w l. apply wal_replay_returns; [reflexivity|vm_compute; lia]. Defined.

(** C7. On an open log whose stream stands at the end of the file in a good
    state (no replay has spent it since it was opened: the engine replays in
    open, and its later appends are lost), records whose keys have no NUL byte
    and which are at most a megabyte long are recovered: those appended survive
    close, a torn tail of fewer than eight bytes and reopening, and
    replay_from(0) returns the earlier records followed by the appended ones, in
    order, with the version, timestamp and deleted flag reset. *)
Theorem wal_appends_are_recovered es0 es tail junk w l :
  at_end w l → Forall record_ok (es0 ++ es) →
  log_bytes (w, l) = log_of es0 → wal_file_ l ∉ refused w →
  length tail < 8 →
  ∃ w1 l1, (_ ← append_all es; wal_close) (w, l) = Returns (ROk tt) (w1, l1) ∧
    let torn := set_files (<[wal_file_ l := log_bytes (w1, l1) ++ tail]> (files w1)) w1 in
    ∃ w2 l2, (_ ←? wal_open; replay_from 0 junk) (torn, l1) =
      Returns (ROk (recovered_log (clock w) 0 junk (es0 ++ es))) (w2, l2).
Proof.
  intros He Hok Hl Hr Ht.
  destruct (append_all_end es w l He) as (w1 & l1 & E1 & H1 & Hp1 & Hr1 & Hc1 & Hb1).
  exists w1. eexists. rewrite (M_bind_step _ _ _ _ _ E1), wal_close_end by done.
  split; [reflexivity|]. intros torn. set (lc := set_wal_open false _).
  destruct H1 as (Hm1 & Ho1 & Hf1).
  destruct (wal_open_existing torn lc (log_bytes (w1, lc) ++ tail))
    as (l2 & E2 & (Hm2 & Ho2 & Hf2) & Hp2); [done|done|done|..].
  - cbn. by rewrite Hp1, Hr1.
  - cbn. by rewrite Hp1, lookup_insert_eq.
  - rewrite (mtry_step _ _ _ _ _ E2).
    destruct (replay_from_log 0 junk torn l2 (es0 ++ es) tail) as [p E3];
      [by split; rewrite ?Hf2|done| |done|].
    + unfold log_bytes. cbn [fst snd]. rewrite Hp2. cbn [wal_file_ lc set_wal_open set_file].
      rewrite Hp1. unfold torn. rewrite content_insert.
      change (log_bytes _) with (log_bytes (w1, l1)). rewrite Hb1, Hl.
      unfold log_of. by rewrite fmap_app, concat_app.
    + eexists _, _. rewrite E3. cbn [clock torn set_files]. by rewrite Hc1.
Qed.

(** A log of one entry, with the stream where [open] leaves it. *)
Definition sample_entry : WALEntry :=
  WALEntry_new WALEntryType.PUT (MkKey "user" "7") (MkEntry "v1" 1 5 false) 1.

Definition sample_log (data : bytes) : World * WAL :=
  (MkWorld {[ "db/wal.log" := data ]} ∅ (MkClock (λ n, Z.of_nat n * 2000000)%Z 0),
   MkWAL "db/wal.log" (MkStream true (length data) false false) false true 0).

Lemma sample_entry_ok : record_ok sample_entry.
Proof.
  split; try (vm_compute; reflexivity).
  - unfold nul_free. cbn. set_solver.
  - unfold nul_free. cbn. set_solver.
  - vm_compute. discriminate.
Qed.

Lemma wal_appends_are_recovered_witness :
  let s := sample_log (log_of [sample_entry]) in
  ∃ w1 l1, (_ ← append_all [sample_entry]; wal_close) s = Returns (ROk tt) (w1, l1) ∧
    let torn := set_files (<["db/wal.log" := log_bytes (w1, l1) ++ bytes_of "abc"]>
                  (files w1)) w1 in
    ∃ w2 l2, (_ ←? wal_open; replay_from 0 0) (torn, l1) =
      Returns (ROk [recovered 0 0 sample_entry; recovered 2000000 0 sample_entry]) (w2, l2).
Proof.
  intros s. apply (wal_appends_are_recovered [sample_entry] [sample_entry] (bytes_of "abc") 0).
  - by split_and!.
  - repeat constructor; apply sample_entry_ok.
  - reflexivity.
  - cbn. set_solver.
  - cbn. lia.
Defined.

(** C19. After any number of intact records, a record cut anywhere inside its
    payload, or one whose payload differs from the written one within four
    consecutive bytes, makes replay_from return a STORAGE_ERROR instead of
    entries. *)
Theorem wal_damage_is_reported seq junk w l es e rest :
  log_open l → Forall record_ok es → record_ok e →
  ((∃ cut, 8 ≤ cut < length (record_bytes e) ∧ rest = take cut (record_bytes e)) ∨
   (∃ pre mid mid' post, serialize e = pre ++ mid ++ post ∧ mid ≠ mid' ∧
      length mid = length mid' ∧ length mid ≤ 4 ∧
      take (length (record_bytes e)) rest =
        take 8 (record_bytes e) ++ pre ++ mid' ++ post)) →
  log_bytes (w, l) = log_of es ++ rest →
  ∃ msg w' l', replay_from seq junk (w, l) =
    Returns (RErr Status.STORAGE_ERROR msg) (w', l') ∧
    (msg = "Incomplete record in WAL" ∨ msg = "CRC mismatch in WAL record").
Proof.
  intros Ho Hok He Hdmg Hl. rewrite replay_from_start by done.
  destruct (log_of_turns _ _ _ _ Hl) as [k ->].
  set (l' := set_wal_mutex true l).
  change (log_bytes (w, l') = [] ++ log_of es ++ rest) in Hl.
  pose proof (replay_loop_log (S (S k)) seq junk [] es w l' [] rest Hok Hl) as E.
  cbn [length app] in E. rewrite E. clear E.
  set (w' := set_clock _ w). change (log_bytes (w', l') = log_of es ++ rest) in Hl.
  destruct Hdmg as [(cut & Hcut & ->)|(pre & mid & mid' & post & Hs & Hne & Hlen & H4 & Hrest)].
  - destruct (replay_loop_torn (S k) seq junk (recovered_log (clock w) seq junk es)
      w' l' (log_of es) e cut He Hcut Hl) as [l2 ->].
    eexists _, _, _. split; [reflexivity|]. by left.
  - rewrite <- (take_drop (length (record_bytes e)) rest), Hrest in Hl.
    set (payload := pre ++ mid' ++ post) in *.
    assert (length payload = length (serialize e)) as Hlp.
    { unfold payload. rewrite Hs, !length_app. lia. }
    replace (take 8 (record_bytes e)) with
      (le_encode 4 (N.of_nat (length payload)) ++ le_encode 4 (Crc32c (serialize e))) in Hl.
    2: { unfold record_bytes. rewrite record_ok_length, Hlp by done.
      rewrite (assoc_L (++)), take_app_length'; [done|].
      by rewrite length_app, !length_le_encode. }
    rewrite <- (assoc_L (++) (le_encode _ _)) in Hl.
    destruct (replay_loop_corrupt (S k) seq junk (recovered_log (clock w) seq junk es)
      w' l' (log_of es) payload (Crc32c (serialize e)) (drop (length (record_bytes e)) rest))
      as [l2 ->]; [rewrite Hlp; apply He|apply Crc32c_lt| |exact Hl|].
    + unfold payload. rewrite Hs, !Crc32c_serial.
      intros Heq. apply Hne. symmetry. by apply (crc_serial_burst pre mid' mid post);
        rewrite <- ?Hlen.
    + eexists _, _, _. split; [reflexivity|]. by right.
Qed.

Lemma wal_damage_is_reported_witness :
  let torn := sample_log (log_of [sample_entry] ++ take 20 (record_bytes sample_entry)) in
  ∃ msg w' l', replay_from 0 0 torn = Returns (RErr Status.STORAGE_ERROR msg) (w', l') ∧
    (msg = "Incomplete record in WAL" ∨ msg = "CRC mismatch in WAL record").
Proof.
  intros torn. apply (wal_damage_is_reported 0 0 _ _ [sample_entry] sample_entry
    (take 20 (record_bytes sample_entry))).
  - by split.
  - repeat constructor; apply sample_entry_ok.
  - apply sample_entry_ok.
  - left. exists 20. split; [vm_compute; lia|reflexivity].
  - reflexivity.
Defined.

(** Once replay_from has returned entries, append answers OK and writes nothing,
    and a second replay returns no entries. *)
Theorem wal_replay_disables_appends seq junk s entries w l e :
  replay_from seq junk s = Returns (ROk entries) (w, l) →
  ∃ l1 l2, wal_append e (w, l) = Returns (ROk tt) (w, l1) ∧
    replay_from seq junk (w, l1) = Returns (ROk []) (w, l2).
Proof.
  intros (Ho & Hm & Hg & _)%replay_from_ok.
  destruct (wal_append_lost e w l Hm Ho Hg) as (l1 & E & Hm1 & Ho1 & Hf1 & _).
  destruct (replay_from_failed seq junk w l1 Hm1 Ho1 Hf1) as [l2 E2]. eauto.
Qed.

Lemma wal_replay_disables_appends_witness :
  ∃ w l, replay_from 0 0 (sample_log (log_of [sample_entry])) =
    Returns (ROk [recovered 0 0 sample_entry]) (w, l) ∧
  ∃ l1 l2, wal_append sample_entry (w, l) = Returns (ROk tt) (w, l1) ∧
    replay_from 0 0 (w, l1) = Returns (ROk []) (w, l2).
Proof.
  destruct (replay_from_log 0 0 _ _ [sample_entry] []
    ltac:(exact (Build_log_open (sample_log (log_of [sample_entry])).2
      eq_refl eq_refl eq_refl eq_refl))
    ltac:(repeat constructor; apply sample_entry_ok)
    (eq_refl : log_bytes (sample_log (log_of [sample_entry])) = log_of [sample_entry] ++ [])
    ltac:(cbn; lia)) as [p E].
  eexists _, _. split; [exact E|].
  exact (wal_replay_disables_appends _ _ _ _ _ _ sample_entry E).
Defined.

(** truncate on an open log always locks the log's mutex a second time; on a
    closed log it reports an error. *)
Theorem wal_truncate_relocks seq junk w l :
  wal_mutex_ l = false →
  wal_truncate seq junk (w, l) =
    if is_open_ l then Undefined RelockOwned
    else Returns (RErr Status.STORAGE_ERROR "WAL is not open") (w, l).
Proof.
  intros Hm. unfold wal_truncate. rewrite guarded_wal by done. msimpl.
  cbn [is_open_ set_wal_mutex]. destruct (is_open_ l); cbn [negb].
  - by rewrite (M_bind_undefined _ _ _ RelockOwned).
  - unfold unlock. cbn. destruct l; cbn in *. by rewrite Hm.
Qed.

Lemma wal_truncate_relocks_witness :
  wal_truncate 5 0 (sample_log []) = Undefined RelockOwned.
Proof. apply (wal_truncate_relocks 5 0 (sample_log []).1 (sample_log []).2). reflexivity. Defined.
