(* ===== verification/SSTable.v ===== *)
(** * SSTable: the sorted tables on disk of [src/storage/sstable.cpp]

    The format [write] produces, the index kept in memory or read back from
    the file, and the two lookups.  The streams of these methods are local
    variables: reading is a method of the stream over fixed file contents,
    writing accumulates the bytes of the file, whose length is [tellp()]. *)

From Stdlib Require Import Ascii String ZArith NArith Lia.
From stdpp Require Import base numbers list strings gmap.
From S2P Require Import Prelude Bytes OrdMap Types Files MemTable.

(** ** Reading through a local [std::ifstream]

    [data] is the contents of the file.  A variable no read filled is
    indeterminate; a string constructed at its size, or [entry.version],
    which the constructor of [DataEntry] sets to 0, keeps what the read did
    not overwrite. *)
Definition local_read (data : bytes) (n : nat) : M fstream bytes :=
  lift (stream_read n data).

Definition read_scalar (data : bytes) (n : nat) : M fstream N :=
  got ← local_read data n;
  if decide (length got = n) then mret (le_decode got) else undefined Indeterminate.

Definition read_zeroed (data : bytes) (n : nat) : M fstream N :=
  got ← local_read data n; mret (le_decode got).

Definition read_string (data : bytes) (n : N) : M fstream bytes :=
  got ← local_read data (N.to_nat n);
  mret (got ++ replicate (N.to_nat n - length got) NUL).

(** [seekg(pos)] for a 64-bit [pos], converted to the signed [streamoff];
    [seekg(off, cur)]; [seekg(-off, end)].  Seeking before the start fails. *)
Definition seekg_u64 (pos : N) (st : fstream) : fstream :=
  if (0 <=? i64_of_u64 pos)%Z then seekg (N.to_nat pos) st
  else set_failed (seekg (position st) st).

Definition seekg_cur (off : N) (st : fstream) : fstream :=
  seekg (position st + N.to_nat off) st.

Definition seekg_end (data : bytes) (off : nat) (st : fstream) : fstream :=
  if decide (off ≤ length data) then seekg (length data - off) st
  else set_failed (seekg (position st) st).

(** ** The table *)
Record IndexEntry := MkIndex {
  index_key : MultiLevelKey;
  index_offset : N;
  index_bytes : N
}.

Record SSTable := MkSSTable {
  filename_ : string;
  index_ : list IndexEntry;
  size_ : N;
  sst_mutex_ : bool
}.

Definition SSTable_new (filename : string) : SSTable := MkSSTable filename [] 0 false.

Abbreviation SstSt := (World * SSTable)%type.

Definition set_index (ix : list IndexEntry) (n : N) (t : SSTable) : SSTable :=
  MkSSTable (filename_ t) ix n (sst_mutex_ t).
Definition set_sst_mutex (b : bool) (t : SSTable) : SSTable :=
  MkSSTable (filename_ t) (index_ t) (size_ t) b.

#[export, refine] Instance SSTable_mutex : HasMutex SstSt := {|
  which_mutex := SSTableMutex;
  owned := λ s, sst_mutex_ s.2;
  set_owned := λ b s, (s.1, set_sst_mutex b s.2)
|}.
Proof. all: by intros; destruct s as [? []]. Defined.

(** Whether the operating system lets the file be opened for reading. *)
Definition readable (path : string) (w : World) : bool :=
  bool_decide (path ∉ refused w) && bool_decide (is_Some (files w !! path)).

(** The body of a method that opened the file with a local stream. *)
Definition with_stream {A} (m : bytes → M fstream A) : M SstSt A := λ s,
  match m (content (filename_ s.2) s.1) (MkStream true 0 false false) with
  | Returns a _ => Returns a s
  | Throws n _ => Throws n s
  | Undefined u => Undefined u
  end.

(** *** Writing *)
Definition kMagicNumber : N := 0x5354414C.

(** [uint32_t size = s.size(); write(&size, 4); write(s.c_str(), size)]. *)
Definition sized_bytes (s : string) : bytes :=
  let size := wrap32 (N.of_nat (String.length s)) in
  le_encode 4 size ++ take (N.to_nat size) (bytes_of s).

Definition data_bytes (key : MultiLevelKey) (entry : DataEntry) : bytes :=
  sized_bytes (key_to_string key) ++ sized_bytes (value entry) ++
  le_encode 8 (version entry) ++ le_encode 8 (u64_of_i64 (timestamp entry)) ++
  le_encode 1 (if deleted entry then 1 else 0).

(** The loop over the data: the file so far, the index so far and
    [current_offset]. *)
Fixpoint write_data (data : kv_map) (file : bytes) (index : list IndexEntry)
    (current_offset : N) : bytes * list IndexEntry :=
  match data with
  | [] => (file, index)
  | (key, entry) :: data =>
      let file := file ++ data_bytes key entry in
      let tellp := N.of_nat (length file) in
      let size := wrap32 (sub64 tellp current_offset) in
      write_data data file (index ++ [MkIndex key current_offset size]) tellp
  end.

Fixpoint write_index (index : list IndexEntry) (file : bytes) : bytes :=
  match index with
  | [] => file
  | entry :: index =>
      write_index index
        (file ++ sized_bytes (key_to_string (index_key entry)) ++
         le_encode 8 (index_offset entry) ++ le_encode 4 (index_bytes entry))
  end.

(** What [write] puts in the file, and the index it leaves in memory. *)
Definition write_file (data : kv_map) : bytes * list IndexEntry :=
  let file := le_encode 4 kMagicNumber ++ le_encode 4 1 ++
              le_encode 4 (wrap32 (N.of_nat (length data))) in
  let '(file, index) := write_data data file [] (N.of_nat (length file)) in
  let index_offset := N.of_nat (length file) in
  let file := file ++ le_encode 4 (wrap32 (N.of_nat (length index))) in
  (write_index index file ++ le_encode 8 index_offset, index).

Definition sst_write (data : kv_map) : M SstSt (Result unit) := guarded (
  if bool_decide (data = [])
  then mret (RErr Status.INVALID_ARGUMENT "Cannot write empty data") else
  path ← gets (λ s : SstSt, filename_ s.2);
  can_open ← gets (λ s : SstSt, bool_decide (path ∉ refused s.1));
  if negb can_open
  then mret (RErr Status.STORAGE_ERROR
               ("Failed to open SSTable file for writing: " +:+ path)) else
  let '(file, index) := write_file data in
  _ ← modify (λ s : SstSt, (set_files (<[path := file]> (files s.1)) s.1, s.2));
  _ ← modify (λ s : SstSt, (s.1, set_index index (N.of_nat (length data)) s.2));
  mret (ROk tt)).

(** *** Loading the index *)

(** [find(':')] and the two [substr]; without a colon the secondary key stays
    empty. *)
Definition parse_key (key_str : bytes) : MultiLevelKey :=
  match find_byte COLON key_str with
  | Some colon_pos =>
      MkKey (string_of (take colon_pos key_str))
            (string_of (drop (S colon_pos) key_str))
  | None => MkKey (string_of key_str) ""
  end.

Fixpoint load_entries (data : bytes) (n : nat) (index : list IndexEntry) :
    M fstream (list IndexEntry) :=
  match n with
  | 0 => mret index
  | S n =>
      key_size ← read_scalar data 4;
      key_str ← read_string data key_size;
      offset ← read_scalar data 8;
      size ← read_scalar data 4;
      load_entries data n (index ++ [MkIndex (parse_key key_str) offset size])
  end.

Definition load_index_from (data : bytes) : M fstream (Result (list IndexEntry)) :=
  magic_number ← read_scalar data 4;
  version ← local_read data 4;
  _ ← local_read data 4;
  if negb (bool_decide (magic_number = kMagicNumber))
  then mret (RErr Status.STORAGE_ERROR "Invalid SSTable magic number") else
  if negb (bool_decide (length version = 4)) then undefined Indeterminate else
  if negb (bool_decide (le_decode version = 1%N))
  then mret (RErr Status.STORAGE_ERROR "Unsupported SSTable version") else
  _ ← modify (seekg_end data 8);
  index_offset ← read_scalar data 8;
  _ ← modify (seekg_u64 index_offset);
  index_size ← read_scalar data 4;
  index ← load_entries data (N.to_nat index_size) [];
  mret (ROk index).

(** [load_index] and [build_index] take no lock: their callers hold it, or the
    table is not shared yet. *)
Definition load_index : M SstSt (Result unit) :=
  can_open ← gets (λ s : SstSt, readable (filename_ s.2) s.1);
  if negb can_open
  then mret (RErr Status.STORAGE_ERROR "Failed to open SSTable file") else
  index ←? with_stream load_index_from;
  _ ← modify (λ s : SstSt, (s.1, set_index index (N.of_nat (length index)) s.2));
  mret (ROk tt).

Definition build_index : M SstSt (Result unit) := load_index.
Definition save_index : M SstSt (Result unit) := mret (ROk tt).

(** [if (index_.empty()) { load_index ... }]. *)
Definition ensure_index : M SstSt (Result unit) :=
  index ← gets (λ s : SstSt, index_ s.2);
  if bool_decide (index = []) then load_index else mret (ROk tt).

(** *** Reading *)

(** The value, version, timestamp and flag that follow a key. *)
Definition read_data (data : bytes) : M fstream DataEntry :=
  value_size ← read_scalar data 4;
  val ← read_string data value_size;
  ver ← read_zeroed data 8;
  timestamp_ms ← read_scalar data 8;
  deleted_flag ← read_scalar data 1;
  mret (MkEntry (string_of val) ver (i64_of_u64 timestamp_ms)
          (negb (deleted_flag =? 0)%N)).

Definition read_entry (key : MultiLevelKey) (it : IndexEntry) (data : bytes) :
    M fstream (Result DataEntry) :=
  _ ← modify (seekg_u64 (index_offset it));
  key_size ← read_scalar data 4;
  read_key ← read_string data key_size;
  if negb (bool_decide (read_key = bytes_of (key_to_string key)))
  then mret (RErr Status.STORAGE_ERROR "Key mismatch in SSTable") else
  entry ← read_data data;
  if deleted entry
  then mret (RErr Status.NOT_FOUND "Key is marked as deleted")
  else mret (ROk entry).

Definition sst_read (key : MultiLevelKey) : M SstSt (Result DataEntry) := guarded (
  _ ←? ensure_index;
  index ← gets (λ s : SstSt, index_ s.2);
  match index !! std_lower_bound key_ltb index_key key index with
  | Some it =>
      if negb (key_eqb (index_key it) key)
      then mret (RErr Status.NOT_FOUND "Key not found in SSTable") else
      can_open ← gets (λ s : SstSt, readable (filename_ s.2) s.1);
      if negb can_open
      then mret (RErr Status.STORAGE_ERROR "Failed to open SSTable file for reading") else
      with_stream (read_entry key it)
  | None => mret (RErr Status.NOT_FOUND "Key not found in SSTable")
  end).

(** The loop [for (it = start_it; it != end_it && count < limit; ++it, ++count)];
    [rest] is the index from [it] on. *)
Fixpoint sst_scan_loop (rest : list IndexEntry) (it end_it : nat) (count limit : N)
    (data : bytes) : M fstream kv_map :=
  if decide (it = end_it) then mret []
  else if (limit <=? count)%N then mret []
  else match rest with
       | [] => undefined PastEnd
       | e :: rest =>
           _ ← modify (seekg_u64 (index_offset e));
           key_size ← read_scalar data 4;
           _ ← modify (seekg_cur key_size);
           entry ← read_data data;
           results ← sst_scan_loop rest (S it) end_it (wrap32 (count + 1)) limit data;
           mret (if negb (deleted entry) then (index_key e, entry) :: results else results)
       end.

Definition sst_scan_start (query : RangeQuery) (index : list IndexEntry) : nat :=
  let start_it := std_lower_bound key_ltb index_key (start_key query) index in
  match index !! start_it with
  | Some e =>
      if negb (inclusive_start query) && key_eqb (index_key e) (start_key query)
      then S start_it else start_it
  | None => start_it
  end.

Definition sst_scan_end (query : RangeQuery) (index : list IndexEntry) : nat :=
  let end_it := std_upper_bound key_ltb index_key (end_key query) index in
  if inclusive_end query && negb (bool_decide (end_it = 0)) then
    let prev_it := end_it - 1 in
    match index !! prev_it with
    | Some e => if key_eqb (index_key e) (end_key query) then prev_it + 1 else end_it
    | None => end_it
    end
  else end_it.

Definition sst_range_scan (query : RangeQuery) : M SstSt (Result kv_map) := guarded (
  _ ←? ensure_index;
  can_open ← gets (λ s : SstSt, readable (filename_ s.2) s.1);
  if negb can_open
  then mret (RErr Status.STORAGE_ERROR "Failed to open SSTable file for reading") else
  index ← gets (λ s : SstSt, index_ s.2);
  let start_it := sst_scan_start query index in
  let end_it := sst_scan_end query index in
  results ← with_stream (sst_scan_loop (drop start_it index) start_it end_it 0 (limit query));
  mret (ROk results)).

(** ** Specifications *)

(** The entries whose sizes the 32-bit fields hold and whose numbers are of
    their types. *)
Record entry_fits (p : kv) : Prop := {
  fits_key : (N.of_nat (String.length (key_to_string p.1)) < 2 ^ 32)%N;
  fits_value : (N.of_nat (String.length (value p.2)) < 2 ^ 32)%N;
  fits_version : (version p.2 < 2 ^ 64)%N;
  fits_timestamp : is_i64 (timestamp p.2)
}.

Definition colon_free (s : string) : Prop := COLON ∉ bytes_of s.

(** The index entries of [data], the first at [offset]. *)
Fixpoint index_of (data : kv_map) (offset : nat) : list IndexEntry :=
  match data with
  | [] => []
  | (k, e) :: data =>
      let n := length (data_bytes k e) in
      MkIndex k (N.of_nat offset) (N.of_nat n) :: index_of data (offset + n)
  end.

Definition data_region (data : kv_map) : bytes :=
  concat ((λ p, data_bytes p.1 p.2) <$> data).

Definition index_entry_bytes (e : IndexEntry) : bytes :=
  sized_bytes (key_to_string (index_key e)) ++
  le_encode 8 (index_offset e) ++ le_encode 4 (index_bytes e).

Definition header_bytes (data : kv_map) : bytes :=
  le_encode 4 kMagicNumber ++ le_encode 4 1 ++
  le_encode 4 (wrap32 (N.of_nat (length data))).

(** The table file, laid out flat. *)
Definition table_file (data : kv_map) : bytes :=
  header_bytes data ++ data_region data ++
  le_encode 4 (wrap32 (N.of_nat (length data))) ++
  concat (index_entry_bytes <$> index_of data 12) ++
  le_encode 8 (N.of_nat (length (header_bytes data ++ data_region data))).

(** A map a table can hold: sorted, within the sizes, and no larger than the
    offsets can tell. *)
Record table_ok (data : kv_map) : Prop := {
  table_sorted : omap_sorted key_ltb data = true;
  table_fits : Forall entry_fits data;
  table_small : (N.of_nat (length (table_file data)) < 2 ^ 32)%N;
  table_nonempty : data ≠ []
}.

(** The table [t] on disk [w] holds [data]: its index is in memory, or will be
    read back from the file. *)
Record stores (w : World) (t : SSTable) (data : kv_map) : Prop := {
  stores_ok : table_ok data;
  stores_unlocked : sst_mutex_ t = false;
  stores_readable : filename_ t ∉ refused w;
  stores_file : files w !! filename_ t = Some (table_file data);
  stores_index : index_ t = index_of data 12 ∨
                 index_ t = [] ∧ Forall (λ p, colon_free (primary_key p.1)) data
}.

(** ** The file [write] produces *)

Lemma sized_bytes_fits s :
  (N.of_nat (String.length s) < 2 ^ 32)%N →
  sized_bytes s = le_encode 4 (N.of_nat (String.length s)) ++ bytes_of s.
Proof.
  intros H. unfold sized_bytes. rewrite wrap32_small, Nat2N.id by done.
  by rewrite take_ge by (by rewrite length_bytes_of).
Qed.

Lemma index_of_app_keys data o : index_key <$> index_of data o = data.*1.
Proof. revert o. induction data as [|[k e] data IH]; intros o; cbn; [done|]. by rewrite IH. Qed.

Lemma length_index_of data o : length (index_of data o) = length data.
Proof. by rewrite <- (length_fmap index_key), index_of_app_keys, length_fmap. Qed.

Lemma data_region_cons k e data : data_region ((k, e) :: data) = data_bytes k e ++ data_region data.
Proof. done. Qed.

Lemma sub64_of_nat a b :
  (N.of_nat (a + b) < 2 ^ 32)%N →
  wrap32 (sub64 (N.of_nat (a + b)) (N.of_nat a)) = N.of_nat b.
Proof.
  intros H. assert (2 ^ 32 < 2 ^ 64)%N by done.
  pose proof (sub64_add64 (N.of_nat a) (N.of_nat b) (N.of_nat a)) as E.
  rewrite add64_small in E by lia. rewrite Nat2N.inj_add, E by lia.
  rewrite wrap32_small; lia.
Qed.

Lemma write_data_spec data file ix :
  (N.of_nat (length (file ++ data_region data)) < 2 ^ 32)%N →
  write_data data file ix (N.of_nat (length file)) =
    (file ++ data_region data, ix ++ index_of data (length file)).
Proof.
  revert file ix. induction data as [|[k e] data IH]; intros file ix Hsmall.
  - cbn. by rewrite !app_nil_r.
  - cbn [write_data index_of]. rewrite data_region_cons, (assoc_L (++)) in Hsmall.
    rewrite IH by done. rewrite data_region_cons, !(assoc_L (++)), <- !(assoc_L (++) ix).
    rewrite length_app, sub64_of_nat; [done|].
    rewrite !length_app in Hsmall. lia.
Qed.

Lemma write_index_spec ix file :
  write_index ix file = file ++ concat (index_entry_bytes <$> ix).
Proof.
  revert file. induction ix as [|e ix IH]; intros file.
  - cbn. by rewrite app_nil_r.
  - cbn [write_index]. rewrite IH, fmap_cons. cbn [concat].
    change (sized_bytes _ ++ le_encode 8 _ ++ _) with (index_entry_bytes e).
    by rewrite (assoc_L (++)).
Qed.

Lemma length_header_bytes data : length (header_bytes data) = 12.
Proof. unfold header_bytes. by rewrite !length_app, !length_le_encode. Qed.

Lemma write_file_spec data :
  (N.of_nat (length (table_file data)) < 2 ^ 32)%N →
  write_file data = (table_file data, index_of data 12).
Proof.
  intros Hsmall. unfold write_file. change (le_encode 4 kMagicNumber ++ _) with (header_bytes data).
  rewrite write_data_spec; cycle 1.
  { unfold table_file in Hsmall. rewrite !length_app in *. lia. }
  rewrite app_nil_l, length_header_bytes, length_index_of, write_index_spec.
  unfold table_file. by rewrite <- !(assoc_L (++)).
Qed.

(** ** Reading back *)

(** The stream at offset [p], nothing failed. *)
Definition st_at (p : nat) : fstream := MkStream true p false false.

Section reading.
Context (data : bytes).

Lemma local_read_at p n got rest :
  drop p data = got ++ rest → n = length got →
  local_read data n (st_at p) = Returns got (st_at (p + n)) ∧ drop (p + n) data = rest.
Proof.
  intros Hd ->. split.
  - unfold local_read, lift, stream_read. cbn [usable good stream_open position st_at].
    change (usable (st_at p)) with true. cbn iota.
    by rewrite Hd, take_app_length, bool_decide_true by done.
  - by rewrite <- drop_drop, Hd, drop_app_length.
Qed.

Lemma read_scalar_at p n x rest :
  drop p data = le_encode n x ++ rest → (x < 256 ^ N.of_nat n)%N →
  read_scalar data n (st_at p) = Returns x (st_at (p + n)) ∧ drop (p + n) data = rest.
Proof.
  intros Hd Hx. destruct (local_read_at _ n _ _ Hd (eq_sym (length_le_encode _ _))) as [E ?].
  split; [|done]. unfold read_scalar. mstep E. rewrite decide_True by (apply length_le_encode).
  by rewrite le_decode_encode_small.
Qed.

Lemma read_zeroed_at p n x rest :
  drop p data = le_encode n x ++ rest → (x < 256 ^ N.of_nat n)%N →
  read_zeroed data n (st_at p) = Returns x (st_at (p + n)) ∧ drop (p + n) data = rest.
Proof.
  intros Hd Hx. destruct (local_read_at _ n _ _ Hd (eq_sym (length_le_encode _ _))) as [E ?].
  split; [|done]. unfold read_zeroed. mstep E. by rewrite le_decode_encode_small.
Qed.

Lemma read_string_at p n s rest :
  drop p data = bytes_of s ++ rest → n = N.of_nat (String.length s) →
  read_string data n (st_at p) = Returns (bytes_of s) (st_at (p + N.to_nat n)) ∧
  drop (p + N.to_nat n) data = rest.
Proof.
  intros Hd ->. rewrite Nat2N.id.
  destruct (local_read_at _ (String.length s) _ _ Hd (eq_sym (length_bytes_of _))) as [E ?].
  split; [|done]. unfold read_string. rewrite Nat2N.id. mstep E.
  by rewrite length_bytes_of, Nat.sub_diag, app_nil_r.
Qed.

Lemma seekg_u64_at p q :
  (N.of_nat q < 2 ^ 32)%N → seekg_u64 (N.of_nat q) (st_at p) = st_at q.
Proof.
  intros Hq. assert (2 ^ 32 < 2 ^ 63)%N by done. unfold seekg_u64, i64_of_u64.
  rewrite (proj2 (N.ltb_lt _ _)) by lia.
  rewrite (proj2 (Z.leb_le _ _)) by lia. unfold seekg. cbn. by rewrite Nat2N.id.
Qed.

(** A length-prefixed string: the two reads, with the continuation. *)
Lemma read_sized p s rest :
  drop p data = sized_bytes s ++ rest → (N.of_nat (String.length s) < 2 ^ 32)%N →
  ∃ q, (∀ B (f : N → bytes → M fstream B),
      (n ← read_scalar data 4; b ← read_string data n; f n b) (st_at p) =
      f (N.of_nat (String.length s)) (bytes_of s) (st_at q)) ∧ drop q data = rest.
Proof.
  intros Hd Hs. rewrite sized_bytes_fits, <- (assoc_L (++)) in Hd by done.
  destruct (read_scalar_at _ 4 _ _ Hd Hs) as [E1 Hd1].
  destruct (read_string_at _ _ _ _ Hd1 eq_refl) as [E2 Hd2].
  eexists. split; [|exact Hd2]. intros B f. mstep E1. by mstep E2.
Qed.

Definition payload_bytes (e : DataEntry) : bytes :=
  sized_bytes (value e) ++ le_encode 8 (version e) ++
  le_encode 8 (u64_of_i64 (timestamp e)) ++ le_encode 1 (if deleted e then 1 else 0).

Lemma read_data_at p k e rest :
  entry_fits (k, e) → drop p data = payload_bytes e ++ rest →
  ∃ q, read_data data (st_at p) = Returns e (st_at q).
Proof.
  intros [_ Hv Hver Hts] Hd. unfold payload_bytes in Hd. rewrite <- !(assoc_L (++)) in Hd.
  unfold read_data. destruct (read_sized p (value e) _ Hd Hv) as (q & -> & Hq).
  destruct (read_zeroed_at _ 8 _ _ Hq Hver) as [E1 Hd1]. mstep E1.
  destruct (read_scalar_at _ 8 _ _ Hd1 (u64_of_i64_lt _)) as [E2 Hd2]. mstep E2.
  destruct (read_scalar_at _ 1 _ _ Hd2) as [E3 Hd3]; [by destruct (deleted e)|]. mstep E3.
  eexists. cbn [snd] in *. rewrite i64_of_u64_of_i64, string_of_bytes_of by done.
  by destruct e as [?? ? []].
Qed.

Lemma read_entry_at p k e ie rest :
  entry_fits (k, e) → (index_offset ie < 2 ^ 32)%N →
  drop (N.to_nat (index_offset ie)) data = data_bytes k e ++ rest →
  ∃ q, read_entry k ie data (st_at p) = Returns
    (if deleted e then RErr Status.NOT_FOUND "Key is marked as deleted" else ROk e) (st_at q).
Proof.
  intros Hfit Ho Hd. unfold read_entry. rewrite M_bind_modify.
  rewrite <- (N2Nat.id (index_offset ie)), seekg_u64_at by (by rewrite N2Nat.id).
  change (data_bytes k e) with (sized_bytes (key_to_string k) ++ payload_bytes e) in Hd.
  rewrite <- (assoc_L (++)) in Hd.
  destruct (read_sized _ _ _ Hd (fits_key _ Hfit)) as (q & -> & Hq).
  rewrite bool_decide_true by done. cbn [negb].
  destruct (read_data_at _ _ _ _ Hfit Hq) as [q' E]. mstep E.
  destruct (deleted e); eexists; reflexivity.
Qed.
End reading.

(** The index entry [ie] points at the record of [p] in the file. *)
Definition located (file : bytes) (p : kv) (ie : IndexEntry) : Prop :=
  index_key ie = p.1 ∧ (index_offset ie < 2 ^ 32)%N ∧
  ∃ rest, drop (N.to_nat (index_offset ie)) file = data_bytes p.1 p.2 ++ rest.

Lemma index_of_located file data o rest :
  (N.of_nat (length file) < 2 ^ 32)%N → o ≤ length file →
  drop o file = data_region data ++ rest →
  Forall2 (located file) data (index_of data o).
Proof.
  intros Hf. revert o. induction data as [|[k e] data IH]; intros o Ho Hd; [constructor|].
  rewrite data_region_cons, <- (assoc_L (++)) in Hd. cbn [index_of]. constructor.
  - split; [done|]. cbn [index_offset fst snd]. rewrite Nat2N.id.
    split; [lia|]. eexists. exact Hd.
  - assert (length (drop o file) = length (data_bytes k e ++ data_region data ++ rest)) as Hl
      by (by rewrite Hd).
    rewrite length_drop, length_app in Hl. apply IH; [lia|].
    by rewrite <- drop_drop, Hd, drop_app_length.
Qed.

Lemma table_file_drop data :
  drop 12 (table_file data) = data_region data ++
    le_encode 4 (wrap32 (N.of_nat (length data))) ++
    concat (index_entry_bytes <$> index_of data 12) ++
    le_encode 8 (N.of_nat (length (header_bytes data ++ data_region data))).
Proof. unfold table_file. apply drop_app_length'. by rewrite length_header_bytes. Qed.

Lemma table_located data :
  table_ok data → Forall2 (located (table_file data)) data (index_of data 12).
Proof.
  intros [_ _ Hsmall _]. eapply index_of_located; [done| |apply table_file_drop].
  unfold table_file. rewrite length_app, length_header_bytes. lia.
Qed.

(** ** The index read back *)

(** What [load_index] makes of an index entry: its key goes through
    [to_string] and [parse_key]. *)
Definition reparse (e : IndexEntry) : IndexEntry :=
  MkIndex (parse_key (bytes_of (key_to_string (index_key e)))) (index_offset e) (index_bytes e).

Record index_fits (e : IndexEntry) : Prop := {
  ifits_key : (N.of_nat (String.length (key_to_string (index_key e))) < 2 ^ 32)%N;
  ifits_offset : (index_offset e < 2 ^ 32)%N;
  ifits_bytes : (index_bytes e < 2 ^ 32)%N
}.

Lemma load_entries_at data p ix acc rest :
  Forall index_fits ix → drop p data = concat (index_entry_bytes <$> ix) ++ rest →
  ∃ q, load_entries data (length ix) acc (st_at p) =
    Returns (acc ++ (reparse <$> ix)) (st_at q).
Proof.
  intros Hix. revert p acc. induction Hix as [|e ix [Hk Ho Hb] _ IH]; intros p acc Hd.
  - exists p. cbn. by rewrite app_nil_r.
  - cbn [fmap list_fmap concat] in Hd. unfold index_entry_bytes in Hd at 1.
    rewrite <- !(assoc_L (++)) in Hd. cbn [length load_entries].
    destruct (read_sized _ _ _ _ Hd Hk) as (q & -> & Hq).
    assert (index_offset e < 256 ^ N.of_nat 8)%N as Ho8
      by (trans (2 ^ 32)%N; [exact Ho|done]).
    destruct (read_scalar_at _ _ 8 _ _ Hq Ho8) as [E1 Hd1]. mstep E1.
    destruct (read_scalar_at _ _ 4 _ _ Hd1 Hb) as [E2 Hd2]. mstep E2.
    destruct (IH _ (acc ++ [reparse e]) Hd2) as [q' E]. exists q'.
    unfold reparse in E at 1. rewrite E. cbn. by rewrite <- (assoc_L (++)).
Qed.

Lemma length_data_region data : length data ≤ length (data_region data).
Proof.
  induction data as [|[k e] data IH]; [done|]. rewrite data_region_cons, length_app.
  unfold data_bytes at 1. rewrite !length_app, length_le_encode. cbn [length]. lia.
Qed.

Lemma index_of_fits data o :
  Forall entry_fits data → (N.of_nat (o + length (data_region data)) < 2 ^ 32)%N →
  Forall index_fits (index_of data o).
Proof.
  intros Hd. revert o. induction Hd as [|[k e] data [Hk _ _ _] _ IH]; intros o Ho; [constructor|].
  rewrite data_region_cons, length_app in Ho. cbn [index_of]. constructor.
  - split; cbn [index_key index_offset index_bytes fst] in *; [done|lia|lia].
  - apply IH. lia.
Qed.

Lemma load_index_from_table data :
  table_ok data →
  ∃ q, load_index_from (table_file data) (st_at 0) =
    Returns (ROk (reparse <$> index_of data 12)) (st_at q).
Proof.
  intros [_ Hfits Hsmall _]. unfold load_index_from.
  assert (drop 0 (table_file data) = le_encode 4 kMagicNumber ++ le_encode 4 1 ++
    le_encode 4 (wrap32 (N.of_nat (length data))) ++ drop 12 (table_file data)) as H0.
  { rewrite table_file_drop, drop_0. unfold table_file, header_bytes.
    by rewrite <- !(assoc_L (++)). }
  destruct (read_scalar_at _ _ 4 _ _ H0 ltac:(done)) as [E1 H1]. mstep E1.
  destruct (local_read_at _ _ 4 _ _ H1 ltac:(done)) as [E2 H2]. mstep E2.
  destruct (local_read_at _ _ 4 _ _ H2 ltac:(by rewrite length_le_encode)) as [E3 _]. mstep E3.
  rewrite bool_decide_true by done. cbn [negb].
  rewrite bool_decide_true by done. cbn [negb].
  rewrite bool_decide_true by done. cbn [negb]. rewrite M_bind_modify.
  set (off := length (header_bytes data ++ data_region data)).
  assert (12 + length (data_region data) ≤ length (table_file data) ∧
    8 ≤ length (table_file data) ∧ off = 12 + length (data_region data)) as (Hlen & H8 & Hoff).
  { unfold off, table_file. rewrite !length_app, length_header_bytes, length_le_encode. lia. }
  unfold seekg_end. rewrite decide_True by lia.
  change (seekg _ (st_at _)) with (st_at (length (table_file data) - 8)).
  assert (drop (length (table_file data) - 8) (table_file data) =
    le_encode 8 (N.of_nat off) ++ []) as Hend.
  { unfold table_file at 2. rewrite app_nil_r, !(assoc_L (++)). apply drop_app_length'.
    unfold table_file. rewrite !length_app, !length_le_encode. lia. }
  assert (2 ^ 32 < 256 ^ N.of_nat 8)%N as Hpow by done.
  destruct (read_scalar_at _ _ 8 _ _ Hend ltac:(lia)) as [E4 _]. mstep E4.
  rewrite M_bind_modify, seekg_u64_at by lia.
  assert (drop off (table_file data) = le_encode 4 (N.of_nat (length data)) ++
    concat (index_entry_bytes <$> index_of data 12) ++ le_encode 8 (N.of_nat off)) as Hix.
  { unfold table_file. rewrite (assoc_L (++)), drop_app_length' by done.
    rewrite wrap32_small; [done|]. pose proof (length_data_region data). lia. }
  pose proof (length_data_region data) as Hdr.
  destruct (read_scalar_at _ _ 4 _ _ Hix) as [E5 H5].
  { change (256 ^ N.of_nat 4)%N with (2 ^ 32)%N. lia. }
  mstep E5. rewrite Nat2N.id, <- (length_index_of data 12).
  destruct (load_entries_at _ _ (index_of data 12) [] _
    ltac:(apply index_of_fits; [done|lia]) H5) as [q E6].
  mstep E6. by exists q.
Qed.

Lemma parse_key_to_string k :
  colon_free (primary_key k) → parse_key (bytes_of (key_to_string k)) = k.
Proof.
  intros Hk. unfold parse_key, key_to_string. rewrite !bytes_of_app.
  change (bytes_of ":") with [COLON]. cbn [app].
  rewrite find_byte_app by done. rewrite take_app_length, cons_middle, (assoc_L (++)).
  rewrite drop_app_length' by (rewrite length_app; cbn; lia).
  rewrite !string_of_bytes_of. by destruct k.
Qed.

Lemma reparse_colon_free data o :
  Forall (λ p, colon_free (primary_key p.1)) data →
  reparse <$> index_of data o = index_of data o.
Proof.
  intros Hd. revert o. induction Hd as [|[k e] data Hk _ IH]; intros o; [done|].
  cbn [index_of fmap list_fmap]. rewrite IH. unfold reparse. cbn [index_key index_offset index_bytes].
  by rewrite parse_key_to_string.
Qed.

(** ** The table on disk implements the map *)

(** The table once its index is in memory. *)
Definition indexed (data : kv_map) (t : SSTable) : SSTable :=
  set_index (index_of data 12) (N.of_nat (length data)) t.

Lemma stores_file_readable w t data :
  stores w t data → readable (filename_ t) w = true ∧ content (filename_ t) w = table_file data.
Proof.
  intros [_ _ Hr Hf _]. unfold readable, content. rewrite Hf. cbn.
  by rewrite !bool_decide_true by (done || eauto).
Qed.

Lemma load_index_stores w t data :
  table_ok data → readable (filename_ t) w = true → content (filename_ t) w = table_file data →
  load_index (w, t) = Returns (ROk tt)
    (w, set_index (reparse <$> index_of data 12) (N.of_nat (length data)) t).
Proof.
  intros Hok Hr Hc. unfold load_index. msimpl. rewrite Hr. cbn [negb].
  assert (with_stream load_index_from (w, t) =
    Returns (ROk (reparse <$> index_of data 12)) (w, t)) as E.
  { unfold with_stream. cbn [fst snd]. rewrite Hc.
    change (MkStream true 0 false false) with (st_at 0).
    by destruct (load_index_from_table data Hok) as [q ->]. }
  unfold mtry. mstep E. msimpl. by rewrite length_fmap, length_index_of.
Qed.

Lemma ensure_index_stores w t data :
  stores w t data →
  ∃ n, ensure_index (w, set_sst_mutex true t) =
    Returns (ROk tt) (w, set_sst_mutex true (set_index (index_of data 12) n t)).
Proof.
  intros Hst. destruct (stores_file_readable _ _ _ Hst) as [Hr Hc].
  destruct Hst as [Hok _ _ _ [Hi|[Hi Hcolon]]]; unfold ensure_index; msimpl;
    cbn [index_ set_sst_mutex]; rewrite Hi.
  - rewrite bool_decide_false.
    + exists (size_ t). unfold set_sst_mutex, set_index. cbn. by rewrite <- Hi.
    + intros He%(f_equal length). rewrite length_index_of in He.
      by apply (table_nonempty _ Hok), nil_length_inv.
  - rewrite bool_decide_true by done. rewrite (load_index_stores _ _ data) by done.
    rewrite reparse_colon_free by done. eauto.
Qed.

(** *** The index positions are those of the map *)

Lemma prefix_length_fmap {A B} (f : A → B) (P : B → bool) (l : list A) :
  prefix_length P (f <$> l) = prefix_length (λ x, P (f x)) l.
Proof. induction l as [|x l IH]; cbn; [done|]. by rewrite IH. Qed.

Lemma prefix_length_index (P : MultiLevelKey → bool) data o :
  prefix_length (λ e, P (index_key e)) (index_of data o) = prefix_length (λ p, P p.1) data.
Proof.
  rewrite <- (prefix_length_fmap index_key P), index_of_app_keys.
  apply (prefix_length_fmap fst P).
Qed.

Lemma index_sorted_lookup data o :
  omap_sorted key_ltb data = true →
  ∀ i j x y, i < j → index_of data o !! i = Some x → index_of data o !! j = Some y →
  key_ltb (index_key x) (index_key y) = true.
Proof.
  intros Hs i j x y Hij Hx Hy.
  assert (∀ i x, index_of data o !! i = Some x →
    ∃ p, data !! i = Some p ∧ p.1 = index_key x) as H.
  { clear. intros i x Hx. assert (data.*1 !! i = Some (index_key x)) as H
      by (by rewrite <- (index_of_app_keys data o), list_lookup_fmap, Hx).
    apply list_lookup_fmap_Some_1 in H as (p & ? & ?). eauto. }
  destruct (H _ _ Hx) as (p & Hp & <-), (H _ _ Hy) as (q & Hq & <-).
  by apply (omap_sorted_lookup _ Hs i j).
Qed.

Lemma index_lower_bound data o k :
  omap_sorted key_ltb data = true →
  std_lower_bound key_ltb index_key k (index_of data o) = omap_lower_bound key_ltb k data.
Proof.
  intros Hs. unfold std_lower_bound. rewrite std_bound_correct.
  - by rewrite (prefix_length_index (λ a, key_ltb a k)), omap_lower_bound_prefix.
  - apply (partitioned_sorted (ltb := key_ltb) index_key (λ a, key_ltb a k)); [intros ??; apply ltb_trans|].
    by apply index_sorted_lookup.
Qed.

Lemma index_upper_bound data o k :
  omap_sorted key_ltb data = true →
  std_upper_bound key_ltb index_key k (index_of data o) = omap_upper_bound key_ltb k data.
Proof.
  intros Hs. unfold std_upper_bound. rewrite std_bound_correct.
  - by rewrite (prefix_length_index (λ a, negb (key_ltb k a))), omap_upper_bound_prefix.
  - apply (partitioned_sorted (ltb := key_ltb) index_key (λ a, negb (key_ltb k a))).
    + intros a b Hab Hb. rewrite negb_true_iff in *.
      destruct (key_ltb k a) eqn:E; [|done]. by rewrite (ltb_trans _ _ _ E Hab) in Hb.
    + by apply index_sorted_lookup.
Qed.

Lemma omap_find_lower_bound k (data : kv_map) :
  omap_find key_ltb k data =
    match data !! omap_lower_bound key_ltb k data with
    | Some (k', e) => if key_eqb k' k then Some e else None
    | None => None
    end.
Proof.
  induction data as [|[k' e] data IH]; [done|]. cbn [omap_find omap_lower_bound].
  destruct (key_ltb k' k) eqn:E1; cbn [lookup list_lookup].
  - by rewrite (ltb_asym _ _ E1), IH.
  - destruct (key_ltb k k') eqn:E2.
    + destruct (key_eqb k' k) eqn:E3; [|done].
      apply key_eqb_eq in E3 as ->. by rewrite ltb_irrefl in E2.
    + rewrite (ltb_total k k') by done. by rewrite (proj2 (key_eqb_eq k' k')).
Qed.

(** *** [read] *)

(** What a lookup in the map [data] answers. *)
Definition lookup_result (o : option DataEntry) : Result DataEntry :=
  match o with
  | None => RErr Status.NOT_FOUND "Key not found in SSTable"
  | Some e =>
      if deleted e then RErr Status.NOT_FOUND "Key is marked as deleted" else ROk e
  end.

Lemma guarded_sst {A} (m : M SstSt A) w t :
  sst_mutex_ t = false →
  guarded m (w, t) =
    match m (w, set_sst_mutex true t) with
    | Returns a s => Returns a (s.1, set_sst_mutex false s.2)
    | Throws n s => Throws n (s.1, set_sst_mutex false s.2)
    | Undefined u => Undefined u
    end.
Proof. intros H. unfold guarded. cbn [owned SSTable_mutex snd]. by rewrite H. Qed.

Lemma set_index_stores w t data n :
  stores w t data → stores w (set_index (index_of data 12) n t) data.
Proof. intros []. split; cbn; auto. Qed.

Lemma unlock_set_index (b : bool) ix n t :
  sst_mutex_ t = b → set_sst_mutex b (set_sst_mutex true (set_index ix n t)) = set_index ix n t.
Proof. by intros <-. Qed.

Lemma sst_read_stores k w t data :
  stores w t data →
  ∃ n, sst_read k (w, t) = Returns (lookup_result (omap_find key_ltb k data))
    (w, set_index (index_of data 12) n t).
Proof.
  intros Hst. destruct (ensure_index_stores _ _ _ Hst) as [n E]. exists n.
  destruct (stores_file_readable _ _ _ Hst) as [Hr Hc].
  destruct Hst as [Hok Hm _ _ _]. pose proof (table_located _ Hok) as Hloc.
  unfold sst_read. rewrite guarded_sst by done. unfold mtry at 1. mstep E. msimpl.
  change (index_ (set_sst_mutex true (set_index ?ix n t))) with ix.
  rewrite (index_lower_bound data 12 k (table_sorted _ Hok)), omap_find_lower_bound.
  destruct (data !! _) as [[k' e]|] eqn:Hd; cycle 1.
  { destruct (index_of data 12 !! _) eqn:Hi.
    - by destruct (Forall2_lookup_r _ _ _ _ _ Hloc Hi) as (? & ? & _); simplify_eq.
    - cbn [mret M_ret fst snd]. by rewrite (unlock_set_index false). }
  destruct (Forall2_lookup_l _ _ _ _ _ Hloc Hd) as (ie & -> & Hkey & Ho & rest & Hrest). cbn in Hkey. rewrite Hkey.
  destruct (key_eqb k' k) eqn:Ek; cbn [negb]; [|cbn; by rewrite (unlock_set_index false)].
  apply key_eqb_eq in Ek as ->. msimpl.
  change (filename_ (set_sst_mutex _ (set_index _ _ _))) with (filename_ t).
  rewrite Hr. cbn [negb]. unfold with_stream. cbn [fst snd].
  change (filename_ (set_sst_mutex _ (set_index _ _ _))) with (filename_ t).
  rewrite Hc. change (MkStream true 0 false false) with (st_at 0).
  assert (entry_fits (k, e)) as Hfit.
  { eapply Forall_lookup_1; [apply (table_fits _ Hok)|exact Hd]. }
  destruct (read_entry_at _ 0 k e ie rest Hfit Ho Hrest) as [q ->].
  cbn [fst snd]. by rewrite (unlock_set_index false).
Qed.

(** *** [range_scan] *)

Lemma sst_scan_loop_at file l rest it end_it count limit p :
  Forall2 (located file) l rest → Forall entry_fits l → (limit < 2 ^ 32)%N →
  match scan_loop l it end_it count limit with
  | Some r => ∃ q, sst_scan_loop rest it end_it count limit file (st_at p) = Returns r (st_at q)
  | None => sst_scan_loop rest it end_it count limit file (st_at p) = Undefined PastEnd
  end.
Proof.
  intros Hloc. revert it count p.
  induction Hloc as [|[k e] ie l rest (Hk & Ho & post & Hd) _ IH];
    intros it count p Hfits Hlim; cbn [scan_loop sst_scan_loop].
  { case_decide; [by eexists|]. by destruct (N.leb_spec limit count); [eexists|]. }
  case_decide; [by eexists|]. destruct (N.leb_spec limit count); [by eexists|].
  apply Forall_cons in Hfits as [Hfit Hfits].
  rewrite M_bind_modify, <- (N2Nat.id (index_offset ie)), seekg_u64_at
    by (by rewrite N2Nat.id).
  cbn [fst snd] in Hk, Hd.
  change (data_bytes k e) with (sized_bytes (key_to_string k) ++ payload_bytes e) in Hd.
  rewrite <- (assoc_L (++)), sized_bytes_fits, <- (assoc_L (++)) in Hd by apply Hfit.
  destruct (read_scalar_at _ _ 4 _ _ Hd (fits_key _ Hfit)) as [E1 Hd1]. mstep E1.
  rewrite M_bind_modify. unfold seekg_cur. cbn [position st_at]. rewrite Nat2N.id.
  set (q := N.to_nat (index_offset ie) + 4) in *.
  change (seekg ?n (st_at q)) with (st_at n).
  assert (drop (q + String.length (key_to_string k)) file = payload_bytes e ++ post) as Hd2.
  { rewrite <- drop_drop, Hd1. apply drop_app_length'. by rewrite length_bytes_of. }
  destruct (read_data_at _ _ k e _ Hfit Hd2) as [q' E2]. mstep E2.
  rewrite wrap32_small by lia.
  specialize (IH (S it) (count + 1)%N q' Hfits Hlim).
  destruct (scan_loop l (S it) end_it (count + 1) limit) as [r|]; cbn.
  - destruct IH as [q'' E3]. mstep E3. exists q''. rewrite Hk. by destruct (deleted e).
  - by rewrite (M_bind_undefined _ _ _ _ IH).
Qed.

Lemma sst_scan_start_index query data o :
  omap_sorted key_ltb data = true →
  sst_scan_start query (index_of data o) = scan_start query data.
Proof.
  intros Hs. unfold sst_scan_start, scan_start. rewrite index_lower_bound by done.
  set (i := omap_lower_bound _ _ _).
  assert (index_key <$> index_of data o !! i = fst <$> data !! i) as H
    by (by rewrite <- !list_lookup_fmap, index_of_app_keys).
  destruct (index_of data o !! i), (data !! i) as [[]|]; try done. by injection H as ->.
Qed.

Lemma sst_scan_end_index query data o :
  omap_sorted key_ltb data = true →
  sst_scan_end query (index_of data o) = scan_end query data.
Proof.
  intros Hs. rewrite scan_end_prefix, <- omap_upper_bound_prefix by done.
  unfold sst_scan_end. rewrite index_upper_bound by done.
  set (n := omap_upper_bound _ _ _).
  destruct (inclusive_end query && _) eqn:E; [|done].
  apply andb_true_iff in E as [_ E]. rewrite negb_true_iff, bool_decide_eq_false in E.
  destruct (_ !! _); [destruct (key_eqb _ _)|]; lia.
Qed.

Lemma sst_range_scan_stores query w t data :
  stores w t data → (limit query < 2 ^ 32)%N →
  ∃ n, sst_range_scan query (w, t) =
    match memtable_range_scan query (MkMemTable data 0) with
    | Returns r _ => Returns r (w, set_index (index_of data 12) n t)
    | Throws m _ => Throws m (w, set_index (index_of data 12) n t)
    | Undefined u => Undefined u
    end.
Proof.
  intros Hst Hlim. destruct (ensure_index_stores _ _ _ Hst) as [n E]. exists n.
  destruct (stores_file_readable _ _ _ Hst) as [Hr Hc].
  destruct Hst as [Hok Hm _ _ _]. pose proof (table_located _ Hok) as Hloc.
  unfold sst_range_scan. rewrite guarded_sst by done. unfold mtry at 1. mstep E. msimpl.
  change (filename_ (set_sst_mutex _ (set_index _ _ _))) with (filename_ t).
  rewrite Hr. cbn [negb]. msimpl.
  change (index_ (set_sst_mutex true (set_index ?ix n t))) with ix.
  rewrite sst_scan_start_index, sst_scan_end_index by apply Hok.
  unfold memtable_range_scan. cbn [data_].
  set (i := scan_start query data). set (j := scan_end query data).
  pose proof (sst_scan_loop_at (table_file data) (drop i data) (drop i (index_of data 12))
    i j 0 (limit query) 0 (Forall2_drop _ _ _ _ Hloc)
    (Forall_drop _ _ _ (table_fits _ Hok)) Hlim) as H.
  unfold mbind at 1, M_bind at 1, with_stream. cbn [fst snd].
  change (filename_ (set_sst_mutex _ (set_index _ _ _))) with (filename_ t).
  rewrite Hc. change (MkStream true 0 false false) with (st_at 0).
  destruct (scan_loop _ _ _ _ _) as [r|].
  - destruct H as [q ->]. cbn [mret M_ret fst snd]. by rewrite (unlock_set_index false).
  - by rewrite H.
Qed.

(** ** Properties *)

Lemma sst_write_stores data w t :
  table_ok data → sst_mutex_ t = false → filename_ t ∉ refused w →
  sst_write data (w, t) = Returns (ROk tt)
    (set_files (<[filename_ t := table_file data]> (files w)) w, indexed data t).
Proof.
  intros Hok Hm Hr. unfold sst_write. rewrite guarded_sst by done.
  rewrite bool_decide_false by apply Hok. msimpl.
  rewrite bool_decide_true by done. cbn [negb].
  rewrite write_file_spec by apply Hok. msimpl.
  unfold mret, M_ret, indexed, set_index, set_sst_mutex. cbn. by rewrite Hm.
Qed.

Lemma written_stores data w t :
  table_ok data → sst_mutex_ t = false → filename_ t ∉ refused w →
  (index_ t = index_of data 12 ∨
   index_ t = [] ∧ Forall (λ p, colon_free (primary_key p.1)) data) →
  stores (set_files (<[filename_ t := table_file data]> (files w)) w) t data.
Proof. intros. split; auto. cbn. by rewrite lookup_insert_eq. Qed.

(** C5. A non-empty sorted map whose sizes fit the 32-bit fields of the format,
    written to a table file that can be created, reads back: the object that
    wrote it answers every read as a lookup in the map (tombstones are
    NOT_FOUND), no other file changes, and when no primary key has a colon a new
    object that loads the index from the file answers the same. *)
Theorem sst_write_then_read data w t k :
  table_ok data → sst_mutex_ t = false → filename_ t ∉ refused w →
  ∃ w1 t1, sst_write data (w, t) = Returns (ROk tt) (w1, t1) ∧
    (∀ p, p ≠ filename_ t → files w1 !! p = files w !! p) ∧
    (∃ t2, sst_read k (w1, t1) =
       Returns (lookup_result (omap_find key_ltb k data)) (w1, t2)) ∧
    (Forall (λ p, colon_free (primary_key p.1)) data →
     ∃ t2, sst_read k (w1, SSTable_new (filename_ t)) =
       Returns (lookup_result (omap_find key_ltb k data)) (w1, t2)).
Proof.
  intros Hok Hm Hr. do 2 eexists. split; [by apply sst_write_stores|].
  split; [intros; cbn; by rewrite lookup_insert_ne|]. split.
  - pose proof (written_stores data w (indexed data t) Hok Hm Hr (or_introl eq_refl)) as H.
    destruct (sst_read_stores k _ _ _ H) as [n E]. by eexists.
  - intros Hc. pose proof (written_stores data w (SSTable_new (filename_ t)) Hok
      eq_refl Hr (or_intror (conj eq_refl Hc))) as H.
    destruct (sst_read_stores k _ _ _ H) as [n E]. by eexists.
Qed.

Definition sample_data : kv_map :=
  [(MkKey "a" "1", MkEntry "x" 1 5 false); (MkKey "b" "", MkEntry "y" 2 (-3) true);
   (MkKey "b" ":2", MkEntry "" 3 7 false)].

Definition empty_world : World := MkWorld ∅ ∅ (MkClock (λ n, Z.of_nat n) 0).

Lemma sample_data_ok : table_ok sample_data.
Proof.
  split; [reflexivity| |vm_compute; reflexivity|done].
  repeat constructor; vm_compute; try reflexivity; discriminate.
Qed.

Lemma sample_data_colon_free : Forall (λ p, colon_free (primary_key p.1)) sample_data.
Proof. repeat constructor; unfold colon_free; cbn; set_solver. Qed.

Lemma sst_write_then_read_witness :
  ∃ w1 t1, sst_write sample_data (empty_world, SSTable_new "t.sst") =
      Returns (ROk tt) (w1, t1) ∧
    (∀ p, p ≠ "t.sst" → files w1 !! p = files empty_world !! p) ∧
    (∃ t2, sst_read (MkKey "b" ":2") (w1, t1) = Returns (ROk (MkEntry "" 3 7 false)) (w1, t2)) ∧
    (Forall (λ p, colon_free (primary_key p.1)) sample_data →
     ∃ t2, sst_read (MkKey "b" ":2") (w1, SSTable_new "t.sst") =
       Returns (ROk (MkEntry "" 3 7 false)) (w1, t2)).
Proof.
  apply (sst_write_then_read sample_data empty_world (SSTable_new "t.sst") (MkKey "b" ":2"));
    [apply sample_data_ok|reflexivity|cbn; set_solver].
Defined.

(** The entries a scan of the map [data] answers with. *)
Definition scan_of (query : RangeQuery) (data : kv_map) : kv_map :=
  filter live (take (N.to_nat (limit query)) (filter (λ p, between_keys query p.1) data)).

Lemma sst_range_scan_plain query data w t :
  stores w t data → (limit query < 2 ^ 32)%N →
  key_ltb (end_key query) (start_key query) = false →
  ∃ n, sst_range_scan query (w, t) =
    Returns (ROk (scan_of query data)) (w, set_index (index_of data 12) n t).
Proof.
  intros Hst Hlim Hle. destruct (sst_range_scan_stores query w t data Hst Hlim) as [n ->].
  assert (memtable_inv (MkMemTable data (wrap64 (footprint data)))) as Hinv
    by (split; [apply Hst|done]).
  pose proof (memtable_range_scan_spec query _ Hinv Hle) as E.
  unfold memtable_range_scan in E |- *. cbn [data_] in *.
  destruct (scan_loop _ _ _ _ _); [|done]. injection E as ->. by eexists.
Qed.

(** A range scan of a table on disk returns, in order, the live ones among the
    first `limit` entries of its map that lie between the keys (the end key
    always included). *)
Theorem sst_range_scan_agrees query data w t :
  stores w t data → (limit query < 2 ^ 32)%N →
  key_ltb (end_key query) (start_key query) = false →
  ∃ t', sst_range_scan query (w, t) = Returns (ROk (scan_of query data)) (w, t').
Proof.
  intros Hst Hlim Hle.
  destruct (sst_range_scan_plain query data w t Hst Hlim Hle) as [n E]. by eexists.
Qed.

Lemma sst_range_scan_agrees_witness :
  let w := set_files {["t.sst" := table_file sample_data]} empty_world in
  ∃ t', sst_range_scan (MkRange (MkKey "a" "1") (MkKey "b" ":2") 3 false false)
      (w, SSTable_new "t.sst") =
    Returns (ROk [(MkKey "b" ":2", MkEntry "" 3 7 false)]) (w, t').
Proof.
  intros w.
  apply (sst_range_scan_agrees (MkRange (MkKey "a" "1") (MkKey "b" ":2") 3 false false)
           sample_data w (SSTable_new "t.sst")); [|reflexivity..].
  split; [apply sample_data_ok|reflexivity|cbn; set_solver|reflexivity|].
  right. split; [reflexivity|apply sample_data_colon_free].
Defined.

(** A table with one live entry whose primary key contains a colon, opened by a
    new object, no longer finds that key and returns its entry under the key
    split at the first colon. *)
Theorem sst_reload_splits_at_first_colon p q s e w path :
  colon_free p →
  let k := MkKey (p +:+ ":" +:+ q) s in
  let k' := MkKey p (q +:+ ":" +:+ s) in
  table_ok [(k, e)] → deleted e = false → path ∉ refused w →
  let w1 := set_files (<[path := table_file [(k, e)]]> (files w)) w in
  ∃ t1 t2, sst_read k (w1, SSTable_new path) =
      Returns (RErr Status.NOT_FOUND "Key not found in SSTable") (w1, t1) ∧
    sst_read k' (w1, SSTable_new path) = Returns (ROk e) (w1, t2).
Proof.
  intros Hp k k' Hok He Hr w1.
  assert (key_to_string k' = key_to_string k) as Hs.
  { unfold key_to_string, k, k'. cbn [primary_key secondary_key]. apply bytes_of_inj.
    by rewrite !bytes_of_app, <- !(assoc_L (++)). }
  assert (table_file [(k', e)] = table_file [(k, e)]) as Hfile.
  { unfold table_file, data_region, data_bytes, index_of, index_entry_bytes. cbn [fmap list_fmap].
    cbn [fst snd index_key index_offset index_bytes]. unfold data_bytes. by rewrite Hs. }
  assert (table_ok [(k', e)]) as Hok'.
  { destruct Hok as [_ [[Hk Hv Hver Hts] _]%Forall_cons Hsmall _]. split; [done| |by rewrite Hfile|done].
    constructor; [|done]. by split; cbn [fst snd] in *; rewrite ?Hs. }
  assert (k' ≠ k) as Hne.
  { intros [= H _]. apply (f_equal (length ∘ bytes_of)) in H. cbn [compose] in H.
    rewrite !bytes_of_app, !length_app in H. cbn in H. lia. }
  assert (stores w1 (SSTable_new path) [(k', e)]) as Hst.
  { unfold w1. rewrite <- Hfile. apply (written_stores _ w (SSTable_new path)); [done..|].
    right. split; [done|]. by repeat constructor. }
  destruct (sst_read_stores k _ _ _ Hst) as [n1 E1].
  destruct (sst_read_stores k' _ _ _ Hst) as [n2 E2].
  do 2 eexists. rewrite E1, E2. split; f_equal.
  - destruct (omap_find key_ltb k [(k', e)]) eqn:Ef; [|done].
    apply omap_find_elem in Ef; [|done].
    apply list_elem_of_singleton in Ef. congruence.
  - assert (omap_find key_ltb k' [(k', e)] = Some e) as ->
      by (apply omap_find_elem; [done|by left]).
    cbn. by rewrite He.
Qed.

Lemma sst_reload_splits_at_first_colon_witness :
  let k := MkKey "user:7" "name" in
  let w1 := set_files {["t.sst" := table_file [(k, MkEntry "v" 1 5 false)]]} empty_world in
  ∃ t1 t2, sst_read k (w1, SSTable_new "t.sst") =
      Returns (RErr Status.NOT_FOUND "Key not found in SSTable") (w1, t1) ∧
    sst_read (MkKey "user" "7:name") (w1, SSTable_new "t.sst") =
      Returns (ROk (MkEntry "v" 1 5 false)) (w1, t2).
Proof.
  apply (sst_reload_splits_at_first_colon "user" "7" "name" (MkEntry "v" 1 5 false)
           empty_world "t.sst").
  - unfold colon_free. cbn. set_solver.
  - split; [reflexivity| |vm_compute; reflexivity|done].
    repeat constructor; vm_compute; try reflexivity; discriminate.
  - reflexivity.
  - cbn. set_solver.
Defined.

(** load_index rejects a file of at least four bytes that does not start with
    the magic number, leaving the object unchanged; on a shorter file it reads
    an uninitialised variable. *)
Theorem sst_load_index_checks_magic w t data :
  readable (filename_ t) w = true → content (filename_ t) w = data →
  (length data < 4 → load_index (w, t) = Undefined Indeterminate) ∧
  (4 ≤ length data → le_decode (take 4 data) ≠ kMagicNumber →
   load_index (w, t) =
     Returns (RErr Status.STORAGE_ERROR "Invalid SSTable magic number") (w, t)).
Proof.
  intros Hr Hc. split; intros Hlen; unfold load_index; msimpl; rewrite Hr; cbn [negb];
    unfold mtry, with_stream; unfold mbind at 1, M_bind at 1; cbn [fst snd]; rewrite Hc;
    change (MkStream true 0 false false) with (st_at 0); unfold load_index_from.
  - rewrite (M_bind_undefined _ _ _ Indeterminate); [done|].
    unfold read_scalar, local_read, lift, stream_read. unfold mbind, M_bind. cbn.
    rewrite drop_0, decide_False; [done|]. rewrite length_take. lia.
  - intros Hmagic.
    assert (4 = length (take 4 data)) as H4 by (rewrite length_take; lia).
    destruct (local_read_at data 0 4 (take 4 data) (drop 4 data)
      ltac:(by rewrite drop_0, take_drop) H4) as [E _].
    assert (read_scalar data 4 (st_at 0) = Returns (le_decode (take 4 data)) (st_at 4)) as E0
      by (unfold read_scalar; mstep E; by rewrite decide_True).
    mstep E0.
    assert (∀ st, ∃ b st', local_read data 4 st = Returns b st') as Hany
      by (intros; unfold local_read, lift; destruct (stream_read _ _ _); eauto).
    destruct (Hany (st_at 4)) as (b1 & st1 & E1). mstep E1.
    destruct (Hany st1) as (b2 & st2 & E2). mstep E2.
    by rewrite bool_decide_false.
Qed.

Lemma sst_load_index_checks_magic_witness :
  let w := set_files {["a.sst" := bytes_of "ab"]} empty_world in
  let w' := set_files {["a.sst" := bytes_of "not a table at all"]} empty_world in
  load_index (w, SSTable_new "a.sst") = Undefined Indeterminate ∧
  load_index (w', SSTable_new "a.sst") =
    Returns (RErr Status.STORAGE_ERROR "Invalid SSTable magic number") (w', SSTable_new "a.sst").
Proof.
  intros w w'. split.
  - apply (sst_load_index_checks_magic w (SSTable_new "a.sst") _ eq_refl eq_refl). vm_compute. lia.
  - apply (sst_load_index_checks_magic w' (SSTable_new "a.sst") _ eq_refl eq_refl);
      [vm_compute; lia|vm_compute; discriminate].
Defined.
