(* ===== verification/LSMTree.v ===== *)
(** * LSMTree: the storage engine of [src/storage/lsm_tree.cpp] and its factory

    The engine composes the in-memory table, the sorted tables and the log.
    Its state is the outside world together with the fields of the object; the
    engine's [shared_mutex] is one of them, because three methods call another
    method of the engine while they hold it.  The condition variable has no
    state; the work the background thread does under the mutex is
    [background_step]. *)

From Stdlib Require Import Ascii String ZArith NArith Lia.
From stdpp Require Import base numbers list strings gmap pretty.
From S2P Require Import Prelude Bytes Numerals Doubles OrdMap Types Crc32c MemTable Files Wal.
From S2P Require Import SSTable.

(** ** The engine *)
Record Engine := MkEngine {
  data_dir_ : string;
  memtable_ : MemTable;
  immutable_memtable_ : option MemTable;
  sstables_ : list SSTable;
  wal_ : WAL;
  engine_mutex_ : bool;
  background_thread_ : bool;
  stop_background_ : bool;
  engine_open_ : bool;
  total_reads_ : N;
  cache_hits_ : N;
  memtable_size_limit_ : N;
  max_sstables_ : N;
  enable_compression_ : bool
}.

Abbreviation EngSt := (World * Engine)%type.

Definition set_memtable (m : MemTable) (e : Engine) : Engine :=
  MkEngine (data_dir_ e) m (immutable_memtable_ e) (sstables_ e) (wal_ e)
    (engine_mutex_ e) (background_thread_ e) (stop_background_ e) (engine_open_ e)
    (total_reads_ e) (cache_hits_ e) (memtable_size_limit_ e) (max_sstables_ e)
    (enable_compression_ e).
Definition set_immutable (m : option MemTable) (e : Engine) : Engine :=
  MkEngine (data_dir_ e) (memtable_ e) m (sstables_ e) (wal_ e)
    (engine_mutex_ e) (background_thread_ e) (stop_background_ e) (engine_open_ e)
    (total_reads_ e) (cache_hits_ e) (memtable_size_limit_ e) (max_sstables_ e)
    (enable_compression_ e).
Definition set_sstables (l : list SSTable) (e : Engine) : Engine :=
  MkEngine (data_dir_ e) (memtable_ e) (immutable_memtable_ e) l (wal_ e)
    (engine_mutex_ e) (background_thread_ e) (stop_background_ e) (engine_open_ e)
    (total_reads_ e) (cache_hits_ e) (memtable_size_limit_ e) (max_sstables_ e)
    (enable_compression_ e).
Definition set_wal (l : WAL) (e : Engine) : Engine :=
  MkEngine (data_dir_ e) (memtable_ e) (immutable_memtable_ e) (sstables_ e) l
    (engine_mutex_ e) (background_thread_ e) (stop_background_ e) (engine_open_ e)
    (total_reads_ e) (cache_hits_ e) (memtable_size_limit_ e) (max_sstables_ e)
    (enable_compression_ e).
Definition set_engine_mutex (b : bool) (e : Engine) : Engine :=
  MkEngine (data_dir_ e) (memtable_ e) (immutable_memtable_ e) (sstables_ e) (wal_ e)
    b (background_thread_ e) (stop_background_ e) (engine_open_ e)
    (total_reads_ e) (cache_hits_ e) (memtable_size_limit_ e) (max_sstables_ e)
    (enable_compression_ e).
Definition set_threads (running stop open : bool) (e : Engine) : Engine :=
  MkEngine (data_dir_ e) (memtable_ e) (immutable_memtable_ e) (sstables_ e) (wal_ e)
    (engine_mutex_ e) running stop open
    (total_reads_ e) (cache_hits_ e) (memtable_size_limit_ e) (max_sstables_ e)
    (enable_compression_ e).
Definition set_counters (reads hits : N) (e : Engine) : Engine :=
  MkEngine (data_dir_ e) (memtable_ e) (immutable_memtable_ e) (sstables_ e) (wal_ e)
    (engine_mutex_ e) (background_thread_ e) (stop_background_ e) (engine_open_ e)
    reads hits (memtable_size_limit_ e) (max_sstables_ e) (enable_compression_ e).

#[export, refine] Instance Engine_mutex : HasMutex EngSt := {|
  which_mutex := EngineMutex;
  owned := λ s, engine_mutex_ s.2;
  set_owned := λ b s, (s.1, set_engine_mutex b s.2)
|}.
Proof. all: by intros; destruct s as [? []]. Defined.

(** Updating the engine, calling a method of the log, calling a method of the
    table at position [i], reading the clock. *)
Definition on_engine (f : Engine → Engine) : M EngSt unit :=
  modify (λ s, (s.1, f s.2)).

Definition on_wal {A} (m : M WalSt A) : M EngSt A :=
  zoom (λ s, (s.1, wal_ s.2)) (λ t s, (t.1, set_wal t.2 s.2)) m.

Definition on_table {A} (i : nat) (m : M SstSt A) : M EngSt A := λ s,
  match sstables_ s.2 !! i with
  | None => Undefined PastEnd
  | Some t =>
      match m (s.1, t) with
      | Returns a (w, t') => Returns a (w, set_sstables (<[i := t']> (sstables_ s.2)) s.2)
      | Throws n (w, t') => Throws n (w, set_sstables (<[i := t']> (sstables_ s.2)) s.2)
      | Undefined u => Undefined u
      end
  end.

Definition eng_now : M EngSt Z := lift (λ s,
  let '(t, c) := tick (clock s.1) in (t, (set_clock c s.1, s.2))).

(** ** Construction *)

(** The constructor; [None] is the exception of [stoull]. *)
Definition LSMTreeEngine_new (data_dir : string) (config : gmap string string) :
    option Engine :=
  memtable_size_limit ←
    match config !! "memtable_size_mb" with
    | Some v => n ← stoull v; Some (wrap64 (wrap64 (n * 1024) * 1024))
    | None => Some MEMTABLE_SIZE_LIMIT
    end;
  max_sstables ←
    match config !! "max_sstables" with
    | Some v => stoull v
    | None => Some 10%N
    end;
  let enable_compression :=
    match config !! "enable_compression" with
    | Some v => bool_decide (v = "true")
    | None => false
    end in
  Some (MkEngine data_dir MemTable_new None [] (WAL_new (data_dir +:+ "/wal.log"))
          false false false false 0 0 memtable_size_limit max_sstables enable_compression).

(** [StorageEngineFactory::create_engine]; any value of [EngineType] outside
    the three enumerators throws. *)
Module EngineType.
Inductive t := LSM_TREE | B_PLUS_TREE | HASH_TABLE | Other (n : N).
End EngineType.

Definition create_engine (type : EngineType.t) (data_dir : string)
    (config : gmap string string) : option Engine :=
  match type with
  | EngineType.LSM_TREE => LSMTreeEngine_new data_dir config
  | EngineType.B_PLUS_TREE => LSMTreeEngine_new data_dir config
  | EngineType.HASH_TABLE => LSMTreeEngine_new data_dir config
  | EngineType.Other _ => None
  end.

(** ** Reading *)

Definition get_from_memtable (key : MultiLevelKey) : M EngSt (Result DataEntry) :=
  gets (λ s, memtable_get key (memtable_ s.2)).

(** [rbegin()] to [rend()]: [n] tables are left, the next one at [n - 1]. *)
Fixpoint read_tables (key : MultiLevelKey) (n : nat) : M EngSt (Result DataEntry) :=
  match n with
  | 0 => mret (RErr Status.NOT_FOUND "Key not found in SSTables")
  | S n =>
      result ← on_table n (sst_read key);
      if is_ok result then mret result else read_tables key n
  end.

Definition get_from_sstables (key : MultiLevelKey) : M EngSt (Result DataEntry) :=
  n ← gets (λ s : EngSt, length (sstables_ s.2));
  read_tables key n.

Definition count_read : M EngSt unit :=
  on_engine (λ e, set_counters (wrap64 (total_reads_ e + 1)) (cache_hits_ e) e).
Definition count_hit : M EngSt unit :=
  on_engine (λ e, set_counters (total_reads_ e) (wrap64 (cache_hits_ e + 1)) e).

Definition when_open {A} (m : M EngSt (Result A)) : M EngSt (Result A) :=
  opened ← gets (λ s : EngSt, engine_open_ s.2);
  if negb opened then mret (RErr Status.STORAGE_ERROR "LSM tree is not open") else m.

Definition lsm_get (key : MultiLevelKey) : M EngSt (Result DataEntry) := guarded (when_open (
  _ ← count_read;
  memtable_result ← get_from_memtable key;
  if is_ok memtable_result then _ ← count_hit; mret memtable_result else
  immutable ← gets (λ s : EngSt, immutable_memtable_ s.2);
  let immutable_result := memtable_get key <$> immutable in
  match immutable_result with
  | Some (ROk e) => _ ← count_hit; mret (ROk e)
  | _ =>
      sstable_result ← get_from_sstables key;
      if is_ok sstable_result then mret sstable_result
      else mret (RErr Status.NOT_FOUND "Key not found")
  end)).

Fixpoint lsm_multi_get_loop (keys : list MultiLevelKey) (results : list DataEntry) :
    M EngSt (list DataEntry) :=
  match keys with
  | [] => mret results
  | key :: keys =>
      result ← lsm_get key;
      match result with
      | ROk e => lsm_multi_get_loop keys (results ++ [e])
      | RErr _ _ => now ← eng_now; lsm_multi_get_loop keys (results ++ [DataEntry_default now])
      end
  end.

Definition lsm_multi_get (keys : list MultiLevelKey) : M EngSt (Result (list DataEntry)) :=
  results ← lsm_multi_get_loop keys []; mret (ROk results).

(** ** Range scans *)

(** [merged[key] = entry], and the same unless the key is there. *)
Definition merge_all (found merged : kv_map) : kv_map :=
  foldl (λ m p, omap_insert key_ltb p.1 p.2 m) merged found.
Definition merge_missing (found merged : kv_map) : kv_map :=
  foldl (λ m p, match omap_find key_ltb p.1 m with
                | None => omap_insert key_ltb p.1 p.2 m
                | Some _ => m
                end) merged found.

(** A memtable's scan inside a method of the engine. *)
Definition scan_memtable (query : RangeQuery) (mt : MemTable) : M EngSt (Result kv_map) := λ s,
  match memtable_range_scan query mt with
  | Returns r _ => Returns r s
  | Throws n _ => Throws n s
  | Undefined u => Undefined u
  end.

Definition merge_result (merge : kv_map → kv_map → kv_map) (r : Result kv_map)
    (merged : kv_map) : kv_map :=
  match r with ROk found => merge found merged | RErr _ _ => merged end.

Fixpoint scan_tables (query : RangeQuery) (n : nat) (merged : kv_map) : M EngSt kv_map :=
  match n with
  | 0 => mret merged
  | S n =>
      sstable_result ← on_table n (sst_range_scan query);
      scan_tables query n (merge_result merge_missing sstable_result merged)
  end.

(** The loop that filters tombstones and applies the limit. *)
Fixpoint take_live (merged : kv_map) (count limit : N) : kv_map :=
  match merged with
  | [] => []
  | (key, entry) :: merged =>
      if (limit <=? count)%N then []
      else if negb (deleted entry)
      then (key, entry) :: take_live merged (wrap32 (count + 1)) limit
      else take_live merged count limit
  end.

Definition lsm_range_scan (query : RangeQuery) : M EngSt (Result kv_map) := guarded (when_open (
  mt ← gets (λ s : EngSt, memtable_ s.2);
  memtable_result ← scan_memtable query mt;
  let merged_results := merge_result merge_all memtable_result [] in
  immutable ← gets (λ s : EngSt, immutable_memtable_ s.2);
  merged_results ←
    match immutable with
    | Some mt =>
        immutable_result ← scan_memtable query mt;
        mret (merge_result merge_missing immutable_result merged_results)
    | None => mret merged_results
    end;
  n ← gets (λ s : EngSt, length (sstables_ s.2));
  merged_results ← scan_tables query n merged_results;
  mret (ROk (take_live merged_results 0 (limit query))))).

(** ** Writing *)

Definition lsm_put (key : MultiLevelKey) (entry : DataEntry) : M EngSt (Result unit) :=
  guarded (when_open (
  let wal_entry := WALEntry_new WALEntryType.PUT key entry 0 in
  _ ←? on_wal (wal_append wal_entry);
  put_result ← lift (λ s : EngSt,
    let '(r, mt) := memtable_put key entry (memtable_ s.2) in
    (r, (s.1, set_memtable mt s.2)));
  if negb (is_ok put_result) then mret put_result else
  mret (ROk tt))).

Definition lsm_put_if_version_match (key : MultiLevelKey) (entry : DataEntry)
    (expected_version : N) : M EngSt (Result unit) := guarded (when_open (
  current_result ← lsm_get key;
  let conflict :=
    match current_result with
    | ROk current =>
        if negb (bool_decide (version current = expected_version))
        then Some (RErr Status.VERSION_CONFLICT "Version mismatch") else None
    | RErr _ _ =>
        if negb (bool_decide (expected_version = 0%N))
        then Some (RErr Status.VERSION_CONFLICT
                     "Key does not exist but expected version is not 0")
        else None
    end in
  match conflict with
  | Some e => mret e
  | None => lsm_put key (with_version (wrap64 (expected_version + 1)) entry)
  end)).

Definition memtable_remove_now (key : MultiLevelKey) : M EngSt (Result unit) :=
  now ← eng_now;
  lift (λ s : EngSt,
    let '(r, mt) := memtable_remove now key (memtable_ s.2) in
    (r, (s.1, set_memtable mt s.2))).

Definition lsm_remove (key : MultiLevelKey) : M EngSt (Result unit) := guarded (when_open (
  now ← eng_now;
  let delete_entry := mark_deleted now (DataEntry_default now) in
  let wal_entry := WALEntry_new WALEntryType.DELETE key delete_entry 0 in
  _ ←? on_wal (wal_append wal_entry);
  memtable_remove_now key)).

Definition lsm_remove_if_version_match (key : MultiLevelKey) (expected_version : N) :
    M EngSt (Result unit) := guarded (when_open (
  current_result ← lsm_get key;
  match current_result with
  | RErr _ _ => mret (RErr Status.NOT_FOUND "Key not found")
  | ROk current =>
      if negb (bool_decide (version current = expected_version))
      then mret (RErr Status.VERSION_CONFLICT "Version mismatch")
      else lsm_remove key
  end)).

Fixpoint lsm_multi_put (entries : kv_map) : M EngSt (Result unit) :=
  match entries with
  | [] => mret (ROk tt)
  | (key, entry) :: entries =>
      _ ←? lsm_put key entry;
      lsm_multi_put entries
  end.

(** ** Flushing and compaction *)

(** The name made of a clock reading; [put_time] is
    [put_time(localtime(&t), "%Y%m%d_%H%M%S")] of a number of seconds, which
    depends on the time zone of the host. *)
Definition sstable_name (put_time : Z → string) (data_dir : string) (now : Z) : string :=
  let secs := Z.quot now (1000 * ns_per_ms) in
  let ms := Z.rem (ms_of_ns now) 1000 in
  data_dir +:+ "/sstable_" +:+ put_time secs +:+ "_" +:+ pad3 (pretty ms) +:+ ".sst".

Section storage.
Context (put_time : Z → string).

Definition generate_sstable_filename : M EngSt string :=
  now ← eng_now;
  dir ← gets (λ s : EngSt, data_dir_ s.2);
  mret (sstable_name put_time dir now).

(** [make_unique<SSTable>(filename)] and a method of the new table, which is
    the result when the method succeeds. *)
Definition with_new_table (filename : string) (m : M SstSt (Result unit)) :
    M EngSt (Result SSTable) := λ s,
  match m (s.1, SSTable_new filename) with
  | Returns (ROk _) (w, t) => Returns (ROk t) (w, s.2)
  | Returns (RErr st msg) (w, _) => Returns (RErr st msg) (w, s.2)
  | Throws n (w, _) => Throws n (w, s.2)
  | Undefined u => Undefined u
  end.

Definition write_new_table (data : kv_map) : M EngSt (Result SSTable) :=
  filename ← generate_sstable_filename;
  with_new_table filename (sst_write data).

Definition flush_memtable : M EngSt (Result unit) :=
  mt ← gets (λ s : EngSt, memtable_ s.2);
  if bool_decide (memtable_size mt = 0) then mret (ROk tt) else
  immutable ← gets (λ s : EngSt, immutable_memtable_ s.2);
  _ ←? (match immutable with
        | Some imm =>
            sstable ←? write_new_table (data_ imm);
            _ ← on_engine (λ e, set_sstables (sstables_ e ++ [sstable]) e);
            mret (ROk tt)
        | None => mret (ROk tt)
        end);
  _ ← on_engine (λ e, set_memtable MemTable_new (set_immutable (Some (memtable_ e)) e));
  sstable ←? write_new_table (data_ mt);
  _ ← on_engine (λ e, set_immutable None (set_sstables (sstables_ e ++ [sstable]) e));
  now ← eng_now;
  let checkpoint_entry :=
    WALEntry_new WALEntryType.CHECKPOINT (MkKey "" "") (DataEntry_default now) 0 in
  _ ← on_wal (wal_append checkpoint_entry);
  mret (ROk tt).

(** [std::filesystem::remove]. *)
Definition remove_file (path : string) : M EngSt unit :=
  modify (λ s : EngSt, (set_files (delete path (files s.1)) s.1, s.2)).

Definition compact_sstables : M EngSt (Result unit) :=
  tables ← gets (λ s : EngSt, sstables_ s.2);
  match tables with
  | sstable1 :: sstable2 :: rest =>
      _ ← on_engine (set_sstables rest);
      let merged_data : kv_map := [] in
      new_sstable ←? write_new_table merged_data;
      _ ← on_engine (λ e, set_sstables (new_sstable :: sstables_ e) e);
      _ ← remove_file (filename_ sstable1);
      _ ← remove_file (filename_ sstable2);
      mret (ROk tt)
  | _ => mret (ROk tt)
  end.

Definition lsm_flush : M EngSt (Result unit) := guarded (when_open (
  _ ←? flush_memtable;
  on_wal wal_sync)).

Definition lsm_compact : M EngSt (Result unit) := guarded (when_open compact_sstables).

Definition need_compaction (e : Engine) : bool :=
  (max_sstables_ e <? N.of_nat (length (sstables_ e)))%N.

(** The work of one turn of [background_work], under the engine's mutex. *)
Definition background_step : M EngSt unit := guarded (
  mt ← gets (λ s : EngSt, memtable_ s.2);
  _ ← (if should_flush mt then flush_memtable else mret (ROk tt));
  compaction ← gets (λ s : EngSt, need_compaction s.2);
  _ ← (if compaction : bool then compact_sstables else mret (ROk tt));
  mret tt).

(** ** Opening and closing *)

(** One entry of the log applied to the memtable; the clock is read by
    [MemTable::remove]. *)
Definition replay_entry (entry : WALEntry) : M EngSt unit :=
  if bool_decide (entry_type entry = WALEntryType.PUT) then
    on_engine (λ e,
      set_memtable (memtable_put (entry_key entry) (entry_data entry) (memtable_ e)).2 e)
  else if bool_decide (entry_type entry = WALEntryType.DELETE) then
    _ ← memtable_remove_now (entry_key entry); mret tt
  else mret tt.

Definition recover_from_wal (junk : N) : M EngSt (Result unit) :=
  entries ←? on_wal (replay_from 0 junk);
  _ ← mfor replay_entry entries;
  mret (ROk tt).

(** The name of [path] when it is a file directly in [dir]. *)
Definition in_directory (dir path : string) : option string :=
  let prefix := bytes_of (dir +:+ "/") in
  let b := bytes_of path in
  if decide (take (length prefix) b = prefix) then
    let name := drop (length prefix) b in
    if decide (name ≠ [] ∧ "/"%char ∉ name) then Some (string_of name) else None
  else None.

(** [path.extension() == ".sst"]: what follows the last dot, unless that dot
    opens the name. *)
Definition has_sst_extension (name : string) : bool :=
  let b := bytes_of name in
  bool_decide (4 < length b) && bool_decide (drop (length b - 4) b = bytes_of ".sst").

(** [std::sort] of distinct file names. *)
Definition sort_names (l : list string) : list string :=
  (foldr (λ f m, omap_insert String.ltb f tt m) [] l).*1.

Definition is_table_file (dir path : string) : bool :=
  match in_directory dir path with
  | Some name => has_sst_extension name
  | None => false
  end.

Definition sstable_files (dir : string) (w : World) : list string :=
  sort_names (filter (is_table_file dir) (elements (dom (files w)))).

Fixpoint load_tables (names : list string) : M EngSt unit :=
  match names with
  | [] => mret tt
  | filename :: names =>
      load_result ← with_new_table filename load_index;
      _ ← (match load_result with
           | ROk sstable => on_engine (λ e, set_sstables (sstables_ e ++ [sstable]) e)
           | RErr _ _ => mret tt
           end);
      load_tables names
  end.

Definition load_sstables : M EngSt (Result unit) :=
  names ← gets (λ s : EngSt, sstable_files (data_dir_ s.2) s.1);
  _ ← load_tables names;
  mret (ROk tt).

Definition lsm_open (junk : N) : M EngSt (Result unit) := guarded (
  opened ← gets (λ s : EngSt, engine_open_ s.2);
  if opened : bool then mret (ROk tt) else
  _ ←? on_wal wal_open;
  _ ←? recover_from_wal junk;
  _ ←? load_sstables;
  _ ← on_engine (set_threads true false true);
  mret (ROk tt)).

(** [close] releases the mutex to join the background thread: [meanwhile] is
    what that thread's last turn and other threads do to the engine. *)
Definition lsm_close (meanwhile : M EngSt unit) : M EngSt (Result unit) :=
  was_open ← guarded (
    opened ← gets (λ s : EngSt, engine_open_ s.2);
    if negb opened then mret false else
    _ ← on_engine (λ e, set_threads (background_thread_ e) true (engine_open_ e) e);
    mret true);
  if negb was_open then mret (ROk tt) else
  _ ← meanwhile;
  _ ← on_engine (λ e, set_threads false (stop_background_ e) (engine_open_ e) e);
  guarded (
    mt ← gets (λ s : EngSt, memtable_ s.2);
    _ ← (if bool_decide (0 < memtable_size mt) then flush_memtable else mret (ROk tt));
    _ ← on_wal wal_close;
    _ ← on_engine (λ e, set_threads (background_thread_ e) (stop_background_ e) false e);
    mret (ROk tt)).

(** ** Backup, restore, statistics *)

Definition base_name (path : string) : string :=
  let fix last_name (b name : bytes) : bytes :=
    match b with
    | [] => name
    | c :: b => if decide (c = "/"%char) then last_name b [] else last_name b (name ++ [c])
    end in
  string_of (last_name (bytes_of path) []).

(** [copy_file]; [None] is the exception, which it also throws for a file and
    itself. *)
Definition copy_file (overwrite : bool) (src dst : string) (w : World) : option World :=
  data ← files w !! src;
  if decide (src ∈ refused w ∨ dst ∈ refused w ∨ src = dst) then None
  else if decide (overwrite = false ∧ is_Some (files w !! dst)) then None
  else Some (set_files (<[dst := data]> (files w)) w).

Fixpoint copy_tables (tables : list SSTable) (backup_path : string) (w : World) :
    World + World :=
  match tables with
  | [] => inl w
  | t :: tables =>
      match copy_file true (filename_ t) (backup_path +:+ "/" +:+ base_name (filename_ t)) w with
      | Some w => copy_tables tables backup_path w
      | None => inr w
      end
  end.

(** [what] is the text of the exception the file system throws. *)
Definition lsm_backup (what backup_path : string) : M EngSt (Result unit) :=
  guarded (when_open (λ s,
    let failed w := Returns
      (RErr Status.STORAGE_ERROR ("Failed to backup: " +:+ what)) (w, s.2) in
    match copy_file true (data_dir_ s.2 +:+ "/wal.log") (backup_path +:+ "/wal.log") s.1 with
    | None => failed s.1
    | Some w =>
        match copy_tables (sstables_ s.2) backup_path w with
        | inl w => Returns (ROk tt) (w, s.2)
        | inr w => failed w
        end
    end)).

(** [remove_all(dir)]: the files below the directory. *)
Definition below_directory (dir path : string) : Prop :=
  let prefix := bytes_of (dir +:+ "/") in take (length prefix) (bytes_of path) = prefix.

#[export] Instance below_directory_dec dir path : Decision (below_directory dir path).
Proof. unfold below_directory. apply _. Defined.

Definition remove_all (dir : string) (w : World) : World :=
  set_files (filter (λ p, ¬ below_directory dir p.1) (files w)) w.

Fixpoint copy_back (names : list string) (backup_path data_dir : string) (w : World) :
    World + World :=
  match names with
  | [] => inl w
  | name :: names =>
      match copy_file false (backup_path +:+ "/" +:+ name) (data_dir +:+ "/" +:+ name) w with
      | Some w => copy_back names backup_path data_dir w
      | None => inr w
      end
  end.

(** [exists_after] is whether the backup directory is still there once the data
    directory is emptied. *)
Definition lsm_restore (what backup_path : string) (exists_after : bool) :
    M EngSt (Result unit) := guarded (λ s,
  if engine_open_ s.2
  then Returns (RErr Status.STORAGE_ERROR "Cannot restore while LSM tree is open") s else
  let failed w := Returns
    (RErr Status.STORAGE_ERROR ("Failed to restore: " +:+ what)) (w, s.2) in
  let w := remove_all (data_dir_ s.2) s.1 in
  if negb exists_after then failed w else
  let names := omap (in_directory backup_path) (elements (dom (files w))) in
  match copy_back names backup_path (data_dir_ s.2) w with
  | inl w => Returns (ROk tt) (w, s.2)
  | inr w => failed w
  end).

Definition lsm_size : M EngSt N := guarded (gets (λ s : EngSt,
  let e := s.2 in
  let total_size := N.of_nat (memtable_size (memtable_ e)) in
  let total_size :=
    match immutable_memtable_ e with
    | Some imm => wrap64 (total_size + N.of_nat (memtable_size imm))
    | None => total_size
    end in
  foldl (λ n t, wrap64 (n + size_ t)) total_size (sstables_ e))).

Definition lsm_memory_usage : M EngSt N := guarded (gets (λ s : EngSt,
  let e := s.2 in
  match immutable_memtable_ e with
  | Some imm => wrap64 (memory_usage_ (memtable_ e) + memory_usage_ imm)
  | None => memory_usage_ (memtable_ e)
  end)).

Definition cache_hit_ratio : M EngSt double := gets (λ s : EngSt,
  if (0 <? total_reads_ s.2)%N
  then ddiv (of_nat64 (cache_hits_ s.2)) (of_nat64 (total_reads_ s.2))
  else d0).
End storage.
