(* ===== verification/LSMReads.v ===== *)
(** * LSMReads: what [get] of the engine finds, and what writes and flushes
    change of it

    The engine is a stack of maps, newest first; [engine_ok] ties the maps to
    the memtables and the files.  Each operation is run once, by a lemma that
    gives its result and the state after it. *)

From Stdlib Require Import Ascii String ZArith NArith Lia.
From stdpp Require Import base numbers list strings gmap pretty.
From S2P Require Import Prelude Bytes Numerals OrdMap Types Crc32c MemTable Files Wal SSTable.
From S2P Require Import LSMTree.

(** ** The view: a stack of maps, newest first *)

(** The sources [get] consults, in its order; [tables] are the maps of the
    tables, oldest first. *)
Definition sources (e : Engine) (tables : list kv_map) : list kv_map :=
  data_ (memtable_ e) :: option_list (data_ <$> immutable_memtable_ e) ++ rev tables.

(** The newest entry that is not a tombstone. *)
Fixpoint first_live (k : MultiLevelKey) (srcs : list kv_map) : option DataEntry :=
  match srcs with
  | [] => None
  | d :: srcs =>
      match omap_find key_ltb k d with
      | Some e => if deleted e then first_live k srcs else Some e
      | None => first_live k srcs
      end
  end.

(** An engine between two operations: the maps are sorted, every table is the
    one on disk, the log is open whenever the engine is. *)
Record engine_ok (s : EngSt) (tables : list kv_map) : Prop := {
  eng_unlocked : engine_mutex_ s.2 = false;
  eng_memtable : memtable_inv (memtable_ s.2);
  eng_immutable : ∀ m, immutable_memtable_ s.2 = Some m → memtable_inv m;
  eng_tables : Forall2 (stores s.1) (sstables_ s.2) tables;
  eng_wal : wal_mutex_ (wal_ s.2) = false ∧ is_open_ (wal_ s.2) = engine_open_ s.2;
  eng_wal_file : wal_file_ (wal_ s.2) ∉ (filename_ <$> sstables_ s.2)
}.

Definition get_answer (o : option DataEntry) : Result DataEntry :=
  match o with
  | Some e => ROk e
  | None => RErr Status.NOT_FOUND "Key not found"
  end.

(** ** Running methods under the engine's mutex *)

Lemma set_engine_mutex_id b e : engine_mutex_ e = b → set_engine_mutex b e = e.
Proof. intros <-. by destruct e. Qed.

Lemma guarded_engine {A} (m : M EngSt A) w e :
  engine_mutex_ e = false →
  guarded m (w, e) =
    match m (w, set_engine_mutex true e) with
    | Returns a s => Returns a (s.1, set_engine_mutex false s.2)
    | Throws n s => Throws n (s.1, set_engine_mutex false s.2)
    | Undefined u => Undefined u
    end.
Proof. intros H. unfold guarded. cbn [owned Engine_mutex snd]. by rewrite H. Qed.

Lemma when_open_step {A} (m : M EngSt (Result A)) w e :
  engine_open_ e = true → when_open m (w, e) = m (w, e).
Proof. intros H. unfold when_open. msimpl. by rewrite H. Qed.

Lemma lookup_result_live o k srcs :
  first_live k srcs = o →
  ∀ d, first_live k (d :: srcs) =
    match data_of (lookup_result (omap_find key_ltb k d)) with
    | Some e => Some e
    | None => o
    end.
Proof.
  intros <- d. cbn [first_live]. unfold lookup_result.
  destruct (omap_find key_ltb k d) as [e|]; [|done]. by destruct (deleted e).
Qed.

Lemma memtable_get_live k mt srcs :
  first_live k (data_ mt :: srcs) =
    match data_of (memtable_get k mt) with Some e => Some e | None => first_live k srcs end.
Proof.
  cbn [first_live]. unfold memtable_get.
  destruct (omap_find key_ltb k (data_ mt)) as [e|]; [|done]. by destruct (deleted e).
Qed.

(** A method of one table that keeps what the table stores. *)
Lemma on_table_stores {A} i (m : M SstSt A) w e tables data t a n :
  Forall2 (stores w) (sstables_ e) tables → tables !! i = Some data →
  sstables_ e !! i = Some t →
  m (w, t) = Returns a (w, set_index (index_of data 12) n t) →
  ∃ l, on_table i m (w, e) = Returns a (w, set_sstables l e) ∧
    Forall2 (stores w) l tables ∧ filename_ <$> l = filename_ <$> sstables_ e.
Proof.
  intros Htab Hd Ht E. unfold on_table. cbn [fst snd]. rewrite Ht, E.
  eexists. split; [reflexivity|]. split.
  - rewrite <- (list_insert_id tables i data) by done. apply Forall2_insert; [done|].
    apply set_index_stores. by destruct (Forall2_lookup_lr _ _ _ _ _ _ Htab Ht Hd).
  - rewrite list_fmap_insert. cbn. apply list_insert_id.
    by rewrite list_lookup_fmap, Ht.
Qed.

Lemma take_S_rev (tables : list kv_map) n data :
  tables !! n = Some data → rev (take (S n) tables) = data :: rev (take n tables).
Proof. intros H. by rewrite (take_S_r _ _ _ H), rev_unit. Qed.

Lemma tables_lookup w e tables n :
  Forall2 (stores w) (sstables_ e) tables → n < length tables →
  ∃ t data, sstables_ e !! n = Some t ∧ tables !! n = Some data ∧ stores w t data.
Proof.
  intros Htab Hn. destruct (lookup_lt_is_Some_2 tables n Hn) as [data Hd].
  destruct (Forall2_lookup_r _ _ _ _ _ Htab Hd) as (t & Ht & Hst). eauto.
Qed.

Lemma read_tables_spec k n w e tables :
  Forall2 (stores w) (sstables_ e) tables → n ≤ length tables →
  ∃ l r, read_tables k n (w, e) = Returns r (w, set_sstables l e) ∧
    data_of r = first_live k (rev (take n tables)) ∧
    Forall2 (stores w) l tables ∧ filename_ <$> l = filename_ <$> sstables_ e.
Proof.
  revert e. induction n as [|n IH]; intros e Htab Hn.
  - exists (sstables_ e), (RErr Status.NOT_FOUND "Key not found in SSTables").
    split; [by destruct e|]. done.
  - destruct (tables_lookup _ _ _ n Htab ltac:(lia)) as (t & data & Ht & Hd & Hst).
    destruct (sst_read_stores k w t data Hst) as [m E].
    destruct (on_table_stores n _ _ _ _ _ _ _ _ Htab Hd Ht E) as (l & E1 & Hl & Hnames).
    cbn [read_tables]. mstep E1. rewrite (take_S_rev _ _ _ Hd).
    rewrite (lookup_result_live _ _ _ eq_refl).
    destruct (lookup_result _) as [x|st msg]; cbn [is_ok data_of].
    + exists l, (ROk x). done.
    + destruct (IH (set_sstables l e) Hl ltac:(lia)) as (l' & r & E2 & Hr & Hl' & Hn').
      exists l', r. rewrite E2, Hn'. done.
Qed.

(** ** [get] *)

(** Two states that hold the same data: only the loaded indexes, the counters
    and the clock may differ. *)
Record same_data (s s' : EngSt) : Prop := {
  same_world : files s'.1 = files s.1 ∧ refused s'.1 = refused s.1;
  same_memtable : memtable_ s'.2 = memtable_ s.2;
  same_immutable : immutable_memtable_ s'.2 = immutable_memtable_ s.2;
  same_names : filename_ <$> sstables_ s'.2 = filename_ <$> sstables_ s.2;
  same_wal : wal_ s'.2 = wal_ s.2;
  same_open : engine_open_ s'.2 = engine_open_ s.2;
  same_frame : data_dir_ s'.2 = data_dir_ s.2 ∧ max_sstables_ s'.2 = max_sstables_ s.2 ∧
    clock s'.1 = clock s.1
}.

Lemma same_data_sources s s' tables :
  same_data s s' → sources s'.2 tables = sources s.2 tables.
Proof. intros [_ Hm Hi _ _ _ _]. unfold sources. by rewrite Hm, Hi. Qed.

Lemma lsm_get_first_live k s tables :
  engine_ok s tables → engine_open_ s.2 = true →
  ∃ s', lsm_get k s = Returns (get_answer (first_live k (sources s.2 tables))) s' ∧
    same_data s s' ∧ engine_ok s' tables.
Proof.
  destruct s as [w e]. intros Hok Ho. destruct Hok as [Hm Hmt Him Htab [Hw1 Hw2] Hwf].
  cbn [fst snd] in *. unfold lsm_get. rewrite guarded_engine, when_open_step by done.
  unfold count_read, count_hit, on_engine, get_from_memtable. msimpl. msimpl.
  unfold sources. rewrite memtable_get_live. set (e1 := set_counters _ _ _).
  change (memtable_ e1) with (memtable_ e).
  destruct (memtable_get k (memtable_ e)) as [x|st msg]; cbn [is_ok data_of].
  { msimpl. eexists. split; [reflexivity|]. by split; [split|split]. }
  msimpl. change (immutable_memtable_ e1) with (immutable_memtable_ e).
  assert (∃ s', (sstable_result ← get_from_sstables k;
      if is_ok sstable_result then mret sstable_result
      else mret (RErr Status.NOT_FOUND "Key not found")) (w, e1) =
      Returns (get_answer (first_live k (rev tables))) s' ∧
    ∃ l, s' = (w, set_sstables l e1) ∧ Forall2 (stores w) l tables ∧
      filename_ <$> l = filename_ <$> sstables_ e) as (s' & E & l & -> & Hl & Hnames).
  { unfold get_from_sstables. rewrite M_bind_assoc. msimpl.
    rewrite (Forall2_length _ _ _ Htab : length (sstables_ e1) = _).
    destruct (read_tables_spec k (length tables) w e1 tables Htab (le_n _))
      as (l & r & E & Hr & Hl & Hnames).
    mstep E. rewrite firstn_all in Hr. rewrite <- Hr.
    destruct r; (eexists; split; [reflexivity|]; eauto). }
  destruct (immutable_memtable_ e) as [im|] eqn:Hime; rewrite <- Hime in Him.
  - change (option_list _ ++ _) with (data_ im :: rev tables).
    change (memtable_get k <$> Some im) with (Some (memtable_get k im)).
    rewrite memtable_get_live. destruct (memtable_get k im) as [x|st' msg']; cbn [data_of].
    + msimpl. eexists. split; [reflexivity|]. by split; [split|split].
    + rewrite E. eexists. split; [reflexivity|].
      split; [by split|split; cbn; rewrite ?Hnames; auto; congruence].
  - change (memtable_get k <$> None) with (@None (Result DataEntry)). cbn iota beta.
    rewrite E. eexists. split; [reflexivity|].
    split; [by split|split; cbn; rewrite ?Hnames; auto; congruence].
Qed.

(** ** [put] and [remove] *)

Lemma stores_frame w w' t data :
  stores w t data → refused w' = refused w → files w' !! filename_ t = files w !! filename_ t →
  stores w' t data.
Proof. intros [] Hr Hf. split; rewrite ?Hr, ?Hf; auto. Qed.

Lemma all_stores_frame w w' ts tables path :
  Forall2 (stores w) ts tables → path ∉ (filename_ <$> ts) → refused w' = refused w →
  (∀ p, p ≠ path → files w' !! p = files w !! p) →
  Forall2 (stores w') ts tables.
Proof.
  intros Htab Hp Hr Hf. induction Htab as [|t data ts tables Hst _ IH]; constructor.
  - apply (stores_frame w); [done|done|]. apply Hf. intros <-. apply Hp. by left.
  - apply IH. intros ?. apply Hp. by right.
Qed.

(** Appending a record inside a method of the engine. *)
Lemma on_wal_append r w e :
  wal_mutex_ (wal_ e) = false → is_open_ (wal_ e) = true →
  ∃ w' l', on_wal (wal_append r) (w, e) = Returns (ROk tt) (w', set_wal l' e) ∧
    wal_mutex_ l' = false ∧ is_open_ l' = true ∧ wal_file_ l' = wal_file_ (wal_ e) ∧
    refused w' = refused w ∧ clock w' = clock w ∧
    (good (file_ (wal_ e)) = false → good (file_ l') = false ∧ files w' = files w) ∧
    ∀ p, p ≠ wal_file_ (wal_ e) → files w' !! p = files w !! p.
Proof.
  intros Hm Ho. destruct (wal_append_frame r w (wal_ e) Hm Ho) as (w' & l' & E & H).
  exists w', l'. split; [|exact H]. unfold on_wal, zoom. cbn [fst snd]. by rewrite E.
Qed.

(** The state after a write: the new memtable, the log appended to. *)
Record written (s s' : EngSt) (mt : MemTable) : Prop := {
  written_memtable : memtable_ s'.2 = mt;
  written_immutable : immutable_memtable_ s'.2 = immutable_memtable_ s.2;
  written_tables : sstables_ s'.2 = sstables_ s.2;
  written_open : engine_open_ s'.2 = engine_open_ s.2;
  written_files : ∀ p, p ≠ wal_file_ (wal_ s.2) → files s'.1 !! p = files s.1 !! p;
  written_frame : data_dir_ s'.2 = data_dir_ s.2 ∧ wal_file_ (wal_ s'.2) = wal_file_ (wal_ s.2) ∧
    max_sstables_ s'.2 = max_sstables_ s.2 ∧
    refused s'.1 = refused s.1 ∧ clock_after (clock s.1) (clock s'.1);
  written_lost : good (file_ (wal_ s.2)) = false →
    good (file_ (wal_ s'.2)) = false ∧ files s'.1 = files s.1
}.

Lemma written_sources s s' mt tables :
  written s s' mt →
  sources s'.2 tables = data_ mt :: tail (sources s.2 tables).
Proof. intros [Hm Hi _ _ _ _ _]. unfold sources. by rewrite Hm, Hi. Qed.

Lemma lsm_put_written key entry s tables :
  engine_ok s tables → engine_open_ s.2 = true →
  ∃ s', lsm_put key entry s = Returns (memtable_put key entry (memtable_ s.2)).1 s' ∧
    written s s' (memtable_put key entry (memtable_ s.2)).2 ∧ engine_ok s' tables.
Proof.
  destruct s as [w e]. intros [Hm Hmt Him Htab [Hw1 Hw2] Hwf] Ho. cbn [fst snd] in *.
  unfold lsm_put. rewrite guarded_engine, when_open_step by done.
  destruct (on_wal_append (WALEntry_new WALEntryType.PUT key entry 0) w
    (set_engine_mutex true e)) as (w' & l' & E & Hl1 & Hl2 & Hl3 & Hr & Hc & Hlost & Hf);
    [done|by rewrite <- Ho|].
  unfold mtry. mstep E. unfold lift. unfold mbind at 1, M_bind at 1.
  cbn [fst snd memtable_ set_wal set_engine_mutex] in *.
  pose proof (memtable_put_inv key entry (memtable_ e) Hmt) as Hinv.
  destruct (memtable_put key entry (memtable_ e)) as [r mt']. cbn [fst snd] in *.
  assert (∀ o : unit, ROk o = ROk tt) as Hunit by (by intros []).
  exists (w', set_engine_mutex false (set_memtable mt' (set_wal l' (set_engine_mutex true e)))).
  split; [by destruct r as [[]|]|].
  split; [split; try done; cbn; rewrite Hc; by split_and!|].
  split; cbn; auto; [by eapply all_stores_frame|by rewrite Ho|by rewrite Hl3].
Qed.

Lemma lsm_remove_written key s tables :
  engine_ok s tables → engine_open_ s.2 = true →
  ∃ n s', lsm_remove key s = Returns (ROk tt) s' ∧
    written s s' (memtable_remove (reading (clock s.1) n) key (memtable_ s.2)).2 ∧
    engine_ok s' tables.
Proof.
  destruct s as [w e]. intros [Hm Hmt Him Htab [Hw1 Hw2] Hwf] Ho. cbn [fst snd] in *.
  unfold lsm_remove. rewrite guarded_engine, when_open_step by done.
  set (w0 := set_clock (tick (clock w)).2 w).
  assert (eng_now (w, set_engine_mutex true e) =
    Returns (tick (clock w)).1 (w0, set_engine_mutex true e)) as E0 by done.
  mstep E0. set (r := WALEntry_new _ _ _ _).
  destruct (on_wal_append r w0 (set_engine_mutex true e))
    as (w' & l' & E & Hl1 & Hl2 & Hl3 & Hr & Hc & Hlost & Hf); [done|by rewrite <- Ho|].
  unfold mtry. mstep E. unfold memtable_remove_now, eng_now, lift.
  unfold mbind at 1, M_bind at 1. cbn [fst snd tick memtable_ set_wal set_engine_mutex] in *.
  exists (ticks (clock w')).
  assert (reading (clock w) = reading (clock w')) as -> by (by rewrite Hc).
  set (now := reading _ _).
  pose proof (memtable_remove_inv now key (memtable_ e) Hmt) as Hinv.
  assert ((memtable_remove now key (memtable_ e)).1 = ROk tt) as Hok
    by (unfold memtable_remove; by destruct (omap_find _ _ _)).
  destruct (memtable_remove now key (memtable_ e)) as [r' mt']. cbn [fst snd] in *. subst r'.
  eexists. split; [reflexivity|].
  split; [split; try done; cbn; rewrite Hc; split_and!; (done || by split; cbn; [|lia])|].
  split; cbn; auto; [by eapply (all_stores_frame w)|by rewrite Ho|by rewrite Hl3].
Qed.

(** ** [flush] *)

(** The log writes through: [sync] has nothing to do. *)
Lemma on_wal_sync w e :
  wal_mutex_ (wal_ e) = false → is_open_ (wal_ e) = true →
  on_wal wal_sync (w, e) = Returns (ROk tt) (w, e).
Proof.
  intros Hm Ho. unfold on_wal, zoom, wal_sync. cbn [fst snd].
  rewrite guarded_wal by done. msimpl. cbn [is_open_ set_wal_mutex]. rewrite Ho.
  unfold unlock. cbn. destruct e as [? ? ? ? [] ? ? ? ? ? ? ? ? ?]; cbn in *. by subst.
Qed.

(** The table a flush writes at the clock reading [now]: its name is new. *)
Record fresh_name (put_time : Z → string) (s : EngSt) : Prop := {
  fresh_table : sstable_name put_time (data_dir_ s.2) (tick (clock s.1)).1 ∉
                (filename_ <$> sstables_ s.2);
  fresh_wal : sstable_name put_time (data_dir_ s.2) (tick (clock s.1)).1 ≠
              wal_file_ (wal_ s.2);
  fresh_allowed : sstable_name put_time (data_dir_ s.2) (tick (clock s.1)).1 ∉
                  refused s.1
}.

Section flush.
Context (put_time : Z → string).

Lemma write_new_table_ok data w e :
  table_ok data →
  sstable_name put_time (data_dir_ e) (tick (clock w)).1 ∉ refused w →
  let path := sstable_name put_time (data_dir_ e) (tick (clock w)).1 in
  write_new_table put_time data (w, e) =
    Returns (ROk (indexed data (SSTable_new path)))
      (set_files (<[path := table_file data]> (files w)) (set_clock (tick (clock w)).2 w), e).
Proof.
  intros Hok Hr path. unfold write_new_table, generate_sstable_filename.
  assert (eng_now (w, e) = Returns (tick (clock w)).1 (set_clock (tick (clock w)).2 w, e))
    as E by done.
  rewrite M_bind_assoc. mstep E. rewrite M_bind_assoc. msimpl. msimpl. fold path.
  unfold with_new_table. cbn [fst snd].
  by rewrite (sst_write_stores data _ (SSTable_new path)).
Qed.

Lemma flush_memtable_ok w e tables :
  engine_ok (w, set_engine_mutex false e) tables → is_open_ (wal_ e) = true →
  immutable_memtable_ e = None → table_ok (data_ (memtable_ e)) →
  fresh_name put_time (w, e) →
  ∃ w' l', flush_memtable put_time (w, e) = Returns (ROk tt) (w', set_wal l'
      (set_sstables (sstables_ e ++ [indexed (data_ (memtable_ e)) (SSTable_new
         (sstable_name put_time (data_dir_ e) (tick (clock w)).1))])
      (set_memtable MemTable_new e))) ∧
    engine_ok (w', set_engine_mutex false (set_wal l'
      (set_sstables (sstables_ e ++ [indexed (data_ (memtable_ e)) (SSTable_new
         (sstable_name put_time (data_dir_ e) (tick (clock w)).1))])
      (set_memtable MemTable_new e)))) (tables ++ [data_ (memtable_ e)]) ∧
    wal_mutex_ l' = false ∧ is_open_ l' = true ∧ wal_file_ l' = wal_file_ (wal_ e) ∧
    refused w' = refused w ∧ clock_after (clock w) (clock w') ∧
    (good (file_ (wal_ e)) = false → good (file_ l') = false ∧
       files w' = <[sstable_name put_time (data_dir_ e) (tick (clock w)).1 :=
                    table_file (data_ (memtable_ e))]> (files w)).
Proof.
  intros [Hm Hmt Him Htab [Hw1 Hw2] Hwf] Ho Hnone Hok [Hf1 Hf2 Hf3]. cbn [fst snd] in *.
  cbn [memtable_ set_engine_mutex sstables_ wal_ immutable_memtable_] in *.
  unfold flush_memtable. msimpl. unfold memtable_size.
  rewrite bool_decide_false by (intros ?%nil_length_inv; by apply (table_nonempty _ Hok)).
  msimpl. rewrite Hnone. unfold mtry at 1. msimpl. unfold on_engine. msimpl.
  set (e1 := set_memtable _ _).
  pose proof (write_new_table_ok (data_ (memtable_ e)) w e1 Hok Hf3) as E1. cbv zeta in E1.
  change (data_dir_ e1) with (data_dir_ e) in E1.
  set (path := sstable_name _ _ _) in *. set (t := indexed _ _) in *.
  unfold mtry. mstep E1. msimpl. set (w1 := set_files _ _). set (e2 := set_immutable _ _).
  set (w2 := set_clock (tick (clock w1)).2 w1).
  assert (eng_now (w1, e2) = Returns (tick (clock w1)).1 (w2, e2)) as E2 by done.
  mstep E2. set (r := WALEntry_new _ _ _ _).
  destruct (on_wal_append r w2 e2 Hw1 Ho) as (w3 & l' & E3 & Hl1 & Hl2 & Hl3 & Hr & Hc & Hlost & Hf).
  mstep E3. exists w3, l'. split; [|split].
  - unfold mret, M_ret. do 2 f_equal. unfold e2, e1. destruct e; cbn in *. by subst.
  - split; cbn [fst snd memtable_ set_engine_mutex set_wal set_sstables set_memtable sstables_
      immutable_memtable_ wal_ engine_open_ engine_mutex_].
    + done.
    + apply memtable_new_inv.
    + by rewrite Hnone.
    + assert (Forall2 (stores w1) (sstables_ e ++ [t]) (tables ++ [data_ (memtable_ e)])) as H1.
      { apply Forall2_app.
        - eapply (all_stores_frame w); [done|exact Hf1|done|].
          intros p Hp. cbn. by rewrite lookup_insert_ne.
        - constructor; [|constructor]. split; [done|done|exact Hf3| |by left].
          cbn. by rewrite lookup_insert_eq. }
      eapply (all_stores_frame w1); [exact H1| |by rewrite Hr|].
      * rewrite fmap_app, not_elem_of_app. split; [exact Hwf|].
        cbn. rewrite list_elem_of_singleton. cbn in Hf2. congruence.
      * intros p Hp. by rewrite Hf.
    + split; [done|]. by rewrite Hl2, <- Ho, Hw2.
    + rewrite Hl3. cbn. rewrite fmap_app, not_elem_of_app. split; [exact Hwf|].
      cbn. rewrite list_elem_of_singleton. cbn in Hf2. congruence.
  - split_and!; try done. rewrite Hc. trans (tick (clock w)).2; apply clock_after_tick.
Qed.
End flush.

(** ** Properties *)

(** C1. On an open engine whose tables are the maps on disk, get answers with
    the newest entry that is not a tombstone, searching the memtable, the
    immutable memtable and the tables from newest to oldest, and reports
    NOT_FOUND when there is none; files, memtables and log are untouched and the
    representation invariant is kept. *)
Theorem lsm_get_newest_live key s tables :
  engine_ok s tables → engine_open_ s.2 = true →
  ∃ s', lsm_get key s = Returns (get_answer (first_live key (sources s.2 tables))) s' ∧
    same_data s s' ∧ engine_ok s' tables.
Proof. apply lsm_get_first_live. Qed.

(** An open engine over one table, [old], with [data] in the memtable. *)
Definition sample_table (path : string) (old : kv_map) : SSTable :=
  indexed old (SSTable_new path).

Definition sample_engine (data : list memtable_op) (olds : list (string * kv_map)) :
    EngSt :=
  (MkWorld (<["db/wal.log" := []]> (list_to_map ((λ p, (p.1, table_file p.2)) <$> olds))) ∅
     (MkClock (λ n, Z.of_nat n * 2000000)%Z 0),
   MkEngine "db" (foldl memtable_exec MemTable_new data) None
     ((λ p, sample_table p.1 p.2) <$> olds)
     (MkWAL "db/wal.log" (MkStream true 0 false false) false true 0)
     false true false true 0 0 MEMTABLE_SIZE_LIMIT 10 false).

Definition old_data : kv_map :=
  [(MkKey "a" "1", MkEntry "old" 1 5 false); (MkKey "b" "1", MkEntry "kept" 2 5 false)].
Definition newer_data : kv_map := [(MkKey "a" "1", MkEntry "newer" 2 6 false)].

Definition sample : EngSt :=
  sample_engine [OpPut (MkKey "c" "1") (MkEntry "mem" 1 7 false)]
    [("db/sstable_1.sst", old_data); ("db/sstable_2.sst", newer_data)].

Lemma small_table_ok data :
  omap_sorted key_ltb data = true → data ≠ [] →
  Forall (λ p, (version p.2 < 2 ^ 64)%N ∧ is_i64 (timestamp p.2)) data →
  (N.of_nat (length (table_file data)) <? 2 ^ 32)%N = true →
  forallb (λ p, (N.of_nat (String.length (key_to_string p.1)) <? 2 ^ 32) &&
                (N.of_nat (String.length (value p.2)) <? 2 ^ 32))%N data = true →
  table_ok data.
Proof.
  intros Hs Hn Hf Hl Hk. split; [done| |by apply N.ltb_lt|done].
  apply Forall_forall. intros p Hp. rewrite Forall_forall in Hf. apply Hf in Hp as Hp'.
  rewrite forallb_forall in Hk. apply list_elem_of_In in Hp.
  apply Hk, andb_true_iff in Hp as [?%N.ltb_lt ?%N.ltb_lt]. split; tauto.
Qed.

Lemma sample_ok : engine_ok sample [old_data; newer_data].
Proof.
  split.
  - reflexivity.
  - apply memtable_runs_inv, memtable_new_inv.
  - discriminate.
  - apply Forall2_cons; split; [|apply Forall2_cons; split; [|apply Forall2_nil; done]];
      (split; [apply small_table_ok; [reflexivity|discriminate| |reflexivity|reflexivity];
               repeat constructor; cbn; done || (unfold is_i64; cbn; lia)
              |reflexivity|cbn; set_solver|reflexivity|by left]).
  - done.
  - cbn. set_solver.
Qed.

Lemma lsm_get_newest_live_witness :
  engine_open_ sample.2 = true ∧
  ∃ s', lsm_get (MkKey "a" "1") sample = Returns (ROk (MkEntry "newer" 2 6 false)) s' ∧
    same_data sample s' ∧ engine_ok s' [old_data; newer_data].
Proof.
  split; [reflexivity|].
  exact (lsm_get_newest_live (MkKey "a" "1") sample [old_data; newer_data] sample_ok eq_refl).
Defined.

(** C3. On an open engine put succeeds exactly when the memtable accepts the key
    and value sizes. After an accepted put, get of that key returns the very
    entry, or, if the entry that was put has its deleted flag set, answers from
    the sources older than the memtable; get of every other key answers as
    before. After a refused put every get answers as before. *)
Theorem lsm_put_then_get key entry s tables :
  engine_ok s tables → engine_open_ s.2 = true →
  let accepted := is_ok (memtable_put key entry (memtable_ s.2)).1 in
  ∃ s1 r, lsm_put key entry s = Returns r s1 ∧ is_ok r = accepted ∧ engine_ok s1 tables ∧
    ∀ k, ∃ s2, lsm_get k s1 = Returns
      (if decide (k = key ∧ accepted = true) then
         if deleted entry then get_answer (first_live k (tail (sources s.2 tables))) else ROk entry
       else get_answer (first_live k (sources s.2 tables))) s2.
Proof.
  intros Hok Ho accepted.
  destruct (lsm_put_written key entry s tables Hok Ho) as (s1 & E & Hw & Hok1).
  do 2 eexists. split; [exact E|]. split; [done|]. split; [done|]. intros k.
  destruct (lsm_get_first_live k s1 tables Hok1) as (s2 & -> & _ & _);
    [by rewrite (written_open _ _ _ Hw)|].
  exists s2. f_equal. rewrite (written_sources _ _ _ tables Hw).
  unfold sources. cbn [tail]. rewrite !memtable_get_live.
  unfold accepted. destruct (is_ok _) eqn:Hacc.
  - pose proof (memtable_view_put key entry (memtable_ s.2) k (eng_memtable _ _ Hok) Hacc) as Hv.
    unfold memtable_view in Hv. unfold memtable_get. rewrite Hv.
    destruct (decide (k = key)) as [->|Hne].
    + rewrite decide_True by done. by destruct (deleted entry).
    + rewrite decide_False by tauto. by destruct (omap_find key_ltb k _).
  - rewrite decide_False by naive_solver.
    by destruct (memtable_put_cases key entry (memtable_ s.2))
      as [[-> _]|[[-> _]|(H & _)]]; [..|congruence].
Qed.

(** An entry that is put with the flag set uncovers the older tables. *)
Lemma lsm_put_then_get_witness :
  (∃ s1 r, lsm_put (MkKey "b" "1") (MkEntry "fresh" 3 8 false) sample = Returns r s1 ∧
    is_ok r = true ∧ engine_ok s1 [old_data; newer_data] ∧
    ∀ k, ∃ s2, lsm_get k s1 = Returns
      (if decide (k = MkKey "b" "1" ∧ true = true) then ROk (MkEntry "fresh" 3 8 false)
       else get_answer (first_live k (sources sample.2 [old_data; newer_data]))) s2) ∧
  (∃ s1 r, lsm_put (MkKey "b" "1") (MkEntry "gone" 3 8 true) sample = Returns r s1 ∧
    is_ok r = true ∧ engine_ok s1 [old_data; newer_data] ∧
    ∀ k, ∃ s2, lsm_get k s1 = Returns
      (if decide (k = MkKey "b" "1" ∧ true = true)
       then get_answer (first_live k [newer_data; old_data])
       else get_answer (first_live k (sources sample.2 [old_data; newer_data]))) s2).
Proof.
  split.
  - exact (lsm_put_then_get (MkKey "b" "1") (MkEntry "fresh" 3 8 false) sample _
      sample_ok eq_refl).
  - exact (lsm_put_then_get (MkKey "b" "1") (MkEntry "gone" 3 8 true) sample _
      sample_ok eq_refl).
Defined.

(** After remove, get of the key answers from the sources older than the
    memtable: a value already flushed to a table is returned as if it had not
    been deleted; other keys are unaffected. *)
Theorem lsm_remove_uncovers_older key s tables :
  engine_ok s tables → engine_open_ s.2 = true →
  ∃ s1, lsm_remove key s = Returns (ROk tt) s1 ∧ engine_ok s1 tables ∧
    ∀ k, ∃ s2, lsm_get k s1 = Returns
      (get_answer (first_live k (if decide (k = key) then tail (sources s.2 tables)
                                 else sources s.2 tables))) s2.
Proof.
  intros Hok Ho. destruct (lsm_remove_written key s tables Hok Ho) as (n & s1 & E & Hw & Hok1).
  exists s1. split; [exact E|]. split; [done|]. intros k.
  destruct (lsm_get_first_live k s1 tables Hok1) as (s2 & -> & _ & _);
    [by rewrite (written_open _ _ _ Hw)|].
  exists s2. do 2 f_equal. rewrite (written_sources _ _ _ tables Hw).
  pose proof (memtable_view_remove (reading (clock s.1) n) key (memtable_ s.2) k (eng_memtable _ _ Hok)) as Hv.
  unfold memtable_view in Hv. cbn [first_live]. rewrite Hv.
  case_decide; [done|]. unfold sources at 2. cbn [first_live].
  by destruct (omap_find key_ltb k _).
Qed.

Lemma lsm_remove_uncovers_older_witness :
  ∃ s1, lsm_remove (MkKey "b" "1") sample = Returns (ROk tt) s1 ∧
    engine_ok s1 [old_data; newer_data] ∧
    ∀ k, ∃ s2, lsm_get k s1 = Returns
      (get_answer (first_live k
        (if decide (k = MkKey "b" "1") then [newer_data; old_data]
         else sources sample.2 [old_data; newer_data]))) s2.
Proof. exact (lsm_remove_uncovers_older (MkKey "b" "1") sample _ sample_ok eq_refl). Defined.

(** C6. On an open engine with no immutable memtable left over, flushing a non-
    empty memtable that fits the 32-bit fields of a table, under a fresh file
    name, succeeds, appends its map to the tables, leaves the memtable empty,
    keeps the engine invariant and changes the answer of no get. *)
Theorem lsm_flush_preserves_reads put_time s tables :
  engine_ok s tables → engine_open_ s.2 = true → immutable_memtable_ s.2 = None →
  table_ok (data_ (memtable_ s.2)) → fresh_name put_time s →
  ∃ s1, lsm_flush put_time s = Returns (ROk tt) s1 ∧
    engine_ok s1 (tables ++ [data_ (memtable_ s.2)]) ∧ memtable_size (memtable_ s1.2) = 0 ∧
    ∀ k, ∃ s2, lsm_get k s1 = Returns (get_answer (first_live k (sources s.2 tables))) s2.
Proof.
  destruct s as [w e]. intros Hok Ho Hnone Htab Hfresh.
  pose proof (eng_unlocked _ _ Hok) as Hm. pose proof (eng_wal _ _ Hok) as [Hw1 Hw2].
  cbn [fst snd] in *. unfold lsm_flush. rewrite guarded_engine, when_open_step by done.
  pose proof (set_engine_mutex_id false e Hm) as He.
  destruct (flush_memtable_ok put_time w (set_engine_mutex true e) tables)
    as (w1 & l' & E & Hok1 & Hl1 & Hl2 & _);
    [by change (engine_ok (w, set_engine_mutex false e) tables); rewrite He
    |by cbn; rewrite Hw2|done|done|by destruct Hfresh|].
  cbn [data_dir_ memtable_ sstables_ set_engine_mutex] in E, Hok1.
  unfold mtry. mstep E. set (e1 := set_wal l' _) in *.
  rewrite (on_wal_sync w1 e1) by done.
  cbn [fst snd]. eexists. split; [reflexivity|]. split; [exact Hok1|]. split; [done|].
  intros k. destruct (lsm_get_first_live k _ _ Hok1) as (s2 & E2 & _); [done|].
  exists s2. rewrite E2. do 2 f_equal. unfold sources. cbn [snd].
  cbn [memtable_ immutable_memtable_ set_engine_mutex e1 set_wal set_sstables set_memtable].
  rewrite Hnone, rev_unit. reflexivity.
Qed.

Lemma lsm_flush_preserves_reads_witness :
  let name := sstable_name (λ _, "19700101_000000") "db" 0 in
  name = "db/sstable_19700101_000000_000.sst" ∧
  ∃ s1, lsm_flush (λ _, "19700101_000000") sample = Returns (ROk tt) s1 ∧
    engine_ok s1 [old_data; newer_data; [(MkKey "c" "1", MkEntry "mem" 1 7 false)]] ∧
    memtable_size (memtable_ s1.2) = 0 ∧
    ∀ k, ∃ s2, lsm_get k s1 =
      Returns (get_answer (first_live k (sources sample.2 [old_data; newer_data]))) s2.
Proof.
  split; [reflexivity|].
  apply (lsm_flush_preserves_reads (λ _, "19700101_000000") sample [old_data; newer_data]).
  - apply sample_ok.
  - reflexivity.
  - reflexivity.
  - apply small_table_ok; [reflexivity|discriminate| |reflexivity|reflexivity].
    repeat constructor; cbn; done || (unfold is_i64; cbn; lia).
  - split; vm_compute; try discriminate; set_solver.
Defined.

(** Compacting an open engine with at least two tables always fails with
    INVALID_ARGUMENT and drops the two oldest tables from the engine. *)
Theorem lsm_compact_loses_two_tables put_time s t1 t2 rest :
  engine_mutex_ s.2 = false → engine_open_ s.2 = true →
  sstables_ s.2 = t1 :: t2 :: rest →
  ∃ s1, lsm_compact put_time s =
      Returns (RErr Status.INVALID_ARGUMENT "Cannot write empty data") s1 ∧
    sstables_ s1.2 = rest ∧ memtable_ s1.2 = memtable_ s.2 ∧ files s1.1 = files s.1.
Proof.
  destruct s as [w e]. intros Hm Ho Ht. cbn [fst snd] in *.
  unfold lsm_compact. rewrite guarded_engine, when_open_step by done.
  unfold compact_sstables, on_engine. msimpl. cbn [sstables_ set_engine_mutex]. rewrite Ht.
  msimpl. set (e1 := set_sstables rest _).
  assert (write_new_table put_time [] (w, e1) =
    Returns (RErr Status.INVALID_ARGUMENT "Cannot write empty data")
      (set_clock (tick (clock w)).2 w, e1)) as E by reflexivity.
  unfold mtry. mstep E. eexists. split; [reflexivity|]. done.
Qed.

Lemma lsm_compact_loses_two_tables_witness :
  ∃ s1, lsm_compact (λ _, "t") sample =
      Returns (RErr Status.INVALID_ARGUMENT "Cannot write empty data") s1 ∧
    sstables_ s1.2 = [] ∧ memtable_ s1.2 = memtable_ sample.2 ∧ files s1.1 = files sample.1.
Proof.
  apply (lsm_compact_loses_two_tables (λ _, "t") sample
    (sample_table "db/sstable_1.sst" old_data) (sample_table "db/sstable_2.sst" newer_data) []);
    reflexivity.
Defined.

(** put_if_version_match and remove_if_version_match on an open engine always
    fail with the exception of the engine's mutex, which they lock a second
    time, and change nothing. *)
Theorem lsm_version_checked_writes_relock key entry expected s :
  engine_mutex_ s.2 = false →
  lsm_put_if_version_match key entry expected s =
    (if engine_open_ s.2 then Throws EngineMutex s
     else Returns (RErr Status.STORAGE_ERROR "LSM tree is not open") s) ∧
  lsm_remove_if_version_match key expected s =
    (if engine_open_ s.2 then Throws EngineMutex s
     else Returns (RErr Status.STORAGE_ERROR "LSM tree is not open") s).
Proof.
  destruct s as [w e]. intros Hm. cbn [snd] in *.
  assert (set_engine_mutex false (set_engine_mutex true e) = e) as He
    by exact (set_engine_mutex_id false e Hm).
  assert (lsm_get key (w, set_engine_mutex true e) =
    Throws EngineMutex (w, set_engine_mutex true e)) as Hget
    by (unfold lsm_get; by rewrite guarded_relock).
  unfold lsm_put_if_version_match, lsm_remove_if_version_match.
  rewrite !guarded_engine by done. unfold when_open. msimpl. cbn [engine_open_ set_engine_mutex].
  destruct (engine_open_ e); cbn [negb].
  - rewrite !(M_bind_throws _ _ _ _ _ Hget). cbn [fst snd]. by rewrite He.
  - unfold mret, M_ret. cbn [fst snd]. by rewrite He.
Qed.

Lemma lsm_version_checked_writes_relock_witness :
  lsm_put_if_version_match (MkKey "a" "1") (MkEntry "v" 0 0 false) 2 sample =
    Throws EngineMutex sample ∧
  lsm_remove_if_version_match (MkKey "a" "1") 2 sample = Throws EngineMutex sample.
Proof.
  apply (lsm_version_checked_writes_relock (MkKey "a" "1") (MkEntry "v" 0 0 false) 2 sample).
  reflexivity.
Defined.
