(* ===== verification/LSMScans.v ===== *)
(** * LSMScans: range scans of the engine

    A scan merges the scans of its sources, newest first. *)

From Stdlib Require Import Ascii String ZArith NArith Lia.
From stdpp Require Import base numbers list strings gmap pretty.
From S2P Require Import Prelude Bytes Numerals OrdMap Types Crc32c MemTable Files Wal SSTable.
From S2P Require Import LSMTree LSMReads.

(** ** Range scans *)

Section scans.
Context (query : RangeQuery).

(** What a scan should find of the key [k] in a stack of maps. *)
Definition scan_view (k : MultiLevelKey) (srcs : list kv_map) : option DataEntry :=
  if decide (between_keys query k) then first_live k srcs else None.

(** The limit does not cut the scan of the map [d] short. *)
Definition within_limit (d : kv_map) : Prop :=
  length (filter (λ p, between_keys query p.1) d) ≤ N.to_nat (limit query).

Lemma first_live_app k l1 l2 :
  first_live k (l1 ++ l2) =
    match first_live k l1 with Some e => Some e | None => first_live k l2 end.
Proof.
  induction l1 as [|d l1 IH]; [done|]. cbn [app first_live]. rewrite IH.
  destruct (omap_find key_ltb k d) as [e|]; [|done]. by destruct (deleted e).
Qed.

Lemma scan_view_app k l1 l2 :
  scan_view k (l1 ++ l2) =
    match scan_view k l1 with Some e => Some e | None => scan_view k l2 end.
Proof. unfold scan_view. case_decide; [apply first_live_app|done]. Qed.

Lemma first_live_deleted k srcs e : first_live k srcs = Some e → deleted e = false.
Proof.
  induction srcs as [|d srcs IH]; [done|]. cbn [first_live].
  destruct (omap_find key_ltb k d) as [e'|]; [|done].
  destruct (deleted e') eqn:E; [done|]. by intros [= <-].
Qed.

Lemma omap_sorted_filter (P : kv → Prop) `{!∀ x, Decision (P x)} (d : kv_map) :
  omap_sorted key_ltb d = true → omap_sorted key_ltb (filter P d) = true.
Proof.
  induction d as [|[k e] d IH]; intros Hd; [done|].
  apply omap_sorted_cons in Hd as [Ha Hd]. rewrite filter_cons.
  case_decide; [|by apply IH]. apply omap_sorted_cons. split; [|by apply IH].
  intros p Hp. apply Ha. by apply list_elem_of_filter in Hp as [_ ?].
Qed.

Lemma scan_of_within d :
  within_limit d → scan_of query d = filter live (filter (λ p, between_keys query p.1) d).
Proof. intros Hd. unfold scan_of. by rewrite take_ge. Qed.

Lemma scan_of_sorted d :
  omap_sorted key_ltb d = true → within_limit d → omap_sorted key_ltb (scan_of query d) = true.
Proof. intros Hd Hw. rewrite scan_of_within by done. by do 2 apply omap_sorted_filter. Qed.

Lemma scan_of_find k d :
  omap_sorted key_ltb d = true → within_limit d →
  omap_find key_ltb k (scan_of query d) = scan_view k [d].
Proof.
  intros Hd Hw. apply option_eq. intros e.
  rewrite omap_find_elem by (by apply scan_of_sorted). rewrite scan_of_within by done.
  rewrite !list_elem_of_filter, <- omap_find_elem by done. unfold scan_view, live. cbn.
  case_decide; [|naive_solver].
  destruct (omap_find key_ltb k d) as [e'|]; [|naive_solver].
  destruct (deleted e') eqn:E; naive_solver congruence.
Qed.

Lemma merge_all_find found merged k :
  omap_sorted key_ltb found = true → omap_sorted key_ltb merged = true →
  omap_sorted key_ltb (merge_all found merged) = true ∧
  omap_find key_ltb k (merge_all found merged) =
    match omap_find key_ltb k found with
    | Some e => Some e
    | None => omap_find key_ltb k merged
    end.
Proof.
  unfold merge_all. revert merged.
  induction found as [|[k1 e1] found IH]; intros merged Hf Hm; [done|].
  apply omap_sorted_cons in Hf as [Ha Hf]. cbn [foldl fst snd].
  destruct (IH (omap_insert key_ltb k1 e1 merged) Hf) as [IH1 IH2];
    [by apply omap_insert_sorted|].
  split; [done|]. rewrite IH2. cbn [omap_find].
  destruct (key_ltb k k1) eqn:E1; [|destruct (key_ltb k1 k) eqn:E2].
  - rewrite omap_find_above.
    + apply omap_find_insert_ne; [done|]. intros ->. by rewrite ltb_irrefl in E1.
    + intros p Hp. by apply (ltb_trans k k1), Ha.
  - destruct (omap_find key_ltb k found); [done|].
    apply omap_find_insert_ne; [done|]. intros ->. by rewrite ltb_irrefl in E2.
  - rewrite (ltb_total k k1) by done.
    rewrite omap_find_above by done. by apply omap_find_insert_eq.
Qed.

Lemma merge_missing_find found merged k :
  omap_sorted key_ltb found = true → omap_sorted key_ltb merged = true →
  omap_sorted key_ltb (merge_missing found merged) = true ∧
  omap_find key_ltb k (merge_missing found merged) =
    match omap_find key_ltb k merged with
    | Some e => Some e
    | None => omap_find key_ltb k found
    end.
Proof.
  unfold merge_missing. revert merged.
  induction found as [|[k1 e1] found IH]; intros merged Hf Hm.
  { split; [done|]. cbn. by destruct (omap_find key_ltb k merged). }
  apply omap_sorted_cons in Hf as [Ha Hf]. cbn [foldl fst snd].
  set (m1 := match omap_find key_ltb k1 merged with Some _ => _ | None => _ end).
  assert (omap_sorted key_ltb m1 = true) as Hm1
    by (unfold m1; destruct (omap_find key_ltb k1 merged); [done|by apply omap_insert_sorted]).
  destruct (IH m1 Hf Hm1) as [IH1 IH2]. split; [done|]. rewrite IH2. cbn [omap_find].
  destruct (decide (k = k1)) as [->|Hne].
  - rewrite ltb_irrefl. unfold m1. destruct (omap_find key_ltb k1 merged) eqn:E; [by rewrite E|].
    by rewrite omap_find_insert_eq.
  - assert (omap_find key_ltb k m1 = omap_find key_ltb k merged) as ->.
    { unfold m1. destruct (omap_find key_ltb k1 merged); [done|]. by apply omap_find_insert_ne. }
    destruct (omap_find key_ltb k merged); [done|].
    destruct (key_ltb k k1) eqn:E1; [|destruct (key_ltb k1 k) eqn:E2; [done|]].
    + apply omap_find_above. intros p Hp. by apply (ltb_trans k k1), Ha.
    + by destruct Hne; apply ltb_total.
Qed.

(** [merged] holds what the maps [srcs] answer. *)
Definition merges (merged : kv_map) (srcs : list kv_map) : Prop :=
  omap_sorted key_ltb merged = true ∧ ∀ k, omap_find key_ltb k merged = scan_view k srcs.

Lemma merges_missing merged srcs d :
  merges merged srcs → omap_sorted key_ltb d = true → within_limit d →
  merges (merge_missing (scan_of query d) merged) (srcs ++ [d]).
Proof.
  intros [Hs Hv] Hd Hw. pose proof (scan_of_sorted d Hd Hw) as Hf.
  split; [by apply (merge_missing_find _ _ (MkKey "" ""))|]. intros k.
  destruct (merge_missing_find (scan_of query d) merged k Hf Hs) as [_ ->].
  by rewrite Hv, scan_of_find, scan_view_app.
Qed.

Lemma take_live_spec merged count :
  (limit query < 2 ^ 32)%N →
  take_live merged count (limit query) =
    take (N.to_nat (limit query - count)) (filter live merged).
Proof.
  intros Hlim. revert count. induction merged as [|[k e] merged IH]; intros count;
    cbn [take_live]; [by rewrite filter_nil, take_nil|].
  destruct (N.leb_spec (limit query) count).
  - replace (limit query - count)%N with 0%N by lia. done.
  - rewrite filter_cons. destruct (deleted e) eqn:E; cbn [negb].
    + rewrite decide_False by (unfold live; cbn; congruence). apply IH.
    + rewrite decide_True by done. rewrite IH, wrap32_small by lia.
      replace (N.to_nat (limit query - count)) with (S (N.to_nat (limit query - (count + 1))))
        by lia. done.
Qed.

Lemma merges_live merged srcs : merges merged srcs → filter live merged = merged.
Proof.
  intros [Hs Hv]. apply filter_all. intros [k e] Hin.
  apply omap_find_elem in Hin; [|done]. rewrite Hv in Hin. unfold scan_view in Hin.
  case_decide; [|done]. by apply first_live_deleted in Hin.
Qed.

Lemma scan_tables_spec n w e tables merged srcs :
  Forall2 (stores w) (sstables_ e) tables → n ≤ length tables →
  (limit query < 2 ^ 32)%N → key_ltb (end_key query) (start_key query) = false →
  Forall within_limit tables → merges merged srcs →
  ∃ l merged', scan_tables query n merged (w, e) = Returns merged' (w, set_sstables l e) ∧
    merges merged' (srcs ++ rev (take n tables)) ∧
    Forall2 (stores w) l tables ∧ filename_ <$> l = filename_ <$> sstables_ e.
Proof.
  revert e merged srcs. induction n as [|n IH]; intros e merged srcs Htab Hn Hlim Hle Hw Hmerge.
  - exists (sstables_ e), merged. rewrite app_nil_r. split; [by destruct e|]. done.
  - destruct (tables_lookup _ _ _ n Htab ltac:(lia)) as (t & data & Ht & Hd & Hst).
    destruct (sst_range_scan_plain query data w t Hst Hlim Hle) as [m E].
    destruct (on_table_stores n _ _ _ _ _ _ _ _ Htab Hd Ht E) as (l & E1 & Hl & Hnames).
    cbn [scan_tables]. mstep E1. cbn [merge_result].
    assert (merges (merge_missing (scan_of query data) merged) (srcs ++ [data])) as H1.
    { apply merges_missing; [done|apply (stores_ok _ _ _ Hst)|].
      by eapply Forall_lookup_1 in Hw. }
    destruct (IH (set_sstables l e) _ _ Hl ltac:(lia) Hlim Hle Hw H1)
      as (l' & merged' & E2 & Hm' & Hl' & Hn').
    exists l', merged'. rewrite E2, Hn', (take_S_rev _ _ _ Hd).
    rewrite <- (assoc_L (++)) in Hm'. done.
Qed.

Lemma scan_memtable_spec mt s :
  memtable_inv mt → key_ltb (end_key query) (start_key query) = false →
  scan_memtable query mt s = Returns (ROk (scan_of query (data_ mt))) s.
Proof. intros Hmt Hle. unfold scan_memtable. by rewrite memtable_range_scan_spec. Qed.
End scans.

Lemma lsm_range_scan_spec query s tables :
  engine_ok s tables → engine_open_ s.2 = true → (limit query < 2 ^ 32)%N →
  key_ltb (end_key query) (start_key query) = false →
  Forall (within_limit query) (sources s.2 tables) →
  ∃ merged s', lsm_range_scan query s =
      Returns (ROk (take (N.to_nat (limit query)) merged)) s' ∧
    omap_sorted key_ltb merged = true ∧
    (∀ k, omap_find key_ltb k merged =
       if decide (between_keys query k) then first_live k (sources s.2 tables) else None) ∧
    same_data s s' ∧ engine_ok s' tables.
Proof.
  destruct s as [w e]. intros [Hm Hmt Him Htab [Hw1 Hw2] Hwf] Ho Hlim Hle Hwithin.
  cbn [fst snd] in *. unfold lsm_range_scan. rewrite guarded_engine, when_open_step by done.
  msimpl. set (e1 := set_engine_mutex true e).
  mstep (scan_memtable_spec query (memtable_ e) (w, e1) Hmt Hle). cbn [merge_result].
  unfold sources in Hwithin |- *. apply Forall_cons in Hwithin as [Hwm Hwithin].
  apply Forall_app in Hwithin as [Hwi Hwt].
  assert (merges query (merge_all (scan_of query (data_ (memtable_ e))) [])
    [data_ (memtable_ e)]) as H0.
  { pose proof (scan_of_sorted _ _ (inv_sorted _ Hmt) Hwm) as Hsc.
    split; [by apply (merge_all_find _ [] (MkKey "" ""))|]. intros k.
    destruct (merge_all_find (scan_of query (data_ (memtable_ e))) [] k Hsc eq_refl) as [_ ->].
    rewrite scan_of_find by (done || apply Hmt). by destruct (scan_view _ _ _). }
  msimpl. change (immutable_memtable_ e1) with (immutable_memtable_ e).
  assert (∃ merged, (match immutable_memtable_ e with
      | Some mt => immutable_result ← scan_memtable query mt;
          mret (merge_result merge_missing immutable_result
            (merge_all (scan_of query (data_ (memtable_ e))) []))
      | None => mret (merge_all (scan_of query (data_ (memtable_ e))) [])
      end) (w, e1) = Returns merged (w, e1) ∧
    merges query merged ([data_ (memtable_ e)] ++ option_list (data_ <$> immutable_memtable_ e)))
    as (m1 & E1 & H1).
  { destruct (immutable_memtable_ e) as [im|]; [|by rewrite app_nil_r; eexists].
    pose proof (Him im eq_refl) as Hi. mstep (scan_memtable_spec query im (w, e1) Hi Hle).
    eexists. split; [reflexivity|]. apply merges_missing; [done|apply Hi|].
    by apply Forall_cons in Hwi as [? _]. }
  mstep E1. msimpl.
  rewrite (Forall2_length _ _ _ Htab : length (sstables_ e1) = _).
  assert (Forall (within_limit query) tables) as Hwt'.
  { apply Forall_forall. intros d Hd. rewrite Forall_forall in Hwt. apply Hwt.
    by apply list_elem_of_In, in_rev, list_elem_of_In in Hd. }
  destruct (scan_tables_spec query (length tables) w e1 tables m1 _
    Htab (le_n _) Hlim Hle Hwt' H1) as (l & merged & E2 & H2 & Hl & Hnames).
  mstep E2. rewrite firstn_all in H2.
  exists merged. eexists. rewrite take_live_spec by done.
  rewrite (merges_live _ _ _ H2), N.sub_0_r. split; [reflexivity|].
  destruct H2 as [Hs Hv]. split; [done|]. split; [intros k; by rewrite Hv, <- (assoc_L (++))|].
  split; [by split|]. split; cbn; auto. by rewrite Hnames.
Qed.

(** C11. On an open engine, for a query whose start key is not above its end key
    and whose limit is below 2^32 and cuts no single source short, range_scan
    returns the first `limit` entries, in key order, of the map that gives every
    key between the two its newest entry that is not a tombstone. The end key
    counts in whatever inclusive_end says, although its default is to leave it
    out; the start key counts in if inclusive_start says so. *)
Theorem lsm_range_scan_merges query s tables :
  engine_ok s tables → engine_open_ s.2 = true → (limit query < 2 ^ 32)%N →
  key_ltb (end_key query) (start_key query) = false →
  Forall (within_limit query) (sources s.2 tables) →
  ∃ merged s', lsm_range_scan query s =
      Returns (ROk (take (N.to_nat (limit query)) merged)) s' ∧
    omap_sorted key_ltb merged = true ∧
    (∀ k, omap_find key_ltb k merged =
       if decide (between_keys query k) then first_live k (sources s.2 tables) else None) ∧
    same_data s s' ∧ engine_ok s' tables.
Proof. apply lsm_range_scan_spec. Qed.

Lemma lsm_range_scan_merges_witness :
  let q := MkRange (MkKey "a" "") (MkKey "c" "9") 5 true false in
  ∃ merged s', lsm_range_scan q sample = Returns (ROk (take 5 merged)) s' ∧
    omap_sorted key_ltb merged = true ∧
    (∀ k, omap_find key_ltb k merged =
       if decide (between_keys q k) then first_live k (sources sample.2 [old_data; newer_data])
       else None) ∧
    same_data sample s' ∧ engine_ok s' [old_data; newer_data].
Proof.
  intros q. apply (lsm_range_scan_merges q sample [old_data; newer_data]).
  - apply sample_ok.
  - reflexivity.
  - reflexivity.
  - reflexivity.
  - repeat constructor; vm_compute; lia.
Defined.
