(* ===== verification/LSMRecovery.v ===== *)
(** * LSMRecovery: opening the engine, and what the log gives back *)

From Stdlib Require Import Ascii String ZArith NArith Lia.
From stdpp Require Import base numbers list strings gmap pretty.
From S2P Require Import Prelude Bytes Numerals OrdMap Types Crc32c MemTable Files Wal SSTable.
From S2P Require Import LSMTree LSMReads.

(** ** Recovery *)

(** What the log says of a key: the value and whether it is deleted.  The
    version and the timestamp are not in the log. *)
Definition log_spec (m : gmap MultiLevelKey (string * bool)) (r : WALEntry) :
    gmap MultiLevelKey (string * bool) :=
  if decide (entry_type r = WALEntryType.PUT) then
    if decide (key_size (entry_key r) ≤ MAX_KEY_SIZE ∧
               value_size (entry_data r) ≤ MAX_VALUE_SIZE)%N
    then <[entry_key r := (value (entry_data r), false)]> m else m
  else if decide (entry_type r = WALEntryType.DELETE) then
    <[entry_key r := (default "" (fst <$> m !! entry_key r), true)]> m
  else m.

(** The memtable agrees with [m] and every version in it is 0. *)
Definition replays (mt : MemTable) (m : gmap MultiLevelKey (string * bool)) : Prop :=
  memtable_inv mt ∧
  ∀ k, (λ e, (value e, deleted e, version e)) <$> memtable_view mt k =
       (λ p, (p.1, p.2, 0%N)) <$> m !! k.

Lemma replays_put key entry mt m :
  replays mt m → version entry = 0%N → deleted entry = false →
  replays (memtable_put key entry mt).2
    (if decide (key_size key ≤ MAX_KEY_SIZE ∧ value_size entry ≤ MAX_VALUE_SIZE)%N
     then <[key := (value entry, false)]> m else m).
Proof.
  intros [Hinv Hv] Hver Hdel. split; [by apply memtable_put_inv|]. intros k.
  destruct (memtable_put_cases key entry mt) as [[H ?]|[[H ?]|(Hok & ? & ? & _)]].
  - rewrite H, decide_False by lia. apply Hv.
  - rewrite H, decide_False by lia. apply Hv.
  - rewrite decide_True, memtable_view_put, lookup_insert by done.
    destruct (decide (k = key)) as [->|Hne].
    + rewrite decide_True by done. cbn. by rewrite Hver, Hdel.
    + rewrite decide_False by done. apply Hv.
Qed.

Lemma replays_remove now key mt m :
  replays mt m →
  replays (memtable_remove now key mt).2
    (<[key := (default "" (fst <$> m !! key), true)]> m).
Proof.
  intros [Hinv Hv]. split; [by apply memtable_remove_inv|]. intros k.
  rewrite memtable_view_remove, lookup_insert by done.
  destruct (decide (k = key)) as [->|Hne].
  - rewrite decide_True by done. specialize (Hv key).
    destruct (memtable_view mt key) as [e|], (m !! key) as [[v d]|];
      cbn in *; try done. injection Hv as -> _ ->. done.
  - rewrite decide_False by done. apply Hv.
Qed.

Lemma replay_entry_step r w e m :
  replays (memtable_ e) m → version (entry_data r) = 0%N → deleted (entry_data r) = false →
  ∃ w' mt, replay_entry r (w, e) = Returns tt (w', set_memtable mt e) ∧
    replays mt (log_spec m r) ∧ files w' = files w ∧ refused w' = refused w.
Proof.
  intros Hm Hver Hdel. unfold replay_entry, log_spec, on_engine, memtable_remove_now, eng_now.
  case_bool_decide as H1.
  - rewrite decide_True by done. do 2 eexists. split; [reflexivity|].
    split; [by apply replays_put|done].
  - rewrite decide_False by done. case_bool_decide as H2.
    + rewrite decide_True by done. unfold lift, mbind, M_bind, tick. cbn.
      pose proof (replays_remove (reading (clock w) (ticks (clock w))) (entry_key r) _ _ Hm) as H.
      destruct (memtable_remove _ _ _) as [r' mt]. do 2 eexists. split; [reflexivity|].
      split; [exact H|done].
    + rewrite decide_False by done. exists w, (memtable_ e). by destruct e.
Qed.

Lemma replay_entries_step rs w e m :
  replays (memtable_ e) m →
  Forall (λ r, version (entry_data r) = 0%N ∧ deleted (entry_data r) = false) rs →
  ∃ w' mt, mfor replay_entry rs (w, e) = Returns tt (w', set_memtable mt e) ∧
    replays mt (foldl log_spec m rs) ∧ files w' = files w ∧ refused w' = refused w.
Proof.
  revert w e m. induction rs as [|r rs IH]; intros w e m Hm Hrs.
  { exists w, (memtable_ e). by destruct e. }
  apply Forall_cons in Hrs as [[Hver Hdel] Hrs].
  destruct (replay_entry_step r w e m Hm Hver Hdel) as (w1 & mt1 & E1 & H1 & Hf1 & Hr1).
  destruct (IH w1 (set_memtable mt1 e) _ H1 Hrs) as (w2 & mt2 & E2 & H2 & Hf2 & Hr2).
  exists w2, mt2. cbn [mfor foldl]. mstep E1. rewrite E2.
  split; [done|]. split; [done|]. split; congruence.
Qed.

(** The recovered entries mean to the memtable what the logged ones do. *)
Lemma log_spec_recovered clk junk es m :
  foldl log_spec m (recovered_log clk 0 junk es) = foldl log_spec m es ∧
  Forall (λ r, version (entry_data r) = 0%N ∧ deleted (entry_data r) = false)
    (recovered_log clk 0 junk es).
Proof.
  revert clk m. induction es as [|r es IH]; intros clk m; [done|].
  cbn [recovered_log tick]. rewrite (proj2 (N.leb_le _ _)) by lia. cbn [foldl].
  change (log_spec m (recovered _ _ r)) with (log_spec m r).
  destruct (IH (MkClock (reading clk) (S (ticks clk))) (log_spec m r)) as [-> H].
  split; [done|]. by constructor.
Qed.

(** ** Opening *)

(** Opening leaves the log with an unusable stream. *)
Lemma on_wal_ok_inv {A} (m : M WalSt A) s a s' :
  on_wal m s = Returns a s' →
  ∃ w l, m (s.1, wal_ s.2) = Returns a (w, l) ∧ s' = (w, set_wal l s.2).
Proof.
  unfold on_wal, zoom. destruct (m _) as [a' [w l]| |]; [|done..].
  intros [= <- <-]. eauto.
Qed.

Lemma replay_entries_wal rs s s' :
  mfor replay_entry rs s = Returns tt s' →
  wal_ s'.2 = wal_ s.2 ∧ engine_mutex_ s'.2 = engine_mutex_ s.2.
Proof.
  revert s. induction rs as [|r rs IH]; intros s; [by intros [= <-]|].
  cbn [mfor]. intros ([] & s1 & E & H)%M_bind_returns. apply IH in H as [-> ->].
  revert E. unfold replay_entry, on_engine, memtable_remove_now, eng_now, lift.
  destruct s as [w e]. case_bool_decide; [by intros [= <-]|].
  case_bool_decide; [|by intros [= <-]]. unfold mbind, M_bind, tick. cbn.
  destruct (memtable_remove _ _ _). by intros [= <-].
Qed.

Lemma load_tables_wal names s s' :
  load_tables names s = Returns tt s' →
  wal_ s'.2 = wal_ s.2 ∧ engine_mutex_ s'.2 = engine_mutex_ s.2.
Proof.
  revert s. induction names as [|f names IH]; intros s; [by intros [= <-]|].
  cbn [load_tables]. intros (r & s1 & E & H)%M_bind_returns.
  apply M_bind_returns in H as ([] & s2 & E2 & H). apply IH in H as [-> ->].
  assert (wal_ s1.2 = wal_ s.2 ∧ engine_mutex_ s1.2 = engine_mutex_ s.2) as [<- <-].
  { revert E. unfold with_new_table. destruct (load_index _) as [[[]|] [w t]|n [w t]|]; [..|done|done];
      by intros [= _ <-]. }
  destruct r; by injection E2 as <-.
Qed.

Lemma mtry_ok_inv {S A B} (m : M S (Result A)) (f : A → M S (Result B)) s b s' :
  mtry m f s = Returns (ROk b) s' →
  ∃ a s1, m s = Returns (ROk a) s1 ∧ f a s1 = Returns (ROk b) s'.
Proof.
  intros ([a|] & s1 & E & H)%M_bind_returns; [eauto|done].
Qed.

Lemma lsm_open_wal junk s s1 :
  lsm_open junk s = Returns (ROk tt) s1 → engine_open_ s.2 = false →
  engine_mutex_ s1.2 = false ∧ wal_mutex_ (wal_ s1.2) = false ∧
  is_open_ (wal_ s1.2) = true ∧ good (file_ (wal_ s1.2)) = false.
Proof.
  intros (_ & Hm & t & E & ->)%guarded_returns_inv Ho. split; [done|].
  revert E. msimpl. cbn [engine_open_ set_engine_mutex set_owned Engine_mutex snd].
  rewrite Ho. intros (? & s2 & _ & H)%mtry_ok_inv.
  apply mtry_ok_inv in H as (? & s3 & Erec & H).
  apply mtry_ok_inv in H as (? & s4 & Eload & H).
  injection H as <-.
  apply mtry_ok_inv in Erec as (es & s5 & Ewal & Erec).
  apply on_wal_ok_inv in Ewal as (w & l & Ewal & ->).
  apply M_bind_returns in Erec as ([] & s6 & Erec & [= _ <-]).
  apply replay_entries_wal in Erec as [Hw6 _].
  apply M_bind_returns in Eload as (names & s7 & [= <- <-] & Eload).
  apply M_bind_returns in Eload as ([] & s8 & Eload & [= _ <-]).
  apply load_tables_wal in Eload as [Hw8 _].
  apply replay_from_ok in Ewal as (Hopen & Hmx & Hg & _).
  change (wal_ _) with (wal_ s8.2). rewrite Hw8, Hw6. done.
Qed.

(** After open succeeds, put acknowledges as the memtable decides but leaves
    every file, the log included, as it was. *)
Theorem lsm_put_after_open_not_logged junk s s1 key entry :
  lsm_open junk s = Returns (ROk tt) s1 → engine_open_ s.2 = false →
  ∃ s2, lsm_put key entry s1 = Returns (memtable_put key entry (memtable_ s1.2)).1 s2 ∧
    files s2.1 = files s1.1.
Proof.
  intros Hopen Ho. destruct (lsm_open_wal _ _ _ Hopen Ho) as (Hm & Hwm & Hwo & Hg).
  assert (engine_open_ s1.2 = true) as Ho1.
  { revert Hopen. intros (_ & _ & t & E & ->)%guarded_returns_inv. revert E. msimpl.
    cbn [engine_open_ set_engine_mutex set_owned Engine_mutex snd]. rewrite Ho.
    intros (? & ? & _ & H)%mtry_ok_inv. apply mtry_ok_inv in H as (? & ? & _ & H).
    apply mtry_ok_inv in H as (? & ? & _ & H). by injection H as <-. }
  destruct s1 as [w e]. cbn [fst snd] in *. unfold lsm_put.
  rewrite guarded_engine, when_open_step by done.
  destruct (wal_append_lost (WALEntry_new WALEntryType.PUT key entry 0) w (wal_ e) Hwm Hwo Hg)
    as (l' & E & _).
  assert (on_wal (wal_append (WALEntry_new WALEntryType.PUT key entry 0))
    (w, set_engine_mutex true e) = Returns (ROk tt) (w, set_wal l' (set_engine_mutex true e)))
    as E1 by (unfold on_wal, zoom; cbn [fst snd]; cbn [wal_ set_engine_mutex]; by rewrite E).
  unfold mtry. mstep E1. unfold lift. unfold mbind at 1, M_bind at 1.
  cbn [fst snd memtable_ set_wal set_engine_mutex].
  destruct (memtable_put key entry (memtable_ e)) as [[[]|] mt]; eexists; split; reflexivity.
Qed.

Definition closed_engine (log : bytes) : EngSt :=
  (MkWorld {["db/wal.log" := log]} ∅ (MkClock (λ n, Z.of_nat n * 2000000)%Z 0),
   MkEngine "db" MemTable_new None [] (WAL_new "db/wal.log")
     false false false false 0 0 MEMTABLE_SIZE_LIMIT 10 false).

Lemma lsm_put_after_open_not_logged_witness :
  let s1 := match lsm_open 0 (closed_engine (log_of [sample_entry])) with
            | Returns _ s1 => s1
            | _ => closed_engine []
            end in
  lsm_open 0 (closed_engine (log_of [sample_entry])) = Returns (ROk tt) s1 ∧
  ∃ s2, lsm_put (MkKey "k" "1") (MkEntry "v" 1 0 false) s1 = Returns (ROk tt) s2 ∧
    files s2.1 = files s1.1.
Proof.
  intros s1. assert (lsm_open 0 (closed_engine (log_of [sample_entry])) = Returns (ROk tt) s1)
    as E by (vm_compute; reflexivity).
  split; [exact E|].
  exact (lsm_put_after_open_not_logged 0 (closed_engine (log_of [sample_entry])) s1
    (MkKey "k" "1") (MkEntry "v" 1 0 false) E eq_refl).
Defined.

(** C18. Recovering an empty memtable from an intact log gives each key the
    value and tombstone flag that replaying the PUT and DELETE records in order
    gives it, and every recovered version is 0: the log does not hold versions. *)
Theorem lsm_recovery_replays_log junk w e es tail :
  log_open (wal_ e) → Forall record_ok es → length tail < 8 →
  log_bytes (w, wal_ e) = log_of es ++ tail → memtable_ e = MemTable_new →
  ∃ w' mt l', recover_from_wal junk (w, e) =
      Returns (ROk tt) (w', set_memtable mt (set_wal l' e)) ∧
    files w' = files w ∧ memtable_inv mt ∧
    ∀ k, (λ d, (value d, deleted d, version d)) <$> memtable_view mt k =
         (λ p, (p.1, p.2, 0%N)) <$> foldl log_spec ∅ es !! k.
Proof.
  intros Ho Hok Ht Hl Hmt.
  destruct (replay_from_log 0 junk w (wal_ e) es tail Ho Hok Hl Ht) as [p E].
  set (w1 := set_clock _ w) in E. set (l1 := set_file _ (wal_ e)) in E.
  assert (on_wal (replay_from 0 junk) (w, e) =
    Returns (ROk (recovered_log (clock w) 0 junk es)) (w1, set_wal l1 e)) as E1
    by (unfold on_wal, zoom; cbn [fst snd]; by rewrite E).
  unfold recover_from_wal, mtry. mstep E1.
  destruct (log_spec_recovered (clock w) junk es ∅) as [Hspec Hver].
  assert (replays (memtable_ (set_wal l1 e)) ∅) as H0.
  { cbn [memtable_ set_wal]. rewrite Hmt. split; [apply memtable_new_inv|].
    intros k. by rewrite lookup_empty. }
  destruct (replay_entries_step _ w1 (set_wal l1 e) ∅ H0 Hver) as (w2 & mt & E2 & [Hi Hv] & Hf & _).
  mstep E2. rewrite Hspec in Hv. exists w2, mt, l1. split; [reflexivity|]. by split.
Qed.

Lemma lsm_recovery_replays_log_witness :
  let e := set_wal (sample_log (log_of [sample_entry])).2 (closed_engine []).2 in
  let w := set_files {["db/wal.log" := log_of [sample_entry]]} (closed_engine []).1 in
  ∃ w' mt l', recover_from_wal 0 (w, e) =
      Returns (ROk tt) (w', set_memtable mt (set_wal l' e)) ∧
    files w' = files w ∧ memtable_inv mt ∧
    ∀ k, (λ d, (value d, deleted d, version d)) <$> memtable_view mt k =
         (λ p, (p.1, p.2, 0%N)) <$>
           (<[MkKey "user" "7" := ("v1", false)]> ∅ : gmap MultiLevelKey (string * bool)) !! k.
Proof.
  intros e w. apply (lsm_recovery_replays_log 0 w e [sample_entry] []).
  - by split.
  - repeat constructor; apply sample_entry_ok.
  - cbn. lia.
  - reflexivity.
  - reflexivity.
Defined.
