(* ===== verification/LSMDisk.v ===== *)
(** * LSMDisk: the directory of an engine, and opening it

    The names of the table files, the order in which [load_sstables] finds
    them, and [open] on a directory that an engine left behind. *)

From Stdlib Require Import Ascii String ZArith NArith Lia.
From stdpp Require Import base numbers list strings gmap pretty.
From S2P Require Import Prelude Bytes Numerals Calendar OrdMap Types Crc32c MemTable Files Wal.
From S2P Require Import SSTable LSMTree LSMReads.

(** ** File names *)

Lemma append_assoc (a b c : string) : (a +:+ b) +:+ c = a +:+ b +:+ c.
Proof. induction a as [|x a IH]; [done|]. exact (f_equal (String x) IH). Qed.

Definition SLASH : ascii := "/"%char.

Lemma bytes_of_cons c s : bytes_of (String c s) = c :: bytes_of s.
Proof. done. Qed.

Lemma in_directory_name dir name :
  name ≠ "" → SLASH ∉ bytes_of name → in_directory dir (dir +:+ "/" +:+ name) = Some name.
Proof.
  intros Hne Hs. unfold in_directory. rewrite !bytes_of_app.
  change (bytes_of "/") with [SLASH]. rewrite (assoc_L (++)).
  rewrite take_app_length, drop_app_length, decide_True, decide_True; [|split|]; try done.
  - by rewrite string_of_bytes_of.
  - intros E. apply Hne. by destruct name.
Qed.

Lemma sst_extension_suffix name : name ≠ "" → has_sst_extension (name +:+ ".sst") = true.
Proof.
  intros Hne. unfold has_sst_extension. rewrite bytes_of_app, length_app.
  change (length (bytes_of ".sst")) with 4. rewrite Nat.add_sub, drop_app_length.
  rewrite !bool_decide_true; [done|done|]. destruct name; [done|]. cbn. lia.
Qed.

(** Decimal numbers have no slash. *)
Lemma pretty_Z_slash (z : Z) : SLASH ∉ bytes_of (pretty z).
Proof.
  assert (∀ n : N, SLASH ∉ bytes_of (pretty n)) as HN.
  { intros n Hin. pose proof (pretty_digits n) as Hd. rewrite Forall_forall in Hd.
    by apply Hd in Hin. }
  destruct z as [|p|p]; [..|cbn [pretty pretty_Z]; rewrite bytes_of_app].
  - by apply not_elem_of_cons; split; [|set_solver].
  - apply (HN (Npos p)).
  - rewrite not_elem_of_app. split; [|apply (HN (Npos p))].
    by apply not_elem_of_cons; split; [|set_solver].
Qed.

Section names.
Context (put_time : Z → string) (Hput_time : ∀ z, SLASH ∉ bytes_of (put_time z)).

Lemma sstable_name_is_table dir now : is_table_file dir (sstable_name put_time dir now) = true.
Proof.
  unfold is_table_file, sstable_name. set (ms := Z.rem _ _).
  set (stem := "sstable_" +:+ put_time (Z.quot now (1000 * ns_per_ms)) +:+ "_" +:+ pad3 (pretty ms)).
  change (dir +:+ "/sstable_" +:+ ?x) with (dir +:+ "/" +:+ ("sstable_" +:+ x)).
  assert ("sstable_" +:+ put_time (Z.quot now (1000 * ns_per_ms)) +:+ "_" +:+ pad3 (pretty ms)
            +:+ ".sst" = stem +:+ ".sst") as -> by (unfold stem; by rewrite !append_assoc).
  rewrite in_directory_name; [by apply sst_extension_suffix|done|].
  unfold stem. rewrite !bytes_of_app, !not_elem_of_app. unfold pad3. rewrite bytes_of_string_of.
  rewrite not_elem_of_app. split_and!; try apply Hput_time; try apply pretty_Z_slash.
  1, 2, 4: by vm_compute; set_solver.
  intros H%elem_of_replicate. by destruct H.
Qed.
End names.

(** [put_time(localtime(&t), "%Y%m%d_%H%M%S")] on a host whose clocks are
    [zone] ahead of UTC. *)
Definition local_stamp (zone : Z → Z) (secs : Z) : string :=
  string_of (Calendar.put_time compact_format (gmtime (secs + zone secs))).

Lemma local_stamp_slash zone secs : SLASH ∉ bytes_of (local_stamp zone secs).
Proof.
  unfold local_stamp. rewrite bytes_of_string_of. unfold Calendar.put_time, compact_format.
  cbn [fmap list_fmap concat put_field]. rewrite !not_elem_of_app, list_elem_of_singleton.
  split_and!; try (by apply put_digits_free); [discriminate|apply not_elem_of_nil].
Qed.

Lemma wal_name_not_table dir : is_table_file dir (dir +:+ "/wal.log") = false.
Proof.
  unfold is_table_file. change "/wal.log" with ("/" +:+ "wal.log").
  rewrite in_directory_name; [reflexivity|done|]. by vm_compute; set_solver.
Qed.

(** ** The order of the tables *)

Definition ascending (names : list string) : Prop :=
  omap_sorted String.ltb ((λ f, (f, tt)) <$> names) = true.

Lemma ascending_snoc names x :
  ascending names → (∀ f, f ∈ names → String.ltb f x = true) → ascending (names ++ [x]).
Proof.
  unfold ascending. induction names as [|f names IH]; intros Hs Hx; [done|].
  cbn [app fmap list_fmap] in *. apply omap_sorted_cons in Hs as [Ha Hs].
  apply omap_sorted_cons. split; [|apply IH; [done|]; intros; apply Hx; by right].
  intros p. rewrite fmap_app, elem_of_app. intros [Hp|Hp]; [by apply Ha|].
  apply list_elem_of_fmap in Hp as (y & -> & ->%list_elem_of_singleton).
  apply Hx. by left.
Qed.

Lemma find_names names f :
  ascending names → omap_find String.ltb f ((λ f, (f, tt)) <$> names) = Some tt ↔ f ∈ names.
Proof.
  intros Hs. rewrite omap_find_elem, list_elem_of_fmap by done.
  split; [intros (? & [= ->] & ?); done|eauto].
Qed.

Lemma sort_names_ascending l names :
  ascending names → (∀ f, f ∈ l ↔ f ∈ names) → sort_names l = names.
Proof.
  intros Hs Hl. unfold sort_names.
  assert (∀ l, omap_sorted String.ltb (foldr (λ f m, omap_insert String.ltb f tt m) [] l) = true ∧
    ∀ f, omap_find String.ltb f (foldr (λ f m, omap_insert String.ltb f tt m) [] l) = Some tt ↔ f ∈ l)
    as H.
  { clear. induction l as [|x l [IH1 IH2]]; cbn [foldr].
    - split; [done|]. intros f. by rewrite elem_of_nil.
    - split; [by apply omap_insert_sorted|]. intros f. rewrite elem_of_cons, <- IH2.
      destruct (decide (f = x)) as [->|Hne].
      + rewrite omap_find_insert_eq by done. naive_solver.
      + rewrite omap_find_insert_ne by done. naive_solver. }
  destruct (H l) as [H1 H2].
  rewrite (omap_ext _ ((λ f, (f, tt)) <$> names)); [|done|done|].
  - rewrite <- list_fmap_compose. apply list_fmap_id.
  - intros f. specialize (H2 f). rewrite Hl, <- find_names in H2 by done.
    destruct (omap_find _ f _) as [[]|], (omap_find _ f _) as [[]|]; naive_solver.
Qed.

(** ** The directory between two runs of the engine *)

(** The table file [f] holds [data], and reading it back gives its keys. *)
Record on_disk (w : World) (f : string) (data : kv_map) : Prop := {
  od_ok : table_ok data;
  od_allowed : f ∉ refused w;
  od_file : files w !! f = Some (table_file data);
  od_colon_free : Forall (λ p, colon_free (primary_key p.1)) data
}.

(** The directory holds exactly these tables, oldest first, and the log is
    empty or not there yet. *)
Record disk_ok (dir : string) (w : World) (names : list string) (tables : list kv_map) :
    Prop := {
  disk_ascending : ascending names;
  disk_named : Forall (λ f, is_table_file dir f = true) names;
  disk_tables : Forall2 (on_disk w) names tables;
  disk_only : ∀ p, is_Some (files w !! p) → is_table_file dir p = true → p ∈ names;
  disk_log : content (dir +:+ "/wal.log") w = [];
  disk_log_allowed : dir +:+ "/wal.log" ∉ refused w
}.

Lemma all_on_disk_frame w w' names tables :
  Forall2 (on_disk w) names tables → refused w' = refused w →
  (∀ f, f ∈ names → files w' !! f = files w !! f) → Forall2 (on_disk w') names tables.
Proof.
  intros Ht Hr Hf. induction Ht as [|f data names tables [] _ IH]; constructor.
  - split; rewrite ?Hr, ?Hf; auto. by left.
  - apply IH. intros g Hg. apply Hf. by right.
Qed.

Lemma disk_wal_fresh dir w names tables :
  disk_ok dir w names tables → dir +:+ "/wal.log" ∉ names.
Proof.
  intros Hd Hin. pose proof (disk_named _ _ _ _ Hd) as Hn. rewrite Forall_forall in Hn.
  apply Hn in Hin. by rewrite wal_name_not_table in Hin.
Qed.

(** Only the log may differ. *)
Lemma disk_ok_frame dir w w' names tables :
  disk_ok dir w names tables → refused w' = refused w →
  (∀ p, p ≠ dir +:+ "/wal.log" → files w' !! p = files w !! p) →
  content (dir +:+ "/wal.log") w' = [] → disk_ok dir w' names tables.
Proof.
  intros Hd Hr Hf Hc. pose proof (disk_wal_fresh _ _ _ _ Hd) as Hw.
  destruct Hd as [Ha Hn Ht Ho _ Hl]. split; try done.
  - apply (all_on_disk_frame w); [done|done|]. intros f Hin. apply Hf. by intros ->.
  - intros p Hp Htab. apply Ho; [|done]. rewrite <- Hf; [done|].
    intros ->. by rewrite wal_name_not_table in Htab.
  - by rewrite Hr.
Qed.

Lemma sstable_files_disk dir w names tables :
  disk_ok dir w names tables → sstable_files dir w = names.
Proof.
  intros [Ha Hn Ht Ho _ _]. apply sort_names_ascending; [done|]. intros f.
  rewrite list_elem_of_filter, elem_of_elements, elem_of_dom. split.
  - intros [Htab Hf]. apply Ho; [done|]. by apply Is_true_true in Htab.
  - intros Hin. rewrite Forall_forall in Hn. split; [by apply Is_true_true, Hn|].
    apply list_elem_of_lookup_1 in Hin as [i Hi].
    destruct (Forall2_lookup_l _ _ _ _ _ Ht Hi) as (data & _ & []). eauto.
Qed.

Definition loaded (names : list string) (tables : list kv_map) : list SSTable :=
  zip_with (λ f data, indexed data (SSTable_new f)) names tables.

Lemma load_tables_disk names tables w e :
  Forall2 (on_disk w) names tables →
  load_tables names (w, e) =
    Returns tt (w, set_sstables (sstables_ e ++ loaded names tables) e).
Proof.
  intros Ht. revert e. induction Ht as [|f data names tables Hd _ IH]; intros e.
  { cbn. rewrite app_nil_r. by destruct e. }
  destruct Hd as [Hok Hr Hf Hc]. cbn [load_tables].
  assert (with_new_table f load_index (w, e) =
    Returns (ROk (indexed data (SSTable_new f))) (w, e)) as E.
  { unfold with_new_table. cbn [fst snd]. rewrite (load_index_stores _ _ data).
    - by rewrite reparse_colon_free.
    - done.
    - unfold readable. cbn. rewrite Hf. by rewrite !bool_decide_true.
    - unfold content. cbn. by rewrite Hf. }
  mstep E. unfold on_engine. msimpl. rewrite IH. unfold loaded. cbn [zip_with].
  do 2 f_equal. cbn [sstables_ set_sstables]. by rewrite <- (assoc_L (++)).
Qed.

Lemma loaded_stores w names tables :
  Forall2 (on_disk w) names tables →
  Forall2 (stores w) (loaded names tables) tables ∧ filename_ <$> loaded names tables = names.
Proof.
  induction 1 as [|f data names tables [Hok Hr Hf Hc] _ [IH1 IH2]]; [done|].
  split; [constructor; [|done]|].
  - by split; [..|left].
  - cbn. by rewrite <- IH2 at 2.
Qed.

(** ** Opening *)

(** The log as [open] leaves it: the replay has read past its end. *)
Definition spent_log (path : string) (p : nat) : WAL :=
  MkWAL path (MkStream true p true true) false true 0.

Lemma wal_open_empty w path :
  path ∉ refused w → content path w = [] →
  ∃ w', wal_open (w, WAL_new path) =
      Returns (ROk tt) (w', MkWAL path (MkStream true 0 false false) false true 0) ∧
    content path w' = [] ∧ refused w' = refused w ∧ clock w' = clock w ∧
    ∀ p, p ≠ path → files w' !! p = files w !! p.
Proof.
  intros Hr Hc. unfold content in Hc.
  exists (if decide (is_Some (files w !! path)) then w else set_files (<[path := []]> (files w)) w).
  destruct (files w !! path) as [data|] eqn:Hf; cbn in Hc.
  - rewrite decide_True by done. subst data. split; [|split_and!; try done].
    + unfold wal_open. rewrite guarded_wal by done. msimpl. cbn [is_open_ set_wal_mutex WAL_new].
      unfold file_open_inout. msimpl. unfold file_is_open, open_inout.
      cbn [file_ snd fst set_file set_wal_mutex wal_file_ WAL_new fstream_new stream_open].
      rewrite decide_False, Hf by done.
      cbn [stream_open]. msimpl. cbn [negb stream_open file_ set_file]. msimpl. cbn [negb].
      unfold file_seekp_end, log_bytes, content, mbind, M_bind, unlock. cbn. by rewrite Hf.
    + unfold content. by rewrite Hf.
  - rewrite decide_False by (intros []; done). split; [|split_and!; try done].
    + unfold wal_open. rewrite guarded_wal by done. msimpl. cbn [is_open_ set_wal_mutex WAL_new].
      unfold file_open_inout. msimpl. unfold file_is_open, open_inout.
      cbn [file_ snd fst set_file set_wal_mutex wal_file_ WAL_new fstream_new stream_open].
      rewrite decide_False, Hf by done.
      msimpl. cbn [stream_open set_failed]. unfold file_open_out, lift, open_out.
      unfold mbind, M_bind. cbn. rewrite decide_False by done. cbn.
      rewrite decide_False by done. cbn.
      pose proof (lookup_insert_eq (files w) path []) as Hi. cbn in Hi. rewrite Hi. cbn.
      unfold log_bytes, content. cbn. by rewrite Hi.
    + apply content_insert.
    + intros p Hp. cbn. by rewrite lookup_insert_ne.
Qed.

Lemma recover_empty_log junk w e :
  wal_ e = MkWAL (wal_file_ (wal_ e)) (MkStream true 0 false false) false true 0 →
  content (wal_file_ (wal_ e)) w = [] →
  ∃ p, recover_from_wal junk (w, e) =
    Returns (ROk tt) (w, set_wal (spent_log (wal_file_ (wal_ e)) p) e).
Proof.
  intros Hl Hc. unfold recover_from_wal.
  destruct (replay_from_log 0 junk w (wal_ e) [] []) as [p E];
    [rewrite Hl; by split|constructor|done|cbn; lia|].
  exists p. assert (on_wal (replay_from 0 junk) (w, e) =
    Returns (ROk []) (w, set_wal (spent_log (wal_file_ (wal_ e)) p) e)) as E1.
  { unfold on_wal, zoom. cbn [fst snd]. rewrite E. cbn [recovered_log].
    unfold spent_log, clock_ticked. rewrite Nat.add_0_r, Hl. by destruct w as [? ? []]. }
  unfold mtry. by mstep E1.
Qed.

(** A new engine on a directory finds the tables that are there, and nothing
    else. *)
Lemma lsm_open_disk junk w e names tables :
  disk_ok (data_dir_ e) w names tables →
  engine_mutex_ e = false → engine_open_ e = false → sstables_ e = [] →
  wal_ e = WAL_new (data_dir_ e +:+ "/wal.log") →
  ∃ w' p, lsm_open junk (w, e) = Returns (ROk tt) (w',
      set_threads true false true (set_sstables (loaded names tables)
        (set_wal (spent_log (data_dir_ e +:+ "/wal.log") p) e))) ∧
    disk_ok (data_dir_ e) w' names tables ∧ clock w' = clock w.
Proof.
  intros Hd Hm Ho Ht Hw. unfold lsm_open. rewrite guarded_engine by done. msimpl.
  cbn [engine_open_ set_engine_mutex]. rewrite Ho.
  destruct (wal_open_empty w (data_dir_ e +:+ "/wal.log")) as (w' & E & Hc & Hr & Hclk & Hf);
    [apply Hd..|].
  pose proof (disk_ok_frame _ _ _ _ _ Hd Hr Hf Hc) as Hd'.
  set (e1 := set_engine_mutex true e). set (path := data_dir_ e +:+ "/wal.log") in *.
  set (l := MkWAL path (MkStream true 0 false false) false true 0).
  assert (on_wal wal_open (w, e1) = Returns (ROk tt) (w', set_wal l e1)) as E1.
  { unfold on_wal, zoom. cbn [fst snd]. change (wal_ e1) with (wal_ e). by rewrite Hw, E. }
  unfold mtry. mstep E1.
  destruct (recover_empty_log junk w' (set_wal l e1)) as [p E2]; [done|done|]. mstep E2.
  set (e2 := set_wal (spent_log _ p) _).
  assert (load_sstables (w', e2) = Returns (ROk tt) (w', set_sstables (loaded names tables) e2))
    as E3.
  { unfold load_sstables. msimpl. change (data_dir_ e2) with (data_dir_ e).
    rewrite (sstable_files_disk _ _ _ _ Hd').
    mstep (load_tables_disk names tables w' e2 (disk_tables _ _ _ _ Hd')).
    change (sstables_ e2) with (sstables_ e). by rewrite Ht. }
  mstep E3. exists w', p. split; [|by split].
  unfold on_engine. msimpl. unfold mret, M_ret. do 2 f_equal.
  destruct e; cbn in *. by subst.
Qed.
