(* ===== verification/LSMLayers.v ===== *)
(** * LSMLayers: what the storage engine promises

    The abstract specification of an engine over its calls, restarts and
    crashes: a stack of maps of which only the topmost changes.  A flush, and a
    restart, which flushes, put a new map on top; a crash empties the topmost. *)

From Stdlib Require Import Ascii String ZArith NArith Lia.
From stdpp Require Import base numbers list strings gmap.
From S2P Require Import Prelude Bytes OrdMap Types MemTable SSTable LSMTree LSMReads.

(** ** The stack *)

Abbreviation entry_map := (gmap MultiLevelKey DataEntry).

Record Layers := MkLayers { top : entry_map; below : list entry_map }.

Fixpoint first_found (k : MultiLevelKey) (ms : list entry_map) : option DataEntry :=
  match ms with
  | [] => None
  | m :: ms => match m !! k with Some e => Some e | None => first_found k ms end
  end.

Definition spec_get (k : MultiLevelKey) (l : Layers) : option DataEntry :=
  first_found k (top l :: below l).

(** Empty maps are left out below the topmost. *)
Definition spec_flush (l : Layers) : Layers :=
  MkLayers ∅ (if decide (top l = ∅) then below l else top l :: below l).
Definition within_sizes (k : MultiLevelKey) (e : DataEntry) : Prop :=
  (key_size k ≤ MAX_KEY_SIZE ∧ value_size e ≤ MAX_VALUE_SIZE)%N.
#[export] Instance within_sizes_dec k e : Decision (within_sizes k e).
Proof. unfold within_sizes. apply _. Defined.

Definition spec_put (k : MultiLevelKey) (e : DataEntry) (l : Layers) : Layers :=
  if decide (within_sizes k e)
  then MkLayers (if deleted e then delete k (top l) else <[k := e]> (top l)) (below l)
  else l.
(** Up to the first entry that is refused. *)
Fixpoint spec_multi_put (entries : kv_map) (l : Layers) : Layers :=
  match entries with
  | [] => l
  | (k, e) :: entries =>
      if decide (within_sizes k e) then spec_multi_put entries (spec_put k e l) else l
  end.
(** The entries of a range, each key with what [get] finds of it. *)
Definition spec_scan (query : RangeQuery) (l : Layers) (found : kv_map) : Prop :=
  omap_sorted key_ltb found = true ∧
  ∀ k, omap_find key_ltb k found = if decide (between_keys query k) then spec_get k l else None.
Definition spec_remove (k : MultiLevelKey) (l : Layers) : Layers :=
  MkLayers (delete k (top l)) (below l).
Definition spec_crash (l : Layers) : Layers := MkLayers ∅ (below l).

(** ** The calls *)

Inductive engine_call :=
  | CallGet (key : MultiLevelKey)
  | CallPut (key : MultiLevelKey) (entry : DataEntry)
  | CallRemove (key : MultiLevelKey)
  | CallMultiGet (keys : list MultiLevelKey)
  | CallMultiPut (entries : kv_map)
  | CallScan (query : RangeQuery)
  | CallFlush
  | BackgroundTurn
  | Restart
  | Crash.

Inductive reply :=
  | Found (r : Result DataEntry)
  | FoundMany (r : Result (list DataEntry))
  | Scanned (r : Result kv_map)
  | Done (r : Result unit).

(** What [multi_get] gives for a key that is not found. *)
Definition answers (l : Layers) (k : MultiLevelKey) (e : DataEntry) : Prop :=
  match spec_get k l with
  | Some found => e = found
  | None => ∃ now, e = DataEntry_default now
  end.

(** What a call answers and does, abstractly.  The background thread flushes
    when it finds the memtable large enough, which the specification leaves
    open. *)
Definition spec_call (call : engine_call) (r : reply) (l l' : Layers) : Prop :=
  match call with
  | CallGet k => r = Found (get_answer (spec_get k l)) ∧ l' = l
  | CallPut k e =>
      l' = spec_put k e l ∧ ∃ r', r = Done r' ∧
      is_ok r' = bool_decide (within_sizes k e)
  | CallMultiGet ks => l' = l ∧ ∃ es, r = FoundMany (ROk es) ∧ Forall2 (answers l) ks es
  | CallMultiPut es =>
      l' = spec_multi_put es l ∧ ∃ r', r = Done r' ∧
      is_ok r' = bool_decide (Forall (λ p, within_sizes p.1 p.2) es)
  | CallScan q =>
      l' = l ∧ ∃ found, r = Scanned (ROk (take (N.to_nat (limit q)) found)) ∧ spec_scan q l found
  | CallRemove k => r = Done (ROk tt) ∧ l' = spec_remove k l
  | CallFlush | Restart => r = Done (ROk tt) ∧ l' = spec_flush l
  | BackgroundTurn => r = Done (ROk tt) ∧ (l' = l ∨ l' = spec_flush l)
  | Crash => r = Done (ROk tt) ∧ l' = spec_crash l
  end.

Fixpoint spec_calls (calls : list engine_call) (rs : list reply) (l l' : Layers) : Prop :=
  match calls, rs with
  | [], [] => l' = l
  | call :: calls, r :: rs => ∃ l1, spec_call call r l l1 ∧ spec_calls calls rs l1 l'
  | _, _ => False
  end.
