(* ===== verification/LSMRuns.v ===== *)
(** * LSMRuns: the life of an engine, over restarts and crashes

    Every run of calls, turns of the background thread, restarts and crashes
    behaves like the stack of maps of [LSMLayers], as long as primary keys have no
    colon, the clock has moved on at every flush, the range of a scan is not
    inverted and its limit cuts no source short, and no compaction is due
    ([allowed] has the exact conditions). *)

From Stdlib Require Import Ascii String ZArith NArith Lia.
From stdpp Require Import base numbers list strings gmap pretty.
From S2P Require Import Prelude Bytes Numerals OrdMap Types Crc32c MemTable Files Wal SSTable.
From S2P Require Import LSMTree LSMReads LSMScans LSMRecovery LSMDisk LSMLayers.

Section runs.
Context (put_time : Z → string) (config : gmap string string) (junk : N).

(** A new process on the directory of the old engine. *)
Definition start_again : M EngSt (Result unit) := λ s,
  match LSMTreeEngine_new (data_dir_ s.2) config with
  | Some e => lsm_open junk (s.1, e)
  | None => Undefined Terminated
  end.

(** What happens between two calls is a call of its own, so that nothing
    happens while [close] joins the background thread. *)
Definition engine_do (call : engine_call) : M EngSt reply :=
  match call with
  | CallGet k => r ← lsm_get k; mret (Found r)
  | CallPut k e => r ← lsm_put k e; mret (Done r)
  | CallRemove k => r ← lsm_remove k; mret (Done r)
  | CallMultiGet ks => r ← lsm_multi_get ks; mret (FoundMany r)
  | CallMultiPut es => r ← lsm_multi_put es; mret (Done r)
  | CallScan q => r ← lsm_range_scan q; mret (Scanned r)
  | CallFlush => r ← lsm_flush put_time; mret (Done r)
  | BackgroundTurn => _ ← background_step put_time; mret (Done (ROk tt))
  | Restart => _ ← lsm_close put_time (mret tt); r ← start_again; mret (Done r)
  | Crash => r ← start_again; mret (Done r)
  end.

Fixpoint engine_run (calls : list engine_call) : M EngSt (list reply) :=
  match calls with
  | [] => mret []
  | call :: calls => r ← engine_do call; rs ← engine_run calls; mret (r :: rs)
  end.

(** ** When a call is covered *)

(** The memtable fits the 32-bit offsets of a table, and the clock has moved to
    a name that sorts behind those of the tables. *)
Definition can_flush (s : EngSt) : Prop :=
  memtable_size (memtable_ s.2) ≠ 0 →
  let name := sstable_name put_time (data_dir_ s.2) (tick (clock s.1)).1 in
  (N.of_nat (length (table_file (data_ (memtable_ s.2)))) < 2 ^ 32)%N ∧
  Forall (λ f, String.ltb f name = true) (filename_ <$> sstables_ s.2) ∧ name ∉ refused s.1.

#[export] Instance can_flush_dec s : Decision (can_flush s).
Proof. unfold can_flush. apply _. Defined.

(** What a table can hold and read back. *)
Definition storable (k : MultiLevelKey) (e : DataEntry) : Prop :=
  colon_free (primary_key k) ∧ (version e < 2 ^ 64)%N ∧ is_i64 (timestamp e).

#[export] Instance storable_dec k e : Decision (storable k e).
Proof. unfold storable, colon_free, is_i64. apply _. Defined.

(** The limit of a scan cuts no source short: neither the memtable nor a table,
    by the number of entries in the header of its file. *)
Definition entry_count (w : World) (path : string) : N :=
  le_decode (take 4 (drop 8 (content path w))).
Definition can_scan (q : RangeQuery) (s : EngSt) : Prop :=
  (limit q < 2 ^ 32)%N ∧ key_ltb (end_key q) (start_key q) = false ∧
  (N.of_nat (memtable_size (memtable_ s.2)) ≤ limit q)%N ∧
  Forall (λ f, entry_count s.1 f ≤ limit q)%N (filename_ <$> sstables_ s.2).

#[export] Instance can_scan_dec q s : Decision (can_scan q s).
Proof. unfold can_scan. apply _. Defined.

Definition allowed (call : engine_call) (s : EngSt) : Prop :=
  match call with
  | CallGet _ | CallMultiGet _ | Crash => True
  | CallPut k e => storable k e
  | CallMultiPut es => Forall (λ p, storable p.1 p.2) es
  | CallScan q => can_scan q s
  | CallRemove k => colon_free (primary_key k) ∧ (key_size k ≤ MAX_KEY_SIZE)%N
  | CallFlush | Restart => can_flush s
  | BackgroundTurn =>
      can_flush s ∧ (N.of_nat (length (sstables_ s.2)) < max_sstables_ s.2)%N
  end.

Fixpoint run_allowed (calls : list engine_call) (s : EngSt) : Prop :=
  match calls with
  | [] => True
  | call :: calls =>
      allowed call s ∧ ∀ r s1, engine_do call s = Returns r s1 → run_allowed calls s1
  end.
End runs.

(** ** The abstraction of a state *)

(** The entries of a map that are not tombstones. *)
Definition live_map (d : kv_map) : entry_map :=
  foldr (λ p m, if deleted p.2 then m else <[p.1 := p.2]> m) ∅ d.

Definition lower_layers (tables : list kv_map) : list entry_map :=
  filter (λ m, m ≠ ∅) (live_map <$> rev tables).

Definition layers_of (s : EngSt) (tables : list kv_map) : Layers :=
  MkLayers (live_map (data_ (memtable_ s.2))) (lower_layers tables).

Lemma live_map_lookup d k :
  omap_sorted key_ltb d = true →
  live_map d !! k =
    match omap_find key_ltb k d with
    | Some e => if deleted e then None else Some e
    | None => None
    end.
Proof.
  induction d as [|[k1 e1] d IH]; intros Hd; [apply lookup_empty|].
  apply omap_sorted_cons in Hd as [Ha Hd]. specialize (IH Hd).
  cbn [live_map foldr fst snd omap_find]. fold (live_map d).
  destruct (decide (k = k1)) as [->|Hne].
  - rewrite ltb_irrefl, omap_find_above in * by done.
    destruct (deleted e1); [done|]. by rewrite lookup_insert_eq.
  - assert ((if deleted e1 then live_map d else <[k1:=e1]> (live_map d)) !! k = live_map d !! k)
      as ->.
    { destruct (deleted e1); [done|]. by rewrite lookup_insert_ne. }
    rewrite IH. destruct (key_ltb k k1) eqn:E1; [|destruct (key_ltb k1 k) eqn:E2; [done|]].
    + rewrite omap_find_above; [done|]. intros p Hp. by apply (ltb_trans k k1), Ha.
    + by destruct Hne; apply ltb_total.
Qed.

Lemma first_found_nonempty k ms :
  first_found k (filter (λ m, m ≠ ∅) ms) = first_found k ms.
Proof.
  induction ms as [|m ms IH]; [done|]. rewrite filter_cons. cbn [first_found].
  destruct (decide (m ≠ ∅)) as [Hm|Hm]; cbn [first_found]; rewrite IH; [done|].
  apply dec_stable in Hm. by rewrite Hm, lookup_empty.
Qed.

Lemma first_found_live k ds :
  Forall (λ d, omap_sorted key_ltb d = true) ds →
  first_found k (live_map <$> ds) = first_live k ds.
Proof.
  induction 1 as [|d ds Hd _ IH]; [done|]. cbn [fmap list_fmap first_found first_live].
  rewrite live_map_lookup, IH by done.
  destruct (omap_find key_ltb k d) as [e|]; [|done]. by destruct (deleted e).
Qed.

Lemma spec_get_layers k s tables :
  engine_ok s tables → immutable_memtable_ s.2 = None →
  spec_get k (layers_of s tables) = first_live k (sources s.2 tables).
Proof.
  intros Hok Hi. unfold spec_get, layers_of, sources, lower_layers. rewrite Hi. cbn [app below top].
  cbn [first_found]. rewrite first_found_nonempty.
  change (first_found k (live_map <$> (data_ (memtable_ s.2) :: option_list (data_ <$> None)
    ++ rev tables)) = first_live k (data_ (memtable_ s.2) :: rev tables)).
  apply first_found_live. constructor; [apply (eng_memtable _ _ Hok)|].
  apply Forall_forall. intros d Hd. apply list_elem_of_In, in_rev, list_elem_of_In in Hd.
  apply list_elem_of_lookup_1 in Hd as [i Hi'].
  destruct (Forall2_lookup_r _ _ _ _ _ (eng_tables _ _ Hok) Hi') as (t & _ & Hst).
  apply (table_sorted _ (stores_ok _ _ _ Hst)).
Qed.

Lemma lower_layers_snoc tables d :
  lower_layers (tables ++ [d]) =
    if decide (live_map d = ∅) then lower_layers tables else live_map d :: lower_layers tables.
Proof.
  unfold lower_layers. rewrite rev_unit. cbn [fmap list_fmap]. rewrite filter_cons.
  repeat case_decide; done.
Qed.

(** The writes on the memtable are those of the specification. *)
Lemma live_map_put k e mt :
  memtable_inv mt →
  MkLayers (live_map (data_ (memtable_put k e mt).2)) [] =
  spec_put k e (MkLayers (live_map (data_ mt)) []).
Proof.
  intros Hinv. unfold spec_put. cbn [top below].
  destruct (memtable_put_cases k e mt) as [[H ?]|[[H ?]|(H & ? & ? & Hd)]].
  - rewrite H, decide_False by (unfold within_sizes; lia). done.
  - rewrite H, decide_False by (unfold within_sizes; lia). done.
  - rewrite decide_True by done. f_equal. apply map_eq. intros k'.
    rewrite live_map_lookup by (by apply memtable_put_inv).
    pose proof (memtable_view_put k e mt k' Hinv H) as Hv. unfold memtable_view in Hv. rewrite Hv.
    destruct (decide (k' = k)) as [->|Hne].
    + destruct (deleted e); by rewrite ?lookup_delete_eq, ?lookup_insert_eq.
    + destruct (deleted e); rewrite ?lookup_delete_ne, ?lookup_insert_ne by done;
        by rewrite live_map_lookup by apply Hinv.
Qed.

Lemma live_map_remove now k mt :
  memtable_inv mt →
  live_map (data_ (memtable_remove now k mt).2) = delete k (live_map (data_ mt)).
Proof.
  intros Hinv. apply map_eq. intros k'.
  rewrite live_map_lookup by (by apply memtable_remove_inv).
  pose proof (memtable_view_remove now k mt k' Hinv) as Hv. unfold memtable_view in Hv. rewrite Hv.
  destruct (decide (k' = k)) as [->|Hne]; [by rewrite lookup_delete_eq|].
  rewrite lookup_delete_ne by done. by rewrite live_map_lookup by apply Hinv.
Qed.

(** ** The invariant of a running engine *)

Record writable (p : kv) : Prop := {
  writable_fits : entry_fits p;
  writable_colon_free : colon_free (primary_key p.1)
}.

(** The engine is open, its tables are those of its directory, and the log,
    whose stream the replay spent, is empty. *)
Record alive (s : EngSt) (tables : list kv_map) : Prop := {
  al_ok : engine_ok s tables;
  al_open : engine_open_ s.2 = true;
  al_immutable : immutable_memtable_ s.2 = None;
  al_lost : good (file_ (wal_ s.2)) = false;
  al_wal_file : wal_file_ (wal_ s.2) = data_dir_ s.2 +:+ "/wal.log";
  al_disk : disk_ok (data_dir_ s.2) s.1 (filename_ <$> sstables_ s.2) tables;
  al_entries : Forall writable (data_ (memtable_ s.2));
  al_clock : ∀ n, is_i64 (reading (clock s.1) n)
}.

(** A state implements a stack of maps. *)
Definition refines (s : EngSt) (l : Layers) : Prop :=
  ∃ tables, alive s tables ∧ l = layers_of s tables.

Lemma disk_ok_same dir w w' names tables :
  disk_ok dir w names tables → files w' = files w → refused w' = refused w →
  disk_ok dir w' names tables.
Proof.
  intros Hd Hf Hr. apply (disk_ok_frame _ w); [done|done| |].
  - intros p _. by rewrite Hf.
  - pose proof (disk_log _ _ _ _ Hd) as H. unfold content in *. by rewrite Hf.
Qed.

(** Reads change no more than the indexes in memory. *)
Lemma same_data_refines s s' tables :
  alive s tables → same_data s s' → engine_ok s' tables → refines s' (layers_of s tables).
Proof.
  intros [Hok Ho Hi Hlost Hwf Hd He Hc] Hs Hok'. exists tables.
  destruct Hs as [[Hf Hr] Hm Him Hn Hw Hop (Hdir & _ & Hclk)].
  split; [|unfold layers_of; by rewrite Hm].
  split; rewrite ?Hop, ?Him, ?Hw, ?Hdir, ?Hm, ?Hn, ?Hclk; auto.
  by apply (disk_ok_same _ s.1).
Qed.

Lemma get_refines k s l :
  refines s l →
  ∃ s', lsm_get k s = Returns (get_answer (spec_get k l)) s' ∧ refines s' l.
Proof.
  intros (tables & Ha & ->). pose proof Ha as [Hok Ho Hi _ _ _ _ _].
  destruct (lsm_get_first_live k s tables Hok Ho) as (s' & E & Hs & Hok').
  exists s'. rewrite spec_get_layers by done. split; [done|]. by apply same_data_refines.
Qed.

(** A reading of the clock changes nothing else. *)
Lemma tick_refines s l :
  refines s l → ∃ now s', eng_now s = Returns now s' ∧ refines s' l.
Proof.
  destruct s as [w e]. intros (tables & [[? ? ? Ht ? ?] ? ? ? ? Hd ? Hc] & ->).
  eexists _, (set_clock (tick (clock w)).2 w, e). split; [done|]. exists tables.
  split; [|done]. split; cbn [fst snd] in *; try done.
  - split; cbn [fst snd]; try done. eapply Forall2_impl; [exact Ht|].
    intros t data Hst. by apply (stores_frame w).
  - by apply (disk_ok_same _ w).
Qed.

Lemma multi_get_loop_refines ks acc s l :
  refines s l →
  ∃ es s', lsm_multi_get_loop ks acc s = Returns (acc ++ es) s' ∧
    Forall2 (answers l) ks es ∧ refines s' l.
Proof.
  revert acc s. induction ks as [|k ks IH]; intros acc s Hr; cbn [lsm_multi_get_loop].
  { exists [], s. rewrite app_nil_r. done. }
  destruct (get_refines k s l Hr) as (s1 & E & Hr1). mstep E.
  destruct (spec_get k l) as [e|] eqn:Ek; cbn [get_answer].
  - destruct (IH (acc ++ [e]) s1 Hr1) as (es & s2 & E2 & Hes & Hr2).
    exists (e :: es), s2. rewrite E2, <- (assoc_L (++)). split; [done|]. split; [|done].
    constructor; [|done]. unfold answers. by rewrite Ek.
  - destruct (tick_refines s1 l Hr1) as (now & s2 & E2 & Hr2). mstep E2.
    destruct (IH (acc ++ [DataEntry_default now]) s2 Hr2) as (es & s3 & E3 & Hes & Hr3).
    exists (DataEntry_default now :: es), s3. rewrite E3, <- (assoc_L (++)). split; [done|].
    split; [|done]. constructor; [|done]. unfold answers. rewrite Ek. by exists now.
Qed.

Lemma multi_get_refines ks s l :
  refines s l →
  ∃ es s', lsm_multi_get ks s = Returns (ROk es) s' ∧ Forall2 (answers l) ks es ∧ refines s' l.
Proof.
  intros Hr. destruct (multi_get_loop_refines ks [] s l Hr) as (es & s' & E & Hes & Hr').
  exists es, s'. unfold lsm_multi_get. mstep E. done.
Qed.

(** The number in the header of a table is that of its entries. *)
Lemma entry_count_stores w t data :
  stores w t data → entry_count w (filename_ t) = N.of_nat (length data).
Proof.
  intros Hst. unfold entry_count. rewrite (proj2 (stores_file_readable _ _ _ Hst)).
  pose proof (table_small _ (stores_ok _ _ _ Hst)) as Hsmall.
  assert (N.of_nat (length data) < 2 ^ 32)%N as Hlen.
  { unfold table_file in Hsmall. rewrite !length_app in Hsmall.
    pose proof (length_data_region data). lia. }
  unfold table_file, header_bytes. rewrite <- !(assoc_L (++)).
  rewrite drop_app_ge by (rewrite length_le_encode; lia).
  rewrite drop_app_ge by (rewrite !length_le_encode; lia).
  rewrite !length_le_encode. cbn [Nat.sub]. rewrite drop_0.
  rewrite take_app_length' by (by rewrite length_le_encode).
  by rewrite le_decode_encode4, !wrap32_small by (rewrite ?wrap32_small; done).
Qed.

Lemma scan_refines q s l :
  refines s l → can_scan q s →
  ∃ found s', lsm_range_scan q s = Returns (ROk (take (N.to_nat (limit q)) found)) s' ∧
    spec_scan q l found ∧ refines s' l.
Proof.
  intros (tables & Ha & ->) (Hlim & Hle & Hmem & Htab). pose proof Ha as [Hok Ho Hi _ _ _ _ _].
  assert (∀ d : kv_map, (N.of_nat (length d) ≤ limit q)%N → within_limit q d) as Hw.
  { intros d Hd. unfold within_limit. pose proof (length_filter (λ p, between_keys q p.1) d). lia. }
  destruct (lsm_range_scan_spec q s tables Hok Ho Hlim Hle) as (found & s' & E & Hs & Hf & Hsame & Hok').
  { unfold sources. rewrite Hi. constructor; [by apply Hw|]. cbn. apply Forall_forall.
    intros d Hd. apply list_elem_of_In, in_rev, list_elem_of_In, list_elem_of_lookup_1 in Hd as [i Hd].
    destruct (Forall2_lookup_r _ _ _ _ _ (eng_tables _ _ Hok) Hd) as (t & Ht & Hst).
    apply Hw. rewrite <- (entry_count_stores _ _ _ Hst). rewrite Forall_fmap in Htab.
    by eapply Forall_lookup_1 in Htab. }
  exists found, s'. split; [done|]. split; [|by apply same_data_refines].
  split; [done|]. intros k. rewrite Hf. case_decide; [|done]. by rewrite spec_get_layers.
Qed.

Lemma written_alive s s' mt tables :
  alive s tables → written s s' mt → engine_ok s' tables → Forall writable (data_ mt) →
  alive s' tables.
Proof.
  intros [Hok Ho Hi Hlost Hwf Hd He Hc] [Hm Him Ht Hop _ (Hdir & Hwf' & _ & Hr & Hclk) Hl] Hok' He'.
  destruct (Hl Hlost) as [Hlost' Hf].
  split; rewrite ?Hop, ?Him, ?Hdir, ?Hm, ?Ht, ?Hwf'; auto.
  - by apply (disk_ok_same _ s.1).
  - intros n. destruct Hclk as [-> _]. apply Hc.
Qed.

Lemma omap_insert_Forall (P : kv → Prop) k e (d : kv_map) :
  omap_sorted key_ltb d = true → P (k, e) → Forall P d → Forall P (omap_insert key_ltb k e d).
Proof.
  intros Hs Hp Hd. rewrite Forall_forall in *. intros [k' e'] Hin.
  apply omap_find_elem in Hin; [|by apply omap_insert_sorted].
  destruct (decide (k' = k)) as [->|Hne].
  - rewrite omap_find_insert_eq in Hin by done. by simplify_eq.
  - rewrite omap_find_insert_ne in Hin by done. by apply Hd, omap_find_elem.
Qed.

Lemma limits_fit (k : MultiLevelKey) (e : DataEntry) :
  (key_size k ≤ MAX_KEY_SIZE)%N → (value_size e ≤ MAX_VALUE_SIZE)%N →
  (version e < 2 ^ 64)%N → is_i64 (timestamp e) → entry_fits (k, e).
Proof.
  unfold key_size, value_size, MAX_KEY_SIZE, MAX_VALUE_SIZE. intros. split; cbn [fst snd]; lia || done.
Qed.

Lemma put_refines k e s l :
  refines s l → storable k e →
  ∃ r s', lsm_put k e s = Returns r s' ∧ refines s' (spec_put k e l) ∧
    is_ok r = bool_decide (within_sizes k e).
Proof.
  intros (tables & Ha & ->) (Hcolon & Hver & Hts). pose proof Ha as [Hok Ho _ _ _ _ He _].
  pose proof (eng_memtable _ _ Hok) as Hinv.
  destruct (lsm_put_written k e s tables Hok Ho) as (s' & E & Hw & Hok').
  do 2 eexists. split; [exact E|]. split.
  - exists tables. split.
    + apply (written_alive _ _ _ _ Ha Hw Hok').
      destruct (memtable_put_cases k e (memtable_ s.2)) as [[-> _]|[[-> _]|(_ & ? & ? & ->)]];
        [done..|].
      apply omap_insert_Forall; [apply Hinv| |done]. by split; [apply limits_fit|].
    + pose proof (live_map_put k e (memtable_ s.2) Hinv) as H. unfold layers_of.
      rewrite (written_memtable _ _ _ Hw). unfold spec_put in *. cbn [top below] in *.
      case_decide; by injection H as ->.
  - destruct (memtable_put_cases k e (memtable_ s.2)) as [[H ?]|[[H ?]|(H & ? & ? & _)]].
    + rewrite H, bool_decide_false by (unfold within_sizes; lia). done.
    + rewrite H, bool_decide_false by (unfold within_sizes; lia). done.
    + by rewrite bool_decide_true.
Qed.

Lemma multi_put_refines es s l :
  refines s l → Forall (λ p, storable p.1 p.2) es →
  ∃ r s', lsm_multi_put es s = Returns r s' ∧ refines s' (spec_multi_put es l) ∧
    is_ok r = bool_decide (Forall (λ p, within_sizes p.1 p.2) es).
Proof.
  intros Hr Hes. revert s l Hr.
  induction Hes as [|[k e] es Hk _ IH]; intros s l Hr; cbn [lsm_multi_put spec_multi_put].
  { exists (ROk tt), s. done. }
  destruct (put_refines k e s l Hr Hk) as (r & s1 & E & Hr1 & Hok). unfold mtry. mstep E.
  case_decide as Hk'.
  - rewrite bool_decide_true in Hok by done. destruct r as [[]|]; [|done].
    destruct (IH s1 _ Hr1) as (r & s2 & E2 & Hr2 & Hok2). exists r, s2. split; [done|].
    split; [done|]. rewrite Hok2. apply bool_decide_ext. rewrite Forall_cons. cbn. tauto.
  - rewrite bool_decide_false in Hok by done. destruct r as [|st msg]; [done|].
    exists (RErr st msg), s1. unfold spec_put in Hr1. rewrite decide_False in Hr1 by done.
    split; [done|]. split; [done|]. rewrite bool_decide_false by (by intros [? _]%Forall_cons). done.
Qed.

Lemma ms_of_ns_i64 n : is_i64 n → is_i64 (ms_of_ns n).
Proof. unfold is_i64, ms_of_ns, ns_per_ms. intros. Z.to_euclidean_division_equations. lia. Qed.

Lemma remove_refines k s l :
  refines s l → colon_free (primary_key k) → (key_size k ≤ MAX_KEY_SIZE)%N →
  ∃ s', lsm_remove k s = Returns (ROk tt) s' ∧ refines s' (spec_remove k l).
Proof.
  intros (tables & Ha & ->) Hcolon Hk. pose proof Ha as [Hok Ho _ _ _ _ He Hc].
  pose proof (eng_memtable _ _ Hok) as Hinv.
  destruct (lsm_remove_written k s tables Hok Ho) as (n & s' & E & Hw & Hok').
  exists s'. split; [exact E|]. exists tables. split.
  - apply (written_alive _ _ _ _ Ha Hw Hok'). unfold memtable_remove.
    pose proof (Hc n) as Hn. destruct (omap_find key_ltb k (data_ (memtable_ s.2))) as [e|] eqn:Ek;
      (apply omap_insert_Forall; [apply Hinv| |done]).
    + apply omap_find_elem in Ek; [|apply Hinv]. rewrite Forall_forall in He.
      destruct (He _ Ek) as [[] ?]. split; [|done]. split; try done. by apply ms_of_ns_i64.
    + split; [|done]. apply limits_fit; [done|by vm_compute|done|by apply ms_of_ns_i64].
  - unfold layers_of, spec_remove. rewrite (written_memtable _ _ _ Hw). cbn [top below].
    by rewrite live_map_remove.
Qed.

(** ** Flushes *)

Section flushes.
Context (put_time : Z → string) (Hput_time : ∀ z, SLASH ∉ bytes_of (put_time z)).

Lemma flush_ready s tables :
  alive s tables → can_flush put_time s → memtable_size (memtable_ s.2) ≠ 0 →
  table_ok (data_ (memtable_ s.2)) ∧ fresh_name put_time s.
Proof.
  intros [Hok _ _ _ Hwf Hd He _] Hf Hne. destruct (Hf Hne) as (Hsmall & Habove & Hr).
  rewrite Forall_forall in Habove. split.
  - split; [apply (inv_sorted _ (eng_memtable _ _ Hok))| |done|].
    + eapply Forall_impl; [exact He|]. by intros p [].
    + intros Hnil. apply Hne. unfold memtable_size. by rewrite Hnil.
  - split; [|rewrite Hwf|done].
    + intros Hin%Habove. by rewrite ltb_irrefl in Hin.
    + intros E. pose proof (sstable_name_is_table put_time Hput_time (data_dir_ s.2)
        (tick (clock s.1)).1) as H. by rewrite E, wal_name_not_table in H.
Qed.

Lemma flush_disk w w' dir names tables now data :
  disk_ok dir w names tables → table_ok data → Forall writable data →
  let name := sstable_name put_time dir now in
  (∀ f, f ∈ names → String.ltb f name = true) → name ∉ refused w →
  refused w' = refused w → files w' = <[name := table_file data]> (files w) →
  disk_ok dir w' (names ++ [name]) (tables ++ [data]).
Proof.
  intros Hd Hok He name Habove Hr Hr' Hf.
  pose proof (sstable_name_is_table put_time Hput_time dir now) as Htab. fold name in Htab.
  assert (name ≠ dir +:+ "/wal.log") as Hwal.
  { intros E. by rewrite E, wal_name_not_table in Htab. }
  destruct Hd as [Ha Hn Ht Ho Hl Hla]. split.
  - by apply ascending_snoc.
  - apply Forall_app. split; [done|]. by constructor.
  - apply Forall2_app.
    + apply (all_on_disk_frame w); [done|done|]. intros f Hin. rewrite Hf.
      apply lookup_insert_ne. intros <-. apply Habove in Hin. by rewrite ltb_irrefl in Hin.
    + constructor; [|done]. split; [done|by rewrite Hr'|rewrite Hf; apply lookup_insert_eq|].
      eapply Forall_impl; [exact He|]. by intros p [].
  - intros p. rewrite Hf, elem_of_app, list_elem_of_singleton.
    destruct (decide (p = name)) as [->|Hp]; [by right|].
    rewrite lookup_insert_ne by done. intros ??. left. by apply Ho.
  - unfold content in *. by rewrite Hf, lookup_insert_ne.
  - by rewrite Hr'.
Qed.

Lemma spec_flush_empty l : top l = ∅ → spec_flush l = l.
Proof. unfold spec_flush. destruct l; cbn. intros ->. by rewrite decide_True. Qed.

Lemma flush_alive w e tables :
  alive (w, set_engine_mutex false e) tables → can_flush put_time (w, e) →
  ∃ w' e' tables', flush_memtable put_time (w, e) = Returns (ROk tt) (w', e') ∧
    alive (w', set_engine_mutex false e') tables' ∧
    layers_of (w', e') tables' = spec_flush (layers_of (w, e) tables) ∧
    engine_mutex_ e' = engine_mutex_ e ∧ max_sstables_ e' = max_sstables_ e ∧
    length (sstables_ e') ≤ S (length (sstables_ e)).
Proof.
  intros Ha Hcf. destruct (decide (memtable_size (memtable_ e) = 0)) as [Hz|Hne].
  { exists w, e, tables. unfold flush_memtable. msimpl. rewrite bool_decide_true by done.
    split; [done|]. split; [done|]. split; [|by split_and!; try lia].
    symmetry. apply spec_flush_empty. cbn. by apply nil_length_inv in Hz as ->. }
  destruct (flush_ready _ _ Ha Hcf Hne) as [Htab Hfresh].
  destruct (Hcf Hne) as (_ & Habove & Hr). rewrite Forall_forall in Habove. destruct Ha as [Hok Ho Hi Hlost Hwf Hd He Hc].
  cbn [fst snd] in *. pose proof (eng_wal _ _ Hok) as [_ Hwo].
  destruct (flush_memtable_ok put_time w e tables Hok) as
    (w' & l' & E & Hok' & Hm' & Ho' & Hwf' & Hr' & Hclk & Hl);
    [by rewrite <- Ho|done|done|by destruct Hfresh|].
  destruct (Hl Hlost) as [Hlost' Hfiles]. do 3 eexists. split; [exact E|].
  split; [split|split]; try done.
  - cbn in Hwf |- *. congruence.
  - cbn. rewrite fmap_app. by eapply flush_disk.
  - intros n. cbn. destruct Hclk as [-> _]. apply Hc.
  - unfold layers_of, spec_flush. cbn [snd memtable_ set_wal set_sstables set_memtable top below].
    by rewrite lower_layers_snoc.
  - cbn. rewrite length_app. cbn. split_and!; try done. lia.
Qed.

Lemma flush_refines s l :
  refines s l → can_flush put_time s →
  ∃ s', lsm_flush put_time s = Returns (ROk tt) s' ∧ refines s' (spec_flush l).
Proof.
  destruct s as [w e]. intros (tables & Ha & ->) Hcf. pose proof (eng_unlocked _ _ (al_ok _ _ Ha)) as Hm.
  pose proof (al_open _ _ Ha) as Ho. cbn [fst snd] in *.
  unfold lsm_flush. rewrite guarded_engine, when_open_step by done.
  destruct (flush_alive w (set_engine_mutex true e) tables) as (w' & e' & tables' & E & Ha' & Hl & _);
    [|done|].
  { change (set_engine_mutex false (set_engine_mutex true e)) with (set_engine_mutex false e).
    by rewrite set_engine_mutex_id. }
  pose proof (eng_wal _ _ (al_ok _ _ Ha')) as [Hwm Hwo].
  unfold mtry. mstep E. rewrite on_wal_sync; [|done|exact (eq_trans Hwo (al_open _ _ Ha'))].
  eexists. split; [reflexivity|]. exists tables'. split; [done|]. exact (eq_sym Hl).
Qed.

Lemma turn_refines s l :
  refines s l → can_flush put_time s →
  (N.of_nat (length (sstables_ s.2)) < max_sstables_ s.2)%N →
  ∃ s' l', background_step put_time s = Returns tt s' ∧ refines s' l' ∧
    (l' = l ∨ l' = spec_flush l).
Proof.
  destruct s as [w e]. intros (tables & Ha & ->) Hcf Hmax.
  pose proof (eng_unlocked _ _ (al_ok _ _ Ha)) as Hm. cbn [fst snd] in *.
  unfold background_step. rewrite guarded_engine by done. msimpl.
  cbn [memtable_ set_engine_mutex].
  assert (set_engine_mutex false (set_engine_mutex true e) = e) as He
    by exact (set_engine_mutex_id false e Hm).
  assert (∃ r w' e' tables', (if should_flush (memtable_ e) then flush_memtable put_time
        else mret (ROk tt)) (w, set_engine_mutex true e) = Returns r (w', e') ∧
      alive (w', set_engine_mutex false e') tables' ∧
      (layers_of (w', e') tables' = layers_of (w, e) tables ∨
       layers_of (w', e') tables' = spec_flush (layers_of (w, e) tables)) ∧
      need_compaction e' = false) as (r & w' & e' & tables' & E & Ha' & Hl & Hn).
  { destruct (should_flush _).
    - destruct (flush_alive w (set_engine_mutex true e) tables)
        as (w' & e' & tables' & E & Ha' & Hl & _ & Hmx & Hlen); [by rewrite He|done|].
      exists (ROk tt), w', e', tables'. split; [done|]. split; [done|]. split; [by right|].
      apply N.ltb_ge. cbn in *. lia.
    - exists (ROk tt), w, (set_engine_mutex true e), tables. split; [done|].
      split; [by rewrite He|]. split; [by left|]. apply N.ltb_ge. cbn in *. lia. }
  mstep E. msimpl. rewrite Hn. msimpl.
  do 2 eexists. split; [reflexivity|]. split; [exists tables'; split; [done|reflexivity]|].
  exact Hl.
Qed.

(** ** Restarts and crashes *)

Context (config : gmap string string) (junk : N).
Context (Hconfig : ∀ dir, is_Some (LSMTreeEngine_new dir config)).

Lemma engine_new_fields dir e :
  LSMTreeEngine_new dir config = Some e →
  data_dir_ e = dir ∧ memtable_ e = MemTable_new ∧ immutable_memtable_ e = None ∧
  sstables_ e = [] ∧ wal_ e = WAL_new (dir +:+ "/wal.log") ∧ engine_mutex_ e = false ∧
  engine_open_ e = false.
Proof.
  unfold LSMTreeEngine_new. intros (limit & _ & H)%bind_Some.
  apply bind_Some in H as (max & _ & H). by injection H as <-.
Qed.

(** A new process finds what is in the directory. *)
Lemma start_again_refines w e names tables :
  disk_ok (data_dir_ e) w names tables → (∀ n, is_i64 (reading (clock w) n)) →
  ∃ s', start_again config junk (w, e) = Returns (ROk tt) s' ∧
    refines s' (MkLayers ∅ (lower_layers tables)).
Proof.
  intros Hd Hc. unfold start_again. cbn [fst snd].
  destruct (Hconfig (data_dir_ e)) as [e' He']. rewrite He'.
  apply engine_new_fields in He' as (Hdir & Hmt & Him & Ht & Hw & Hm & Ho).
  destruct (lsm_open_disk junk w e' names tables) as (w' & p & E & Hd' & Hclk);
    [by rewrite Hdir|done|done|done|by rewrite Hdir|].
  rewrite Hdir in E, Hd'. eexists. split; [exact E|]. exists tables.
  destruct (loaded_stores _ _ _ (disk_tables _ _ _ _ Hd')) as [Hst Hn]. split.
  - split; cbn; rewrite ?Hdir, ?Hmt, ?Hn; try done; [|by rewrite Hclk].
    split; cbn; rewrite ?Him, ?Hmt, ?Hn; try done. by eapply disk_wal_fresh.
  - unfold layers_of. cbn. by rewrite Hmt.
Qed.

Lemma crash_refines s l :
  refines s l → ∃ s', start_again config junk s = Returns (ROk tt) s' ∧ refines s' (spec_crash l).
Proof.
  destruct s as [w e]. intros (tables & Ha & ->).
  destruct (start_again_refines w e _ tables (al_disk _ _ Ha) (al_clock _ _ Ha)) as (s' & E & H).
  by exists s'.
Qed.

Lemma wal_close_returns w l :
  wal_mutex_ l = false → is_open_ l = true →
  ∃ l', wal_close (w, l) = Returns (ROk tt) (w, l').
Proof.
  intros Hm Ho. unfold wal_close. rewrite guarded_wal by done. msimpl.
  cbn [is_open_ set_wal_mutex]. rewrite Ho. cbn [negb]. msimpl.
  destruct (file_is_open _); unfold on_file; msimpl; eauto.
Qed.

(** [close] flushes; the directory it leaves has one table more. *)
Lemma close_refines s l :
  refines s l → can_flush put_time s →
  ∃ s' tables, lsm_close put_time (mret tt) s = Returns (ROk tt) s' ∧
    disk_ok (data_dir_ s'.2) s'.1 (filename_ <$> sstables_ s'.2) tables ∧
    (∀ n, is_i64 (reading (clock s'.1) n)) ∧
    MkLayers ∅ (lower_layers tables) = spec_flush l.
Proof.
  destruct s as [w e]. intros (tables & Ha & ->) Hcf.
  pose proof (eng_unlocked _ _ (al_ok _ _ Ha)) as Hm. pose proof (al_open _ _ Ha) as Ho.
  cbn [fst snd] in *. unfold lsm_close.
  set (e1 := set_threads (background_thread_ e) true (engine_open_ e) e).
  set (e2 := set_threads false (stop_background_ e1) (engine_open_ e1) e1).
  assert (guarded (opened ← gets (λ s : EngSt, engine_open_ s.2);
    if negb opened then mret false else
    _ ← on_engine (λ e, set_threads (background_thread_ e) true (engine_open_ e) e);
    mret true) (w, e) = Returns true (w, e1)) as E1.
  { rewrite guarded_engine by done. msimpl. cbn [engine_open_ set_engine_mutex]. rewrite Ho.
    unfold e1. destruct e; cbn in *. by subst. }
  mstep E1. cbn [negb]. unfold on_engine. msimpl. msimpl. fold e2.
  rewrite guarded_engine by done. msimpl. cbn [memtable_ set_engine_mutex].
  assert (alive (w, set_engine_mutex false (set_engine_mutex true e2)) tables) as Ha2.
  { destruct Ha as [[] ? ? ? ? ? ? ?]. by split; [split|..]. }
  assert (∃ r w' e' tables', (if bool_decide (0 < memtable_size (memtable_ e2))
      then flush_memtable put_time else mret (ROk tt)) (w, set_engine_mutex true e2) =
        Returns r (w', e') ∧ alive (w', set_engine_mutex false e') tables' ∧
      layers_of (w', e') tables' = spec_flush (layers_of (w, e) tables))
    as (r & w' & e' & tables' & E2 & Ha' & Hl).
  { case_bool_decide as Hz.
    - destruct (flush_alive w (set_engine_mutex true e2) tables Ha2)
        as (w' & e' & tables' & E & Ha' & Hl & _); [done|].
      by exists (ROk tt), w', e', tables'.
    - exists (ROk tt), w, (set_engine_mutex true e2), tables. split; [done|]. split; [done|].
      symmetry. apply spec_flush_empty. cbn. change (memtable_ e2) with (memtable_ e) in Hz.
      assert (memtable_size (memtable_ e) = 0) as H0 by lia.
      by apply nil_length_inv in H0 as ->. }
  mstep E2. pose proof (eng_wal _ _ (al_ok _ _ Ha')) as [Hwm Hwo].
  destruct (wal_close_returns w' (wal_ e')) as [l' E3];
    [done|exact (eq_trans Hwo (al_open _ _ Ha'))|].
  assert (on_wal wal_close (w', e') = Returns (ROk tt) (w', set_wal l' e')) as E4
    by (unfold on_wal, zoom; cbn [fst snd]; by rewrite E3).
  mstep E4. msimpl. eexists _, tables'. split; [reflexivity|].
  split; [exact (al_disk _ _ Ha')|]. split; [exact (al_clock _ _ Ha')|].
  apply (f_equal below) in Hl. cbn [layers_of below] in Hl. rewrite Hl. reflexivity.
Qed.

Lemma restart_refines s l :
  refines s l → can_flush put_time s →
  ∃ s', (_ ← lsm_close put_time (mret tt); start_again config junk) s = Returns (ROk tt) s' ∧
    refines s' (spec_flush l).
Proof.
  intros Hr Hcf. destruct (close_refines s l Hr Hcf) as ([w e] & tables & E & Hd & Hc & Hl).
  mstep E. rewrite <- Hl. by eapply start_again_refines.
Qed.

(** ** The runs *)

Lemma call_refines call s l :
  refines s l → allowed put_time call s →
  ∃ r s' l', engine_do put_time config junk call s = Returns r s' ∧
    spec_call call r l l' ∧ refines s' l'.
Proof.
  intros Hr Hal.
  destruct call as [k|k e|k|ks|es|q| | | |]; cbn [engine_do allowed spec_call] in *.
  - destruct (get_refines k s l Hr) as (s' & E & H). mstep E. eexists _, s', l. eauto.
  - destruct (put_refines k e s l Hr Hal) as (r & s' & E & Hs & Hok).
    mstep E. exists (Done r), s'. eauto 8.
  - destruct Hal. destruct (remove_refines k s l Hr) as (s' & E & Hs); [done..|].
    mstep E. eexists _, s', _. eauto.
  - destruct (multi_get_refines ks s l Hr) as (es & s' & E & Hes & Hs).
    mstep E. exists (FoundMany (ROk es)), s'. eauto 8.
  - destruct (multi_put_refines es s l Hr Hal) as (r & s' & E & Hs & Hok).
    mstep E. exists (Done r), s'. eauto 8.
  - destruct (scan_refines q s l Hr Hal) as (found & s' & E & Hf & Hs).
    mstep E. exists (Scanned (ROk (take (N.to_nat (limit q)) found))), s'. eauto 8.
  - destruct (flush_refines s l Hr Hal) as (s' & E & H). mstep E. eexists _, s', _. eauto.
  - destruct Hal as [Hcf Hmax].
    destruct (turn_refines s l Hr Hcf Hmax) as (s' & l' & E & H & Hl).
    mstep E. eexists _, s', l'. eauto.
  - destruct (restart_refines s l Hr Hal) as (s' & E & H).
    rewrite <- M_bind_assoc. mstep E. eexists _, s', _. eauto.
  - destruct (crash_refines s l Hr) as (s' & E & H). mstep E. eexists _, s', _. eauto.
Qed.
End flushes.
(** C2. Over any run of get, put, remove, multi_get, multi_put, range_scan,
    flush, turns of the background thread, restarts (close, and open by a new
    object) and crashes, the engine behaves like a stack of maps: a write
    changes the topmost only, a flush or a restart puts an empty map on top, a
    crash empties the topmost, and get, multi_get and range_scan find the first
    entry from the top, so that a deletion uncovers what is below. The run
    starts from an engine as open leaves it: its tables are those of its
    directory with ascending names, its log is empty and the stream of the log
    spent, no immutable memtable is left over, and the keys in it have no colon.
    The calls of the run are those in which a primary key that is put or removed
    has no colon (an engine that is opened again splits keys at the first one)
    and a removed key is within MAX_KEY_SIZE; versions and timestamps fit 64
    bits; a scan has its start key not above its end key, which always counts
    in, and a limit below 2^32 that cuts no source short; and, when a flush can
    be needed, the memtable fits the 32-bit offsets of a table, the clock has
    reached a file name that sorts behind those of the tables and can be
    created, and no compaction is due in a turn of the background thread.
    Readings of the clock fit 64 bits, formatted times hold no slash and the
    engine can be configured. *)
Theorem engine_runs_refine_layers put_time config junk calls s l :
  (∀ z, SLASH ∉ bytes_of (put_time z)) → (∀ dir, is_Some (LSMTreeEngine_new dir config)) →
  refines s l → run_allowed put_time config junk calls s →
  ∃ rs s' l', engine_run put_time config junk calls s = Returns rs s' ∧
    spec_calls calls rs l l' ∧ refines s' l'.
Proof.
  intros Hput Hconfig. revert s l. induction calls as [|call calls IH]; intros s l Hr Hal.
  { exists [], s, l. done. }
  destruct Hal as [Hal Hnext].
  destruct (call_refines put_time Hput config junk Hconfig call s l Hr Hal)
    as (r & s1 & l1 & E & Hspec & Hr1).
  destruct (IH s1 l1 Hr1 (Hnext _ _ E)) as (rs & s' & l' & E' & Hspecs & Hr').
  exists (r :: rs), s', l'. cbn [engine_run]. mstep E. mstep E'. split; [done|].
  split; [|done]. by exists l1.
Qed.

(** C16. For an engine in a state the runs of the stack of maps go through
    (opened, keys without a colon, the stream of its log spent by the replay of
    open): what was flushed survives a crash, that is, where the memtable can be
    flushed (it fits the 32-bit offsets of a table, and the clock has reached a
    new file name that sorts behind the others), flush, crash and get of any key
    answers what get answered before the flush. What was not flushed does not,
    in spite of the log: crash and get answers from the tables alone. *)
Theorem crash_loses_unflushed put_time config junk s l k :
  (∀ z, SLASH ∉ bytes_of (put_time z)) → (∀ dir, is_Some (LSMTreeEngine_new dir config)) →
  refines s l →
  (can_flush put_time s → ∃ s',
    engine_run put_time config junk [CallFlush; Crash; CallGet k] s =
      Returns [Done (ROk tt); Done (ROk tt); Found (get_answer (spec_get k l))] s') ∧
  ∃ s', engine_run put_time config junk [Crash; CallGet k] s =
    Returns [Done (ROk tt); Found (get_answer (first_found k (below l)))] s'.
Proof.
  intros Hput Hconfig Hr. split.
  - intros Hcf. destruct (flush_refines put_time Hput s l Hr Hcf) as (s1 & E1 & H1).
    destruct (crash_refines config junk Hconfig s1 _ H1) as (s2 & E2 & H2).
    destruct (get_refines k s2 _ H2) as (s3 & E3 & _). exists s3.
    cbn [engine_run engine_do]. rewrite M_bind_assoc. mstep E1. msimpl. rewrite !M_bind_assoc.
    mstep E2. msimpl. rewrite !M_bind_assoc. mstep E3. unfold mret, M_ret. do 4 f_equal.
    unfold spec_crash, spec_flush, spec_get. cbn [below top first_found]. rewrite lookup_empty.
    case_decide as Ht; [by rewrite Ht, lookup_empty|done].
  - destruct (crash_refines config junk Hconfig s l Hr) as (s1 & E1 & H1).
    destruct (get_refines k s1 _ H1) as (s2 & E2 & _). exists s2.
    cbn [engine_run engine_do]. rewrite M_bind_assoc. mstep E1. msimpl. rewrite !M_bind_assoc.
    mstep E2. unfold mret, M_ret. unfold spec_get. cbn [below top spec_crash first_found].
    by rewrite lookup_empty.
Qed.

(** ** An engine that starts in an empty directory *)

Definition empty_directory : World :=
  MkWorld ∅ ∅ (MkClock (λ n, Z.of_nat (Nat.min n 1000) * 2000000)%Z 0).
Definition sample_time : Z → string := local_stamp (λ _, 3600%Z).
Definition booted : EngSt :=
  match start_again ∅ 0 (empty_directory, (closed_engine []).2) with
  | Returns _ s => s
  | _ => closed_engine []
  end.

Lemma default_config dir : is_Some (LSMTreeEngine_new dir ∅).
Proof. by eexists. Qed.

Lemma booted_refines : refines booted (MkLayers ∅ []).
Proof.
  destruct (start_again_refines ∅ 0 default_config empty_directory
    (closed_engine []).2 [] []) as (s' & E & H).
  - split; [done|done|done| |done|].
    + intros p Hp. cbn in Hp. rewrite lookup_empty in Hp. by destruct Hp.
    + cbn. set_solver.
  - intros n. unfold is_i64. cbn [clock empty_directory reading]. lia.
  - unfold booted. by rewrite E.
Qed.

(** The state after a call that returns. *)
Definition after (call : engine_call) (s : EngSt) : EngSt :=
  match engine_do sample_time ∅ 0 call s with
  | Returns _ s' => s'
  | _ => s
  end.

Lemma run_allowed_cons call calls s :
  allowed sample_time call s → run_allowed sample_time ∅ 0 calls (after call s) →
  run_allowed sample_time ∅ 0 (call :: calls) s.
Proof. intros Hal H. split; [done|]. intros r s1 E. unfold after in H. by rewrite E in H. Qed.

Definition sample_calls : list engine_call :=
  [CallPut (MkKey "a" "1") (MkEntry "flushed" 1 5 false); CallFlush;
   CallPut (MkKey "b" "1") (MkEntry "lost" 1 6 false); Crash;
   CallGet (MkKey "a" "1"); CallGet (MkKey "b" "1"); Restart;
   CallMultiPut [(MkKey "b" "1", MkEntry "again" 1 7 false);
                 (MkKey "a" "1", MkEntry "newer" 2 8 false)];
   CallRemove (MkKey "a" "1"); CallMultiGet [MkKey "a" "1"; MkKey "b" "2"];
   CallScan (MkRange (MkKey "a" "") (MkKey "c" "") 10 true false)].

Lemma engine_runs_refine_layers_witness :
  refines booted (MkLayers ∅ []) ∧ run_allowed sample_time ∅ 0 sample_calls booted ∧
  ∃ rs s' l', engine_run sample_time ∅ 0 sample_calls booted = Returns rs s' ∧
    spec_calls sample_calls rs (MkLayers ∅ []) l' ∧ refines s' l'.
Proof.
  assert (run_allowed sample_time ∅ 0 sample_calls booted) as Hal.
  { unfold sample_calls. repeat (apply run_allowed_cons; cbn [allowed]).
    all: try exact I.
    all: apply (bool_decide_unpack _); vm_compute; exact I. }
  split; [apply booted_refines|]. split; [exact Hal|].
  exact (engine_runs_refine_layers sample_time ∅ 0 sample_calls booted (MkLayers ∅ [])
    (local_stamp_slash _) default_config booted_refines Hal).
Defined.

Lemma crash_loses_unflushed_witness :
  let s := after (CallPut (MkKey "b" "1") (MkEntry "lost" 1 6 false)) booted in
  let l := spec_put (MkKey "b" "1") (MkEntry "lost" 1 6 false) (MkLayers ∅ []) in
  refines s l ∧
  (can_flush sample_time s → ∃ s',
    engine_run sample_time ∅ 0 [CallFlush; Crash; CallGet (MkKey "b" "1")] s =
      Returns [Done (ROk tt); Done (ROk tt); Found (ROk (MkEntry "lost" 1 6 false))] s') ∧
  ∃ s', engine_run sample_time ∅ 0 [Crash; CallGet (MkKey "b" "1")] s =
    Returns [Done (ROk tt); Found (RErr Status.NOT_FOUND "Key not found")] s'.
Proof.
  intros s l. assert (refines s l) as Hr.
  { destruct (put_refines (MkKey "b" "1") (MkEntry "lost" 1 6 false) booted _ booted_refines)
      as (r & s' & E & H & _); [apply (bool_decide_unpack _); vm_compute; exact I|].
    unfold s, after. cbn [engine_do]. by rewrite (M_bind_step _ _ _ _ _ E). }
  split; [exact Hr|].
  exact (crash_loses_unflushed sample_time ∅ 0 s l (MkKey "b" "1") (local_stamp_slash _)
    default_config Hr).
Defined.
