(* ===== verification/LSMBackup.v ===== *)
(** * LSMBackup: backup and restore

    A backup is the files of the tables and of the log.  Restoring it into an
    empty data directory and opening a new engine there gives the engine as it
    was, but for its memtable. *)

From Stdlib Require Import Ascii String ZArith NArith Lia.
From stdpp Require Import base numbers list strings gmap pretty.
From S2P Require Import Prelude Bytes Numerals OrdMap Types Crc32c MemTable Files Wal SSTable.
From S2P Require Import LSMTree LSMReads LSMRecovery LSMDisk LSMLayers LSMRuns.

(** ** Paths *)

Definition at_dir (dir name : string) : string := dir +:+ "/" +:+ name.
Definition plain (name : string) : Prop := name ≠ "" ∧ SLASH ∉ bytes_of name.

Lemma split_at_dir dir name :
  plain name → split_last SLASH (bytes_of (at_dir dir name)) = Some (bytes_of dir, bytes_of name).
Proof. intros [_ H]. unfold at_dir. rewrite !bytes_of_app. by apply split_last_app. Qed.

Lemma bytes_of_inj a b : bytes_of a = bytes_of b → a = b.
Proof. intros E. by rewrite <- (string_of_bytes_of a), E, string_of_bytes_of. Qed.

Lemma at_dir_inj dir dir' n n' :
  plain n → plain n' → at_dir dir n = at_dir dir' n' → dir = dir' ∧ n = n'.
Proof.
  intros Hn Hn' E. pose proof (split_at_dir dir n Hn) as H. rewrite E, split_at_dir in H by done.
  injection H as E1 E2. by apply bytes_of_inj in E1, E2.
Qed.

Lemma in_directory_at_dir dir n : plain n → in_directory dir (at_dir dir n) = Some n.
Proof. intros []. by apply in_directory_name. Qed.

Lemma in_directory_inv dir p n : in_directory dir p = Some n → p = at_dir dir n ∧ plain n.
Proof.
  unfold in_directory. case_decide as Hp; [|done]. case_decide as Hb; [|done].
  destruct Hb as [Hne Hs].
  intros [= <-]. split.
  - apply bytes_of_inj. unfold at_dir. rewrite !bytes_of_app, bytes_of_string_of.
    rewrite bytes_of_app in Hp. rewrite (assoc_L (++)).
    rewrite <- Hp at 1. by rewrite take_drop.
  - split; [|by rewrite bytes_of_string_of]. intros E. apply Hne.
    by rewrite <- (bytes_of_string_of (drop _ _)), E.
Qed.

Lemma in_directory_below dir p n : in_directory dir p = Some n → below_directory dir p.
Proof. unfold in_directory, below_directory. by case_decide. Qed.

Lemma base_name_at_dir dir n : plain n → base_name (at_dir dir n) = n.
Proof.
  intros [_ Hs]. unfold base_name, at_dir. rewrite !bytes_of_app.
  change (bytes_of "/") with [SLASH].
  set (last_name := fix last_name (b name : bytes) : bytes := match b with [] => name | c :: b =>
    if decide (c = "/"%char) then last_name b [] else last_name b (name ++ [c]) end).
  assert (∀ a acc, last_name (a ++ SLASH :: bytes_of n) acc = last_name (bytes_of n) []) as H1.
  { induction a as [|c a IH]; intros acc; [done|]. cbn [app last_name]. case_decide; apply IH. }
  assert (∀ b acc, SLASH ∉ b → last_name b acc = acc ++ b) as H2.
  { induction b as [|c b IH]; intros acc Hb; cbn [last_name]; [by rewrite app_nil_r|].
    apply not_elem_of_cons in Hb as [Hc Hb]. rewrite decide_False by done.
    rewrite IH by done. by rewrite <- (assoc_L (++)). }
  change ([SLASH] ++ bytes_of n) with (SLASH :: bytes_of n).
  rewrite H1, H2 by done. apply string_of_bytes_of.
Qed.

(** The log and the tables of a directory have plain names. *)
Lemma wal_plain : plain "wal.log".
Proof. split; [done|]. apply (bool_decide_unpack _). vm_compute. exact I. Qed.

Lemma table_names dir fs :
  Forall (λ f, is_table_file dir f = true) fs →
  ∃ ns, fs = at_dir dir <$> ns ∧ Forall plain ns ∧ "wal.log" ∉ ns.
Proof.
  induction 1 as [|f fs Hf _ (ns & -> & Hns & Hw)].
  { exists []. split_and!; [done|done|apply not_elem_of_nil]. }
  unfold is_table_file in Hf. destruct (in_directory dir f) as [n|] eqn:E; [|done].
  apply in_directory_inv in E as [-> Hn]. exists (n :: ns). split; [done|].
  split; [by constructor|]. apply not_elem_of_cons. split; [|done]. by intros <-.
Qed.

(** ** Copying the files of a directory *)

(** The files [ns] of the directory [src] were copied to [dst]. *)
Record copied (src dst : string) (ns : list string) (w w' : World) : Prop := {
  cp_refused : refused w' = refused w;
  cp_clock : clock w' = clock w;
  cp_here : ∀ n, n ∈ ns → (files w' !! at_dir dst n) = files w !! at_dir src n;
  cp_other : ∀ p, (∀ n, n ∈ ns → p ≠ at_dir dst n) → files w' !! p = files w !! p
}.

Lemma copied_nil src dst w : copied src dst [] w w.
Proof. split; [done|done| |done]. intros n Hn. by apply elem_of_nil in Hn. Qed.

Lemma copied_cons src dst n ns w w1 w2 :
  src ≠ dst → plain n → Forall plain ns →
  copied src dst [n] w w1 → copied src dst ns w1 w2 → copied src dst (n :: ns) w w2.
Proof.
  intros Hne Hn Hns [R1 C1 H1 O1] [R2 C2 H2 O2]. rewrite Forall_forall in Hns.
  assert (∀ m, plain m → (files w1 !! at_dir src m) = files w !! at_dir src m) as Hsrc.
  { intros m Hm. apply O1. intros x ->%list_elem_of_singleton E.
    by apply at_dir_inj in E as [? _]. }
  split; [congruence|congruence| |].
  - intros m [->|Hm]%elem_of_cons; [|by rewrite H2, Hsrc by auto].
    destruct (decide (n ∈ ns)) as [Hin|Hin]; [by rewrite H2, Hsrc by auto|].
    rewrite O2; [apply H1; by left|]. intros m Hm E.
    apply at_dir_inj in E as [_ ->]; [done|done|auto].
  - intros p Hp. rewrite O2, O1; [done|..]; intros m Hm; apply Hp; [|by right].
    apply list_elem_of_singleton in Hm as ->. by left.
Qed.

Lemma copy_file_copied overwrite src dst n w :
  src ≠ dst → plain n → is_Some (files w !! at_dir src n) →
  at_dir src n ∉ refused w → at_dir dst n ∉ refused w →
  (overwrite = false → (files w !! at_dir dst n) = None) →
  ∃ w', copy_file overwrite (at_dir src n) (at_dir dst n) w = Some w' ∧ copied src dst [n] w w'.
Proof.
  intros Hne Hn [data Hd] Hs Ht Ho. unfold copy_file. rewrite Hd. cbn [mbind option_bind].
  rewrite decide_False by (intros [?|[?|E]]; [done..|]; by apply at_dir_inj in E as [? _]).
  rewrite decide_False by (intros [Hf H]; rewrite Ho in H by done; by destruct H).
  eexists. split; [reflexivity|]. split; [done|done| |].
  - intros m ->%list_elem_of_singleton. cbn. by rewrite Hd, lookup_insert_eq.
  - intros p Hp. cbn. apply lookup_insert_ne. intros E. apply (Hp n); [by left|done].
Qed.

Lemma copy_tables_copied src dst ns w ts :
  src ≠ dst → filename_ <$> ts = at_dir src <$> ns → Forall plain ns →
  (∀ n, n ∈ ns → is_Some (files w !! at_dir src n) ∧ at_dir src n ∉ refused w ∧
                 at_dir dst n ∉ refused w) →
  ∃ w', copy_tables ts dst w = inl w' ∧ copied src dst ns w w'.
Proof.
  intros Hne. revert w ns. induction ts as [|t ts IH]; intros w [|n ns] Hf Hp Hok; try done.
  { exists w. split; [done|apply copied_nil]. }
  injection Hf as Hf1 Hf2. apply Forall_cons in Hp as [Hn Hns].
  destruct (Hok n ltac:(by left)) as (Hd & Hs & Ht).
  destruct (copy_file_copied true src dst n w) as (w1 & E1 & H1); try done.
  destruct (IH w1 ns Hf2 Hns) as (w2 & E2 & H2).
  { intros m Hm. destruct H1 as [-> _ _ O1]. rewrite O1; [apply Hok; by right|].
    intros x ->%list_elem_of_singleton E. rewrite Forall_forall in Hns.
    apply at_dir_inj in E as [? _]; auto. }
  exists w2. cbn [copy_tables]. rewrite Hf1, base_name_at_dir by done.
  change (dst +:+ "/" +:+ n) with (at_dir dst n). rewrite E1. split; [done|]. by apply (copied_cons _ _ _ _ _ w1).
Qed.

Lemma copy_back_copied src dst ns w :
  src ≠ dst → NoDup ns → Forall plain ns →
  (∀ n, n ∈ ns → is_Some (files w !! at_dir src n) ∧ at_dir src n ∉ refused w ∧
                 at_dir dst n ∉ refused w ∧ (files w !! at_dir dst n) = None) →
  ∃ w', copy_back ns src dst w = inl w' ∧ copied src dst ns w w'.
Proof.
  intros Hne Hnd. revert w. induction Hnd as [|n ns Hn Hnd IH]; intros w Hp Hok.
  { exists w. split; [done|apply copied_nil]. }
  apply Forall_cons in Hp as [Hpn Hns].
  destruct (Hok n ltac:(by left)) as (Hd & Hs & Ht & Hno).
  destruct (copy_file_copied false src dst n w) as (w1 & E1 & H1); try done.
  rewrite Forall_forall in Hns.
  destruct (IH w1) as (w2 & E2 & H2); [by apply Forall_forall| |].
  { intros m Hm. destruct H1 as [-> _ _ O1]. rewrite !O1; [apply Hok; by right|..];
      intros x ->%list_elem_of_singleton E; apply at_dir_inj in E as [? ?]; subst; auto. }
  exists w2. cbn [copy_back].
  change (src +:+ "/" +:+ n) with (at_dir src n). change (dst +:+ "/" +:+ n) with (at_dir dst n).
  rewrite E1. split; [done|].
  apply (copied_cons _ _ _ _ _ w1); try done. by apply Forall_forall.
Qed.

(** ** Backup *)

(** Another directory, in which files can be created and none is yet. *)
Record backup_place (dir backup : string) (w : World) : Prop := {
  bp_apart : ∀ n, ¬ below_directory dir (at_dir backup n);
  bp_allowed : ∀ n, at_dir backup n ∉ refused w;
  bp_empty : ∀ p, is_Some (files w !! p) → in_directory backup p = None
}.

Lemma backup_other dir backup w : backup_place dir backup w → dir ≠ backup.
Proof.
  intros [H _ _] <-. apply (H "wal.log"). apply (in_directory_below _ _ "wal.log").
  apply in_directory_at_dir, wal_plain.
Qed.

(** The directory [backup] holds a log without records and these tables, and
    nothing else. *)
Record backed_up (backup : string) (ns : list string) (tables : list kv_map) (w : World) :
    Prop := {
  bk_tables : Forall2 (on_disk w) (at_dir backup <$> ns) tables;
  bk_log : (files w !! at_dir backup "wal.log") = Some [];
  bk_only : ∀ p n, is_Some (files w !! p) → in_directory backup p = Some n →
                   n = "wal.log" ∨ n ∈ ns;
  bk_allowed : ∀ n, at_dir backup n ∉ refused w
}.

Lemma on_disk_moved w w' f f' data :
  on_disk w f data → f' ∉ refused w' → files w' !! f' = files w !! f → on_disk w' f' data.
Proof. intros [? ? Hf ?] Hr E. split; [done|done| |done]. by rewrite E. Qed.

Lemma all_on_disk_moved w w' src dst ns tables :
  Forall2 (on_disk w) (at_dir src <$> ns) tables →
  (∀ n, n ∈ ns → at_dir dst n ∉ refused w' ∧
                 (files w' !! at_dir dst n) = files w !! at_dir src n) →
  Forall2 (on_disk w') (at_dir dst <$> ns) tables.
Proof.
  intros Ht Hw. rewrite Forall2_fmap_l in *.
  apply Forall2_same_length_lookup. apply Forall2_same_length_lookup in Ht as [Hlen Ht].
  split; [done|]. intros i n data Hi Hd.
  destruct (Hw n) as [Hr Hf]; [by eapply list_elem_of_lookup_2|].
  eapply on_disk_moved; [by eapply Ht|done|done].
Qed.

Lemma on_disk_names w dir ns tables n :
  Forall2 (on_disk w) (at_dir dir <$> ns) tables → n ∈ ns →
  is_Some (files w !! at_dir dir n) ∧ at_dir dir n ∉ refused w.
Proof.
  intros Ht Hn. rewrite Forall2_fmap_l in Ht. apply list_elem_of_lookup_1 in Hn as [i Hi].
  destruct (Forall2_lookup_l _ _ _ _ _ Ht Hi) as (data & _ & []). eauto.
Qed.

Lemma backup_copies what backup w e ns tables :
  engine_mutex_ e = false → engine_open_ e = true →
  filename_ <$> sstables_ e = at_dir (data_dir_ e) <$> ns → Forall plain ns → "wal.log" ∉ ns →
  disk_ok (data_dir_ e) w (at_dir (data_dir_ e) <$> ns) tables →
  is_Some (files w !! at_dir (data_dir_ e) "wal.log") →
  backup_place (data_dir_ e) backup w →
  ∃ w', lsm_backup what backup (w, e) = Returns (ROk tt) (w', e) ∧
    copied (data_dir_ e) backup ("wal.log" :: ns) w w' ∧ backed_up backup ns tables w'.
Proof.
  intros Hm Ho Hf Hp Hw Hd Hlog Hb. pose proof (backup_other _ _ _ Hb) as Hne.
  set (dir := data_dir_ e) in *.
  destruct (copy_file_copied true dir backup "wal.log" w) as (w1 & E1 & H1);
    [done|apply wal_plain|done|apply Hd|apply Hb|done|].
  assert (Forall plain ("wal.log" :: ns)) as Hp' by (constructor; [apply wal_plain|done]).
  destruct (copy_tables_copied dir backup ns w1 (sstables_ e)) as (w2 & E2 & H2); try done.
  { intros n Hn. destruct (on_disk_names _ _ _ _ _ (disk_tables _ _ _ _ Hd) Hn) as [Hs Hr].
    rewrite Forall_forall in Hp. destruct H1 as [-> _ _ O1]. rewrite O1.
    - split_and!; [done|done|apply Hb].
    - intros m ->%list_elem_of_singleton E.
      apply at_dir_inj in E as [? _]; [done|auto|apply wal_plain]. }
  assert (copied dir backup ("wal.log" :: ns) w w2) as H.
  { apply (copied_cons _ _ _ _ _ w1); try done. apply wal_plain. }
  exists w2. split; [|split; [done|]].
  - unfold lsm_backup. rewrite guarded_engine, when_open_step by done. cbn [fst snd].
    change (data_dir_ (set_engine_mutex true e)) with dir.
    change (dir +:+ "/wal.log") with (at_dir dir "wal.log").
    change (backup +:+ "/wal.log") with (at_dir backup "wal.log"). rewrite E1.
    change (sstables_ (set_engine_mutex true e)) with (sstables_ e). rewrite E2. cbn [fst snd].
    by rewrite <- (set_engine_mutex_id false e) at 2.
  - destruct H as [Hr _ Hh Hoth]. split.
    + eapply all_on_disk_moved; [apply (disk_tables _ _ _ _ Hd)|]. intros n Hn.
      rewrite Hr. split; [apply Hb|]. apply Hh. by right.
    + rewrite Hh by (by left). pose proof (disk_log _ _ _ _ Hd) as Hl. unfold content in Hl.
      destruct Hlog as [data E]. fold dir in Hl.
      change (dir +:+ "/wal.log") with (at_dir dir "wal.log") in Hl.
      rewrite E in *. cbn in Hl. by rewrite Hl.
    + intros p n Hs Hin. destruct (decide (n ∈ "wal.log" :: ns)) as [H|Hn];
        [by apply elem_of_cons in H|]. exfalso. rewrite Hoth in Hs.
      * by rewrite (bp_empty _ _ _ Hb p Hs) in Hin.
      * intros m Hin' ->. rewrite Forall_forall in Hp'.
        rewrite in_directory_at_dir in Hin by auto. by simplify_eq.
    + intros n. rewrite Hr. apply Hb.
Qed.

(** What happens outside the directory of a backup does not matter to it. *)
Lemma backed_up_frame backup ns tables w w' :
  backed_up backup ns tables w → Forall plain ns → refused w' = refused w →
  (∀ p n, in_directory backup p = Some n → files w' !! p = files w !! p) →
  backed_up backup ns tables w'.
Proof.
  intros [Ht Hl Ho Ha] Hp Hr Hf. rewrite Forall_forall in Hp. split.
  - eapply all_on_disk_moved; [exact Ht|]. intros n Hn. rewrite Hr. split; [apply Ha|].
    apply (Hf _ n), in_directory_at_dir. auto.
  - rewrite (Hf _ "wal.log"); [done|]. apply in_directory_at_dir, wal_plain.
  - intros p n Hs Hin. apply (Ho p); [|done]. by rewrite <- (Hf _ _ Hin).
  - intros n. by rewrite Hr.
Qed.

(** ** Restore *)

Lemma elements_in_directory backup w ns tables n :
  backed_up backup ns tables w → Forall plain ns →
  n ∈ omap (in_directory backup) (elements (dom (files w))) ↔ n ∈ "wal.log" :: ns.
Proof.
  intros [Ht Hl Ho _] Hp. rewrite list_elem_of_omap, elem_of_cons. split.
  - intros (p & Hp' & Hin). rewrite elem_of_elements, elem_of_dom in Hp'. eauto.
  - intros [->|Hn].
    + exists (at_dir backup "wal.log"). rewrite elem_of_elements, elem_of_dom, Hl.
      split; [done|]. apply in_directory_at_dir, wal_plain.
    + rewrite Forall_forall in Hp. exists (at_dir backup n). rewrite elem_of_elements, elem_of_dom.
      split; [by eapply on_disk_names|]. apply in_directory_at_dir. auto.
Qed.

Lemma NoDup_in_directory backup ps : NoDup ps → NoDup (omap (in_directory backup) ps).
Proof.
  induction 1 as [|p ps Hp _ IH]; [constructor|]. cbn.
  destruct (in_directory backup p) as [n|] eqn:E; [|done]. constructor; [|done].
  intros (q & Hq & Hin)%list_elem_of_omap.
  apply in_directory_inv in E as [-> _], Hin as [-> _]. done.
Qed.

Lemma removed_lookup dir w p :
  ¬ below_directory dir p → files (remove_all dir w) !! p = files w !! p.
Proof.
  intros Hp. cbn. destruct (files w !! p) as [data|] eqn:E.
  - by apply map_lookup_filter_Some.
  - apply map_lookup_filter_None. by left.
Qed.

Lemma removed_below dir w p : below_directory dir p → files (remove_all dir w) !! p = None.
Proof. intros Hp. cbn. apply map_lookup_filter_None. right. intros data _ H. by apply H. Qed.

Lemma at_dir_below dir n : plain n → below_directory dir (at_dir dir n).
Proof. intros Hn. apply (in_directory_below _ _ n). by apply in_directory_at_dir. Qed.

Lemma restore_disk what backup w e ns tables :
  engine_mutex_ e = false → engine_open_ e = false →
  backed_up backup ns tables w → Forall plain ns → "wal.log" ∉ ns →
  (∀ n, ¬ below_directory (data_dir_ e) (at_dir backup n)) →
  ascending (at_dir (data_dir_ e) <$> ns) →
  Forall (λ f, is_table_file (data_dir_ e) f = true) (at_dir (data_dir_ e) <$> ns) →
  (∀ n, n ∈ "wal.log" :: ns → at_dir (data_dir_ e) n ∉ refused w) →
  ∃ w', lsm_restore what backup true (w, e) = Returns (ROk tt) (w', e) ∧
    disk_ok (data_dir_ e) w' (at_dir (data_dir_ e) <$> ns) tables ∧ clock w' = clock w.
Proof.
  intros Hm Ho Hb Hp Hw Hapart Hasc Htab Hr. set (dir := data_dir_ e) in *.
  set (w1 := remove_all dir w).
  assert (backed_up backup ns tables w1) as Hb1.
  { apply (backed_up_frame _ _ _ w); [done|done|done|].
    intros p n Hin. apply in_directory_inv in Hin as [-> _]. apply removed_lookup, Hapart. }
  assert (Forall plain ("wal.log" :: ns)) as Hp' by (constructor; [apply wal_plain|done]).
  assert (backup ≠ dir) as Hne.
  { intros ->. apply (Hapart "wal.log"), at_dir_below, wal_plain. }
  set (names := omap (in_directory backup) (elements (dom (files w1)))).
  assert (∀ n, n ∈ names ↔ n ∈ "wal.log" :: ns) as Hnames.
  { intros n. by apply (elements_in_directory _ _ _ tables). }
  assert (Forall plain names) as Hpn.
  { apply Forall_forall. intros n Hn. apply Hnames in Hn. rewrite Forall_forall in Hp'. auto. }
  destruct (copy_back_copied backup dir names w1) as (w2 & E2 & [R2 C2 H2 O2]);
    [done|apply NoDup_in_directory, NoDup_elements|done| |].
  { intros n Hn. rewrite Forall_forall in Hpn. pose proof Hn as Hn'. apply Hnames in Hn'.
    split_and!; [|apply Hb1|by apply Hr|apply removed_below, at_dir_below; auto].
    apply elem_of_cons in Hn' as [->|Hin]; [by rewrite (bk_log _ _ _ _ Hb1)|].
    by eapply on_disk_names; [apply (bk_tables _ _ _ _ Hb1)|]. }
  exists w2. split; [|split; [|by rewrite C2]].
  - unfold lsm_restore. rewrite guarded_engine by done. cbn [fst snd].
    change (engine_open_ (set_engine_mutex true e)) with (engine_open_ e). rewrite Ho.
    change (data_dir_ (set_engine_mutex true e)) with dir. fold w1. fold names.
    cbn [negb]. rewrite E2. cbn [fst snd]. by rewrite <- (set_engine_mutex_id false e) at 2.
  - split; [done|done| | | |].
    + eapply all_on_disk_moved; [apply (bk_tables _ _ _ _ Hb1)|]. intros n Hn. rewrite R2.
      split; [by apply Hr; right|]. apply H2, Hnames. by right.
    + intros p Hs Ht. unfold is_table_file in Ht.
      destruct (in_directory dir p) as [n|] eqn:E; [|done].
      apply in_directory_inv in E as [-> Hn]. apply list_elem_of_fmap. exists n. split; [done|].
      destruct (decide (n ∈ names)) as [Hin|Hin].
      * apply Hnames, elem_of_cons in Hin as [->|]; done.
      * rewrite O2 in Hs;
          [unfold w1 in Hs; rewrite removed_below in Hs by (by apply at_dir_below); by destruct Hs|].
        intros m Hin' E. rewrite Forall_forall in Hpn. apply at_dir_inj in E as [_ ->]; auto.
    + unfold content. change (dir +:+ "/wal.log") with (at_dir dir "wal.log").
      rewrite H2 by (apply Hnames; by left). by rewrite (bk_log _ _ _ _ Hb1).
    + rewrite R2. change (dir +:+ "/wal.log") with (at_dir dir "wal.log"). apply Hr. by left.
Qed.

(** ** A backup of a running engine *)

(** Only the files directly in the directory matter to an engine. *)
Lemma alive_local w w' e tables :
  alive (w, e) tables → refused w' = refused w → clock w' = clock w →
  (∀ p n, in_directory (data_dir_ e) p = Some n → files w' !! p = files w !! p) →
  alive (w', e) tables.
Proof.
  intros [[Hm Hmt Him Ht Hwal Hwf] Ho Hi Hl Hf Hd He Hc] Hr Hclk Hfiles. cbn [fst snd] in *.
  assert (∀ f, f ∈ (filename_ <$> sstables_ e) → files w' !! f = files w !! f) as Hnames.
  { intros f Hin. pose proof (disk_named _ _ _ _ Hd) as Hn. rewrite Forall_forall in Hn.
    apply Hn in Hin. unfold is_table_file in Hin.
    destruct (in_directory (data_dir_ e) f) as [n|] eqn:E; [by eapply Hfiles|done]. }
  split; cbn [fst snd]; try done.
  - split; cbn [fst snd]; try done.
    clear Hd Hwf. induction Ht as [|t data ts tables Hst _ IH]; constructor.
    + apply (stores_frame w); [done|done|]. apply Hnames. by left.
    + apply IH. intros f Hin. apply Hnames. by right.
  - destruct Hd as [Ha Hn Htab Honly Hlog Hla]. split; try done.
    + by apply (all_on_disk_frame w).
    + intros p Hs Htf. apply Honly; [|done]. unfold is_table_file in Htf.
      destruct (in_directory (data_dir_ e) p) as [n|] eqn:E; [|done]. by rewrite <- (Hfiles _ _ E).
    + unfold content in *. rewrite (Hfiles _ "wal.log"); [done|].
      apply in_directory_at_dir, wal_plain.
    + by rewrite Hr.
  - intros n. rewrite Hclk. apply Hc.
Qed.

(** C17. For an opened engine whose keys have no colon and whose log file
    exists, a backup into a directory outside the data directory that holds no
    files, where files can be created, changes nothing for the running engine,
    and is enough to bring back all that was flushed: whatever happens to the
    data directory, as long as the backup stays as it is and files can be
    created as before, a closed engine on the same data directory restores it,
    opening a new one succeeds, and that engine is the one that was backed up
    without its memtable. *)
Theorem backup_restores_tables config junk what backup s l :
  (∀ dir, is_Some (LSMTreeEngine_new dir config)) →
  refines s l → is_Some (files s.1 !! (data_dir_ s.2 +:+ "/wal.log")) →
  backup_place (data_dir_ s.2) backup s.1 →
  ∃ s1, lsm_backup what backup s = Returns (ROk tt) s1 ∧ refines s1 l ∧
    ∀ w e,
      (∀ p n, in_directory backup p = Some n → files w !! p = files s1.1 !! p) →
      refused w = refused s1.1 → (∀ n, is_i64 (reading (clock w) n)) →
      data_dir_ e = data_dir_ s.2 → engine_mutex_ e = false → engine_open_ e = false →
      ∃ s2 s3, lsm_restore what backup true (w, e) = Returns (ROk tt) s2 ∧
        start_again config junk s2 = Returns (ROk tt) s3 ∧ refines s3 (spec_crash l).
Proof.
  intros Hconfig (tables & Ha & ->) Hlog Hb. destruct s as [w0 e0]. cbn [fst snd] in *.
  pose proof (al_disk _ _ Ha) as Hd. cbn [fst snd] in Hd.
  destruct (table_names _ _ (disk_named _ _ _ _ Hd)) as (ns & Hns & Hp & Hw).
  rewrite Hns in Hd.
  destruct (backup_copies what backup w0 e0 ns tables) as (w1 & E & [Hr1 Hc1 _ Ho1] & Hbk);
    [apply (al_ok _ _ Ha)|apply (al_open _ _ Ha)|done..|].
  exists (w1, e0). split; [done|]. split.
  { exists tables. split; [|done]. apply (alive_local w0); try done. intros p n Hin.
    apply Ho1. intros m _ ->. apply (bp_apart _ _ _ Hb m). by eapply in_directory_below. }
  intros w e Hf Hr Hclk Hdir Hm Hopen. cbn [fst] in *. rewrite <- Hdir in *.
  destruct (restore_disk what backup w e ns tables) as (w2 & E2 & Hd2 & Hclk2); try done.
  - by apply (backed_up_frame _ _ _ w1).
  - apply Hb.
  - apply Hd.
  - apply Hd.
  - intros n Hn. rewrite Hr, Hr1. apply elem_of_cons in Hn as [->|Hn]; [apply Hd|].
    by eapply on_disk_names; [apply (disk_tables _ _ _ _ Hd)|].
  - destruct (start_again_refines config junk Hconfig w2 e _ tables Hd2) as (s3 & E3 & H3).
    { intros n. rewrite Hclk2. apply Hclk. }
    exists (w2, e), s3. done.
Qed.

(** The data directory is lost after a flush and a backup. *)
Lemma backup_restores_tables_witness :
  let s := after CallFlush
    (after (CallPut (MkKey "a" "1") (MkEntry "kept" 1 5 false)) booted) in
  let l := MkLayers ∅ [{[MkKey "a" "1" := MkEntry "kept" 1 5 false]}] in
  refines s l ∧
  ∃ s1, lsm_backup "" "copies" s = Returns (ROk tt) s1 ∧ refines s1 l ∧
  ∃ s2 s3, lsm_restore "" "copies" true (remove_all "db" s1.1, (closed_engine []).2) =
      Returns (ROk tt) s2 ∧
    start_again ∅ 0 s2 = Returns (ROk tt) s3 ∧ refines s3 l.
Proof.
  intros s l. set (k := MkKey "a" "1"). set (e := MkEntry "kept" 1 5 false).
  assert (refines s l) as Hr.
  { destruct (put_refines k e booted _ booted_refines) as (r & s1 & E1 & H1 & _);
      [apply (bool_decide_unpack _); vm_compute; exact I|].
    assert (after (CallPut k e) booted = s1) as Es1
      by (unfold after; cbn [engine_do]; by rewrite (M_bind_step _ _ _ _ _ E1)).
    destruct (flush_refines sample_time (local_stamp_slash _) s1 _ H1) as (s2 & E2 & H2).
    { rewrite <- Es1. apply (bool_decide_unpack (can_flush _ _)). vm_compute. exact I. }
    unfold s. fold k e. rewrite Es1. unfold after. cbn [engine_do].
    rewrite (M_bind_step _ _ _ _ _ E2). exact H2. }
  split; [exact Hr|].
  assert (data_dir_ s.2 = "db") as Hdir by (vm_compute; reflexivity).
  destruct (backup_restores_tables ∅ 0 "" "copies" s l default_config Hr) as (s1 & E1 & H1 & H).
  - apply (bool_decide_unpack _). vm_compute. exact I.
  - rewrite Hdir. split.
    + intros n. unfold below_directory, at_dir. cbn. discriminate.
    + intros n. change (refused s.1) with (∅ : gset string). apply not_elem_of_empty.
    + assert (map_Forall (λ p _, in_directory "copies" p = None) (files s.1)) as Hall
        by (apply (bool_decide_unpack _); vm_compute; exact I).
      intros p [data Hp]. exact (Hall p data Hp).
  - exists s1. split; [exact E1|]. split; [exact H1|].
    rewrite Hdir in H. clearbody s.
    apply (H (remove_all "db" s1.1) (closed_engine []).2); try reflexivity.
    + intros p n Hin. apply removed_lookup. apply in_directory_inv in Hin as [-> _].
      unfold below_directory, at_dir. cbn. discriminate.
    + intros n. destruct H1 as (tables & Ha & _). apply (al_clock _ _ Ha).
Defined.
