(* ===== verification/Locks.v ===== *)
(** * Locks: lock modes and the interface of the lock managers

    The data of [include/cache/transaction/transaction_manager.h] that the lock
    manager and the transaction manager share, and what the transaction manager
    relies on: the operations of the abstract class [LockManager] and the laws a
    lock manager promises.  [LockManager] (the file) provides an instance. *)

From Stdlib Require Import Ascii String ZArith NArith Lia.
From stdpp Require Import base numbers list strings gmap.
From S2P Require Import Prelude OrdMap Types Files.

(** [TransactionId] and [LockId]. *)
Abbreviation TransactionId := N.
Abbreviation LockId := string.

Module LockType.
Inductive t := SHARED | EXCLUSIVE | INTENTION_SHARED | INTENTION_EXCLUSIVE.
#[global] Instance t_eq_dec : EqDecision t.
Proof. solve_decision. Defined.
End LockType.

Record LockInfo := MkLock {
  lock_id : LockId;
  lock_type : LockType.t;
  lock_tx : TransactionId;
  lock_key : MultiLevelKey;
  acquired_at : Z;
  lock_timeout : Z
}.

(** [(now - acquired_at) > timeout]: a duration in nanoseconds against one in
    milliseconds. *)
Definition lock_is_expired (now : Z) (l : LockInfo) : bool :=
  (lock_timeout l * ns_per_ms <? now - acquired_at l)%Z.

Definition is_lock_compatible (existing requested : LockType.t) : bool :=
  match existing with
  | LockType.SHARED =>
      bool_decide (requested = LockType.SHARED) ||
      bool_decide (requested = LockType.INTENTION_SHARED)
  | LockType.EXCLUSIVE => false
  | LockType.INTENTION_SHARED => negb (bool_decide (requested = LockType.EXCLUSIVE))
  | LockType.INTENTION_EXCLUSIVE =>
      bool_decide (requested = LockType.INTENTION_SHARED) ||
      bool_decide (requested = LockType.INTENTION_EXCLUSIVE)
  end.

(** The order in which a lock was taken never matters. *)
Lemma is_lock_compatible_sym a b : is_lock_compatible a b = is_lock_compatible b a.
Proof. by destruct a, b. Qed.

(** ** The interface *)

(** A lock manager with state [L], the clock included: the operations the
    transaction manager calls, the view its laws speak of, the laws. *)
Class LockService (L : Type) := {
  svc_acquire : TransactionId → MultiLevelKey → LockType.t → Z → M L (Result LockId);
  svc_release_all : TransactionId → M L (Result unit);
  svc_detect : M L (list (list TransactionId));
  svc_resolve : list TransactionId → M L (Result unit);
  svc_clock : L → Clock;
  svc_set_clock : Clock → L → L;
  (** The transaction holds a lock of this mode on the key. *)
  svc_holds : L → TransactionId → MultiLevelKey → LockType.t → Prop;
  (** The manager is between two calls; the lock identifiers it has left. *)
  svc_ok : L → Prop;
  svc_left : L → N;
  svc_clock_set c l : svc_clock (svc_set_clock c l) = c;
  svc_ok_clock c l : svc_ok l → svc_ok (svc_set_clock c l);
  svc_left_clock c l : svc_left (svc_set_clock c l) = svc_left l;
  svc_holds_clock c l tx k ty : svc_holds (svc_set_clock c l) tx k ty ↔ svc_holds l tx k ty;
  (** Time only passes. *)
  svc_acquire_clock tx k ty t :
    respects (later svc_clock) (svc_acquire tx k ty t);
  svc_release_clock tx :
    respects (later svc_clock) (svc_release_all tx);
  svc_detect_clock :
    respects (later svc_clock) svc_detect;
  svc_resolve_clock cycle :
    respects (later svc_clock) (svc_resolve cycle);
  (** A request, also one that ends with an exception, uses up at most one
      identifier and takes nobody's lock away. *)
  svc_acquire_keeps tx k ty t l l' :
    svc_ok l → (0 < svc_left l)%N → leaves (svc_acquire tx k ty t) l l' →
    svc_ok l' ∧ (svc_left l ≤ svc_left l' + 1)%N ∧
    ∀ tx' k' ty', svc_holds l tx' k' ty' → svc_holds l' tx' k' ty';
  (** A granted request holds its lock. *)
  svc_acquire_granted tx k ty t l id l' :
    svc_ok l → (0 < svc_left l)%N → svc_acquire tx k ty t l = Returns (ROk id) l' →
    svc_holds l' tx k ty;
  (** Locks of two transactions on one key are compatible. *)
  svc_exclusion l tx tx' k ty ty' :
    svc_ok l → svc_holds l tx k ty → svc_holds l tx' k ty' → tx ≠ tx' →
    is_lock_compatible ty ty' = true;
  (** Releasing the locks of a transaction leaves those of the others. *)
  svc_release_keeps tx l l' :
    svc_ok l → leaves (svc_release_all tx) l l' →
    svc_ok l' ∧ (svc_left l ≤ svc_left l')%N ∧
    ∀ tx' k' ty', tx' ≠ tx → svc_holds l tx' k' ty' → svc_holds l' tx' k' ty';
  (** Releasing the locks of a transaction that has none changes nothing. *)
  svc_release_none tx l :
    svc_ok l → (∀ k ty, ¬ svc_holds l tx k ty) →
    svc_release_all tx l = Returns (ROk tt) l
}.
