(* ===== verification/LockManager.v ===== *)
(** * LockManager: [DefaultLockManager] of [src/transaction/transaction_manager.cpp]

    The lock tables, the wait graph and the search for cycles in it.  The
    state is the clock together with the fields of the object, its mutex among
    them: [acquire_lock] calls itself, and [release_all_locks] and
    [cleanup_expired_locks] call [release_lock], while they hold it.

    The iteration order of an [unordered_set] or [unordered_map] is unspecified,
    so it is a parameter: any enumeration of the elements. *)

From Stdlib Require Import Ascii String ZArith NArith Lia.
From stdpp Require Import base numbers list strings gmap pretty relations fin_sets.
From S2P Require Import Prelude OrdMap Types Files Locks.

Record LockManager := MkLockManager {
  locks_ : gmap LockId LockInfo;
  key_locks_ : gmap MultiLevelKey (list LockId);
  transaction_locks_ : gmap TransactionId (gset LockId);
  wait_graph_ : gmap TransactionId (gset TransactionId);
  next_lock_id_ : N;
  lm_mutex_ : bool
}.

Definition LockManager_new : LockManager := MkLockManager ∅ ∅ ∅ ∅ 1 false.

Abbreviation LmSt := (Clock * LockManager)%type.

Definition set_tables (ls : gmap LockId LockInfo) (ks : gmap MultiLevelKey (list LockId))
    (ts : gmap TransactionId (gset LockId)) (m : LockManager) : LockManager :=
  MkLockManager ls ks ts (wait_graph_ m) (next_lock_id_ m) (lm_mutex_ m).
Definition set_graph (g : gmap TransactionId (gset TransactionId)) (m : LockManager) :
    LockManager :=
  MkLockManager (locks_ m) (key_locks_ m) (transaction_locks_ m) g (next_lock_id_ m)
    (lm_mutex_ m).
Definition set_next_id (n : N) (m : LockManager) : LockManager :=
  MkLockManager (locks_ m) (key_locks_ m) (transaction_locks_ m) (wait_graph_ m) n
    (lm_mutex_ m).
Definition set_lm_mutex (b : bool) (m : LockManager) : LockManager :=
  MkLockManager (locks_ m) (key_locks_ m) (transaction_locks_ m) (wait_graph_ m)
    (next_lock_id_ m) b.

#[export, refine] Instance LockManager_mutex : HasMutex LmSt := {|
  which_mutex := LockManagerMutex;
  owned := λ s, lm_mutex_ s.2;
  set_owned := λ b s, (s.1, set_lm_mutex b s.2)
|}.
Proof. all: by intros; destruct s as [? []]. Defined.

Definition on_lm (f : LockManager → LockManager) : M LmSt unit := modify (λ s, (s.1, f s.2)).

Definition lm_now : M LmSt Z := lift (λ s, let '(t, c) := tick s.1 in (t, (c, s.2))).

(** [wait_graph_[tx].insert(holder)] and [wait_graph_[tx].erase(holder)]; both
    create an empty entry first when there is none. *)
Definition add_wait (tx holder : TransactionId) (m : LockManager) : LockManager :=
  set_graph (<[tx := {[holder]} ∪ default ∅ (wait_graph_ m !! tx)]> (wait_graph_ m)) m.
Definition remove_wait (tx holder : TransactionId) (m : LockManager) : LockManager :=
  set_graph (<[tx := default ∅ (wait_graph_ m !! tx) ∖ {[holder]}]> (wait_graph_ m)) m.

(** The first lock of another transaction on the key that is not compatible. *)
Fixpoint find_conflict (ids : list LockId) (locks : gmap LockId LockInfo)
    (tx_id : TransactionId) (type : LockType.t) : option LockInfo :=
  match ids with
  | [] => None
  | existing_lock_id :: ids =>
      match locks !! existing_lock_id with
      | Some existing_lock =>
          if bool_decide (lock_tx existing_lock = tx_id)
          then find_conflict ids locks tx_id type
          else if negb (is_lock_compatible (lock_type existing_lock) type)
          then Some existing_lock
          else find_conflict ids locks tx_id type
      | None => find_conflict ids locks tx_id type
      end
  end.

Definition lock_name (n : N) : LockId := "lock_" +:+ pretty n.

Definition generate_lock_id : M LmSt LockId := lift (λ s : LmSt,
  let n := next_lock_id_ s.2 in (lock_name n, (s.1, set_next_id (wrap64 (n + 1)) s.2))).

(** The three insertions of a granted lock. *)
Definition insert_lock (l : LockInfo) (m : LockManager) : LockManager :=
  set_tables
    (<[lock_id l := l]> (locks_ m))
    (<[lock_key l := default [] (key_locks_ m !! lock_key l) ++ [lock_id l]]> (key_locks_ m))
    (<[lock_tx l := {[lock_id l]} ∪ default ∅ (transaction_locks_ m !! lock_tx l)]>
       (transaction_locks_ m)) m.

(** The three removals of [release_lock]; emptied entries go. *)
Definition delete_lock (l : LockInfo) (id : LockId) (m : LockManager) : LockManager :=
  set_tables
    (delete id (locks_ m))
    (match key_locks_ m !! lock_key l with
     | Some locks_vec =>
         let locks_vec := filter (λ x, x ≠ id) locks_vec in
         if bool_decide (locks_vec = []) then delete (lock_key l) (key_locks_ m)
         else <[lock_key l := locks_vec]> (key_locks_ m)
     | None => key_locks_ m
     end)
    (match transaction_locks_ m !! lock_tx l with
     | Some tx_locks =>
         let tx_locks := tx_locks ∖ {[id]} in
         if bool_decide (tx_locks = ∅) then delete (lock_tx l) (transaction_locks_ m)
         else <[lock_tx l := tx_locks]> (transaction_locks_ m)
     | None => transaction_locks_ m
     end) m.

(** ** The wait graph *)

(** The variables the closure [dfs] captures; [path] ends at the node being
    explored. *)
Record dfs_state := MkDfs {
  visited : gset TransactionId;
  rec_stack : gset TransactionId;
  path : list TransactionId
}.

Definition dfs_enter (node : TransactionId) (st : dfs_state) : dfs_state :=
  MkDfs ({[node]} ∪ visited st) ({[node]} ∪ rec_stack st) (path st ++ [node]).
Definition dfs_leave (node : TransactionId) (st : dfs_state) : dfs_state :=
  MkDfs (visited st) (rec_stack st ∖ {[node]}) (removelast (path st)).

Section lock_manager.
Context (order_tx : gset TransactionId → list TransactionId).
Context (order_locks : gset LockId → list LockId).

Definition waits_for (g : gmap TransactionId (gset TransactionId)) (node : TransactionId) :
    list TransactionId :=
  match g !! node with Some s => order_tx s | None => [] end.

(** The loop over the neighbours; [explore] is the recursive call. *)
Fixpoint dfs_loop (explore : TransactionId → dfs_state → option (bool * dfs_state))
    (neighbors : list TransactionId) (st : dfs_state) : option (bool * dfs_state) :=
  match neighbors with
  | [] => Some (false, st)
  | neighbor :: neighbors =>
      if decide (neighbor ∈ rec_stack st) then Some (true, st)
      else if decide (neighbor ∉ visited st) then
        '(found, st) ← explore neighbor st;
        if found : bool then Some (true, st) else dfs_loop explore neighbors st
      else dfs_loop explore neighbors st
  end.

(** [None] is running out of turns. *)
Fixpoint dfs (turns : nat) (g : gmap TransactionId (gset TransactionId))
    (node : TransactionId) (st : dfs_state) : option (bool * dfs_state) :=
  match turns with
  | 0 => None
  | S turns =>
      '(found, st) ← dfs_loop (dfs turns g) (waits_for g node) (dfs_enter node st);
      if found : bool then Some (true, st) else Some (false, dfs_leave node st)
  end.

(** Every node the search can meet. *)
Definition graph_nodes (g : gmap TransactionId (gset TransactionId))
    (start : TransactionId) : gset TransactionId :=
  {[start]} ∪ dom g ∪ ⋃ (map_to_list g).*2.

(** [None] is running out of turns here, too. *)
Definition find_cycle_in_wait_graph (g : gmap TransactionId (gset TransactionId))
    (start : TransactionId) : option (list TransactionId) :=
  '(found, st) ← dfs (S (size (graph_nodes g start))) g start (MkDfs ∅ ∅ []);
  Some (if found : bool then path st else []).

(** ** The operations *)

Definition unlock_mutex : M LmSt unit := modify (set_owned false).
(** A thread that waited for the mutex has it once no other thread does. *)
Definition lock_mutex : M LmSt unit := λ s,
  if owned s then Undefined RelockOwned else Returns tt (set_owned true s).

(** [meanwhile] is what other threads do to the object during the sleep. *)
Fixpoint acquire_lock (turns : nat) (meanwhile : M LmSt unit) (tx_id : TransactionId)
    (key : MultiLevelKey) (type : LockType.t) (timeout : Z) : M LmSt (Result LockId) :=
  match turns with
  | 0 => undefined OutOfFuel
  | S turns => guarded (
      now ← lm_now;
      let deadline := (now + timeout * ns_per_ms)%Z in
      conflict ← gets (λ s : LmSt,
        find_conflict (default [] (key_locks_ s.2 !! key)) (locks_ s.2) tx_id type);
      match conflict with
      | Some existing_lock =>
          _ ← on_lm (add_wait tx_id (lock_tx existing_lock));
          cycle ← gets (λ s : LmSt, find_cycle_in_wait_graph (wait_graph_ s.2) tx_id);
          match cycle with
          | None => undefined OutOfFuel
          | Some cycle =>
          if negb (bool_decide (cycle = [])) then
            _ ← on_lm (remove_wait tx_id (lock_tx existing_lock));
            mret (RErr Status.DEADLOCK_DETECTED
                    ("Deadlock detected involving transaction " +:+ pretty tx_id))
          else
          _ ← unlock_mutex;
          _ ← meanwhile;
          _ ← lock_mutex;
          now ← lm_now;
          if (deadline <? now)%Z then
            referenced ← gets (λ s : LmSt, locks_ s.2 !! lock_id existing_lock);
            match referenced with
            | None => undefined Dangling
            | Some existing_lock =>
                _ ← on_lm (remove_wait tx_id (lock_tx existing_lock));
                mret (RErr Status.TIMEOUT
                        ("Lock acquisition timeout for transaction " +:+ pretty tx_id))
            end
          else
          now ← lm_now;
          acquire_lock turns meanwhile tx_id key type (Z.quot (deadline - now) ns_per_ms)
          end
      | None =>
          id ← generate_lock_id;
          let lock_info := MkLock id type tx_id key now timeout in
          _ ← on_lm (insert_lock lock_info);
          _ ← on_lm (λ m, set_graph (delete tx_id (wait_graph_ m)) m);
          mret (ROk id)
      end)
  end.

Definition release_lock (id : LockId) : M LmSt (Result unit) := guarded (
  found ← gets (λ s : LmSt, locks_ s.2 !! id);
  match found with
  | None => mret (RErr Status.NOT_FOUND ("Lock not found: " +:+ id))
  | Some lock_info =>
      _ ← on_lm (delete_lock lock_info id);
      mret (ROk tt)
  end).

Definition release_all_locks (tx_id : TransactionId) : M LmSt (Result unit) := guarded (
  found ← gets (λ s : LmSt, transaction_locks_ s.2 !! tx_id);
  match found with
  | None => mret (ROk tt)
  | Some lock_ids =>
      _ ← mfor (λ id, _ ← release_lock id; mret tt) (order_locks lock_ids);
      _ ← on_lm (λ m, set_graph (delete tx_id (wait_graph_ m)) m);
      mret (ROk tt)
  end).

Definition is_locked (key : MultiLevelKey) : M LmSt bool := guarded (gets (λ s : LmSt,
  match key_locks_ s.2 !! key with
  | Some ids => negb (bool_decide (ids = []))
  | None => false
  end)).

Definition can_acquire_lock (key : MultiLevelKey) (type : LockType.t) : M LmSt bool :=
  guarded (gets (λ s : LmSt,
  match key_locks_ s.2 !! key with
  | None => true
  | Some ids =>
      forallb (λ id, match locks_ s.2 !! id with
                     | Some l => is_lock_compatible (lock_type l) type
                     | None => true
                     end) ids
  end)).

Definition get_locks_by_transaction (tx_id : TransactionId) : M LmSt (list LockInfo) :=
  guarded (gets (λ s : LmSt,
  match transaction_locks_ s.2 !! tx_id with
  | Some ids => omap (λ id, locks_ s.2 !! id) (order_locks ids)
  | None => []
  end)).

Fixpoint detect_loop (g : gmap TransactionId (gset TransactionId))
    (nodes : list TransactionId) (visited : gset TransactionId)
    (deadlocks : list (list TransactionId)) : option (list (list TransactionId)) :=
  match nodes with
  | [] => Some deadlocks
  | tx_id :: nodes =>
      if decide (tx_id ∈ visited) then detect_loop g nodes visited deadlocks
      else
        cycle ← find_cycle_in_wait_graph g tx_id;
        if bool_decide (cycle = []) then detect_loop g nodes visited deadlocks
        else detect_loop g nodes (list_to_set cycle ∪ visited) (deadlocks ++ [cycle])
  end.

Definition detect_deadlocks : M LmSt (list (list TransactionId)) :=
  guarded (
    deadlocks ← gets (λ s : LmSt,
      detect_loop (wait_graph_ s.2) (order_tx (dom (wait_graph_ s.2))) ∅ []);
    match deadlocks with
    | None => undefined OutOfFuel
    | Some deadlocks => mret deadlocks
    end).

Definition resolve_deadlock (deadlock_cycle : list TransactionId) : M LmSt (Result unit) :=
  match deadlock_cycle with
  | [] => mret (RErr Status.INVALID_ARGUMENT "Empty deadlock cycle")
  | tx :: txs => release_all_locks (foldl N.max tx txs)
  end.

(** The loop that collects the expired locks; [is_expired] reads the clock. *)
Fixpoint collect_expired (ids : list LockId) (expired_locks : list LockId) :
    M LmSt (list LockId) :=
  match ids with
  | [] => mret expired_locks
  | id :: ids =>
      found ← gets (λ s : LmSt, locks_ s.2 !! id);
      match found with
      | None => collect_expired ids expired_locks
      | Some lock_info =>
          now ← lm_now;
          collect_expired ids
            (if lock_is_expired now lock_info then expired_locks ++ [id] else expired_locks)
      end
  end.

Definition cleanup_expired_locks : M LmSt unit := guarded (
  ids ← gets (λ s : LmSt, order_locks (dom (locks_ s.2)));
  expired_locks ← collect_expired ids [];
  mfor (λ id, _ ← release_lock id; mret tt) expired_locks).
End lock_manager.

(** ** The search finds the cycles *)

(** [u] waits for [v]. *)
Definition waits (g : gmap TransactionId (gset TransactionId)) (u v : TransactionId) : Prop :=
  v ∈ default ∅ (g !! u).

(** Somebody [u] waits for, directly or not, waits for itself. *)
Definition meets_cycle (g : gmap TransactionId (gset TransactionId)) (u : TransactionId) : Prop :=
  ∃ x, rtc (waits g) u x ∧ tc (waits g) x x.

Definition acyclic (g : gmap TransactionId (gset TransactionId)) : Prop :=
  ∀ x, ¬ tc (waits g) x x.

(** An enumeration of the elements of a set. *)
Definition enumerates {A} `{Countable A} (order : gset A → list A) : Prop :=
  ∀ s x, x ∈ order s ↔ x ∈ s.

Section search.
Context (order_tx : gset TransactionId → list TransactionId).
Context (Horder : enumerates order_tx).
Context (g : gmap TransactionId (gset TransactionId)).

Lemma elem_of_waits_for u v : v ∈ waits_for order_tx g u ↔ waits g u v.
Proof.
  unfold waits_for, waits. destruct (g !! u) as [s|]; cbn; [apply Horder|].
  set_solver.
Qed.

(** What holds between two steps of the search: the stack and the path agree,
    every node of the path reaches its end, and the nodes done with are closed
    under waiting and on no cycle. *)
Record dfs_inv (st : dfs_state) : Prop := {
  inv_path : ∀ x, x ∈ rec_stack st ↔ x ∈ path st;
  inv_visited : rec_stack st ⊆ visited st;
  inv_reach : ∀ x l, x ∈ path st → last (path st) = Some l → rtc (waits g) x l;
  inv_closed : ∀ b n, b ∈ visited st → b ∉ rec_stack st → waits g b n →
               n ∈ visited st ∧ n ∉ rec_stack st;
  inv_acyclic : ∀ b, b ∈ visited st → b ∉ rec_stack st → ¬ tc (waits g) b b
}.

Lemma done_closed st b x :
  dfs_inv st → b ∈ visited st → b ∉ rec_stack st → rtc (waits g) b x →
  x ∈ visited st ∧ x ∉ rec_stack st.
Proof.
  intros Hi Hb1 Hb2 H. induction H as [|b y x Hby _ IH]; [done|].
  destruct (inv_closed _ Hi _ _ Hb1 Hb2 Hby). auto.
Qed.

(** What exploring [node] from [st] promises. *)
Definition explored (node : TransactionId) (st : dfs_state) (r : bool * dfs_state) : Prop :=
  let '(found, st') := r in
  if found then meets_cycle g node ∧ path st' ≠ []
  else dfs_inv st' ∧ path st' = path st ∧ rec_stack st' = rec_stack st ∧
       visited st ⊆ visited st' ∧ node ∈ visited st'.

(** The conditions under which the search calls itself. *)
Record explorable (turns : nat) (U : gset TransactionId) (node : TransactionId)
    (st : dfs_state) : Prop := {
  exp_inv : dfs_inv st;
  exp_new : node ∉ visited st;
  exp_link : ∀ l, last (path st) = Some l → waits g l node;
  exp_node : node ∈ U;
  exp_turns : size (U ∖ visited st) ≤ turns
}.

Lemma dfs_enter_inv node st :
  dfs_inv st → node ∉ visited st → (∀ l, last (path st) = Some l → waits g l node) →
  dfs_inv (dfs_enter node st).
Proof.
  intros [Hp Hv Hr Hc Ha] Hn Hl. split; cbn.
  - intros x. rewrite elem_of_union, elem_of_app, Hp. set_solver.
  - set_solver.
  - intros x l Hx. rewrite last_snoc. intros [= <-].
    apply elem_of_app in Hx as [Hx| ->%list_elem_of_singleton]; [|done].
    destruct (last (path st)) as [l|] eqn:El.
    + eapply rtc_r; [by apply (Hr x l)|by apply Hl].
    + apply last_None in El. rewrite El in Hx. set_solver.
  - intros b n Hb1 Hb2 Hbn. destruct (Hc b n) as [? ?]; [set_solver..|done|].
    split; [set_solver|]. intros [->%elem_of_singleton|?]%elem_of_union; done.
  - intros b Hb1 Hb2. apply Ha; set_solver.
Qed.

Lemma dfs_loop_explored explore turns U node ns st :
  dfs_inv st → last (path st) = Some node → (∀ n, n ∈ ns → waits g node n ∧ n ∈ U) →
  size (U ∖ visited st) ≤ turns →
  (∀ n st, explorable turns U n st → ∃ r, explore n st = Some r ∧ explored n st r) →
  ∃ found st', dfs_loop explore ns st = Some (found, st') ∧
    if found then meets_cycle g node ∧ path st' ≠ []
    else dfs_inv st' ∧ path st' = path st ∧ rec_stack st' = rec_stack st ∧
         visited st ⊆ visited st' ∧ ∀ n, n ∈ ns → n ∈ visited st' ∧ n ∉ rec_stack st'.
Proof.
  intros Hi Hlast Hns Hsize Hex. revert st Hi Hlast Hsize.
  induction ns as [|n ns IH]; intros st Hi Hlast Hsize; cbn [dfs_loop].
  { exists false, st. split; [done|]. split_and!; [done..|]. intros n Hn. by apply not_elem_of_nil in Hn. }
  destruct (Hns n) as [Hwait HnU]; [by left|].
  assert (∀ m, m ∈ ns → waits g node m ∧ m ∈ U) as Hns' by (intros m ?; apply Hns; by right).
  case_decide as Hstack.
  { exists true, st. split; [done|]. split; [|by intros E; rewrite E in Hlast].
    exists node. split; [done|]. apply (inv_path _ Hi) in Hstack.
    eapply tc_rtc_r; [by apply tc_once|]. by eapply inv_reach. }
  case_decide as Hvis.
  - destruct (Hex n st) as ([[] st1] & E & He);
      [split; try done; intros l; rewrite Hlast; by intros [= <-]|..];
      rewrite E; cbn.
    + exists true, st1. split; [done|]. destruct He as [(x & Hx & Hcyc) ?]. split; [|done].
      exists x. split; [by eapply rtc_l|done].
    + destruct He as (Hi1 & Hp1 & Hr1 & Hv1 & Hn1).
      destruct (IH Hns' st1) as (found & st2 & E2 & H2); [done|by rewrite Hp1|..].
      { etrans; [|exact Hsize]. apply subseteq_size. set_solver +Hv1. }
      exists found, st2. split; [done|]. destruct found; [done|].
      destruct H2 as (Hi2 & Hp2 & Hr2 & Hv2 & Hall). split_and!; [done|congruence..|set_solver +Hv1 Hv2|].
      intros m [->|Hm]%elem_of_cons; [|by apply Hall].
      split; [set_solver +Hn1 Hv2|]. by rewrite Hr2, Hr1.
  - destruct (IH Hns' st Hi Hlast Hsize) as (found & st2 & E2 & H2).
    exists found, st2. split; [done|]. destruct found; [done|].
    destruct H2 as (Hi2 & Hp2 & Hr2 & Hv2 & Hall). split_and!; [done..|].
    intros m [->|Hm]%elem_of_cons; [|by apply Hall].
    split; [|by rewrite Hr2]. apply Hv2. by destruct (decide (n ∈ visited st)).
Qed.

Lemma tc_first_step {A} (R : relation A) x y : tc R x y → ∃ z, R x z ∧ rtc R z y.
Proof.
  intros H. destruct H as [x y Hxy|x y z Hxy Hyz]; [by exists y|].
  exists y. split; [done|by apply tc_rtc].
Qed.

Lemma dfs_leave_inv node st st' :
  dfs_inv st → node ∉ visited st → dfs_inv st' →
  path st' = path (dfs_enter node st) → rec_stack st' = rec_stack (dfs_enter node st) →
  visited (dfs_enter node st) ⊆ visited st' →
  (∀ n, waits g node n → n ∈ visited st' ∧ n ∉ rec_stack st') →
  explored node st (false, dfs_leave node st').
Proof.
  intros Hi Hn Hi' Hp Hr Hv Hall. cbn in Hp, Hr, Hv.
  assert (node ∉ rec_stack st) as Hns by (intros ?; by apply Hn, (inv_visited _ Hi)).
  assert (rec_stack st' ∖ {[node]} = rec_stack st) as Hrec by (rewrite Hr; set_solver).
  assert (removelast (path st') = path st) as Hpath by (rewrite Hp; apply removelast_last).
  unfold explored, dfs_leave. cbn. rewrite Hrec, Hpath.
  split_and!; [|done|done|set_solver|set_solver].
  split; cbn.
  - apply Hi.
  - etrans; [apply Hi|]. set_solver.
  - apply Hi.
  - intros b n Hb1 Hb2 Hbn. destruct (decide (b = node)) as [->|Hne].
    + destruct (Hall n Hbn) as [? Hnr]. rewrite Hr in Hnr. set_solver.
    + destruct (inv_closed _ Hi' b n) as [? Hnr]; [done|rewrite Hr; set_solver|done|].
      rewrite Hr in Hnr. set_solver.
  - intros b Hb1 Hb2. destruct (decide (b = node)) as [->|Hne].
    + intros Hcyc. apply tc_first_step in Hcyc as (n & Hbn & Hback).
      destruct (Hall n Hbn) as [Hn1 Hn2].
      destruct (done_closed st' n node) as [_ Hnot]; [done..|]. apply Hnot. rewrite Hr. set_solver.
    + apply (inv_acyclic _ Hi'); [done|]. rewrite Hr. set_solver.
Qed.

Lemma dfs_explored turns U node st :
  (∀ u v, u ∈ U → waits g u v → v ∈ U) → explorable turns U node st →
  ∃ r, dfs order_tx turns g node st = Some r ∧ explored node st r.
Proof.
  intros HU. revert node st. induction turns as [|turns IH]; intros node st [Hi Hn Hl HnU Hs].
  { apply Nat.le_0_r, size_empty_inv in Hs. set_solver. }
  cbn [dfs]. pose proof (dfs_enter_inv node st Hi Hn Hl) as Hi1.
  destruct (dfs_loop_explored (dfs order_tx turns g) turns U node (waits_for order_tx g node)
    (dfs_enter node st)) as (found & st' & E & H).
  - done.
  - cbn. apply last_snoc.
  - intros n Hw%elem_of_waits_for. split; [done|]. by eapply HU.
  - cbn. assert (U ∖ ({[node]} ∪ visited st) ⊂ U ∖ visited st) as Hsub by set_solver.
    apply subset_size in Hsub. lia.
  - intros n st1 Hexp. by apply IH.
  - rewrite E. cbn. destruct found; [by eexists|]. eexists. split; [done|].
    destruct H as (Hi' & Hp & Hr & Hv & Hall). apply (dfs_leave_inv node st st'); try done.
    intros n Hw. apply Hall. by apply elem_of_waits_for.
Qed.

Lemma waits_in_nodes start u v : waits g u v → v ∈ graph_nodes g start.
Proof.
  unfold waits, graph_nodes. destruct (g !! u) as [s|] eqn:E; [|set_solver]. cbn. intros Hv.
  apply elem_of_union_r. apply elem_of_union_list. exists s. split; [|done].
  apply list_elem_of_fmap. exists (u, s). split; [done|]. by apply elem_of_map_to_list.
Qed.

Lemma find_cycle_meets start :
  ∃ path, find_cycle_in_wait_graph order_tx g start = Some path ∧
    (path ≠ [] ↔ meets_cycle g start).
Proof.
  unfold find_cycle_in_wait_graph.
  destruct (dfs_explored (S (size (graph_nodes g start))) (graph_nodes g start) start
    (MkDfs ∅ ∅ [])) as ([found st'] & E & H).
  - intros u v _. apply waits_in_nodes.
  - split; cbn.
    + split; cbn; set_solver.
    + set_solver.
    + done.
    + unfold graph_nodes. set_solver.
    + rewrite difference_empty_L. lia.
  - rewrite E. cbn. eexists. split; [reflexivity|]. destruct found; cbn in H; [naive_solver|].
    destruct H as (Hi & _ & Hr & _ & Hv). split; [done|].
    intros (x & Hx & Hcyc). destruct (done_closed st' start x) as [H1 H2]; [done..|by rewrite Hr|done|].
    exfalso. by apply (inv_acyclic _ Hi x).
Qed.
End search.

(** ** Acyclic wait graphs *)

Lemma waits_mono g g' x y :
  (∀ u v, waits g u v → waits g' u v) → tc (waits g) x y → tc (waits g') x y.
Proof.
  intros Hsub H. induction H as [x y Hxy|x y z Hxy _ IH]; [by apply tc_once, Hsub|].
  by eapply tc_l; [apply Hsub|].
Qed.

Lemma acyclic_mono g g' :
  (∀ u v, waits g u v → waits g' u v) → acyclic g' → acyclic g.
Proof. intros Hsub Ha x Hx. by apply (Ha x), (waits_mono g). Qed.

Lemma waits_insert g u v tx s :
  waits (<[tx := s]> g) u v ↔ if decide (u = tx) then v ∈ s else waits g u v.
Proof.
  unfold waits. case_decide as Hu; [subst; by rewrite lookup_insert_eq|].
  by rewrite lookup_insert_ne.
Qed.

Lemma waits_delete g u v tx : waits (delete tx g) u v → waits g u v.
Proof.
  unfold waits. destruct (decide (u = tx)) as [->|]; [rewrite lookup_delete_eq; set_solver|].
  by rewrite lookup_delete_ne.
Qed.

Lemma waits_remove tx holder m u v :
  waits (wait_graph_ (remove_wait tx holder m)) u v → waits (wait_graph_ m) u v.
Proof.
  unfold remove_wait. cbn. rewrite waits_insert. case_decide; [|done].
  subst. unfold waits. set_solver.
Qed.

Lemma waits_add tx holder m u v :
  waits (wait_graph_ (add_wait tx holder m)) u v ↔
  (u = tx ∧ v = holder) ∨ waits (wait_graph_ m) u v.
Proof.
  unfold add_wait. cbn. rewrite waits_insert. case_decide as Hu.
  - subst. unfold waits. set_solver.
  - naive_solver.
Qed.

Lemma waits_remove_add tx holder m u v :
  waits (wait_graph_ (remove_wait tx holder (add_wait tx holder m))) u v →
  waits (wait_graph_ m) u v.
Proof.
  unfold remove_wait, add_wait. cbn. rewrite !waits_insert, lookup_insert_eq. cbn.
  destruct (decide (u = tx)) as [->|Hne].
  - unfold waits. set_solver.
  - by rewrite waits_insert, decide_False.
Qed.

(** A new edge out of [tx] can only close a cycle that [tx] meets. *)
Lemma acyclic_add tx holder m :
  acyclic (wait_graph_ m) → ¬ meets_cycle (wait_graph_ (add_wait tx holder m)) tx →
  acyclic (wait_graph_ (add_wait tx holder m)).
Proof.
  intros Ha Hno x Hx. set (g := wait_graph_ m) in *.
  set (g' := wait_graph_ (add_wait tx holder m)) in *.
  assert (∀ u v, waits g' u v → (u = tx ∧ v = holder) ∨ waits g u v) as Hadd
    by (intros u v; apply waits_add).
  assert (∀ u v, tc (waits g') u v →
    tc (waits g) u v ∨ (rtc (waits g') u tx ∧ tc (waits g') tx v)) as H.
  { intros u v Huv. induction Huv as [u v Huv|u v w Huv Hvw IH].
    - destruct (Hadd _ _ Huv) as [[-> ->]|?]; [right|left; by apply tc_once].
      split; [done|by apply tc_once].
    - destruct (Hadd _ _ Huv) as [[-> ->]|Hg]; [right; split; [done|by eapply tc_l]|].
      destruct IH as [?|[Hr Ht]]; [left; by eapply tc_l|]. right.
      split; [by eapply rtc_l|done]. }
  destruct (H x x Hx) as [Hc|[Hr Ht]]; [by apply (Ha x)|].
  apply Hno. exists tx. split; [done|]. by eapply tc_rtc_r.
Qed.

(** ** The lock tables *)

Record tables_inv (m : LockManager) : Prop := {
  tab_id : ∀ id l, locks_ m !! id = Some l → lock_id l = id;
  tab_key : ∀ id l, locks_ m !! id = Some l →
    ∃ ids, key_locks_ m !! lock_key l = Some ids ∧ id ∈ ids;
  tab_tx : ∀ id l, locks_ m !! id = Some l →
    ∃ s, transaction_locks_ m !! lock_tx l = Some s ∧ id ∈ s;
  tab_lists : ∀ k ids, key_locks_ m !! k = Some ids →
    ids ≠ [] ∧ NoDup ids ∧ ∀ id, id ∈ ids → ∃ l, locks_ m !! id = Some l ∧ lock_key l = k;
  tab_sets : ∀ tx s, transaction_locks_ m !! tx = Some s →
    s ≠ ∅ ∧ ∀ id, id ∈ s → ∃ l, locks_ m !! id = Some l ∧ lock_tx l = tx;
  tab_names : ∀ id l, locks_ m !! id = Some l →
    ∃ n, id = lock_name n ∧ (n < next_lock_id_ m)%N;
  tab_exclusion : ∀ i j a b, locks_ m !! i = Some a → locks_ m !! j = Some b →
    lock_key a = lock_key b → lock_tx a ≠ lock_tx b →
    is_lock_compatible (lock_type a) (lock_type b) = true
}.

(** The whole invariant; it holds between any two calls. *)
Record lm_inv (m : LockManager) : Prop := {
  lmi_tables : tables_inv m;
  lmi_acyclic : acyclic (wait_graph_ m)
}.

#[export] Instance lock_name_inj : Inj (=) (=) lock_name.
Proof. intros a b H. unfold lock_name in H. by simplify_eq. Qed.

Lemma find_conflict_None ids locks tx ty :
  find_conflict ids locks tx ty = None →
  ∀ id l, id ∈ ids → locks !! id = Some l →
  lock_tx l = tx ∨ is_lock_compatible (lock_type l) ty = true.
Proof.
  induction ids as [|i ids IH]; intros H id l Hin Hl; [by apply not_elem_of_nil in Hin|].
  cbn [find_conflict] in H. apply elem_of_cons in Hin as [->|Hin].
  - rewrite Hl in H. case_bool_decide; [by left|].
    destruct (is_lock_compatible _ _) eqn:E; [by right|done].
  - destruct (locks !! i) as [l'|]; [|by eapply IH].
    case_bool_decide; [by eapply IH|]. destruct (negb _); [done|by eapply IH].
Qed.

Lemma find_conflict_Some ids locks tx ty e :
  find_conflict ids locks tx ty = Some e →
  ∃ id, id ∈ ids ∧ locks !! id = Some e ∧ lock_tx e ≠ tx ∧
        is_lock_compatible (lock_type e) ty = false.
Proof.
  induction ids as [|i ids IH]; intros H; [done|]. cbn [find_conflict] in H.
  assert (find_conflict ids locks tx ty = Some e →
    ∃ id, id ∈ i :: ids ∧ locks !! id = Some e ∧ lock_tx e ≠ tx ∧
          is_lock_compatible (lock_type e) ty = false) as Hrec.
  { intros (id & Hid & ?)%IH. exists id. split; [by right|done]. }
  destruct (locks !! i) as [l|] eqn:Hl; [|auto].
  case_bool_decide; [auto|]. destruct (is_lock_compatible (lock_type l) ty) eqn:Ec; [auto|].
  injection H as ->. exists i. split; [by left|done].
Qed.

Lemma tables_inv_graph g m : tables_inv m → tables_inv (set_graph g m).
Proof. intros []. by split. Qed.

Lemma tables_inv_mutex b m : tables_inv m → tables_inv (set_lm_mutex b m).
Proof. intros []. by split. Qed.

Lemma lm_inv_mutex b m : lm_inv m → lm_inv (set_lm_mutex b m).
Proof. intros []. split; [by apply tables_inv_mutex|done]. Qed.

(** The manager once a request is granted at the clock reading [now]. *)
Definition granted_lock (m : LockManager) (tx : TransactionId) (key : MultiLevelKey)
    (ty : LockType.t) (now timeout : Z) : LockInfo :=
  MkLock (lock_name (next_lock_id_ m)) ty tx key now timeout.

Definition granted (m : LockManager) (tx : TransactionId) (key : MultiLevelKey)
    (ty : LockType.t) (now timeout : Z) : LockManager :=
  set_graph (delete tx (wait_graph_ m))
    (insert_lock (granted_lock m tx key ty now timeout)
       (set_next_id (wrap64 (next_lock_id_ m + 1)) m)).

Lemma fresh_lock_name m : tables_inv m → locks_ m !! lock_name (next_lock_id_ m) = None.
Proof.
  intros Hi. destruct (locks_ m !! _) as [l|] eqn:E; [|done].
  destruct (tab_names _ Hi _ _ E) as (n & ->%(inj _) & ?). lia.
Qed.

Section granting.
Context (m : LockManager) (tx : TransactionId) (key : MultiLevelKey) (ty : LockType.t).
Context (now timeout : Z) (Hi : tables_inv m).
Let m' := granted m tx key ty now timeout.

Ltac granted_cbn := cbn [m' locks_ key_locks_ transaction_locks_ next_lock_id_ granted set_graph
  insert_lock set_tables set_next_id granted_lock lock_id lock_key lock_tx lock_type].

Lemma granted_old id l : locks_ m !! id = Some l → locks_ m' !! id = Some l.
Proof.
  intros Hl. granted_cbn. rewrite lookup_insert_ne; [done|]. intros <-.
  by rewrite (fresh_lock_name _ Hi) in Hl.
Qed.

Lemma granted_lists k ids :
  key_locks_ m' !! k = Some ids →
  ids ≠ [] ∧ NoDup ids ∧ ∀ id, id ∈ ids → ∃ l, locks_ m' !! id = Some l ∧ lock_key l = k.
Proof.
  granted_cbn. rewrite lookup_insert. case_decide as Hk.
  - intros [= <-]. subst k. split; [by destruct (default _ _)|].
    destruct (key_locks_ m !! key) as [ids|] eqn:E; cbn [default].
    + destruct (tab_lists _ Hi _ _ E) as (_ & Hnd & Hin). split.
      * apply NoDup_app. split; [done|]. split; [|apply NoDup_singleton].
        intros id (l & Hl & _)%Hin ->%list_elem_of_singleton.
        by rewrite (fresh_lock_name _ Hi) in Hl.
      * intros id [(l & Hl & ?)%Hin| ->%list_elem_of_singleton]%elem_of_app.
        -- exists l. split; [by apply granted_old|done].
        -- eexists. by rewrite lookup_insert_eq.
    + split; [apply NoDup_singleton|]. intros id ->%list_elem_of_singleton.
      eexists. by rewrite lookup_insert_eq.
  - intros E. destruct (tab_lists _ Hi _ _ E) as (? & ? & H). split; [done|]. split; [done|].
    intros id (l & Hl & ?)%H. exists l. split; [by apply granted_old|done].
Qed.

Lemma granted_sets t s :
  transaction_locks_ m' !! t = Some s →
  s ≠ ∅ ∧ ∀ id, id ∈ s → ∃ l, locks_ m' !! id = Some l ∧ lock_tx l = t.
Proof.
  granted_cbn. rewrite lookup_insert. case_decide as Ht.
  - intros [= <-]. subst t. split; [set_solver|].
    intros id [->%elem_of_singleton|Hid]%elem_of_union; [eexists; by rewrite lookup_insert_eq|].
    destruct (transaction_locks_ m !! tx) as [s|] eqn:E; [|set_solver].
    destruct (tab_sets _ Hi _ _ E) as [_ H]. destruct (H _ Hid) as (l & Hl & ?).
    exists l. split; [by apply granted_old|done].
  - intros E. destruct (tab_sets _ Hi _ _ E) as (? & H). split; [done|].
    intros id (l & Hl & ?)%H. exists l. split; [by apply granted_old|done].
Qed.

Lemma granted_exclusion i j a b :
  find_conflict (default [] (key_locks_ m !! key)) (locks_ m) tx ty = None →
  locks_ m' !! i = Some a → locks_ m' !! j = Some b →
  lock_key a = lock_key b → lock_tx a ≠ lock_tx b →
  is_lock_compatible (lock_type a) (lock_type b) = true.
Proof.
  intros Hfree. pose proof (find_conflict_None _ _ _ _ Hfree) as Hcompat.
  assert (∀ id l, locks_ m !! id = Some l → lock_key l = key →
    id ∈ default [] (key_locks_ m !! key)) as Hlisted.
  { intros id l Hl <-. destruct (tab_key _ Hi _ _ Hl) as (ids & -> & ?). done. }
  granted_cbn. rewrite !lookup_insert.
  destruct (decide (lock_name (next_lock_id_ m) = i)) as [Hni|Hni],
    (decide (lock_name (next_lock_id_ m) = j)) as [Hnj|Hnj];
    intros Ha Hb Hk Ht; simplify_eq; cbn [granted_lock lock_key lock_tx lock_type] in *.
  - rewrite is_lock_compatible_sym.
    destruct (Hcompat j b) as [?|?]; [by eapply Hlisted|done|congruence|done].
  - destruct (Hcompat i a) as [?|?]; [by eapply Hlisted|done|congruence|done].
  - by eapply (tab_exclusion _ Hi i j).
Qed.

Lemma granted_tables :
  (next_lock_id_ m + 1 < 2 ^ 64)%N →
  find_conflict (default [] (key_locks_ m !! key)) (locks_ m) tx ty = None →
  tables_inv m'.
Proof.
  intros Hnext Hfree. split.
  - intros id l. granted_cbn. rewrite lookup_insert. case_decide; [by intros [= <-]|apply Hi].
  - intros id l. granted_cbn. rewrite lookup_insert. case_decide as Hn.
    + intros [= <-]. eexists. cbn [lock_key]. rewrite lookup_insert_eq. split; [done|set_solver].
    + intros Hl. destruct (tab_key _ Hi _ _ Hl) as (ids & Hk & Hin).
      rewrite lookup_insert. case_decide as Hkey; [|eauto]. eexists. split; [done|].
      rewrite Hkey, Hk. cbn. set_solver.
  - intros id l. granted_cbn. rewrite lookup_insert. case_decide as Hn.
    + intros [= <-]. eexists. cbn [lock_tx]. rewrite lookup_insert_eq. split; [done|set_solver].
    + intros Hl. destruct (tab_tx _ Hi _ _ Hl) as (s & Ht & Hin).
      rewrite lookup_insert. case_decide as Htx; [|eauto]. eexists. split; [done|].
      rewrite Htx, Ht. cbn. set_solver.
  - apply granted_lists.
  - apply granted_sets.
  - intros id l. granted_cbn. rewrite lookup_insert, wrap64_small by done. case_decide as Hn.
    + intros _. exists (next_lock_id_ m). split; [done|lia].
    + intros Hl. destruct (tab_names _ Hi _ _ Hl) as (k & -> & ?). exists k. split; [done|lia].
  - intros i j a b. by apply granted_exclusion.
Qed.
End granting.

Section deleting.
Context (m : LockManager) (id : LockId) (l : LockInfo).
Context (Hi : tables_inv m) (Hl : locks_ m !! id = Some l).

(** Uniformly over the keys: a list that becomes empty disappears. *)
Lemma delete_lock_key k ids' :
  key_locks_ (delete_lock l id m) !! k = Some ids' ↔
  ∃ ids, key_locks_ m !! k = Some ids ∧ ids' = filter (λ x, x ≠ id) ids ∧ ids' ≠ [].
Proof.
  cbn [delete_lock set_tables key_locks_].
  destruct (tab_key _ Hi _ _ Hl) as (v & Hv & Hin). rewrite Hv.
  destruct (decide (k = lock_key l)) as [->|Hne].
  - rewrite Hv. case_bool_decide as He.
    + rewrite lookup_delete_eq. naive_solver.
    + rewrite lookup_insert_eq. naive_solver.
  - assert ((if bool_decide (filter (λ x, x ≠ id) v = []) then delete (lock_key l) (key_locks_ m)
      else <[lock_key l := filter (λ x, x ≠ id) v]> (key_locks_ m)) !! k = key_locks_ m !! k)
      as -> by (case_bool_decide; [by rewrite lookup_delete_ne|by rewrite lookup_insert_ne]).
    split.
    + intros E. destruct (tab_lists _ Hi _ _ E) as (Hn & _ & Hall). exists ids'.
      split; [done|]. split; [|done]. symmetry. apply filter_all. intros x Hx ->.
      destruct (Hall _ Hx) as (l' & Hl' & Hk). congruence.
    + intros (ids & E & -> & _). rewrite E. f_equal. symmetry. apply filter_all.
      intros x Hx ->. destruct (tab_lists _ Hi _ _ E) as (_ & _ & Hall).
      destruct (Hall _ Hx) as (l' & Hl' & Hk). congruence.
Qed.

Lemma delete_lock_tx tx s' :
  transaction_locks_ (delete_lock l id m) !! tx = Some s' ↔
  ∃ s, transaction_locks_ m !! tx = Some s ∧ s' = s ∖ {[id]} ∧ s' ≠ ∅.
Proof.
  cbn [delete_lock set_tables transaction_locks_].
  destruct (tab_tx _ Hi _ _ Hl) as (v & Hv & Hin). rewrite Hv.
  destruct (decide (tx = lock_tx l)) as [->|Hne].
  - rewrite Hv. case_bool_decide as He.
    + rewrite lookup_delete_eq. naive_solver.
    + rewrite lookup_insert_eq. naive_solver.
  - assert ((if bool_decide (v ∖ {[id]} = ∅) then delete (lock_tx l) (transaction_locks_ m)
      else <[lock_tx l := v ∖ {[id]}]> (transaction_locks_ m)) !! tx = transaction_locks_ m !! tx)
      as -> by (case_bool_decide; [by rewrite lookup_delete_ne|by rewrite lookup_insert_ne]).
    assert (∀ s, transaction_locks_ m !! tx = Some s → id ∉ s) as Hnot.
    { intros s E Hx. destruct (tab_sets _ Hi _ _ E) as (_ & Hall).
      destruct (Hall _ Hx) as (l' & Hl' & Ht). congruence. }
    split.
    + intros E. exists s'. split; [done|]. pose proof (Hnot _ E).
      split; [set_solver|apply (tab_sets _ Hi _ _ E)].
    + intros (s & E & -> & _). rewrite E. f_equal. pose proof (Hnot _ E). set_solver.
Qed.

Lemma delete_lock_tables : tables_inv (delete_lock l id m).
Proof.
  assert (∀ i a, locks_ (delete_lock l id m) !! i = Some a → i ≠ id ∧ locks_ m !! i = Some a)
    as Hlocks by (intros i a; cbn; by rewrite lookup_delete_Some; naive_solver).
  split.
  - intros i a [_ Ha]%Hlocks. by apply Hi.
  - intros i a [Hne Ha]%Hlocks. destruct (tab_key _ Hi _ _ Ha) as (ids & Hk & Hin).
    assert (i ∈ filter (λ x, x ≠ id) ids) as Hin' by (by apply list_elem_of_filter).
    exists (filter (λ x, x ≠ id) ids). split; [|done]. apply delete_lock_key.
    exists ids. split; [done|]. split; [done|]. intros E. rewrite E in Hin'. set_solver.
  - intros i a [Hne Ha]%Hlocks. destruct (tab_tx _ Hi _ _ Ha) as (s & Ht & Hin).
    exists (s ∖ {[id]}). split; [|set_solver]. apply delete_lock_tx.
    exists s. split; [done|]. split; [done|]. set_solver.
  - intros k ids' (ids & E & -> & Hn)%delete_lock_key. split; [done|].
    destruct (tab_lists _ Hi _ _ E) as (_ & Hnd & Hall). split; [by apply NoDup_filter|].
    intros i [Hne Hin]%list_elem_of_filter. destruct (Hall _ Hin) as (a & Ha & Hk).
    exists a. split; [|done]. cbn. by rewrite lookup_delete_ne.
  - intros tx s' (s & E & -> & Hn)%delete_lock_tx. split; [done|].
    destruct (tab_sets _ Hi _ _ E) as (_ & Hall). intros i Hin.
    destruct (Hall i) as (a & Ha & Ht); [set_solver|]. exists a. split; [|done].
    cbn. rewrite lookup_delete_ne; [done|set_solver].
  - intros i a [_ Ha]%Hlocks. by apply (tab_names _ Hi) in Ha.
  - intros i j a b [_ Ha]%Hlocks [_ Hb]%Hlocks. by apply (tab_exclusion _ Hi i j).
Qed.
End deleting.

(** ** The operations one by one *)

Lemma guarded_lm {A} (b : M LmSt A) c m :
  lm_mutex_ m = false →
  guarded b (c, m) =
    match b (c, set_lm_mutex true m) with
    | Returns a s => Returns a (s.1, set_lm_mutex false s.2)
    | Throws n s => Throws n (s.1, set_lm_mutex false s.2)
    | Undefined u => Undefined u
    end.
Proof. intros H. unfold guarded. cbn [owned LockManager_mutex snd]. by rewrite H. Qed.

Lemma lm_now_step c m : lm_now (c, m) = Returns (tick c).1 ((tick c).2, m).
Proof. done. Qed.

Lemma set_lm_mutex_id m b : lm_mutex_ m = b → set_lm_mutex b m = m.
Proof. intros <-. by destruct m. Qed.

Section operations.
Context (order_tx : gset TransactionId → list TransactionId).
Context (order_locks : gset LockId → list LockId).

(** The lock a request for [key] runs into. *)
Definition conflict_of (m : LockManager) (tx : TransactionId) (key : MultiLevelKey)
    (ty : LockType.t) : option LockInfo :=
  find_conflict (default [] (key_locks_ m !! key)) (locks_ m) tx ty.

Lemma acquire_free turns meanwhile tx key ty timeout c m :
  lm_mutex_ m = false → conflict_of m tx key ty = None →
  acquire_lock order_tx (S turns) meanwhile tx key ty timeout (c, m) =
    Returns (ROk (lock_name (next_lock_id_ m)))
      ((tick c).2, granted m tx key ty (tick c).1 timeout).
Proof.
  intros Hm Hc. cbn [acquire_lock]. rewrite guarded_lm by done.
  mstep (lm_now_step c (set_lm_mutex true m)). rewrite M_bind_gets.
  change (find_conflict _ _ tx ty) with (conflict_of m tx key ty). rewrite Hc.
  unfold generate_lock_id, on_lm, lift. unfold mbind, M_bind, modify, mret, M_ret.
  cbn [fst snd]. unfold granted, granted_lock, insert_lock, set_tables, set_graph, set_next_id,
    set_lm_mutex. cbn. by rewrite Hm.
Qed.

Lemma acquire_deadlock turns meanwhile tx key ty timeout c m e path :
  lm_mutex_ m = false → conflict_of m tx key ty = Some e →
  find_cycle_in_wait_graph order_tx (wait_graph_ (add_wait tx (lock_tx e) m)) tx = Some path →
  path ≠ [] →
  acquire_lock order_tx (S turns) meanwhile tx key ty timeout (c, m) =
    Returns (RErr Status.DEADLOCK_DETECTED
               ("Deadlock detected involving transaction " +:+ pretty tx))
      ((tick c).2, remove_wait tx (lock_tx e) (add_wait tx (lock_tx e) m)).
Proof.
  intros Hm Hc Hcyc Hpath. cbn [acquire_lock]. rewrite guarded_lm by done.
  mstep (lm_now_step c (set_lm_mutex true m)). rewrite M_bind_gets.
  change (find_conflict _ _ tx ty) with (conflict_of m tx key ty). rewrite Hc.
  unfold on_lm. rewrite M_bind_modify, M_bind_gets. cbn [fst snd].
  change (wait_graph_ (add_wait ?t ?h (set_lm_mutex true m))) with (wait_graph_ (add_wait t h m)).
  rewrite Hcyc, bool_decide_false by done. cbn [negb]. rewrite M_bind_modify.
  unfold mret, M_ret, add_wait, remove_wait, set_graph, set_lm_mutex. cbn. by rewrite Hm.
Qed.

Lemma acquire_no_turns turns meanwhile tx key ty timeout c m e :
  lm_mutex_ m = false → conflict_of m tx key ty = Some e →
  find_cycle_in_wait_graph order_tx (wait_graph_ (add_wait tx (lock_tx e) m)) tx = None →
  acquire_lock order_tx (S turns) meanwhile tx key ty timeout (c, m) = Undefined OutOfFuel.
Proof.
  intros Hm Hc Hcyc. cbn [acquire_lock]. rewrite guarded_lm by done.
  mstep (lm_now_step c (set_lm_mutex true m)). rewrite M_bind_gets.
  change (find_conflict _ _ tx ty) with (conflict_of m tx key ty). rewrite Hc.
  unfold on_lm. rewrite M_bind_modify, M_bind_gets. cbn [fst snd].
  change (wait_graph_ (add_wait ?t ?h (set_lm_mutex true m))) with (wait_graph_ (add_wait t h m)).
  by rewrite Hcyc.
Qed.

(** A request that has to wait: the sleep, then the deadline, then the
    recursive call with the mutex held, which throws. *)
Lemma acquire_wait turns meanwhile tx key ty timeout c m e :
  lm_mutex_ m = false → conflict_of m tx key ty = Some e →
  find_cycle_in_wait_graph order_tx (wait_graph_ (add_wait tx (lock_tx e) m)) tx = Some [] →
  acquire_lock order_tx (S turns) meanwhile tx key ty timeout (c, m) =
    match meanwhile ((tick c).2, add_wait tx (lock_tx e) m) with
    | Undefined u => Undefined u
    | Throws n (c2, m2) => Throws n (c2, set_lm_mutex false m2)
    | Returns _ (c2, m2) =>
        if lm_mutex_ m2 then Undefined RelockOwned
        else if ((tick c).1 + timeout * ns_per_ms <? (tick c2).1)%Z then
          match locks_ m2 !! lock_id e with
          | None => Undefined Dangling
          | Some e2 =>
              Returns (RErr Status.TIMEOUT
                         ("Lock acquisition timeout for transaction " +:+ pretty tx))
                ((tick c2).2, remove_wait tx (lock_tx e2) m2)
          end
        else match turns with
             | 0 => Undefined OutOfFuel
             | S _ => Throws LockManagerMutex ((tick (tick c2).2).2, m2)
             end
    end.
Proof.
  intros Hm Hc Hcyc. cbn [acquire_lock]. rewrite guarded_lm by done.
  mstep (lm_now_step c (set_lm_mutex true m)). rewrite M_bind_gets.
  change (find_conflict _ _ tx ty) with (conflict_of m tx key ty). rewrite Hc.
  unfold on_lm. rewrite M_bind_modify, M_bind_gets. cbn [fst snd].
  change (wait_graph_ (add_wait ?t ?h (set_lm_mutex true m))) with (wait_graph_ (add_wait t h m)).
  rewrite Hcyc, bool_decide_true by done. cbn [negb].
  unfold unlock_mutex. rewrite M_bind_modify.
  change (set_owned false _) with ((tick c).2, set_lm_mutex false (add_wait tx (lock_tx e) m)).
  rewrite (set_lm_mutex_id _ false) by done.
  destruct (meanwhile _) as [[] [c2 m2]|n [c2 m2]|u] eqn:Hmw;
    [|by rewrite (M_bind_throws _ _ _ _ _ Hmw)|by rewrite (M_bind_undefined _ _ _ _ Hmw)].
  mstep Hmw. destruct (lm_mutex_ m2) eqn:Hm2.
  { rewrite (M_bind_undefined _ _ _ RelockOwned); [done|].
    unfold lock_mutex. cbn [owned LockManager_mutex snd]. by rewrite Hm2. }
  assert (lock_mutex (c2, m2) = Returns tt (c2, set_lm_mutex true m2)) as El
    by (unfold lock_mutex; cbn [owned LockManager_mutex snd]; by rewrite Hm2).
  mstep El. mstep (lm_now_step c2 (set_lm_mutex true m2)).
  destruct (_ <? _)%Z.
  - rewrite M_bind_gets. change (locks_ _ !! lock_id e) with (locks_ m2 !! lock_id e).
    destruct (locks_ m2 !! lock_id e) as [e2|]; [|done].
    rewrite M_bind_modify. unfold mret, M_ret, remove_wait, set_graph, set_lm_mutex. cbn.
    by rewrite Hm2.
  - mstep (lm_now_step (tick c2).2 (set_lm_mutex true m2)).
    destruct turns as [|turns]; [done|]. cbn [acquire_lock]. rewrite guarded_relock by done.
    unfold relock. cbn. unfold set_lm_mutex. cbn. destruct m2; cbn in *. by rewrite Hm2.
Qed.

(** How a request can return. *)
Inductive acquire_outcome (meanwhile : M LmSt unit) (tx : TransactionId)
    (key : MultiLevelKey) (ty : LockType.t) (timeout : Z) (c : Clock) (m : LockManager) :
    Result LockId → LockManager → Prop :=
  | acquire_granted :
      conflict_of m tx key ty = None →
      acquire_outcome meanwhile tx key ty timeout c m
        (ROk (lock_name (next_lock_id_ m))) (granted m tx key ty (tick c).1 timeout)
  | acquire_refused e path :
      conflict_of m tx key ty = Some e →
      find_cycle_in_wait_graph order_tx (wait_graph_ (add_wait tx (lock_tx e) m)) tx =
        Some path →
      path ≠ [] →
      acquire_outcome meanwhile tx key ty timeout c m
        (RErr Status.DEADLOCK_DETECTED
           ("Deadlock detected involving transaction " +:+ pretty tx))
        (remove_wait tx (lock_tx e) (add_wait tx (lock_tx e) m))
  | acquire_timed_out e c2 m2 e2 :
      conflict_of m tx key ty = Some e →
      find_cycle_in_wait_graph order_tx (wait_graph_ (add_wait tx (lock_tx e) m)) tx =
        Some [] →
      meanwhile ((tick c).2, add_wait tx (lock_tx e) m) = Returns tt (c2, m2) →
      acquire_outcome meanwhile tx key ty timeout c m
        (RErr Status.TIMEOUT ("Lock acquisition timeout for transaction " +:+ pretty tx))
        (remove_wait tx (lock_tx e2) m2).

Lemma acquire_returns turns meanwhile tx key ty timeout c m r c' m' :
  acquire_lock order_tx turns meanwhile tx key ty timeout (c, m) = Returns r (c', m') →
  lm_mutex_ m = false ∧ lm_mutex_ m' = false ∧
  acquire_outcome meanwhile tx key ty timeout c m r m'.
Proof.
  destruct turns as [|turns]; [done|]. intros H.
  assert (lm_mutex_ m = false ∧ lm_mutex_ m' = false) as [Hm Hm'].
  { cbn [acquire_lock] in H. by apply guarded_returns_inv in H as (? & ? & _). }
  split; [done|]. split; [done|]. revert H.
  destruct (conflict_of m tx key ty) as [e|] eqn:Hc.
  - destruct (find_cycle_in_wait_graph order_tx (wait_graph_ (add_wait tx (lock_tx e) m)) tx)
      as [[|x path]|] eqn:Hcyc.
    + rewrite (acquire_wait _ _ _ _ _ _ _ _ _ Hm Hc Hcyc).
      destruct (meanwhile _) as [[] [c2 m2]|n [c2 m2]|u] eqn:Hmw; [|done..].
      destruct (lm_mutex_ m2); [done|]. destruct (_ <? _)%Z; [|by destruct turns].
      destruct (locks_ m2 !! lock_id e) as [e2|]; [|done].
      intros [= <- _ <-]. by eapply acquire_timed_out.
    + rewrite (acquire_deadlock _ _ _ _ _ _ _ _ _ _ Hm Hc Hcyc) by done.
      intros [= <- _ <-]. by eapply acquire_refused.
    + by rewrite (acquire_no_turns _ _ _ _ _ _ _ _ _ Hm Hc Hcyc).
  - rewrite (acquire_free _ _ _ _ _ _ _ _ Hm Hc). intros [= <- _ <-]. by apply acquire_granted.
Qed.

Lemma release_lock_ok id l c m :
  lm_mutex_ m = false → locks_ m !! id = Some l →
  release_lock id (c, m) = Returns (ROk tt) (c, delete_lock l id m).
Proof.
  intros Hm Hl. unfold release_lock. rewrite guarded_lm by done. msimpl.
  cbn [locks_ set_lm_mutex]. rewrite Hl. unfold on_lm. rewrite M_bind_modify.
  unfold mret, M_ret, delete_lock, set_tables, set_lm_mutex. cbn. by rewrite Hm.
Qed.

Lemma release_lock_missing id c m :
  lm_mutex_ m = false → locks_ m !! id = None →
  release_lock id (c, m) = Returns (RErr Status.NOT_FOUND ("Lock not found: " +:+ id)) (c, m).
Proof.
  intros Hm Hl. unfold release_lock. rewrite guarded_lm by done. msimpl.
  cbn [locks_ set_lm_mutex]. rewrite Hl. unfold mret, M_ret. cbn [fst snd].
  f_equal. f_equal. unfold set_lm_mutex. cbn. destruct m; cbn in *. by rewrite Hm.
Qed.

(** A request that throws: it waited, and its edge stays in the wait graph. *)
Lemma acquire_throws turns meanwhile tx key ty timeout c m n c' m' :
  lm_mutex_ m = false →
  acquire_lock order_tx turns meanwhile tx key ty timeout (c, m) = Throws n (c', m') →
  ∃ e c2 m2, conflict_of m tx key ty = Some e ∧
    find_cycle_in_wait_graph order_tx (wait_graph_ (add_wait tx (lock_tx e) m)) tx = Some [] ∧
    ((meanwhile ((tick c).2, add_wait tx (lock_tx e) m) = Throws n (c2, m2) ∧
      c' = c2 ∧ m' = set_lm_mutex false m2) ∨
     (meanwhile ((tick c).2, add_wait tx (lock_tx e) m) = Returns tt (c2, m2) ∧
      n = LockManagerMutex ∧ c' = (tick (tick c2).2).2 ∧ m' = m2)).
Proof.
  intros Hm. destruct turns as [|turns]; [done|].
  destruct (conflict_of m tx key ty) as [e|] eqn:Hc.
  - destruct (find_cycle_in_wait_graph order_tx (wait_graph_ (add_wait tx (lock_tx e) m)) tx)
      as [[|x path]|] eqn:Hcyc.
    + rewrite (acquire_wait _ _ _ _ _ _ _ _ _ Hm Hc Hcyc).
      destruct (meanwhile _) as [[] [c2 m2]|k [c2 m2]|u] eqn:Hmw; [| |done].
      * destruct (lm_mutex_ m2); [done|]. destruct (_ <? _)%Z.
        { by destruct (locks_ m2 !! lock_id e). }
        destruct turns; [done|]. intros [= <- <- <-]. exists e, c2, m2. auto 10.
      * intros [= <- <- <-]. exists e, c2, m2. auto 10.
    + by rewrite (acquire_deadlock _ _ _ _ _ _ _ _ _ _ Hm Hc Hcyc).
    + by rewrite (acquire_no_turns _ _ _ _ _ _ _ _ _ Hm Hc Hcyc).
  - by rewrite (acquire_free _ _ _ _ _ _ _ _ Hm Hc).
Qed.

(** A transaction with a lock: the first [release_lock] locks the mutex again. *)
Lemma release_all_relocks tx s c m :
  enumerates order_locks → lm_mutex_ m = false →
  transaction_locks_ m !! tx = Some s → s ≠ ∅ →
  release_all_locks order_locks tx (c, m) = Throws LockManagerMutex (c, m).
Proof.
  intros Horder Hm Hs Hne. unfold release_all_locks. rewrite guarded_lm by done. msimpl.
  cbn [transaction_locks_ set_lm_mutex]. rewrite Hs.
  destruct (order_locks s) as [|id ids] eqn:E.
  - destruct Hne. apply set_eq. intros x. rewrite <- (Horder s), E. set_solver.
  - cbn [mfor]. rewrite (M_bind_throws _ _ _ LockManagerMutex (c, set_lm_mutex true m)).
    + cbn [fst snd]. do 2 f_equal. destruct m; cbn in *. by subst.
    + do 2 (rewrite (M_bind_throws _ _ _ LockManagerMutex (c, set_lm_mutex true m)); [done|]).
      unfold release_lock. by rewrite guarded_relock.
Qed.

Lemma release_all_none tx c m :
  lm_mutex_ m = false → transaction_locks_ m !! tx = None →
  release_all_locks order_locks tx (c, m) = Returns (ROk tt) (c, m).
Proof.
  intros Hm Hs. unfold release_all_locks. rewrite guarded_lm by done. msimpl.
  cbn [transaction_locks_ set_lm_mutex]. rewrite Hs. unfold mret, M_ret. cbn [fst snd].
  f_equal. f_equal. unfold set_lm_mutex. cbn. destruct m; cbn in *. by rewrite Hm.
Qed.
End operations.

(** ** The invariant is kept *)

Section invariant.
Context (order_tx : gset TransactionId → list TransactionId).
Context (order_locks : gset LockId → list LockId).
Context (Htx : enumerates order_tx) (Hlocks : enumerates order_locks).

Lemma no_cycle_found g tx :
  find_cycle_in_wait_graph order_tx g tx = Some [] → ¬ meets_cycle g tx.
Proof.
  intros H Hm. destruct (find_cycle_meets order_tx Htx g tx) as (path & E & Hp).
  apply Hp in Hm. congruence.
Qed.

Lemma add_wait_inv tx holder m :
  lm_inv m → find_cycle_in_wait_graph order_tx (wait_graph_ (add_wait tx holder m)) tx = Some [] →
  lm_inv (add_wait tx holder m).
Proof.
  intros [Ht Ha] Hc. split; [by apply tables_inv_graph|].
  by apply acyclic_add; [|apply no_cycle_found].
Qed.

Lemma remove_wait_inv tx holder m : lm_inv m → lm_inv (remove_wait tx holder m).
Proof.
  intros [Ht Ha]. split; [by apply tables_inv_graph|].
  eapply acyclic_mono; [|exact Ha]. apply waits_remove.
Qed.

Lemma granted_inv m tx key ty now timeout :
  lm_inv m → (next_lock_id_ m + 1 < 2 ^ 64)%N → conflict_of m tx key ty = None →
  lm_inv (granted m tx key ty now timeout).
Proof.
  intros [Ht Ha] Hn Hc. split; [by apply granted_tables|].
  eapply acyclic_mono; [|exact Ha]. intros u v. apply waits_delete.
Qed.

(** Other threads keep the invariant too. *)
Definition keeps_inv (meanwhile : M LmSt unit) : Prop :=
  ∀ s s', lm_inv s.2 → leaves meanwhile s s' → lm_inv s'.2.

Lemma acquire_inv turns meanwhile tx key ty timeout s s' :
  keeps_inv meanwhile → lm_inv s.2 → (next_lock_id_ s.2 + 1 < 2 ^ 64)%N →
  leaves (acquire_lock order_tx turns meanwhile tx key ty timeout) s s' → lm_inv s'.2.
Proof.
  destruct s as [c m], s' as [c' m']. cbn [snd].
  intros Hk Hi Hn [(r & (_ & _ & H)%acquire_returns)|(n & H)].
  - destruct H as [Hc|e path Hc Hcyc _|e c2 m2 e2 Hc Hcyc Hmw].
    + by apply granted_inv.
    + destruct Hi as [Ht Ha]. split; [by do 2 apply tables_inv_graph|].
      eapply acyclic_mono; [|exact Ha]. apply waits_remove_add.
    + apply remove_wait_inv. eapply (Hk _ (c2, m2)); [|left; eauto]. by apply add_wait_inv.
  - destruct (lm_mutex_ m) eqn:Hm.
    { destruct turns; [done|]. cbn [acquire_lock] in H. rewrite guarded_relock in H by done.
      by injection H as _ _ <-. }
    apply acquire_throws in H as (e & c2 & m2 & Hc & Hcyc & [(E & _ & ->)|(E & _ & _ & ->)]);
      [|..|done].
    + apply lm_inv_mutex. eapply (Hk _ (c2, m2)); [|right; eauto]. by apply add_wait_inv.
    + eapply (Hk _ (c2, m2)); [|left; eauto]. by apply add_wait_inv.
Qed.

Lemma release_lock_inv id s s' : lm_inv s.2 → leaves (release_lock id) s s' → lm_inv s'.2.
Proof.
  destruct s as [c m], s' as [c' m']. cbn [snd]. intros [Ht Ha].
  destruct (lm_mutex_ m) eqn:Hm.
  { unfold leaves, release_lock. rewrite guarded_relock by done. unfold relock. cbn.
    intros [(? & ?)|(? & [= _ _ <-])]; [done|by split]. }
  unfold leaves. destruct (locks_ m !! id) as [l|] eqn:Hl.
  - rewrite (release_lock_ok _ _ _ _ Hm Hl). intros [(? & [= _ _ <-])|(? & ?)]; [|done].
    split; [by apply delete_lock_tables|done].
  - rewrite (release_lock_missing _ _ _ Hm Hl). by intros [(? & [= _ _ <-])|(? & ?)].
Qed.

(** Whatever happens, the tables are the same afterwards. *)
Lemma release_all_same tx s s' :
  tables_inv s.2 → leaves (release_all_locks order_locks tx) s s' → s' = s.
Proof.
  destruct s as [c m]. cbn [snd]. intros Hi. unfold leaves.
  destruct (lm_mutex_ m) eqn:Hm.
  { unfold release_all_locks. rewrite guarded_relock by done. unfold relock. cbn. naive_solver. }
  destruct (transaction_locks_ m !! tx) as [s|] eqn:Hs.
  - destruct (tab_sets _ Hi _ _ Hs) as [Hne _].
    rewrite (release_all_relocks order_locks tx s) by done. naive_solver.
  - rewrite release_all_none by done. naive_solver.
Qed.

(** The calls a client can make, and the private [cleanup_expired_locks]. *)
Inductive lm_call :=
  | CallAcquire (turns : nat) (meanwhile : M LmSt unit) (tx : TransactionId)
      (key : MultiLevelKey) (type : LockType.t) (timeout : Z)
  | CallRelease (id : LockId)
  | CallReleaseAll (tx : TransactionId)
  | CallResolve (cycle : list TransactionId)
  | CallCleanup.

Definition lm_run (call : lm_call) : M LmSt unit :=
  match call with
  | CallAcquire turns meanwhile tx key type timeout =>
      _ ← acquire_lock order_tx turns meanwhile tx key type timeout; mret tt
  | CallRelease id => _ ← release_lock id; mret tt
  | CallReleaseAll tx => _ ← release_all_locks order_locks tx; mret tt
  | CallResolve cycle => _ ← resolve_deadlock order_locks cycle; mret tt
  | CallCleanup => cleanup_expired_locks order_locks
  end.

Definition call_ok (call : lm_call) (m : LockManager) : Prop :=
  match call with
  | CallAcquire _ meanwhile _ _ _ _ => keeps_inv meanwhile ∧ (next_lock_id_ m + 1 < 2 ^ 64)%N
  | _ => True
  end.

Lemma collect_expired_frame ids acc c m :
  ∃ ids' c', collect_expired ids acc (c, m) = Returns ids' (c', m).
Proof.
  revert acc c. induction ids as [|id ids IH]; intros acc c; [by eexists _, _|].
  cbn [collect_expired]. rewrite M_bind_gets. destruct (locks_ _ !! id); [|apply IH].
  mstep (lm_now_step c m). apply IH.
Qed.

Lemma cleanup_same s s' : leaves (cleanup_expired_locks order_locks) s s' → s'.2 = s.2.
Proof.
  destruct s as [c m]. unfold leaves, cleanup_expired_locks.
  destruct (lm_mutex_ m) eqn:Hm.
  { rewrite guarded_relock by done. unfold relock. cbn. naive_solver. }
  rewrite guarded_lm by done. rewrite M_bind_gets.
  destruct (collect_expired_frame (order_locks (dom (locks_ (set_lm_mutex true m)))) [] c
    (set_lm_mutex true m)) as (ids & c2 & E). cbn [snd]. mstep E.
  assert (set_lm_mutex false (set_lm_mutex true m) = m) as Hid
    by (destruct m; cbn in *; by subst).
  destruct ids as [|id ids]; cbn [mfor].
  - unfold mret, M_ret. cbn [fst snd]. rewrite Hid. naive_solver.
  - assert (release_lock id (c2, set_lm_mutex true m) =
      Throws LockManagerMutex (c2, set_lm_mutex true m)) as Er
      by (unfold release_lock; by rewrite guarded_relock).
    assert ((_ ← release_lock id; mret ()) (c2, set_lm_mutex true m) =
      Throws LockManagerMutex (c2, set_lm_mutex true m)) as E2
      by exact (M_bind_throws _ _ _ _ _ Er).
    rewrite (M_bind_throws _ _ _ _ _ E2).
    cbn [fst snd]. rewrite Hid. naive_solver.
Qed.

Lemma lm_run_inv call s s' :
  call_ok call s.2 → lm_inv s.2 → leaves (lm_run call) s s' → lm_inv s'.2.
Proof.
  intros Hok Hi. destruct call; cbn [lm_run call_ok] in *; intros H; try apply leaves_ignore in H.
  - destruct Hok. by eapply acquire_inv.
  - by eapply release_lock_inv.
  - by apply release_all_same in H as ->; [|apply Hi].
  - destruct cycle as [|tx txs].
    + unfold leaves, resolve_deadlock, mret, M_ret in H. naive_solver.
    + by apply release_all_same in H as ->; [|apply Hi].
  - by rewrite (cleanup_same _ _ H).
Qed.
End invariant.

Lemma LockManager_new_inv : lm_inv LockManager_new.
Proof.
  split; [by split|]. intros x Hx. apply tc_first_step in Hx as (y & Hy & _).
  unfold waits in Hy. cbn in Hy. set_solver.
Qed.

(** ** Properties *)

(** C10. Every call on the lock manager, whether it returns or is left by an
    exception, keeps the invariant: the three tables agree, no list or set is
    empty, locks of different transactions on one key are compatible, and the
    wait graph has no cycle. What other threads do while a request sleeps is any
    computation that keeps the invariant; the 2^64 lock identifiers are not used
    up. *)
Theorem lm_calls_keep_invariant order_tx order_locks call s s' :
  enumerates order_tx → enumerates order_locks → call_ok call s.2 → lm_inv s.2 →
  leaves (lm_run order_tx order_locks call) s s' → lm_inv s'.2.
Proof. intros Htx Hlocks. by apply (lm_run_inv order_tx order_locks). Qed.

Lemma elements_enumerates {A} `{Countable A} : enumerates (A := A) elements.
Proof. intros s x. apply elem_of_elements. Qed.

Definition lock_clock : Clock := MkClock (λ n, Z.of_nat n * 1000000)%Z 0.

(** Transaction 1 holds [a] exclusively, transaction 2 holds [b]. *)
Definition two_holders : LockManager :=
  granted (granted LockManager_new 1 (MkKey "a" "") LockType.EXCLUSIVE 0 5000)
    2 (MkKey "b" "") LockType.EXCLUSIVE 0 5000.

Lemma two_holders_inv : lm_inv two_holders.
Proof.
  apply granted_inv; [apply granted_inv|..]; try reflexivity. apply LockManager_new_inv.
Qed.

Lemma lm_calls_keep_invariant_witness :
  (∃ s', lm_run elements elements
      (CallAcquire 2 (mret tt) 3 (MkKey "c" "") LockType.SHARED 5000) (lock_clock, two_holders) =
      Returns tt s' ∧ lm_inv s'.2) ∧
  ∃ s', lm_run elements elements
      (CallAcquire 2 (mret tt) 1 (MkKey "b" "") LockType.SHARED 5000) (lock_clock, two_holders) =
      Throws LockManagerMutex s' ∧ lm_inv s'.2.
Proof.
  assert (keeps_inv (mret tt)) as Hk by (intros s s' Hi [(? & [= _ <-])|(? & ?)]; done).
  split; eexists; (split; [vm_compute; reflexivity|]).
  - eapply (lm_calls_keep_invariant elements elements
      (CallAcquire 2 (mret tt) 3 (MkKey "c" "") LockType.SHARED 5000) (lock_clock, two_holders)).
    + apply elements_enumerates.
    + apply elements_enumerates.
    + by split.
    + apply two_holders_inv.
    + left. eexists. vm_compute. reflexivity.
  - eapply (lm_calls_keep_invariant elements elements
      (CallAcquire 2 (mret tt) 1 (MkKey "b" "") LockType.SHARED 5000) (lock_clock, two_holders)).
    + apply elements_enumerates.
    + apply elements_enumerates.
    + by split.
    + apply two_holders_inv.
    + right. eexists. vm_compute. reflexivity.
Defined.

(** C22. On every wait graph and from every start find_cycle_in_wait_graph ends
    (one turn per node of the graph is enough), and the path it returns is non-
    empty exactly when a cycle can be reached from the start. *)
Theorem find_cycle_iff_meets_cycle order_tx g start :
  enumerates order_tx →
  ∃ path, find_cycle_in_wait_graph order_tx g start = Some path ∧
    (path ≠ [] ↔ meets_cycle g start).
Proof. intros H. by apply find_cycle_meets. Qed.

Lemma find_cycle_iff_meets_cycle_witness :
  let g := {[ 1%N := {[2%N]}; 2%N := {[3%N]}; 3%N := {[2%N]}; 4%N := {[5%N]} ]} in
  meets_cycle g 1%N ∧ ¬ meets_cycle g 4%N.
Proof.
  intros g. split.
  - destruct (find_cycle_iff_meets_cycle elements g 1%N elements_enumerates) as (path & E & H).
    apply H. vm_compute in E. by injection E as <-.
  - destruct (find_cycle_iff_meets_cycle elements g 4%N elements_enumerates) as (path & E & H).
    intros Hm. apply H in Hm. vm_compute in E. by injection E as <-.
Defined.

(** In every state the calls can produce, detect_deadlocks returns the empty
    list. *)
Theorem lm_detect_deadlocks_finds_none order_tx c m :
  enumerates order_tx → lm_mutex_ m = false → lm_inv m →
  detect_deadlocks order_tx (c, m) = Returns [] (c, m).
Proof.
  intros Htx Hm [_ Ha].
  assert (∀ nodes, detect_loop order_tx (wait_graph_ m) nodes ∅ [] = Some []) as H.
  { induction nodes as [|n nodes IH]; [done|]. cbn [detect_loop].
    rewrite decide_False by set_solver.
    destruct (find_cycle_meets order_tx Htx (wait_graph_ m) n) as (path & E & Hp).
    rewrite E. cbn. rewrite bool_decide_true; [exact IH|].
    destruct path as [|x path]; [done|]. destruct (proj1 Hp) as (y & _ & Hy); [done|].
    by destruct (Ha y). }
  unfold detect_deadlocks. rewrite guarded_lm by done. rewrite M_bind_gets. cbn [fst snd].
  change (wait_graph_ (set_lm_mutex true m)) with (wait_graph_ m). rewrite H.
  unfold mret, M_ret, set_lm_mutex. cbn. destruct m; cbn in *. by rewrite Hm.
Qed.

Lemma lm_detect_deadlocks_finds_none_witness :
  detect_deadlocks elements (lock_clock, add_wait 2 1 two_holders) =
    Returns [] (lock_clock, add_wait 2 1 two_holders).
Proof.
  apply lm_detect_deadlocks_finds_none; [apply elements_enumerates|reflexivity|].
  apply (add_wait_inv elements elements_enumerates); [apply two_holders_inv|].
  vm_compute. reflexivity.
Defined.

(** C28. A request in conflict with a lock of another transaction is never
    granted, however long it may wait and whatever other threads do: if it
    returns it reports a deadlock or a timeout. *)
Theorem acquire_conflict_never_granted order_tx turns meanwhile tx key ty timeout c m i holder :
  enumerates order_tx → lm_inv m → lm_mutex_ m = false →
  locks_ m !! i = Some holder → lock_key holder = key → lock_tx holder ≠ tx →
  is_lock_compatible (lock_type holder) ty = false →
  ∀ r s', acquire_lock order_tx turns meanwhile tx key ty timeout (c, m) = Returns r s' →
  status_of r = Status.DEADLOCK_DETECTED ∨ status_of r = Status.TIMEOUT.
Proof.
  intros Htx [Hi _] Hm Hl Hk Ht Hc r [c' m'] (_ & _ & H)%acquire_returns.
  destruct H as [Hfree|e path _ _ _|e c2 m2 e2 _ _ _]; cbn; [|by left|by right].
  destruct (tab_key _ Hi _ _ Hl) as (ids & Hids & Hin). rewrite Hk in Hids.
  unfold conflict_of in Hfree. rewrite Hids in Hfree.
  destruct (find_conflict_None _ _ _ _ Hfree i holder Hin Hl); congruence.
Qed.

Lemma acquire_conflict_never_granted_witness :
  ∃ r s', acquire_lock elements 2 (mret tt) 1 (MkKey "b" "") LockType.SHARED 0
      (lock_clock, two_holders) = Returns r s' ∧
    (status_of r = Status.DEADLOCK_DETECTED ∨ status_of r = Status.TIMEOUT).
Proof.
  eexists _, _. split; [vm_compute; reflexivity|].
  eapply (acquire_conflict_never_granted elements 2 (mret tt) 1 (MkKey "b" "") LockType.SHARED 0
    lock_clock two_holders "lock_2" (MkLock "lock_2" LockType.EXCLUSIVE 2 (MkKey "b" "") 0 5000)).
  - apply elements_enumerates.
  - apply two_holders_inv.
  - reflexivity.
  - vm_compute. reflexivity.
  - reflexivity.
  - discriminate.
  - reflexivity.
  - vm_compute. reflexivity.
Defined.

(** The transaction holds a lock of the mode on the key. *)
Definition holds (m : LockManager) (tx : TransactionId) (k : MultiLevelKey) (ty : LockType.t) :
    Prop :=
  ∃ id l, locks_ m !! id = Some l ∧ lock_tx l = tx ∧ lock_key l = k ∧ lock_type l = ty.

Lemma holds_locks m tx k ty : tables_inv m → holds m tx k ty → transaction_locks_ m !! tx ≠ None.
Proof.
  intros Hi (id & l & Hl & <- & _). destruct (tab_tx _ Hi _ _ Hl) as (s & -> & _). done.
Qed.

Lemma locks_hold m tx s :
  tables_inv m → transaction_locks_ m !! tx = Some s → ∃ k ty, holds m tx k ty.
Proof.
  intros Hi Hs. destruct (tab_sets _ Hi _ _ Hs) as [Hne Hall].
  destruct (set_choose_L s Hne) as [id Hid]. destruct (Hall _ Hid) as (l & Hl & Ht).
  exists (lock_key l), (lock_type l), id, l. done.
Qed.

(** release_all_locks of a transaction that holds a lock locks the mutex a second
    time and always fails with the exception; of one that holds none it
    returns; it never changes anything. *)
Theorem release_all_locks_never_releases order_locks tx c m :
  enumerates order_locks → lm_mutex_ m = false → lm_inv m →
  ((∃ k ty, holds m tx k ty) →
   release_all_locks order_locks tx (c, m) = Throws LockManagerMutex (c, m)) ∧
  ((∀ k ty, ¬ holds m tx k ty) →
   release_all_locks order_locks tx (c, m) = Returns (ROk tt) (c, m)).
Proof.
  intros Horder Hm [Hi _]. destruct (transaction_locks_ m !! tx) as [s|] eqn:Hs.
  - split; intros H.
    + apply (release_all_relocks order_locks tx s); try done. by apply (tab_sets _ Hi _ _ Hs).
    + destruct (locks_hold m tx s Hi Hs) as (k & ty & Hh). by destruct (H k ty).
  - split; intros H; [|by apply release_all_none].
    destruct H as (k & ty & Hh). by destruct (holds_locks m tx k ty Hi Hh).
Qed.

Lemma release_all_locks_never_releases_witness :
  release_all_locks elements 1 (lock_clock, two_holders) =
    Throws LockManagerMutex (lock_clock, two_holders) ∧
  release_all_locks elements 3 (lock_clock, two_holders) =
    Returns (ROk tt) (lock_clock, two_holders).
Proof.
  split.
  - apply (release_all_locks_never_releases elements 1 lock_clock two_holders);
      [apply elements_enumerates|reflexivity|apply two_holders_inv|].
    exists (MkKey "a" ""), LockType.EXCLUSIVE, "lock_1",
      (MkLock "lock_1" LockType.EXCLUSIVE 1 (MkKey "a" "") 0 5000).
    split; [vm_compute; reflexivity|done].
  - apply (release_all_locks_never_releases elements 3 lock_clock two_holders);
      [apply elements_enumerates|reflexivity|apply two_holders_inv|].
    intros k ty Hh. by apply holds_locks in Hh; [|apply two_holders_inv].
Defined.

Lemma filter_snoc_fresh (ids : list LockId) id :
  id ∉ ids → filter (λ x, x ≠ id) (ids ++ [id]) = ids.
Proof.
  intros Hn. rewrite filter_app, filter_cons_False, filter_nil, app_nil_r by tauto.
  apply filter_all. by intros y Hy ->.
Qed.

Lemma delete_granted m tx key ty now timeout :
  tables_inv m →
  let m' := granted m tx key ty now timeout in
  let l := granted_lock m tx key ty now timeout in
  locks_ (delete_lock l (lock_id l) m') = locks_ m ∧
  key_locks_ (delete_lock l (lock_id l) m') = key_locks_ m ∧
  transaction_locks_ (delete_lock l (lock_id l) m') = transaction_locks_ m.
Proof.
  intros Hi m' l. pose proof (fresh_lock_name _ Hi) as Hfresh.
  cbn [delete_lock set_tables locks_ key_locks_ transaction_locks_ m' granted set_graph insert_lock
    set_next_id l granted_lock lock_id lock_key lock_tx].
  set (id := lock_name _) in *. rewrite !lookup_insert_eq. split_and!.
  - by rewrite delete_insert_id.
  - destruct (key_locks_ m !! key) as [ids|] eqn:E; cbn [default].
    + destruct (tab_lists _ Hi _ _ E) as (Hne & _ & Hall).
      assert (id ∉ ids) as Hnot by (intros Hin; destruct (Hall _ Hin) as (? & ? & _); congruence).
      rewrite filter_snoc_fresh, bool_decide_false by done.
      by rewrite insert_insert_eq, insert_id.
    + rewrite (filter_snoc_fresh []) by set_solver. rewrite bool_decide_true by done.
      by rewrite delete_insert_id.
  - destruct (transaction_locks_ m !! tx) as [s|] eqn:E; cbn [default].
    + destruct (tab_sets _ Hi _ _ E) as (Hne & Hall).
      assert (id ∉ s) as Hnot by (intros Hin; destruct (Hall _ Hin) as (? & ? & _); congruence).
      unfold Datatypes.id.
      assert (({[id]} ∪ s) ∖ {[id]} = s) as -> by set_solver.
      rewrite bool_decide_false by done. by rewrite insert_insert_eq, insert_id.
    + rewrite bool_decide_true by set_solver. by rewrite delete_insert_id.
Qed.

(** A granted request holds its lock, and releasing that lock restores the three
    tables as they were before the request. *)
Theorem acquire_then_release_restores order_tx turns meanwhile tx key ty timeout c m id c1 m1 :
  lm_inv m → (next_lock_id_ m + 1 < 2 ^ 64)%N →
  acquire_lock order_tx turns meanwhile tx key ty timeout (c, m) = Returns (ROk id) (c1, m1) →
  holds m1 tx key ty ∧
  ∃ m2, release_lock id (c1, m1) = Returns (ROk tt) (c1, m2) ∧
    locks_ m2 = locks_ m ∧ key_locks_ m2 = key_locks_ m ∧
    transaction_locks_ m2 = transaction_locks_ m.
Proof.
  intros [Hi _] Hn (Hm & Hm1 & H)%acquire_returns. inversion H as [Hc Hid Hm1'| |]; subst.
  set (l := granted_lock m tx key ty (tick c).1 timeout).
  assert (locks_ (granted m tx key ty (tick c).1 timeout) !! lock_id l = Some l) as Hl
    by (cbn; by rewrite lookup_insert_eq).
  split; [by exists (lock_id l), l|].
  eexists. split; [by apply (release_lock_ok _ l)|]. by apply delete_granted.
Qed.

Lemma acquire_then_release_restores_witness :
  ∃ id c1 m1, acquire_lock elements 2 (mret tt) 3 (MkKey "c" "") LockType.SHARED 100
      (lock_clock, two_holders) = Returns (ROk id) (c1, m1) ∧
    holds m1 3 (MkKey "c" "") LockType.SHARED ∧
    ∃ m2, release_lock id (c1, m1) = Returns (ROk tt) (c1, m2) ∧
      locks_ m2 = locks_ two_holders ∧ key_locks_ m2 = key_locks_ two_holders ∧
      transaction_locks_ m2 = transaction_locks_ two_holders.
Proof.
  eexists _, _, _. split; [vm_compute; reflexivity|].
  eapply (acquire_then_release_restores elements 2 (mret tt) 3 (MkKey "c" "") LockType.SHARED 100
    lock_clock two_holders); [apply two_holders_inv|reflexivity|vm_compute; reflexivity].
Defined.

(** ** The instance of the interface *)

Section service.
Context (order_tx : gset TransactionId → list TransactionId).
Context (order_locks : gset LockId → list LockId).
Context (Htx : enumerates order_tx) (Hlocks : enumerates order_locks).
(** The caller holds its own mutex, so that meanwhile other threads at most
    read the tables, and time passes. *)
Context (meanwhile : M LmSt unit).
Context (Hmeanwhile : ∀ s s', leaves meanwhile s s' → s'.2 = s.2 ∧ clock_after s.1 s'.1).

Lemma granted_holds m tx key ty now timeout tx' k ty' :
  tables_inv m → holds m tx' k ty' → holds (granted m tx key ty now timeout) tx' k ty'.
Proof.
  intros Hi (id & l & Hl & H). exists id, l. split; [|done]. cbn.
  rewrite lookup_insert_ne; [done|]. intros <-. by rewrite fresh_lock_name in Hl.
Qed.

Lemma meanwhile_keeps_inv : keeps_inv meanwhile.
Proof. intros s s' Hi [-> _]%Hmeanwhile. done. Qed.

Lemma acquire_clock turns tx key ty timeout :
  respects (later (fst : LmSt → Clock)) (acquire_lock order_tx turns meanwhile tx key ty timeout).
Proof.

  intros [c m]. unfold wlp, throws_in, later. destruct turns as [|turns]; [done|].
  destruct (lm_mutex_ m) eqn:Hm.
  { cbn [acquire_lock]. by rewrite guarded_relock. }
  destruct (conflict_of m tx key ty) as [e|] eqn:Hc.
  2: { rewrite (acquire_free _ _ _ _ _ _ _ _ _ Hm Hc). split; [apply clock_after_tick|done]. }
  destruct (find_cycle_in_wait_graph order_tx (wait_graph_ (add_wait tx (lock_tx e) m)) tx)
    as [[|x path]|] eqn:Hcyc.
  - rewrite (acquire_wait _ _ _ _ _ _ _ _ _ _ Hm Hc Hcyc).
    assert (∀ s, leaves meanwhile ((tick c).2, add_wait tx (lock_tx e) m) s → clock_after c s.1)
      as Hafter.
    { intros s [_ Hs]%Hmeanwhile. trans (tick c).2; [apply clock_after_tick|done]. }
    unfold leaves in Hafter.
    destruct (meanwhile _) as [[] [c2 m2]|n [c2 m2]|u] eqn:Hmw; [| |done].
    + assert (clock_after c c2) as H2 by (apply (Hafter (c2, m2)); eauto).
      destruct (lm_mutex_ m2); [done|]. destruct (_ <? _)%Z.
      * destruct (locks_ m2 !! lock_id e) as [e2|]; [|done]. split; [|done].
        trans c2; [done|apply clock_after_tick].
      * destruct turns; [done|]. split; [done|]. trans c2; [done|].
        trans (tick c2).2; apply clock_after_tick.
    + split; [done|]. apply (Hafter (c2, m2)). eauto.
  - rewrite (acquire_deadlock _ _ _ _ _ _ _ _ _ _ _ Hm Hc Hcyc) by done.
    split; [apply clock_after_tick|done].
  - by rewrite (acquire_no_turns _ _ _ _ _ _ _ _ _ _ Hm Hc Hcyc).
Qed.

(** What a request leaves of the tables. *)
Lemma acquire_keeps turns tx key ty timeout c m s' :
  lm_mutex_ m = false → lm_inv m →
  leaves (acquire_lock order_tx turns meanwhile tx key ty timeout) (c, m) s' →
  lm_mutex_ s'.2 = false ∧ (next_lock_id_ s'.2 ≤ next_lock_id_ m + 1)%N ∧
  ∀ tx' k' ty', holds m tx' k' ty' → holds s'.2 tx' k' ty'.
Proof.
  destruct s' as [c' m']. cbn [snd]. intros Hm [Hi _] [(r & H)|(n & H)].
  - apply acquire_returns in H as (_ & Hm' & H). split; [done|].
    destruct H as [Hc|e path Hc Hcyc _|e c2 m2 e2 Hc Hcyc Hmw].
    + split; [apply N.Div0.mod_le|]. intros tx' k' ty'. by apply granted_holds.
    + split; [cbn; lia|done].
    + assert (leaves meanwhile ((tick c).2, add_wait tx (lock_tx e) m) (c2, m2)) as Hlv
        by (left; eauto).
      apply Hmeanwhile in Hlv as [Hm2 _]. cbn [snd] in Hm2. subst m2. split; [cbn; lia|done].
  - apply acquire_throws in H as (e & c2 & m2 & _ & _ & H); [|done].
    assert (leaves meanwhile ((tick c).2, add_wait tx (lock_tx e) m) (c2, m2)) as Hlv
      by (unfold leaves; naive_solver).
    apply Hmeanwhile in Hlv as [Hm2 _]. cbn [snd] in Hm2.
    destruct H as [(_ & _ & ->)|(_ & _ & _ & ->)]; subst m2; cbn; (split; [done|split; [lia|done]]).
Qed.

Lemma later_mutex b (s : LmSt) : later fst s (set_owned b s).
Proof. done. Qed.

Lemma later_on_lm f : respects (later fst) (on_lm f).
Proof. apply respects_step. intros s. by eexists _, _. Qed.

#[local] Hint Resolve later_mutex later_on_lm : respects.

Lemma release_all_later tx :
  respects (later fst) (release_all_locks order_locks tx).
Proof. unfold release_all_locks, release_lock. respects_tac. Qed.

#[refine] Definition default_lock_service : LockService LmSt := {|
  svc_acquire := acquire_lock order_tx 2 meanwhile;
  svc_release_all := release_all_locks order_locks;
  svc_detect := detect_deadlocks order_tx;
  svc_resolve := resolve_deadlock order_locks;
  svc_clock := λ s, s.1;
  svc_set_clock := λ c s, (c, s.2);
  svc_holds := λ s, holds s.2;
  svc_ok := λ s, lm_mutex_ s.2 = false ∧ lm_inv s.2;
  svc_left := λ s, (2 ^ 64 - 1 - next_lock_id_ s.2)%N
|}.
Proof.
  - done.
  - done.
  - done.
  - done.
  - intros tx k ty t. apply acquire_clock.
  - intros tx. apply release_all_later.
  - unfold detect_deadlocks. respects_tac.
  - intros [|tx cycle]; [apply respects_ret; apply _|apply release_all_later].
  - intros tx k ty t [c m] [c' m'] [Hm Hi] Hn H. cbn [fst snd] in *.
    destruct (acquire_keeps _ _ _ _ _ _ _ _ Hm Hi H) as (Hm' & Hle & Hh). cbn [snd] in *.
    split_and!; [done| |lia|done].
    eapply (acquire_inv _ Htx _ _ _ _ _ _ (c, m) (c', m'));
      [apply meanwhile_keeps_inv|done|cbn; lia|exact H].
  - intros tx k ty t [c m] id [c' m'] [Hm Hi] Hn (_ & Hm' & H)%acquire_returns.
    inversion H; subst. cbn [snd].
    eexists _, _. split; [cbn; by rewrite lookup_insert_eq|]. done.
  - intros [c m] tx tx' k ty ty' [_ Hi] (i & a & Ha & <- & <- & <-) (j & b & Hb & <- & Hk & <-) Hne.
    by apply (tab_exclusion _ (lmi_tables _ Hi) i j).
  - intros tx s s' [Hm Hi] H.
    by rewrite (release_all_same order_locks Hlocks _ _ _ (lmi_tables _ Hi) H).
  - intros tx [c m] [Hm Hi] Hnone. cbn [snd] in *. apply release_all_none; [done|].
    destruct (transaction_locks_ m !! tx) as [s|] eqn:Hs; [|done].
    destruct (locks_hold m tx s (lmi_tables _ Hi) Hs) as (k & ty & Hh). by destruct (Hnone k ty).
Defined.
End service.

(** The lock manager whose sets iterate in the order of [elements], used by
    one thread. *)
Lemma alone_meanwhile (s s' : LmSt) :
  leaves (mret (M := M LmSt) tt) s s' → s'.2 = s.2 ∧ clock_after s.1 s'.1.
Proof. by intros [(? & [= _ <-])|(? & ?)]. Qed.

Definition single_lock_service : LockService LmSt :=
  default_lock_service elements elements elements_enumerates elements_enumerates
    (mret tt) alone_meanwhile.
