(* ===== verification/Transactions.v ===== *)
(** * Transactions: the data of the transaction manager and its interface

    The types of [include/cache/transaction/transaction_manager.h] below the
    lock modes: transaction states, operations, isolation levels, the record of
    a distributed transaction, the messages of the two-phase commit, and the
    abstract class [TransactionManager] as the [TransactionContext] uses it. *)

From Stdlib Require Import Ascii String ZArith NArith Lia.
From stdpp Require Import base numbers list strings gmap.
From S2P Require Import Prelude OrdMap Types Files Locks.

Abbreviation NodeId := string.

Module TransactionState.
Inductive t :=
  | ACTIVE | PREPARING | PREPARED | COMMITTING | COMMITTED | ABORTING | ABORTED | TIMEOUT.
#[global] Instance t_eq_dec : EqDecision t.
Proof. solve_decision. Defined.
End TransactionState.

Module TxOperationType.
Inductive t := READ | WRITE | DELETE | LOCK.
#[global] Instance t_eq_dec : EqDecision t.
Proof. solve_decision. Defined.
End TxOperationType.

Module IsolationLevel.
Inductive t := READ_UNCOMMITTED | READ_COMMITTED | REPEATABLE_READ | SERIALIZABLE.
#[global] Instance t_eq_dec : EqDecision t.
Proof. solve_decision. Defined.
End IsolationLevel.

Module TwoPhaseCommitMessage.
Inductive t := PREPARE | PREPARE_OK | PREPARE_ABORT | COMMIT | COMMIT_OK | ABORT | ABORT_OK.
#[global] Instance t_eq_dec : EqDecision t.
Proof. solve_decision. Defined.
End TwoPhaseCommitMessage.

Record TransactionOperation := MkOperation {
  op_type : TxOperationType.t;
  op_key : MultiLevelKey;
  op_old_value : DataEntry;
  op_new_value : DataEntry;
  op_version : N;
  op_timestamp : Z
}.

Record DistributedTransaction := MkTransaction {
  transaction_id : TransactionId;
  coordinator_node : NodeId;
  participant_nodes : gset NodeId;
  tx_state : TransactionState.t;
  isolation_level : IsolationLevel.t;
  operations : list TransactionOperation;
  held_locks : gset LockId;
  created_at : Z;
  last_activity : Z;
  tx_timeout : Z;
  prepare_votes : gmap NodeId bool;
  commit_acks : gmap NodeId bool
}.

(** The constructor; [now] is the clock reading it makes. *)
Definition DistributedTransaction_new (now : Z) : DistributedTransaction :=
  MkTransaction 0 "" ∅ TransactionState.ACTIVE IsolationLevel.READ_COMMITTED [] ∅
    now now 30000 ∅ ∅.

(** [(now - last_activity) > timeout]: nanoseconds against milliseconds. *)
Definition tx_is_expired (now : Z) (tx : DistributedTransaction) : bool :=
  (tx_timeout tx * ns_per_ms <? now - last_activity tx)%Z.

Definition set_state (st : TransactionState.t) (tx : DistributedTransaction) :
    DistributedTransaction :=
  MkTransaction (transaction_id tx) (coordinator_node tx) (participant_nodes tx) st
    (isolation_level tx) (operations tx) (held_locks tx) (created_at tx) (last_activity tx)
    (tx_timeout tx) (prepare_votes tx) (commit_acks tx).

(** [tx.update_activity()]. *)
Definition update_activity (now : Z) (tx : DistributedTransaction) : DistributedTransaction :=
  MkTransaction (transaction_id tx) (coordinator_node tx) (participant_nodes tx) (tx_state tx)
    (isolation_level tx) (operations tx) (held_locks tx) (created_at tx) now
    (tx_timeout tx) (prepare_votes tx) (commit_acks tx).

(** [tx.held_locks.insert(id)]. *)
Definition hold_lock (id : LockId) (tx : DistributedTransaction) : DistributedTransaction :=
  MkTransaction (transaction_id tx) (coordinator_node tx) (participant_nodes tx) (tx_state tx)
    (isolation_level tx) (operations tx) ({[id]} ∪ held_locks tx) (created_at tx)
    (last_activity tx) (tx_timeout tx) (prepare_votes tx) (commit_acks tx).

(** [tx.operations.push_back(op)]. *)
Definition push_operation (op : TransactionOperation) (tx : DistributedTransaction) :
    DistributedTransaction :=
  MkTransaction (transaction_id tx) (coordinator_node tx) (participant_nodes tx) (tx_state tx)
    (isolation_level tx) (operations tx ++ [op]) (held_locks tx) (created_at tx)
    (last_activity tx) (tx_timeout tx) (prepare_votes tx) (commit_acks tx).

(** [tx.prepare_votes[node] = vote]. *)
Definition set_vote (node : NodeId) (vote : bool) (tx : DistributedTransaction) :
    DistributedTransaction :=
  MkTransaction (transaction_id tx) (coordinator_node tx) (participant_nodes tx) (tx_state tx)
    (isolation_level tx) (operations tx) (held_locks tx) (created_at tx)
    (last_activity tx) (tx_timeout tx) (<[node := vote]> (prepare_votes tx)) (commit_acks tx).

Record TpcMessage := MkTpc {
  msg_type : TwoPhaseCommitMessage.t;
  msg_transaction_id : TransactionId;
  from_node : NodeId;
  to_node : NodeId;
  payload : string;
  msg_timestamp : Z
}.

(** ** The interface *)

(** What [TransactionContext] calls on its manager. *)
Class TransactionService (T : Type) := {
  svc_read : TransactionId → MultiLevelKey → M T (Result DataEntry);
  svc_write : TransactionId → MultiLevelKey → DataEntry → M T (Result unit);
  svc_remove : TransactionId → MultiLevelKey → M T (Result unit);
  svc_lock : TransactionId → MultiLevelKey → LockType.t → M T (Result unit);
  svc_commit : TransactionId → M T (Result unit);
  svc_abort : TransactionId → M T (Result unit);
  svc_state : TransactionId → M T TransactionState.t
}.
