(* ===== verification/TransactionManager.v ===== *)
(** * TransactionManager: [DefaultTransactionManager] of
    [src/transaction/transaction_manager.cpp]

    The manager over any lock manager with the interface [LockService].  The
    state is the clock together with the fields of the object; a lock manager
    is used by one transaction manager only.  The event handler records what
    it is told and does not call back.  Here every clock reading is counted,
    also those of constructors whose result is assigned over.

    The two background threads are positions in their loops. *)

From Stdlib Require Import Ascii String ZArith NArith Lia.
From stdpp Require Import base numbers list strings gmap pretty.
From S2P Require Import Prelude OrdMap Types Files Locks Transactions.

Inductive Event :=
  | Started (tx : TransactionId)
  | Committed (tx : TransactionId)
  | Aborted (tx : TransactionId) (reason : string)
  | DeadlockDetected (deadlock_cycle : list TransactionId).

Record TransactionManager (L : Type) := MkTM {
  lock_manager_ : option L;
  event_handler_ : option (list Event);
  transactions_ : gmap TransactionId DistributedTransaction;
  next_transaction_id_ : N;
  is_running_ : bool;
  default_timeout_ : Z;
  cleanup_thread_ : option thread_at;
  deadlock_detection_thread_ : option thread_at;
  stop_threads_ : bool;
  tm_mutex_ : bool
}.
Arguments MkTM {L}.
Arguments lock_manager_ {L}.
Arguments event_handler_ {L}.
Arguments transactions_ {L}.
Arguments next_transaction_id_ {L}.
Arguments is_running_ {L}.
Arguments default_timeout_ {L}.
Arguments cleanup_thread_ {L}.
Arguments deadlock_detection_thread_ {L}.
Arguments stop_threads_ {L}.
Arguments tm_mutex_ {L}.

Section fields.
Context {L : Type}.
Implicit Types m : TransactionManager L.

Definition set_lock_manager_ (l : option L) m : TransactionManager L :=
  MkTM l (event_handler_ m) (transactions_ m) (next_transaction_id_ m) (is_running_ m)
    (default_timeout_ m) (cleanup_thread_ m) (deadlock_detection_thread_ m) (stop_threads_ m)
    (tm_mutex_ m).
Definition set_event_handler_ (h : option (list Event)) m : TransactionManager L :=
  MkTM (lock_manager_ m) h (transactions_ m) (next_transaction_id_ m) (is_running_ m)
    (default_timeout_ m) (cleanup_thread_ m) (deadlock_detection_thread_ m) (stop_threads_ m)
    (tm_mutex_ m).
Definition set_transactions (txs : gmap TransactionId DistributedTransaction) m :
    TransactionManager L :=
  MkTM (lock_manager_ m) (event_handler_ m) txs (next_transaction_id_ m) (is_running_ m)
    (default_timeout_ m) (cleanup_thread_ m) (deadlock_detection_thread_ m) (stop_threads_ m)
    (tm_mutex_ m).
Definition set_next_transaction_id (n : N) m : TransactionManager L :=
  MkTM (lock_manager_ m) (event_handler_ m) (transactions_ m) n (is_running_ m)
    (default_timeout_ m) (cleanup_thread_ m) (deadlock_detection_thread_ m) (stop_threads_ m)
    (tm_mutex_ m).
Definition set_default_timeout_ (timeout : Z) m : TransactionManager L :=
  MkTM (lock_manager_ m) (event_handler_ m) (transactions_ m) (next_transaction_id_ m)
    (is_running_ m) timeout (cleanup_thread_ m) (deadlock_detection_thread_ m) (stop_threads_ m)
    (tm_mutex_ m).
Definition set_threads (running stopping : bool) (cleanup detection : option thread_at) m :
    TransactionManager L :=
  MkTM (lock_manager_ m) (event_handler_ m) (transactions_ m) (next_transaction_id_ m)
    running (default_timeout_ m) cleanup detection stopping (tm_mutex_ m).
Definition set_tm_mutex (b : bool) m : TransactionManager L :=
  MkTM (lock_manager_ m) (event_handler_ m) (transactions_ m) (next_transaction_id_ m)
    (is_running_ m) (default_timeout_ m) (cleanup_thread_ m) (deadlock_detection_thread_ m)
    (stop_threads_ m) b.
End fields.

(** [DefaultTransactionManager()] with its own lock manager. *)
Definition DefaultTransactionManager_new {L} (lock_manager : L) : TransactionManager L :=
  MkTM (Some lock_manager) None ∅ 1 false 30000 None None false false.

Abbreviation TmSt L := (Clock * TransactionManager L)%type.

#[export, refine] Instance TransactionManager_mutex L : HasMutex (TmSt L) := {|
  which_mutex := TransactionManagerMutex;
  owned := λ s, tm_mutex_ s.2;
  set_owned := λ b s, (s.1, set_tm_mutex b s.2)
|}.
Proof. all: by intros; destruct s as [? []]. Defined.

Definition simulated_entry (key : MultiLevelKey) (now : Z) : DataEntry :=
  MkEntry ("simulated_value_for_" +:+ key_to_string key) 1 (ms_of_ns now) false.

Section transaction_manager.
Context {L : Type} `{!LockService L}.
Context (order_txs : gset TransactionId → list TransactionId).
Context (order_nodes : gset NodeId → list NodeId).

Definition on_tm (f : TransactionManager L → TransactionManager L) : M (TmSt L) unit :=
  modify (λ s, (s.1, f s.2)).

Definition tm_now : M (TmSt L) Z := lift (λ s : TmSt L,
  let '(t, c) := tick s.1 in (t, (c, s.2))).

(** A call of the lock manager: it reads the same clock. *)
Definition call_lock_manager {A} (m : M L A) : M (TmSt L) A := λ s,
  match lock_manager_ s.2 with
  | None => Undefined NullPointer
  | Some l =>
      match m (svc_set_clock s.1 l) with
      | Returns a l' => Returns a (svc_clock l', set_lock_manager_ (Some l') s.2)
      | Throws n l' => Throws n (svc_clock l', set_lock_manager_ (Some l') s.2)
      | Undefined u => Undefined u
      end
  end.

(** [if (lock_manager_) { lock_manager_->release_all_locks(tx_id); }] *)
Definition release_locks (tx_id : TransactionId) : M (TmSt L) unit :=
  present ← gets (λ s : TmSt L, lock_manager_ s.2);
  match present with
  | None => mret tt
  | Some _ => _ ← call_lock_manager (svc_release_all tx_id); mret tt
  end.

(** [tx] as the reference [tx_it->second] sees it, and an update through it. *)
Definition deref (tx_id : TransactionId) : M (TmSt L) DistributedTransaction :=
  found ← gets (λ s : TmSt L, transactions_ s.2 !! tx_id);
  match found with
  | Some tx => mret tx
  | None => undefined PastEnd
  end.
Definition update_tx (tx_id : TransactionId)
    (f : DistributedTransaction → DistributedTransaction) : M (TmSt L) unit :=
  on_tm (λ m, set_transactions (alter f tx_id (transactions_ m)) m).
Definition erase_tx (tx_id : TransactionId) : M (TmSt L) unit :=
  on_tm (λ m, set_transactions (delete tx_id (transactions_ m)) m).
Definition touch_tx (tx_id : TransactionId) : M (TmSt L) unit :=
  now ← tm_now; update_tx tx_id (update_activity now).

(** ** Notifications *)

Definition notify (e : Event) : M (TmSt L) unit :=
  on_tm (λ m, match event_handler_ m with
              | Some events => set_event_handler_ (Some (events ++ [e])) m
              | None => m
              end).
Definition notify_transaction_started (tx_id : TransactionId) : M (TmSt L) unit :=
  notify (Started tx_id).
Definition notify_transaction_committed (tx_id : TransactionId) : M (TmSt L) unit :=
  notify (Committed tx_id).
Definition notify_transaction_aborted (tx_id : TransactionId) (reason : string) :
    M (TmSt L) unit := notify (Aborted tx_id reason).
Definition notify_deadlock_detected (deadlock_cycle : list TransactionId) : M (TmSt L) unit :=
  notify (DeadlockDetected deadlock_cycle).

(** ** Private helpers *)

Definition generate_transaction_id : M (TmSt L) TransactionId := lift (λ s : TmSt L,
  let n := next_transaction_id_ s.2 in
  (n, (s.1, set_next_transaction_id (wrap64 (n + 1)) s.2))).

Definition validate_transaction (tx_id : TransactionId) : M (TmSt L) (Result unit) :=
  found ← gets (λ s : TmSt L, transactions_ s.2 !! tx_id);
  match found with
  | None => mret (RErr Status.NOT_FOUND ("Transaction " +:+ pretty tx_id +:+ " not found"))
  | Some tx =>
      now ← tm_now;
      if tx_is_expired now tx
      then mret (RErr Status.TIMEOUT ("Transaction " +:+ pretty tx_id +:+ " has expired"))
      else mret (ROk tt)
  end.

(** Both walk over the operations and do nothing for any of them. *)
Definition apply_operation (op : TransactionOperation) : M (TmSt L) unit :=
  match op_type op with
  | TxOperationType.WRITE => mret tt
  | TxOperationType.DELETE => mret tt
  | _ => mret tt
  end.
Definition apply_transaction_operations (tx : DistributedTransaction) :
    M (TmSt L) (Result unit) :=
  _ ← mfor apply_operation (operations tx); mret (ROk tt).
Definition rollback_transaction_operations (tx : DistributedTransaction) :
    M (TmSt L) (Result unit) :=
  _ ← mfor apply_operation (reverse (operations tx)); mret (ROk tt).

(** A message is made for every participant, and dropped. *)
Definition make_message (type : TwoPhaseCommitMessage.t) (tx_id : TransactionId)
    (node : NodeId) : M (TmSt L) TpcMessage :=
  _ ← tm_now;
  now ← tm_now;
  mret (MkTpc type tx_id "" node "" now).
Definition send_messages (type : TwoPhaseCommitMessage.t) (tx_id : TransactionId) :
    M (TmSt L) (Result unit) :=
  found ← gets (λ s : TmSt L, transactions_ s.2 !! tx_id);
  match found with
  | None => mret (RErr Status.NOT_FOUND "Transaction not found")
  | Some tx =>
      _ ← mfor (λ node, _ ← make_message type tx_id node; mret tt)
            (order_nodes (participant_nodes tx));
      mret (ROk tt)
  end.
Definition send_prepare_messages := send_messages TwoPhaseCommitMessage.PREPARE.
Definition send_commit_messages := send_messages TwoPhaseCommitMessage.COMMIT.
Definition send_abort_messages := send_messages TwoPhaseCommitMessage.ABORT.

(** The loop over [prepare_votes], up to the first node that voted no. *)
Fixpoint all_votes (votes : gmap NodeId bool) (nodes : list NodeId) : bool :=
  match nodes with
  | [] => true
  | node :: nodes =>
      if default true (votes !! node) then all_votes votes nodes else false
  end.

(** ** Life cycle *)

Definition start : M (TmSt L) (Result unit) := guarded (
  running ← gets (λ s : TmSt L, is_running_ s.2);
  if running : bool then mret (ROk tt)
  else
    _ ← on_tm (set_threads true false (Some AtCheck) (Some AtCheck));
    mret (ROk tt)).

(** ** Transactions *)

Definition begin_transaction (isolation : IsolationLevel.t) :
    M (TmSt L) (Result TransactionId) := guarded (
  running ← gets (λ s : TmSt L, is_running_ s.2);
  if negb running then
    mret (RErr Status.SERVICE_UNAVAILABLE "Transaction manager is not running")
  else
    tx_id ← generate_transaction_id;
    constructed ← tm_now;
    now ← tm_now;
    timeout ← gets (λ s : TmSt L, default_timeout_ s.2);
    let tx := DistributedTransaction_new constructed in
    let tx := MkTransaction tx_id (coordinator_node tx) (participant_nodes tx)
      TransactionState.ACTIVE isolation (operations tx) (held_locks tx) now now timeout
      (prepare_votes tx) (commit_acks tx) in
    _ ← on_tm (λ m, set_transactions (<[tx_id := tx]> (transactions_ m)) m);
    _ ← notify_transaction_started tx_id;
    mret (ROk tx_id)).

Definition abort_transaction (tx_id : TransactionId) : M (TmSt L) (Result unit) := guarded (
  _ ←? validate_transaction tx_id;
  _ ← update_tx tx_id (set_state TransactionState.ABORTING);
  _ ← touch_tx tx_id;
  tx ← deref tx_id;
  _ ←? rollback_transaction_operations tx;
  _ ← send_abort_messages tx_id;
  _ ← release_locks tx_id;
  _ ← update_tx tx_id (set_state TransactionState.ABORTED);
  _ ← notify_transaction_aborted tx_id "Transaction aborted by request";
  _ ← erase_tx tx_id;
  mret (ROk tt)).

Definition not_active (tx_id : TransactionId) : Result unit :=
  RErr Status.INVALID_STATE ("Transaction " +:+ pretty tx_id +:+ " is not in active state").

Definition commit_transaction (tx_id : TransactionId) : M (TmSt L) (Result unit) := guarded (
  _ ←? validate_transaction tx_id;
  tx ← deref tx_id;
  if negb (bool_decide (tx_state tx = TransactionState.ACTIVE)) then mret (not_active tx_id)
  else
  _ ← update_tx tx_id (set_state TransactionState.PREPARING);
  _ ← touch_tx tx_id;
  prepare_result ← send_prepare_messages tx_id;
  match prepare_result with
  | RErr st msg =>
      _ ← update_tx tx_id (set_state TransactionState.ABORTING);
      _ ← abort_transaction tx_id;
      mret (RErr st msg)
  | ROk _ =>
      tx ← deref tx_id;
      if negb (all_votes (prepare_votes tx) (order_nodes (dom (prepare_votes tx)))) then
        _ ← update_tx tx_id (set_state TransactionState.ABORTING);
        _ ← send_abort_messages tx_id;
        _ ← erase_tx tx_id;
        mret (RErr Status.TRANSACTION_ABORTED "Some participants failed to prepare")
      else
      _ ← update_tx tx_id (set_state TransactionState.COMMITTING);
      _ ← touch_tx tx_id;
      _ ←? send_commit_messages tx_id;
      tx ← deref tx_id;
      _ ←? apply_transaction_operations tx;
      _ ← release_locks tx_id;
      _ ← update_tx tx_id (set_state TransactionState.COMMITTED);
      _ ← notify_transaction_committed tx_id;
      _ ← erase_tx tx_id;
      mret (ROk tt)
  end).

(** ** Data operations *)

(** [TransactionOperation op; op.type = ..., op.key = ...]. *)
Definition new_operation (type : TxOperationType.t) (key : MultiLevelKey) :
    M (TmSt L) TransactionOperation :=
  old_now ← tm_now;
  new_now ← tm_now;
  now ← tm_now;
  mret (MkOperation type key (DataEntry_default old_now) (DataEntry_default new_now) 0 now).

(** [op.timestamp = now(); tx.operations.push_back(op); tx.update_activity();] *)
Definition record_operation (tx_id : TransactionId) (op : TransactionOperation) :
    M (TmSt L) unit :=
  now ← tm_now;
  _ ← update_tx tx_id (push_operation
        (MkOperation (op_type op) (op_key op) (op_old_value op) (op_new_value op)
           (op_version op) now));
  touch_tx tx_id.

(** [acquire_lock(tx_id, key, type, 5 s)] and [tx.held_locks.insert]. *)
Definition take_lock (tx_id : TransactionId) (key : MultiLevelKey) (type : LockType.t) :
    M (TmSt L) (Result unit) :=
  id ←? call_lock_manager (svc_acquire tx_id key type 5000);
  _ ← update_tx tx_id (hold_lock id);
  mret (ROk tt).

Definition read (tx_id : TransactionId) (key : MultiLevelKey) :
    M (TmSt L) (Result DataEntry) := guarded (
  _ ←? validate_transaction tx_id;
  tx ← deref tx_id;
  _ ←? (if bool_decide (isolation_level tx = IsolationLevel.READ_UNCOMMITTED)
        then mret (ROk tt)
        else take_lock tx_id key LockType.SHARED);
  op ← new_operation TxOperationType.READ key;
  _ ← record_operation tx_id op;
  _ ← tm_now;
  now ← tm_now;
  mret (ROk (simulated_entry key now))).

Definition write (tx_id : TransactionId) (key : MultiLevelKey) (value : DataEntry) :
    M (TmSt L) (Result unit) := guarded (
  _ ←? validate_transaction tx_id;
  _ ←? take_lock tx_id key LockType.EXCLUSIVE;
  op ← new_operation TxOperationType.WRITE key;
  _ ← record_operation tx_id (MkOperation (op_type op) (op_key op) (op_old_value op) value
        (op_version op) (op_timestamp op));
  mret (ROk tt)).

Definition remove (tx_id : TransactionId) (key : MultiLevelKey) :
    M (TmSt L) (Result unit) := guarded (
  _ ←? validate_transaction tx_id;
  _ ←? take_lock tx_id key LockType.EXCLUSIVE;
  op ← new_operation TxOperationType.DELETE key;
  _ ← record_operation tx_id op;
  mret (ROk tt)).

Definition lock (tx_id : TransactionId) (key : MultiLevelKey) (type : LockType.t) :
    M (TmSt L) (Result unit) := guarded (
  _ ←? validate_transaction tx_id;
  _ ←? take_lock tx_id key type;
  op ← new_operation TxOperationType.LOCK key;
  _ ← record_operation tx_id op;
  mret (ROk tt)).

(** ** Two-phase commit *)

Definition prepare (tx_id : TransactionId) : M (TmSt L) (Result unit) := guarded (
  _ ←? validate_transaction tx_id;
  tx ← deref tx_id;
  if negb (bool_decide (tx_state tx = TransactionState.ACTIVE)) then mret (not_active tx_id)
  else
  _ ← update_tx tx_id (set_state TransactionState.PREPARED);
  _ ← touch_tx tx_id;
  mret (ROk tt)).

(** A handler returns at once when the transaction is unknown. *)
Definition when_known (tx_id : TransactionId)
    (body : DistributedTransaction → M (TmSt L) unit) : M (TmSt L) unit :=
  found ← gets (λ s : TmSt L, transactions_ s.2 !! tx_id);
  match found with
  | None => mret tt
  | Some tx => body tx
  end.

Definition handle_prepare_message (message : TpcMessage) : M (TmSt L) unit :=
  let tx_id := msg_transaction_id message in
  when_known tx_id (λ _,
    let can_commit := true in
    if can_commit : bool then update_tx tx_id (set_state TransactionState.PREPARED)
    else update_tx tx_id (set_state TransactionState.ABORTING)).
Definition handle_prepare_response (message : TpcMessage) : M (TmSt L) unit :=
  let tx_id := msg_transaction_id message in
  when_known tx_id (λ _,
    let vote := bool_decide (msg_type message = TwoPhaseCommitMessage.PREPARE_OK) in
    update_tx tx_id (set_vote (from_node message) vote)).
Definition handle_commit_message (message : TpcMessage) : M (TmSt L) unit :=
  let tx_id := msg_transaction_id message in
  when_known tx_id (λ tx,
    _ ← apply_transaction_operations tx;
    update_tx tx_id (set_state TransactionState.COMMITTED)).
Definition handle_abort_message (message : TpcMessage) : M (TmSt L) unit :=
  let tx_id := msg_transaction_id message in
  when_known tx_id (λ tx,
    _ ← rollback_transaction_operations tx;
    update_tx tx_id (set_state TransactionState.ABORTED)).

Definition handle_tpc_message (message : TpcMessage) : M (TmSt L) (Result unit) := guarded (
  match msg_type message with
  | TwoPhaseCommitMessage.PREPARE => _ ← handle_prepare_message message; mret (ROk tt)
  | TwoPhaseCommitMessage.PREPARE_OK
  | TwoPhaseCommitMessage.PREPARE_ABORT => _ ← handle_prepare_response message; mret (ROk tt)
  | TwoPhaseCommitMessage.COMMIT => _ ← handle_commit_message message; mret (ROk tt)
  | TwoPhaseCommitMessage.ABORT => _ ← handle_abort_message message; mret (ROk tt)
  | _ => mret (RErr Status.INVALID_ARGUMENT "Unknown TPC message type")
  end).

(** ** Queries, settings, maintenance *)

Definition get_transaction_state (tx_id : TransactionId) : M (TmSt L) TransactionState.t :=
  guarded (gets (λ s : TmSt L,
    match transactions_ s.2 !! tx_id with
    | None => TransactionState.ABORTED
    | Some tx => tx_state tx
    end)).

Definition get_active_transactions : M (TmSt L) (list TransactionId) :=
  guarded (gets (λ s : TmSt L,
    filter (λ tx_id, tx_state <$> transactions_ s.2 !! tx_id = Some TransactionState.ACTIVE)
      (order_txs (dom (transactions_ s.2))))).

Definition get_transaction_info (tx_id : TransactionId) : M (TmSt L) DistributedTransaction :=
  guarded (
    found ← gets (λ s : TmSt L, transactions_ s.2 !! tx_id);
    match found with
    | Some tx => mret tx
    | None => now ← tm_now; mret (DistributedTransaction_new now)
    end).

Definition set_event_handler (handler : option (list Event)) : M (TmSt L) unit :=
  guarded (on_tm (set_event_handler_ handler)).
Definition set_lock_manager (lock_manager : option L) : M (TmSt L) unit :=
  guarded (on_tm (set_lock_manager_ lock_manager)).
Definition set_default_timeout (timeout : Z) : M (TmSt L) unit :=
  guarded (on_tm (set_default_timeout_ timeout)).

Definition recover_transactions : M (TmSt L) (Result unit) := guarded (mret (ROk tt)).

Fixpoint collect_expired (ids : list TransactionId) (expired_txs : list TransactionId) :
    M (TmSt L) (list TransactionId) :=
  match ids with
  | [] => mret expired_txs
  | tx_id :: ids =>
      tx ← deref tx_id;
      now ← tm_now;
      collect_expired ids (if tx_is_expired now tx then expired_txs ++ [tx_id] else expired_txs)
  end.

Definition cleanup_expired_transactions : M (TmSt L) (Result unit) := guarded (
  _ ← tm_now;
  ids ← gets (λ s : TmSt L, order_txs (dom (transactions_ s.2)));
  expired_txs ← collect_expired ids [];
  _ ← mfor (λ tx_id, _ ← abort_transaction tx_id; mret tt) expired_txs;
  mret (ROk tt)).

(** ** The background threads *)

(** What a turn of each does inside its [try] block. *)
Definition cleanup_turn : M (TmSt L) unit := _ ← cleanup_expired_transactions; mret tt.
Definition resolve_each (deadlock : list TransactionId) : M (TmSt L) unit :=
  _ ← notify_deadlock_detected deadlock;
  _ ← call_lock_manager (svc_resolve deadlock);
  mret tt.
Definition detection_turn : M (TmSt L) unit :=
  present ← gets (λ s : TmSt L, lock_manager_ s.2);
  match present with
  | None => mret tt
  | Some _ =>
      deadlocks ← call_lock_manager svc_detect;
      mfor resolve_each deadlocks
  end.

(** The test of [while (!stop_threads_)] and the rest of a turn; a thread that
    leaves the loop ends and stays joinable. *)
Definition cleanup_check : M (TmSt L) unit := on_tm (λ m,
  match cleanup_thread_ m with
  | Some AtCheck =>
      if stop_threads_ m then m
      else set_threads (is_running_ m) (stop_threads_ m) (Some InTurn)
             (deadlock_detection_thread_ m) m
  | _ => m
  end).
Definition cleanup_loop_turn : M (TmSt L) unit :=
  thread ← gets (λ s : TmSt L, cleanup_thread_ s.2);
  match thread with
  | Some InTurn =>
      _ ← catching cleanup_turn;
      on_tm (λ m, set_threads (is_running_ m) (stop_threads_ m)
                    ((λ _, AtCheck) <$> cleanup_thread_ m) (deadlock_detection_thread_ m) m)
  | _ => mret tt
  end.
Definition detection_check : M (TmSt L) unit := on_tm (λ m,
  match deadlock_detection_thread_ m with
  | Some AtCheck =>
      if stop_threads_ m then m
      else set_threads (is_running_ m) (stop_threads_ m) (cleanup_thread_ m) (Some InTurn) m
  | _ => m
  end).
Definition detection_loop_turn : M (TmSt L) unit :=
  thread ← gets (λ s : TmSt L, deadlock_detection_thread_ s.2);
  match thread with
  | Some InTurn =>
      _ ← catching detection_turn;
      on_tm (λ m, set_threads (is_running_ m) (stop_threads_ m) (cleanup_thread_ m)
                    ((λ _, AtCheck) <$> deadlock_detection_thread_ m) m)
  | _ => mret tt
  end.

(** [join], by a caller that holds [mutex_]. *)
Definition join_cleanup : M (TmSt L) unit :=
  thread ← gets (λ s : TmSt L, cleanup_thread_ s.2);
  match thread with
  | Some InTurn => joining cleanup_turn
  | _ => mret tt
  end.
Definition join_detection : M (TmSt L) unit :=
  thread ← gets (λ s : TmSt L, deadlock_detection_thread_ s.2);
  match thread with
  | Some InTurn => joining detection_turn
  | _ => mret tt
  end.

Definition stop : M (TmSt L) (Result unit) := guarded (
  running ← gets (λ s : TmSt L, is_running_ s.2);
  if negb running then mret (ROk tt)
  else
    _ ← on_tm (λ m, set_threads (is_running_ m) true (cleanup_thread_ m)
                      (deadlock_detection_thread_ m) m);
    _ ← join_cleanup;
    _ ← join_detection;
    _ ← on_tm (set_threads false true None None);
    mret (ROk tt)).

(** [~DefaultTransactionManager]. *)
Definition DefaultTransactionManager_destroy : M (TmSt L) unit := noexcept (
  running ← gets (λ s : TmSt L, is_running_ s.2);
  if running : bool then _ ← stop; mret tt else mret tt).

#[export] Instance default_transaction_service : TransactionService (TmSt L) := {|
  svc_read := read;
  svc_write := write;
  svc_remove := remove;
  svc_lock := lock;
  svc_commit := commit_transaction;
  svc_abort := abort_transaction;
  svc_state := get_transaction_state
|}.
End transaction_manager.

(** ** What a call leaves alone *)

Abbreviation Txs := (gmap TransactionId DistributedTransaction).

(** The fields [start] and [stop] are about. *)
Definition threads {L} (m : TransactionManager L) :=
  (is_running_ m, stop_threads_ m, cleanup_thread_ m, deadlock_detection_thread_ m).

(** Time passes, no transaction is begun, and the table changes by [P]. *)
Definition frame {L} (P : relation Txs) : relation (TmSt L) := λ s s',
  later fst s s' ∧ next_transaction_id_ s'.2 = next_transaction_id_ s.2 ∧
  threads s'.2 = threads s.2 ∧ P (transactions_ s.2) (transactions_ s'.2).

#[export] Instance frame_preorder {L} P `{!PreOrder P} : PreOrder (frame (L := L) P).
Proof.
  split.
  - by intros s.
  - intros s t u (H1 & H2 & H3 & H4) (H5 & H6 & H7 & H8).
    split_and!; [by trans t|congruence|congruence|by etrans].
Qed.

(** The table changes at one transaction at most. *)
Definition others (tx_id : TransactionId) : relation Txs := λ txs txs',
  ∀ k, k ≠ tx_id → txs' !! k = txs !! k.

#[export] Instance others_preorder tx_id : PreOrder (others tx_id).
Proof.
  split.
  - by intros txs k.
  - intros a b c H1 H2 k Hk. by rewrite H2, H1.
Qed.

Section frames.
Context {L : Type} `{!LockService L}.
Context (order_txs : gset TransactionId → list TransactionId).
Context (order_nodes : gset NodeId → list NodeId).
Context (P : relation Txs) `{!PreOrder P}.
Abbreviation St := (TmSt L).

Lemma frame_mutex b (s : St) : frame P s (set_owned b s).
Proof. done. Qed.

Lemma frame_now : respects (frame (L := L) P) tm_now.
Proof.
  apply respects_step. intros [c m]. eexists _, _. split; [done|].
  split; [apply clock_after_tick|done].
Qed.

Lemma frame_on_tm (f : TransactionManager L → TransactionManager L) :
  (∀ m, next_transaction_id_ (f m) = next_transaction_id_ m) →
  (∀ m, threads (f m) = threads m) → (∀ m, P (transactions_ m) (transactions_ (f m))) →
  respects (frame P) (on_tm f).
Proof.
  intros H1 H2 H3. apply respects_step. intros [c m]. eexists _, _. split; [reflexivity|].
  split_and!; [done|apply H1|apply H2|apply H3].
Qed.

Lemma frame_notify e : respects (frame (L := L) P) (notify e).
Proof. apply frame_on_tm; intros m; by destruct (event_handler_ m). Qed.

Lemma frame_call {A} (m : M L A) :
  respects (later svc_clock) m → respects (frame P) (call_lock_manager m).
Proof.
  intros Hm [c t]. unfold wlp, throws_in, call_lock_manager. cbn.
  destruct (lock_manager_ t) as [l|]; [|done].
  destruct (Hm (svc_set_clock c l)) as [H1 H2]. unfold wlp, throws_in, later in H1, H2.
  rewrite svc_clock_set in H1, H2. by destruct (m _).
Qed.

Lemma frame_set (f : Txs → Txs) :
  (∀ txs, P txs (f txs)) →
  respects (frame (L := L) P) (on_tm (λ m, set_transactions (f (transactions_ m)) m)).
Proof. intros H. by apply frame_on_tm. Qed.
End frames.

#[export] Hint Resolve frame_mutex frame_now frame_notify frame_call
  svc_acquire_clock svc_release_clock svc_detect_clock svc_resolve_clock : respects.
#[export] Hint Unfold notify_transaction_started notify_transaction_committed
  notify_transaction_aborted notify_deadlock_detected : respects.

Section bodies.
Context {L : Type} `{!LockService L}.
Context (order_txs : gset TransactionId → list TransactionId).
Context (order_nodes : gset NodeId → list NodeId).

Lemma update_others tx_id f : respects (frame (L := L) (others tx_id)) (update_tx tx_id f).
Proof. apply frame_set. intros txs k Hk. by rewrite lookup_alter_ne. Qed.

Lemma erase_others tx_id : respects (frame (L := L) (others tx_id)) (erase_tx tx_id).
Proof. apply frame_set. intros txs k Hk. by rewrite lookup_delete_ne. Qed.

Section any.
Context (P : relation Txs) `{!PreOrder P}.

Lemma frame_validate tx_id : respects (frame (L := L) P) (validate_transaction tx_id).
Proof. unfold validate_transaction. respects_tac. Qed.

Lemma frame_deref tx_id : respects (frame (L := L) P) (deref tx_id).
Proof. unfold deref. respects_tac. Qed.

Lemma frame_apply tx : respects (frame (L := L) P) (apply_transaction_operations tx).
Proof. unfold apply_transaction_operations, apply_operation. respects_tac. Qed.

Lemma frame_rollback tx : respects (frame (L := L) P) (rollback_transaction_operations tx).
Proof. unfold rollback_transaction_operations, apply_operation. respects_tac. Qed.

Lemma frame_send type tx_id : respects (frame (L := L) P) (send_messages order_nodes type tx_id).
Proof. unfold send_messages, make_message. respects_tac. Qed.

Lemma frame_release tx_id : respects (frame (L := L) P) (release_locks tx_id).
Proof. unfold release_locks. respects_tac. Qed.

Lemma frame_new_operation type key : respects (frame (L := L) P) (new_operation type key).
Proof. unfold new_operation. respects_tac. Qed.
End any.

#[local] Hint Resolve update_others erase_others frame_validate frame_deref frame_apply
  frame_rollback frame_send frame_release frame_new_operation : respects.

Lemma others_touch tx_id : respects (frame (L := L) (others tx_id)) (touch_tx tx_id).
Proof. unfold touch_tx. respects_tac. Qed.

#[local] Hint Resolve others_touch : respects.

Lemma others_record tx_id op :
  respects (frame (L := L) (others tx_id)) (record_operation tx_id op).
Proof. unfold record_operation. respects_tac. Qed.

Lemma others_take_lock tx_id key type :
  respects (frame (L := L) (others tx_id)) (take_lock tx_id key type).
Proof. unfold take_lock. respects_tac. Qed.

#[local] Hint Resolve others_record others_take_lock : respects.

Lemma others_read tx_id key : respects (frame (L := L) (others tx_id)) (read tx_id key).
Proof. unfold read. respects_tac. Qed.

Lemma others_write tx_id key v : respects (frame (L := L) (others tx_id)) (write tx_id key v).
Proof. unfold write. respects_tac. Qed.

Lemma others_remove tx_id key : respects (frame (L := L) (others tx_id)) (remove tx_id key).
Proof. unfold remove. respects_tac. Qed.

Lemma others_lock tx_id key type :
  respects (frame (L := L) (others tx_id)) (lock tx_id key type).
Proof. unfold lock. respects_tac. Qed.

Lemma others_prepare tx_id : respects (frame (L := L) (others tx_id)) (prepare tx_id).
Proof. unfold prepare. respects_tac. Qed.

Lemma others_abort tx_id :
  respects (frame (L := L) (others tx_id)) (abort_transaction order_nodes tx_id).
Proof. unfold abort_transaction, send_abort_messages, notify_transaction_aborted. respects_tac. Qed.

#[local] Hint Resolve others_abort : respects.

Lemma others_commit tx_id :
  respects (frame (L := L) (others tx_id)) (commit_transaction order_nodes tx_id).
Proof.
  unfold commit_transaction, send_prepare_messages, send_commit_messages, send_abort_messages,
    notify_transaction_committed. respects_tac.
Qed.

Lemma others_tpc message :
  respects (frame (L := L) (others (msg_transaction_id message))) (handle_tpc_message message).
Proof.
  unfold handle_tpc_message, handle_prepare_message, handle_prepare_response,
    handle_commit_message, handle_abort_message, when_known. respects_tac.
Qed.
End bodies.
