(* ===== verification/TransactionOutcomes.v ===== *)
(** * TransactionOutcomes: what [commit_transaction] and [abort_transaction] do

    The outcome of both calls on every branch, over any lock manager, and what
    it comes to with [DefaultLockManager]: its [release_all_locks] throws
    for a transaction that holds a lock. *)

From Stdlib Require Import Ascii String ZArith NArith Lia.
From stdpp Require Import base numbers list strings gmap pretty.
From S2P Require Import Prelude OrdMap Types Files Locks LockManager Transactions.
From S2P Require Import TransactionManager.

(** ** Single steps *)

Section steps.
Context {L : Type} `{!LockService L}.
Context (order_nodes : gset NodeId → list NodeId).
Implicit Types m : TransactionManager L.

Lemma guarded_tm {A} (b : M (TmSt L) A) c m :
  tm_mutex_ m = false →
  guarded b (c, m) =
    match b (c, set_tm_mutex true m) with
    | Returns a s => Returns a (s.1, set_tm_mutex false s.2)
    | Throws n s => Throws n (s.1, set_tm_mutex false s.2)
    | Undefined u => Undefined u
    end.
Proof. intros H. unfold guarded. cbn [owned TransactionManager_mutex snd]. by rewrite H. Qed.

Lemma tm_now_step c m : tm_now (c, m) = Returns (tick c).1 ((tick c).2, m).
Proof. done. Qed.

Lemma deref_step tx_id tx c m :
  transactions_ m !! tx_id = Some tx → deref tx_id (c, m) = Returns tx (c, m).
Proof. intros H. unfold deref. msimpl. by rewrite H. Qed.

Lemma validate_unknown tx_id c m :
  transactions_ m !! tx_id = None →
  validate_transaction tx_id (c, m) =
    Returns (RErr Status.NOT_FOUND ("Transaction " +:+ pretty tx_id +:+ " not found")) (c, m).
Proof. intros H. unfold validate_transaction. msimpl. by rewrite H. Qed.

Lemma validate_known tx_id tx c m :
  transactions_ m !! tx_id = Some tx →
  validate_transaction tx_id (c, m) =
    Returns (if tx_is_expired (tick c).1 tx
             then RErr Status.TIMEOUT ("Transaction " +:+ pretty tx_id +:+ " has expired")
             else ROk tt) ((tick c).2, m).
Proof.
  intros H. unfold validate_transaction. msimpl. rewrite H. mstep (tm_now_step c m).
  by destruct (tx_is_expired _ tx).
Qed.

Lemma apply_operation_ret op : apply_operation (L := L) op = mret tt.
Proof. unfold apply_operation. by destruct (op_type op). Qed.

Lemma apply_step tx (s : TmSt L) : apply_transaction_operations tx s = Returns (ROk tt) s.
Proof.
  unfold apply_transaction_operations. induction (operations tx) as [|op ops IH]; [done|].
  cbn [mfor]. rewrite apply_operation_ret. exact IH.
Qed.

Lemma rollback_step tx (s : TmSt L) :
  rollback_transaction_operations tx s = Returns (ROk tt) s.
Proof.
  unfold rollback_transaction_operations. induction (reverse (operations tx)) as [|op ops IH];
    [done|]. cbn [mfor]. rewrite apply_operation_ret. exact IH.
Qed.

(** Sending only takes time. *)
Lemma send_step type tx_id tx c m :
  transactions_ m !! tx_id = Some tx →
  ∃ c', clock_after c c' ∧
    send_messages order_nodes type tx_id (c, m) = Returns (ROk tt) (c', m).
Proof.
  intros H. unfold send_messages.
  assert (∀ c, ∃ c', clock_after c c' ∧
    mfor (λ node, _ ← make_message type tx_id node; mret ()) (order_nodes (participant_nodes tx))
      (c, m) = Returns tt (c', m)) as Hloop.
  { induction (order_nodes _) as [|node nodes IH]; intros c0; [by exists c0|]. cbn [mfor].
    destruct (IH (tick (tick c0).2).2) as (c' & Hc' & E). exists c'. split; [|exact E].
    trans (tick (tick c0).2).2; [|done]. etrans; apply clock_after_tick. }
  destruct (Hloop c) as (c' & Hc' & E). exists c'. split; [done|].
  msimpl. rewrite H. by rewrite (M_bind_step _ _ _ _ _ E).
Qed.

Lemma update_step tx_id f c m :
  update_tx tx_id f (c, m) =
    Returns tt (c, set_transactions (alter f tx_id (transactions_ m)) m).
Proof. done. Qed.

Lemma touch_step tx_id c m :
  touch_tx tx_id (c, m) =
    Returns tt ((tick c).2,
      set_transactions (alter (update_activity (tick c).1) tx_id (transactions_ m)) m).
Proof. done. Qed.

(** The table once the event handler has been told. *)
Definition told (e : Event) m : TransactionManager L :=
  match event_handler_ m with
  | Some events => set_event_handler_ (Some (events ++ [e])) m
  | None => m
  end.

(** What [release_locks] does to the lock manager. *)
Inductive released (tx_id : TransactionId) (c : Clock) : option L →
    outcome (Clock * option L) unit → Prop :=
  | released_absent : released tx_id c None (Returns tt (c, None))
  | released_returns l r l' :
      svc_release_all tx_id (svc_set_clock c l) = Returns r l' →
      released tx_id c (Some l) (Returns tt (svc_clock l', Some l'))
  | released_throws l n l' :
      svc_release_all tx_id (svc_set_clock c l) = Throws n l' →
      released tx_id c (Some l) (Throws n (svc_clock l', Some l'))
  | released_undefined l u :
      svc_release_all tx_id (svc_set_clock c l) = Undefined u →
      released tx_id c (Some l) (Undefined u).

Lemma release_step tx_id c m :
  ∃ o, released tx_id c (lock_manager_ m) o ∧
    release_locks tx_id (c, m) =
      match o with
      | Returns _ s => Returns tt (s.1, set_lock_manager_ s.2 m)
      | Throws n s => Throws n (s.1, set_lock_manager_ s.2 m)
      | Undefined u => Undefined u
      end.
Proof.
  unfold release_locks. msimpl. destruct (lock_manager_ m) as [l|] eqn:El.
  - unfold mbind, M_bind, call_lock_manager. cbn [fst snd]. rewrite El.
    destruct (svc_release_all _ _) as [r l'|n l'|u] eqn:E.
    + by eexists; split; [by eapply released_returns|].
    + by eexists; split; [by eapply released_throws|].
    + by eexists; split; [by eapply released_undefined|].
  - eexists. split; [apply released_absent|]. cbn. do 2 f_equal.
    destruct m; cbn in *. by rewrite El.
Qed.

Lemma all_votes_spec votes :
  enumerates order_nodes →
  all_votes votes (order_nodes (dom votes)) = bool_decide (map_Forall (λ _ v, v = true) votes).
Proof.
  intros Horder.
  assert (∀ nodes, all_votes votes nodes = true ↔ ∀ n, n ∈ nodes → votes !! n ≠ Some false)
    as Hall.
  { induction nodes as [|n nodes IH]; cbn.
    - split; [|done]. intros _ n. set_solver.
    - destruct (votes !! n) as [[]|] eqn:E; cbn.
      + rewrite IH. split; [|set_solver]. intros H n' [->|Hn']%elem_of_cons; [congruence|auto].
      + split; [done|]. intros H. destruct (H n); [by left|done].
      + rewrite IH. split; [|set_solver]. intros H n' [->|Hn']%elem_of_cons; [congruence|auto]. }
  apply eq_bool_prop_intro. rewrite bool_decide_spec, Is_true_true, Hall. split.
  - intros H n v Hn. destruct v; [done|]. destruct (H n); [|done].
    apply Horder, elem_of_dom. eauto.
  - intros H n Hn E. by specialize (H _ _ E).
Qed.
End steps.

(** ** The outcomes *)

Section outcomes.
Context {L : Type} `{!LockService L}.
Context (order_nodes : gset NodeId → list NodeId).
Implicit Types m : TransactionManager L.

(** The table without the transaction. *)
Definition forget (tx_id : TransactionId) m : TransactionManager L :=
  set_transactions (delete tx_id (transactions_ m)) m.

(** The table with another entry for the transaction. *)
Definition changed (tx_id : TransactionId) (f : DistributedTransaction → DistributedTransaction)
    m : TransactionManager L :=
  set_transactions (alter f tx_id (transactions_ m)) m.

Inductive commit_outcome (tx_id : TransactionId) (c : Clock) m :
    outcome (TmSt L) (Result unit) → Prop :=
  | commit_unknown :
      transactions_ m !! tx_id = None →
      commit_outcome tx_id c m (Returns
        (RErr Status.NOT_FOUND ("Transaction " +:+ pretty tx_id +:+ " not found")) (c, m))
  | commit_expired tx :
      transactions_ m !! tx_id = Some tx → tx_is_expired (tick c).1 tx = true →
      commit_outcome tx_id c m (Returns
        (RErr Status.TIMEOUT ("Transaction " +:+ pretty tx_id +:+ " has expired"))
        ((tick c).2, m))
  | commit_not_active tx :
      transactions_ m !! tx_id = Some tx → tx_is_expired (tick c).1 tx = false →
      tx_state tx ≠ TransactionState.ACTIVE →
      commit_outcome tx_id c m (Returns (not_active tx_id) ((tick c).2, m))
  | commit_voted_down tx node c' :
      transactions_ m !! tx_id = Some tx → tx_is_expired (tick c).1 tx = false →
      tx_state tx = TransactionState.ACTIVE → prepare_votes tx !! node = Some false →
      clock_after c c' →
      commit_outcome tx_id c m (Returns
        (RErr Status.TRANSACTION_ABORTED "Some participants failed to prepare")
        (c', forget tx_id m))
  | commit_done tx c1 c2 l2 :
      transactions_ m !! tx_id = Some tx → tx_is_expired (tick c).1 tx = false →
      tx_state tx = TransactionState.ACTIVE →
      (∀ node, prepare_votes tx !! node ≠ Some false) → clock_after c c1 →
      released tx_id c1 (lock_manager_ m) (Returns tt (c2, l2)) →
      commit_outcome tx_id c m (Returns (ROk tt)
        (c2, told (Committed tx_id) (set_lock_manager_ l2 (forget tx_id m))))
  | commit_thrown tx c1 n c2 l2 f :
      transactions_ m !! tx_id = Some tx → tx_is_expired (tick c).1 tx = false →
      tx_state tx = TransactionState.ACTIVE →
      (∀ node, prepare_votes tx !! node ≠ Some false) → clock_after c c1 →
      released tx_id c1 (lock_manager_ m) (Throws n (c2, l2)) →
      (∀ tx, tx_state (f tx) = TransactionState.COMMITTING) →
      commit_outcome tx_id c m (Throws n (c2, set_lock_manager_ l2 (changed tx_id f m)))
  | commit_stuck tx c1 u :
      transactions_ m !! tx_id = Some tx → tx_is_expired (tick c).1 tx = false →
      tx_state tx = TransactionState.ACTIVE →
      (∀ node, prepare_votes tx !! node ≠ Some false) → clock_after c c1 →
      released tx_id c1 (lock_manager_ m) (Undefined u) →
      commit_outcome tx_id c m (Undefined u).

Inductive abort_outcome (tx_id : TransactionId) (c : Clock) m :
    outcome (TmSt L) (Result unit) → Prop :=
  | abort_unknown :
      transactions_ m !! tx_id = None →
      abort_outcome tx_id c m (Returns
        (RErr Status.NOT_FOUND ("Transaction " +:+ pretty tx_id +:+ " not found")) (c, m))
  | abort_expired tx :
      transactions_ m !! tx_id = Some tx → tx_is_expired (tick c).1 tx = true →
      abort_outcome tx_id c m (Returns
        (RErr Status.TIMEOUT ("Transaction " +:+ pretty tx_id +:+ " has expired"))
        ((tick c).2, m))
  | abort_done tx c1 c2 l2 :
      transactions_ m !! tx_id = Some tx → tx_is_expired (tick c).1 tx = false →
      clock_after c c1 → released tx_id c1 (lock_manager_ m) (Returns tt (c2, l2)) →
      abort_outcome tx_id c m (Returns (ROk tt)
        (c2, told (Aborted tx_id "Transaction aborted by request")
               (set_lock_manager_ l2 (forget tx_id m))))
  | abort_thrown tx c1 n c2 l2 f :
      transactions_ m !! tx_id = Some tx → tx_is_expired (tick c).1 tx = false →
      clock_after c c1 → released tx_id c1 (lock_manager_ m) (Throws n (c2, l2)) →
      (∀ tx, tx_state (f tx) = TransactionState.ABORTING) →
      abort_outcome tx_id c m (Throws n (c2, set_lock_manager_ l2 (changed tx_id f m)))
  | abort_stuck tx c1 u :
      transactions_ m !! tx_id = Some tx → tx_is_expired (tick c).1 tx = false →
      clock_after c c1 → released tx_id c1 (lock_manager_ m) (Undefined u) →
      abort_outcome tx_id c m (Undefined u).

(** The end of both calls: release, set the state, notify, erase. *)
Definition finish (tx_id : TransactionId) (st : TransactionState.t) (e : Event) :
    M (TmSt L) (Result unit) :=
  _ ← release_locks tx_id;
  _ ← update_tx tx_id (set_state st);
  _ ← notify e;
  _ ← erase_tx tx_id;
  mret (ROk tt).

Lemma delete_alter_same (txs : Txs) f tx_id : delete tx_id (alter f tx_id txs) = delete tx_id txs.
Proof.
  apply map_eq. intros k. destruct (decide (k = tx_id)) as [->|Hk].
  - by rewrite !lookup_delete_eq.
  - by rewrite !lookup_delete_ne, lookup_alter_ne.
Qed.

Lemma unlock_lock m : tm_mutex_ m = false → set_tm_mutex false (set_tm_mutex true m) = m.
Proof. destruct m; cbn. by intros ->. Qed.

Lemma told_unlocked e m : tm_mutex_ m = false → set_tm_mutex false (told e m) = told e m.
Proof. unfold told. destruct m as [? []]; cbn; by intros ->. Qed.

Lemma alter_twice (txs : Txs) f g k : alter f k (alter g k txs) = alter (f ∘ g) k txs.
Proof.
  apply map_eq. intros i. destruct (decide (i = k)) as [->|Hk].
  - rewrite !lookup_alter_eq. by destruct (txs !! k).
  - by rewrite !lookup_alter_ne.
Qed.

(** Inside the critical section, the entry of the transaction changed by [f]. *)
Definition touched (tx_id : TransactionId) (f : DistributedTransaction → DistributedTransaction)
    m : TransactionManager L :=
  set_transactions (alter f tx_id (transactions_ m)) (set_tm_mutex true m).

Lemma touched_lookup tx_id f m tx :
  transactions_ m !! tx_id = Some tx → transactions_ (touched tx_id f m) !! tx_id = Some (f tx).
Proof. intros H. cbn. by rewrite lookup_alter_eq, H. Qed.

Lemma touched_first tx_id f c m :
  update_tx tx_id f (c, set_tm_mutex true m) = Returns tt (c, touched tx_id f m).
Proof. done. Qed.

Lemma touched_update tx_id f g c m :
  update_tx tx_id g (c, touched tx_id f m) = Returns tt (c, touched tx_id (g ∘ f) m).
Proof.
  unfold update_tx, on_tm, modify, touched, set_transactions. cbn. by rewrite alter_twice.
Qed.

Lemma touched_touch tx_id f c m :
  touch_tx tx_id (c, touched tx_id f m) =
    Returns tt ((tick c).2, touched tx_id (update_activity (tick c).1 ∘ f) m).
Proof. apply (touched_update tx_id f (update_activity (tick c).1) (tick c).2 m). Qed.

Lemma touched_notify tx_id f e c m :
  notify e (c, touched tx_id f m) = Returns tt (c, touched tx_id f (told e m)).
Proof.
  by destruct m as [lm [es|] txs next running timeout ct dt st mu].
Qed.

Lemma touched_erase tx_id f c m :
  erase_tx tx_id (c, touched tx_id f m) = Returns tt (c, set_tm_mutex true (forget tx_id m)).
Proof.
  unfold erase_tx, on_tm, modify, touched, forget, set_transactions, set_tm_mutex. cbn.
  by rewrite delete_alter_same.
Qed.

Lemma told_forget e tx_id m : forget tx_id (told e m) = told e (forget tx_id m).
Proof. by destruct m as [lm [es|] txs next running timeout ct dt st mu]. Qed.

Lemma finish_step tx_id st e c m f :
  tm_mutex_ m = false →
  ∃ o, released tx_id c (lock_manager_ m) o ∧
    match finish tx_id st e (c, touched tx_id f m) with
    | Returns r s => Returns r (s.1, set_tm_mutex false s.2)
    | Throws n s => Throws n (s.1, set_tm_mutex false s.2)
    | Undefined u => Undefined u
    end =
    match o with
    | Returns _ s => Returns (ROk tt) (s.1, told e (set_lock_manager_ s.2 (forget tx_id m)))
    | Throws n s => Throws n (s.1, set_lock_manager_ s.2 (changed tx_id f m))
    | Undefined u => Undefined u
    end.
Proof.
  intros Hm. destruct (release_step tx_id c (touched tx_id f m)) as (o & Ho & E).
  exists o. split; [exact Ho|]. unfold finish. unfold mbind at 1, M_bind at 1. rewrite E.
  destruct o as [[] [c2 l2]|n [c2 l2]|u]; [| |done]; cbn [fst snd].
  2: { do 2 f_equal. unfold touched, changed, set_lock_manager_, set_transactions, set_tm_mutex.
       cbn. by rewrite Hm. }
  change (set_lock_manager_ l2 (touched tx_id f m)) with (touched tx_id f (set_lock_manager_ l2 m)).
  mstep (touched_update tx_id f (set_state st) c2 (set_lock_manager_ l2 m)).
  mstep (touched_notify tx_id (set_state st ∘ f) e c2 (set_lock_manager_ l2 m)).
  mstep (touched_erase tx_id (set_state st ∘ f) c2 (told e (set_lock_manager_ l2 m))).
  unfold mret, M_ret. cbn [fst snd]. rewrite told_forget.
  change (forget tx_id (set_lock_manager_ l2 m)) with (set_lock_manager_ l2 (forget tx_id m)).
  by rewrite unlock_lock by (unfold told; cbn; by destruct (event_handler_ m)).
Qed.

(** abort_transaction on every branch: unknown, expired (refused), or done
    exactly when releasing the locks returns, with the event and the entry
    removed. *)
Theorem abort_transaction_outcomes tx_id c m :
  tm_mutex_ m = false →
  abort_outcome tx_id c m (abort_transaction order_nodes tx_id (c, m)).
Proof.
  intros Hm. unfold abort_transaction. rewrite guarded_tm by done. unfold mtry at 1.
  destruct (transactions_ m !! tx_id) as [tx|] eqn:Htx.
  2: { mstep (validate_unknown tx_id c (set_tm_mutex true m) Htx).
       cbn. rewrite unlock_lock by done. by apply abort_unknown. }
  mstep (validate_known tx_id tx c (set_tm_mutex true m) Htx).
  destruct (tx_is_expired _ tx) eqn:Hx.
  { cbn. rewrite unlock_lock by done. by eapply abort_expired. }
  mstep (touched_first tx_id (set_state TransactionState.ABORTING) (tick c).2 m).
  mstep (touched_touch tx_id (set_state TransactionState.ABORTING) (tick c).2 m).
  set (f := _ ∘ _). set (c1 := (tick (tick c).2).2).
  assert (clock_after c c1) as Hc1 by (trans (tick c).2; apply clock_after_tick).
  pose proof (touched_lookup tx_id f m tx Htx) as Hf.
  mstep (deref_step tx_id (f tx) c1 (touched tx_id f m) Hf). unfold mtry at 1.
  mstep (rollback_step (f tx) (c1, touched tx_id f m)).
  destruct (send_step order_nodes TwoPhaseCommitMessage.ABORT tx_id (f tx) c1 _ Hf)
    as (c2 & Hc2 & E).
  unfold send_abort_messages. mstep E.
  destruct (finish_step tx_id TransactionState.ABORTED
    (Aborted tx_id "Transaction aborted by request") c2 m f Hm) as (o & Ho & Eo).
  unfold finish in Eo. unfold notify_transaction_aborted. rewrite Eo.
  destruct o as [[] [c3 l3]|n [c3 l3]|u].
  - by eapply abort_done; [done..|by trans c1|done].
  - by eapply abort_thrown; [done..|by trans c1|done|].
  - by eapply abort_stuck; [done..|by trans c1|done].
Qed.

(** The two ends of [commit_transaction], once the votes are counted. *)
Lemma voted_down_step tx_id tx c m f :
  tm_mutex_ m = false → transactions_ m !! tx_id = Some tx →
  ∃ c', clock_after c c' ∧
    match (_ ← update_tx tx_id (set_state TransactionState.ABORTING);
           _ ← send_abort_messages order_nodes tx_id;
           _ ← erase_tx tx_id;
           mret (RErr (A := unit) Status.TRANSACTION_ABORTED "Some participants failed to prepare"))
          (c, touched tx_id f m) with
    | Returns r s => Returns r (s.1, set_tm_mutex false s.2)
    | Throws n s => Throws n (s.1, set_tm_mutex false s.2)
    | Undefined u => Undefined u
    end =
    Returns (RErr Status.TRANSACTION_ABORTED "Some participants failed to prepare")
      (c', forget tx_id m).
Proof.
  intros Hm Htx.
  mstep (touched_update tx_id f (set_state TransactionState.ABORTING) c m). set (g := _ ∘ _).
  destruct (send_step order_nodes TwoPhaseCommitMessage.ABORT tx_id (g tx) c _
    (touched_lookup tx_id g m tx Htx)) as (c' & Hc' & E).
  exists c'. split; [done|]. unfold send_abort_messages. mstep E.
  unfold erase_tx, on_tm, touched, forget, set_transactions, set_tm_mutex.
  rewrite M_bind_modify. cbn. rewrite delete_alter_same. by rewrite Hm.
Qed.

Lemma phase_two_step tx_id tx c m f :
  tm_mutex_ m = false → transactions_ m !! tx_id = Some tx →
  ∃ c' o g, clock_after c c' ∧ released tx_id c' (lock_manager_ m) o ∧
    (∀ tx, tx_state (g tx) = TransactionState.COMMITTING) ∧
    match (_ ← update_tx tx_id (set_state TransactionState.COMMITTING);
           _ ← touch_tx tx_id;
           _ ←? send_commit_messages order_nodes tx_id;
           tx ← deref tx_id;
           _ ←? apply_transaction_operations tx;
           finish tx_id TransactionState.COMMITTED (Committed tx_id)) (c, touched tx_id f m) with
    | Returns r s => Returns r (s.1, set_tm_mutex false s.2)
    | Throws n s => Throws n (s.1, set_tm_mutex false s.2)
    | Undefined u => Undefined u
    end =
    match o with
    | Returns _ s =>
        Returns (ROk tt) (s.1, told (Committed tx_id) (set_lock_manager_ s.2 (forget tx_id m)))
    | Throws n s => Throws n (s.1, set_lock_manager_ s.2 (changed tx_id g m))
    | Undefined u => Undefined u
    end.
Proof.
  intros Hm Htx.
  mstep (touched_update tx_id f (set_state TransactionState.COMMITTING) c m).
  mstep (touched_touch tx_id (set_state TransactionState.COMMITTING ∘ f) c m). set (g := _ ∘ _).
  pose proof (touched_lookup tx_id g m tx Htx) as Hg.
  destruct (send_step order_nodes TwoPhaseCommitMessage.COMMIT tx_id (g tx) (tick c).2 _ Hg)
    as (c' & Hc' & E).
  destruct (finish_step tx_id TransactionState.COMMITTED (Committed tx_id) c' m g Hm)
    as (o & Ho & Eo).
  exists c', o, g. split; [trans (tick c).2; [apply clock_after_tick|done]|].
  split; [done|]. split; [done|].
  rewrite <- Eo. unfold mtry at 1, send_commit_messages. mstep E.
  mstep (deref_step tx_id (g tx) c' (touched tx_id g m) Hg). unfold mtry at 1.
  by mstep (apply_step (g tx) (c', touched tx_id g m)).
Qed.

(** C27. commit_transaction on every branch: unknown, expired, not active, voted
    down (the entry goes, the locks stay, no event), or done exactly when
    releasing the locks returns; when releasing them throws, so does the commit,
    with the entry left COMMITTING. Votes that never arrived count as yes. *)
Theorem commit_transaction_outcomes tx_id c m :
  enumerates order_nodes → tm_mutex_ m = false →
  commit_outcome tx_id c m (commit_transaction order_nodes tx_id (c, m)).
Proof.
  intros Horder Hm. unfold commit_transaction. rewrite guarded_tm by done. unfold mtry at 1.
  destruct (transactions_ m !! tx_id) as [tx|] eqn:Htx.
  2: { mstep (validate_unknown tx_id c (set_tm_mutex true m) Htx).
       cbn. rewrite unlock_lock by done. by apply commit_unknown. }
  mstep (validate_known tx_id tx c (set_tm_mutex true m) Htx).
  destruct (tx_is_expired _ tx) eqn:Hx.
  { cbn. rewrite unlock_lock by done. by eapply commit_expired. }
  mstep (deref_step tx_id tx (tick c).2 (set_tm_mutex true m) Htx).
  case_bool_decide as Hactive; cbn [negb].
  2: { cbn. rewrite unlock_lock by done. by eapply commit_not_active. }
  mstep (touched_first tx_id (set_state TransactionState.PREPARING) (tick c).2 m).
  mstep (touched_touch tx_id (set_state TransactionState.PREPARING) (tick c).2 m).
  set (f := _ ∘ _). set (c1 := (tick (tick c).2).2).
  assert (clock_after c c1) as Hc1 by (trans (tick c).2; apply clock_after_tick).
  pose proof (touched_lookup tx_id f m tx Htx) as Hf.
  destruct (send_step order_nodes TwoPhaseCommitMessage.PREPARE tx_id (f tx) c1 _ Hf)
    as (c2 & Hc2 & E).
  unfold send_prepare_messages. mstep E. mstep (deref_step tx_id (f tx) c2 (touched tx_id f m) Hf).
  rewrite all_votes_spec by done. case_bool_decide as Hvotes; cbn [negb].
  - assert (∀ node, prepare_votes tx !! node ≠ Some false) as Hyes
      by (intros node Hn; by specialize (Hvotes node _ Hn)).
    destruct (phase_two_step tx_id tx c2 m f Hm Htx) as (c3 & o & g & Hc3 & Ho & Hg & Eo).
    unfold finish in Eo. unfold notify_transaction_committed. rewrite Eo.
    destruct o as [[] [c4 l4]|n [c4 l4]|u].
    + by eapply commit_done; [done..|trans c1; [done|by trans c2]|done].
    + by eapply commit_thrown; [done..|trans c1; [done|by trans c2]|done|done].
    + by eapply commit_stuck; [done..|trans c1; [done|by trans c2]|done].
  - apply map_not_Forall in Hvotes as (node & v & Hn & Hv); [|intros; apply _].
    apply not_true_is_false in Hv as ->.
    destruct (voted_down_step tx_id tx c2 m f Hm Htx) as (c3 & Hc3 & E3). rewrite E3.
    eapply commit_voted_down; [done..|]. trans c1; [done|by trans c2].
Qed.
End outcomes.

(** ** A concrete run

    Two transactions begun on a manager that was just started. *)
Definition example_key : MultiLevelKey := MkKey "k" "".

Definition just_started : TransactionManager LmSt :=
  set_threads true false (Some AtCheck) (Some AtCheck)
    (DefaultTransactionManager_new (lock_clock, LockManager_new)).

(** The state a method returns in. *)
Definition state_after {A} (m : M (TmSt LmSt) A) (s : TmSt LmSt) : TmSt LmSt :=
  match m s with Returns _ s' => s' | _ => s end.

Definition two_begun : TmSt LmSt :=
  state_after (_ ← begin_transaction (L := LmSt) IsolationLevel.SERIALIZABLE;
               begin_transaction IsolationLevel.SERIALIZABLE) (lock_clock, just_started).

(** A participant that voted against the second transaction. *)
Definition voted_down : TmSt LmSt :=
  state_after (handle_tpc_message
    (MkTpc TwoPhaseCommitMessage.PREPARE_ABORT 2 "n1" "" "" 0)) two_begun.

Lemma voted_down_unlocked : tm_mutex_ voted_down.2 = false.
Proof. vm_compute. reflexivity. Qed.

Lemma commit_transaction_outcomes_witness :
  let H := single_lock_service in
  commit_outcome 1 voted_down.1 voted_down.2
    (commit_transaction elements 1 (voted_down.1, voted_down.2)) ∧
  commit_outcome 2 voted_down.1 voted_down.2
    (commit_transaction elements 2 (voted_down.1, voted_down.2)) ∧
  commit_outcome 3 voted_down.1 voted_down.2
    (commit_transaction elements 3 (voted_down.1, voted_down.2)).
Proof.
  intros H.
  split; [|split]; (apply commit_transaction_outcomes;
    [apply elements_enumerates|apply voted_down_unlocked]).
Defined.

Lemma abort_transaction_outcomes_witness :
  let H := single_lock_service in
  abort_outcome 1 voted_down.1 voted_down.2
    (abort_transaction elements 1 (voted_down.1, voted_down.2)).
Proof. intros H. apply abort_transaction_outcomes, voted_down_unlocked. Defined.
