(* ===== verification/TransactionInvariants.v ===== *)
(** * TransactionInvariants: what every call on the transaction manager keeps

    The calls a client, a peer node and the two background threads make, the
    invariant of the transaction table that all of them keep, and the fate of
    a transaction once it has expired. *)

From Stdlib Require Import Ascii String ZArith NArith Lia.
From stdpp Require Import base numbers list strings gmap pretty.
From S2P Require Import Prelude OrdMap Types Files Locks LockManager Transactions.
From S2P Require Import TransactionManager TransactionOutcomes.

Section calls.
Context {L : Type} `{!LockService L}.
Context (order_txs : gset TransactionId → list TransactionId).
Context (order_nodes : gset NodeId → list NodeId).

Inductive tm_call :=
  | CallStart
  | CallStop
  | CallBegin (isolation : IsolationLevel.t)
  | CallCommit (tx_id : TransactionId)
  | CallAbort (tx_id : TransactionId)
  | CallRead (tx_id : TransactionId) (key : MultiLevelKey)
  | CallWrite (tx_id : TransactionId) (key : MultiLevelKey) (value : DataEntry)
  | CallRemove (tx_id : TransactionId) (key : MultiLevelKey)
  | CallLock (tx_id : TransactionId) (key : MultiLevelKey) (type : LockType.t)
  | CallPrepare (tx_id : TransactionId)
  | CallTpc (message : TpcMessage)
  | CallState (tx_id : TransactionId)
  | CallActive
  | CallInfo (tx_id : TransactionId)
  | CallSetHandler (handler : option (list Event))
  | CallSetTimeout (timeout : Z)
  | CallRecover
  | CallCleanup
  | ThreadCleanupCheck
  | ThreadCleanupTurn
  | ThreadDetectionCheck
  | ThreadDetectionTurn.

Definition ignore {A} (m : M (TmSt L) A) : M (TmSt L) unit := _ ← m; mret tt.

Definition tm_run (call : tm_call) : M (TmSt L) unit :=
  match call with
  | CallStart => ignore start
  | CallStop => ignore (stop order_txs order_nodes)
  | CallBegin isolation => ignore (begin_transaction isolation)
  | CallCommit tx_id => ignore (commit_transaction order_nodes tx_id)
  | CallAbort tx_id => ignore (abort_transaction order_nodes tx_id)
  | CallRead tx_id key => ignore (read tx_id key)
  | CallWrite tx_id key value => ignore (write tx_id key value)
  | CallRemove tx_id key => ignore (remove tx_id key)
  | CallLock tx_id key type => ignore (lock tx_id key type)
  | CallPrepare tx_id => ignore (prepare tx_id)
  | CallTpc message => ignore (handle_tpc_message message)
  | CallState tx_id => ignore (get_transaction_state tx_id)
  | CallActive => ignore (get_active_transactions order_txs)
  | CallInfo tx_id => ignore (get_transaction_info tx_id)
  | CallSetHandler handler => set_event_handler handler
  | CallSetTimeout timeout => set_default_timeout timeout
  | CallRecover => ignore recover_transactions
  | CallCleanup => ignore (cleanup_expired_transactions order_txs order_nodes)
  | ThreadCleanupCheck => cleanup_check
  | ThreadCleanupTurn => cleanup_loop_turn order_txs order_nodes
  | ThreadDetectionCheck => detection_check
  | ThreadDetectionTurn => detection_loop_turn
  end.

(** A run of calls, one after the other, all of which return. *)
Definition tm_runs (calls : list tm_call) : M (TmSt L) unit := mfor tm_run calls.

(** The same where an exception ends the call it leaves, and its caller goes on. *)
Definition tm_caught (calls : list tm_call) : M (TmSt L) unit :=
  mfor (λ call, catching (tm_run call)) calls.
End calls.

(** ** Entries keep their heads *)

(** What no call changes about a transaction that is in the table. *)
Definition same_head (tx tx' : DistributedTransaction) : Prop :=
  transaction_id tx' = transaction_id tx ∧ coordinator_node tx' = coordinator_node tx ∧
  participant_nodes tx' = participant_nodes tx ∧ isolation_level tx' = isolation_level tx ∧
  created_at tx' = created_at tx ∧ tx_timeout tx' = tx_timeout tx ∧
  commit_acks tx' = commit_acks tx.

(** A state a caller of [prepare] or a peer can put a transaction into. *)
Definition settled (st : TransactionState.t) : bool :=
  match st with
  | TransactionState.PREPARED | TransactionState.COMMITTED | TransactionState.ABORTED => true
  | _ => false
  end.

Definition derived : relation Txs := λ txs txs',
  ∀ k tx', txs' !! k = Some tx' → ∃ tx, txs !! k = Some tx ∧ same_head tx tx' ∧
    (tx_state tx' = tx_state tx ∨ settled (tx_state tx') = true).

#[export] Instance derived_preorder : PreOrder derived.
Proof.
  split.
  - intros txs k tx H. exists tx. split; [done|]. split; [done|by left].
  - intros a b c Hab Hbc k tx (ty & Hy & Hhy & Hsy)%Hbc.
    apply Hab in Hy as (tz & Hz & Hhz & Hsz). exists tz. split; [done|]. split.
    + unfold same_head in *. destruct_and!. split_and!; congruence.
    + destruct Hsy as [->|]; auto.
Qed.

Section heads.
Context {L : Type} `{!LockService L}.

Lemma derived_alter tx_id f (txs : Txs) :
  (∀ tx, same_head tx (f tx)) →
  (∀ tx, tx_state (f tx) = tx_state tx ∨ settled (tx_state (f tx)) = true) →
  derived txs (alter f tx_id txs).
Proof.
  intros Hh Hs k tx'. rewrite lookup_alter. case_decide as Hk.
  - intros (tx & E & ->)%fmap_Some. exists tx. subst. auto.
  - intros E. exists tx'. split; [done|]. split; [done|by left].
Qed.

Lemma derived_update tx_id f :
  (∀ tx, same_head tx (f tx)) →
  (∀ tx, tx_state (f tx) = tx_state tx ∨ settled (tx_state (f tx)) = true) →
  respects (frame (L := L) derived) (update_tx tx_id f).
Proof. intros. apply frame_set. intros. by apply derived_alter. Qed.

#[local] Hint Extern 1 (respects (frame derived) (update_tx _ _)) =>
  apply derived_update; [done|intros; first [by left|by right]] : respects.
#[local] Hint Resolve frame_validate frame_deref frame_apply frame_rollback
  frame_new_operation : respects.

Lemma derived_touch tx_id : respects (frame (L := L) derived) (touch_tx tx_id).
Proof. unfold touch_tx. respects_tac. Qed.

#[local] Hint Resolve derived_touch : respects.

Lemma derived_record tx_id op : respects (frame (L := L) derived) (record_operation tx_id op).
Proof. unfold record_operation. respects_tac. Qed.

Lemma derived_take_lock tx_id key type :
  respects (frame (L := L) derived) (take_lock tx_id key type).
Proof. unfold take_lock. respects_tac. Qed.

#[local] Hint Resolve derived_record derived_take_lock : respects.

Lemma derived_read tx_id key : respects (frame (L := L) derived) (read tx_id key).
Proof. unfold read. respects_tac. Qed.

Lemma derived_write tx_id key v : respects (frame (L := L) derived) (write tx_id key v).
Proof. unfold write. respects_tac. Qed.

Lemma derived_remove tx_id key : respects (frame (L := L) derived) (remove tx_id key).
Proof. unfold remove. respects_tac. Qed.

Lemma derived_lock tx_id key type : respects (frame (L := L) derived) (lock tx_id key type).
Proof. unfold lock. respects_tac. Qed.

Lemma derived_prepare tx_id : respects (frame (L := L) derived) (prepare tx_id).
Proof. unfold prepare. respects_tac. Qed.

Lemma derived_tpc message : respects (frame (L := L) derived) (handle_tpc_message message).
Proof.
  unfold handle_tpc_message, handle_prepare_message, handle_prepare_response,
    handle_commit_message, handle_abort_message, when_known. respects_tac.
Qed.
End heads.

(** ** Calls that leave the table alone *)

Definition calm {L} : relation (TmSt L) := λ s s',
  later fst s s' ∧ next_transaction_id_ s'.2 = next_transaction_id_ s.2 ∧
  transactions_ s'.2 = transactions_ s.2.

#[export] Instance calm_preorder {L} : PreOrder (calm (L := L)).
Proof.
  split.
  - by intros s.
  - intros s t u (H1 & H2 & H3) (H4 & H5 & H6). split_and!; [by trans t|congruence..].
Qed.

Section calm.
Context {L : Type} `{!LockService L}.
Context (order_txs : gset TransactionId → list TransactionId).
Context (order_nodes : gset NodeId → list NodeId).

Lemma calm_frame {A} (m : M (TmSt L) A) : respects (frame eq) m → respects calm m.
Proof.
  apply respects_mono. intros s s' (H1 & H2 & _ & H3). by split_and!.
Qed.

Lemma calm_mutex b (s : TmSt L) : calm s (set_owned b s).
Proof. done. Qed.

Lemma calm_on_tm f :
  (∀ m, transactions_ (f m) = transactions_ m) →
  (∀ m, next_transaction_id_ (f m) = next_transaction_id_ m) →
  respects (calm (L := L)) (on_tm f).
Proof.
  intros H1 H2. apply respects_step. intros [c m]. eexists _, _. split; [reflexivity|].
  split_and!; cbn; [done|apply H2|apply H1].
Qed.

#[local] Hint Resolve calm_mutex : respects.
#[local] Hint Extern 1 (respects calm (on_tm _)) =>
  apply calm_on_tm; intros m; repeat case_match; reflexivity : respects.
#[local] Hint Extern 1 (respects calm tm_now) => apply calm_frame : respects.
#[local] Hint Extern 1 (respects calm (call_lock_manager _)) => apply calm_frame : respects.
#[local] Hint Extern 1 (respects calm (deref _)) => apply calm_frame, frame_deref : respects.
#[local] Hint Extern 1 (respects calm (notify_deadlock_detected _)) =>
  apply calm_frame, frame_notify : respects.

Lemma calm_detection_turn : respects (calm (L := L)) detection_turn.
Proof. unfold detection_turn, resolve_each. respects_tac. Qed.

#[local] Hint Resolve calm_detection_turn : respects.

(** Only time passes. *)
Definition waits : relation (TmSt L) := λ s s', later fst s s' ∧ s'.2 = s.2.

#[local] Instance waits_preorder : PreOrder waits.
Proof.
  split; [by intros s|]. intros s t u [H1 H2] [H3 H4]. split; [by trans t|congruence].
Qed.

Lemma waits_now : respects waits tm_now.
Proof.
  apply respects_step. intros [c m]. eexists _, _. split; [done|].
  split; [apply clock_after_tick|done].
Qed.

#[local] Hint Resolve waits_now : respects.

Lemma collect_waits ids acc : respects waits (collect_expired ids acc).
Proof.
  revert acc. induction ids as [|k ids IH]; intros acc; cbn [collect_expired]; unfold deref;
    respects_tac.
Qed.

(** The mutex is held: aborting an expired transaction locks it again. *)
Lemma abort_loop_held expired_txs (s : TmSt L) :
  owned s = true →
  mfor (λ tx_id, _ ← abort_transaction order_nodes tx_id; mret tt) expired_txs s =
    match expired_txs with
    | [] => Returns tt s
    | _ => Throws TransactionManagerMutex s
    end.
Proof.
  intros Hs. destruct expired_txs as [|k ks]; [done|]. cbn [mfor].
  apply M_bind_throws, M_bind_throws. unfold abort_transaction. by rewrite guarded_relock.
Qed.

(** So a cleanup does nothing, or throws when it is about to. *)
Lemma cleanup_waits : respects waits (cleanup_expired_transactions order_txs order_nodes).
Proof.
  intros s. destruct (owned s) eqn:Hs.
  { unfold wlp, throws_in, cleanup_expired_transactions. rewrite guarded_relock by done.
    cbn. by split. }
  destruct s as [c m]. unfold cleanup_expired_transactions. unfold wlp, throws_in.
  rewrite guarded_tm by done. mstep (tm_now_step c (set_tm_mutex true m)). msimpl.
  pose proof (collect_waits (order_txs (dom (transactions_ (set_tm_mutex true m)))) []
    ((tick c).2, set_tm_mutex true m)) as [Hc1 Hc2]. unfold wlp, throws_in in Hc1, Hc2.
  assert (∀ c', clock_after (tick c).2 c' → clock_after c c') as Hc
    by (intros c' ?; trans (tick c).2; [apply clock_after_tick|done]).
  unfold mbind, M_bind. revert Hc1 Hc2.
  destruct (collect_expired _ _ _) as [l [c' m']|n [c' m']|u]; intros Hc1 Hc2.
  - destruct Hc1 as [Hl Hm']. cbn in Hm'. subst m'.
    rewrite abort_loop_held by done. destruct l; cbn; split; try done;
      (split; [by apply Hc|by apply unlock_lock]).
  - destruct Hc2 as [Hl Hm']. cbn in Hm'. subst m'. cbn. split; [done|].
    split; [by apply Hc|by apply unlock_lock].
  - done.
Qed.

Lemma calm_cleanup : respects calm (cleanup_expired_transactions order_txs order_nodes).
Proof.
  generalize cleanup_waits. apply respects_mono. intros s s' [H E]. unfold calm. by rewrite E.
Qed.

#[local] Hint Resolve calm_cleanup : respects.

(** The calls that neither begin a transaction nor name one. *)
Definition is_calm (call : tm_call) : bool :=
  match call with
  | CallStart | CallStop | CallState _ | CallActive | CallInfo _ | CallSetHandler _
  | CallSetTimeout _ | CallRecover | CallCleanup | ThreadCleanupCheck | ThreadCleanupTurn
  | ThreadDetectionCheck | ThreadDetectionTurn => true
  | _ => false
  end.

Lemma tm_run_calm call :
  is_calm call = true → respects calm (tm_run order_txs order_nodes call).
Proof.
  destruct call; try discriminate; intros _; cbn [tm_run]; unfold ignore, start, stop,
    join_cleanup, join_detection, get_transaction_state, get_active_transactions,
    get_transaction_info, set_event_handler, set_default_timeout, recover_transactions,
    cleanup_check, cleanup_loop_turn, cleanup_turn, detection_check, detection_loop_turn;
    respects_tac.
Qed.
End calm.

(** ** Beginning *)

Section begin.
Context {L : Type} `{!LockService L}.
Context (order_txs : gset TransactionId → list TransactionId).
Context (order_nodes : gset NodeId → list NodeId).
Implicit Types m : TransactionManager L.

(** The entry of a transaction that has just begun. *)
Definition fresh_transaction (tx_id : TransactionId) (isolation : IsolationLevel.t)
    (now timeout : Z) : DistributedTransaction :=
  MkTransaction tx_id "" ∅ TransactionState.ACTIVE isolation [] ∅ now now timeout ∅ ∅.

Definition begun (isolation : IsolationLevel.t) (now : Z) m : TransactionManager L :=
  told (Started (next_transaction_id_ m))
    (set_transactions
       (<[next_transaction_id_ m :=
           fresh_transaction (next_transaction_id_ m) isolation now (default_timeout_ m)]>
          (transactions_ m))
       (set_next_transaction_id (wrap64 (next_transaction_id_ m + 1)) m)).

Lemma begin_step isolation c m :
  tm_mutex_ m = false →
  begin_transaction isolation (c, m) =
    if is_running_ m
    then Returns (ROk (next_transaction_id_ m))
           ((tick (tick c).2).2, begun isolation (tick (tick c).2).1 m)
    else Returns (RErr Status.SERVICE_UNAVAILABLE "Transaction manager is not running") (c, m).
Proof.
  intros Hm. unfold begin_transaction. rewrite guarded_tm by done. msimpl.
  destruct m as [lm [es|] txs next [] timeout ct dt st mu]; cbn in Hm; by subst.
Qed.

Lemma begun_transactions isolation now m :
  transactions_ (begun isolation now m) =
    <[next_transaction_id_ m :=
        fresh_transaction (next_transaction_id_ m) isolation now (default_timeout_ m)]>
      (transactions_ m).
Proof. unfold begun, told. by destruct (event_handler_ _). Qed.

Lemma begun_next isolation now m :
  next_transaction_id_ (begun isolation now m) = wrap64 (next_transaction_id_ m + 1).
Proof. unfold begun, told. by destruct (event_handler_ _). Qed.

Lemma begun_threads isolation now m : threads (begun isolation now m) = threads m.
Proof. unfold begun, told. by destruct (event_handler_ _). Qed.

(** ** The invariant of the table *)

(** No code adds a participant: the two-phase commit never sends a message. *)
Record entry_ok (next : N) (k : TransactionId) (tx : DistributedTransaction) : Prop := {
  entry_id : transaction_id tx = k;
  entry_next : (k < next)%N;
  entry_state : tx_state tx = TransactionState.ACTIVE ∨ settled (tx_state tx) = true;
  entry_alone : participant_nodes tx = ∅ ∧ coordinator_node tx = "" ∧ commit_acks tx = ∅
}.

Definition threads_ok m : Prop :=
  if is_running_ m
  then stop_threads_ m = false ∧ is_Some (cleanup_thread_ m) ∧
       is_Some (deadlock_detection_thread_ m)
  else cleanup_thread_ m = None ∧ deadlock_detection_thread_ m = None.

Record tm_inv m : Prop := {
  tmi_entries : map_Forall (entry_ok (next_transaction_id_ m)) (transactions_ m);
  tmi_threads : threads_ok m
}.

Lemma entries_derived next txs txs' :
  map_Forall (entry_ok next) txs → derived txs txs' → map_Forall (entry_ok next) txs'.
Proof.
  intros H Hd k tx' (tx & E & Hh & Hs)%Hd. destruct (H _ _ E) as [Hi Hn Hst Ha].
  unfold same_head in Hh. destruct_and!. split; [congruence|done| |].
  - destruct Hs as [->|]; auto.
  - split_and!; congruence.
Qed.

Lemma entries_forget next (txs : Txs) k :
  map_Forall (entry_ok next) txs → map_Forall (entry_ok next) (delete k txs).
Proof. intros H. by apply map_Forall_delete. Qed.

Lemma entries_begun isolation now m :
  map_Forall (entry_ok (next_transaction_id_ m)) (transactions_ m) →
  (next_transaction_id_ m + 1 < 2 ^ 64)%N →
  map_Forall (entry_ok (next_transaction_id_ (begun isolation now m)))
    (transactions_ (begun isolation now m)).
Proof.
  intros H Hn. rewrite begun_transactions, begun_next, wrap64_small by done.
  intros k tx. rewrite lookup_insert. case_decide as Hk.
  - intros [= <-]. subst. split; cbn; [done|lia|by left|done].
  - intros E. destruct (H _ _ E) as [Hi Hlt Hst Ha]. split; [done|lia|done|done].
Qed.

(** ** The threads *)

Definition threads_kept : relation (TmSt L) := λ s s', threads_ok s.2 → threads_ok s'.2.

#[export] Instance threads_kept_preorder : PreOrder threads_kept.
Proof. split; unfold threads_kept; [by intros s|naive_solver]. Qed.

Lemma threads_kept_same (s s' : TmSt L) : threads s'.2 = threads s.2 → threads_kept s s'.
Proof. unfold threads_kept, threads_ok, threads. by intros [= -> -> -> ->]. Qed.

Lemma threads_kept_frame {A} P (m : M (TmSt L) A) :
  respects (frame P) m → respects threads_kept m.
Proof. apply respects_mono. intros s s' (_ & _ & E & _). by apply threads_kept_same. Qed.

Lemma threads_kept_mutex b (s : TmSt L) : threads_kept s (set_owned b s).
Proof. intros H. exact H. Qed.

Lemma threads_kept_on_tm f :
  (∀ m, threads_ok m → threads_ok (f m)) → respects threads_kept (on_tm f).
Proof.
  intros H. apply respects_step. intros [c m]. eexists _, _. split; [reflexivity|]. intros Ht. by apply H.
Qed.
End begin.

Section invariant.
Context {L : Type} `{!LockService L}.
Context (order_txs : gset TransactionId → list TransactionId).
Context (order_nodes : gset NodeId → list NodeId).
Implicit Types m : TransactionManager L.

#[local] Hint Resolve threads_kept_mutex : respects.
#[local] Hint Extern 2 (respects threads_kept (on_tm _)) =>
  apply threads_kept_on_tm; intros [? ? ? ? [] ? [[]|] [[]|] [] ?]; unfold threads_ok; cbn;
  (done || naive_solver) : respects.
#[local] Hint Extern 2 (respects threads_kept tm_now) =>
  apply (threads_kept_frame eq) : respects.
#[local] Hint Extern 2 (respects threads_kept (notify_deadlock_detected _)) =>
  apply (threads_kept_frame eq), frame_notify : respects.
#[local] Hint Extern 2 (respects threads_kept (call_lock_manager _)) =>
  apply (threads_kept_frame eq) : respects.

Lemma detection_turn_threads : respects threads_kept (detection_turn (L := L)).
Proof. unfold detection_turn, resolve_each. respects_tac. Qed.

#[local] Hint Resolve detection_turn_threads : respects.

Lemma cleanup_threads :
  respects threads_kept (cleanup_expired_transactions order_txs order_nodes (L := L)).
Proof.
  generalize (cleanup_waits (L := L) order_txs order_nodes). apply respects_mono.
  intros s s' [_ E]. unfold threads_kept. by rewrite E.
Qed.

#[local] Hint Resolve cleanup_threads : respects.

Lemma join_cleanup_no_throw E (s : TmSt L) :
  throws_in (join_cleanup order_txs order_nodes) E s.
Proof.
  apply throws_bind; [done|]. cbn. destruct (cleanup_thread_ s.2) as [[]|]; try done.
  apply joining_no_throw.
Qed.

Lemma join_detection_no_throw E (s : TmSt L) : throws_in join_detection E s.
Proof.
  apply throws_bind; [done|]. cbn. destruct (deadlock_detection_thread_ s.2) as [[]|]; try done.
  apply joining_no_throw.
Qed.

Lemma stop_threads : respects threads_kept (stop (L := L) order_txs order_nodes).
Proof.
  intros s. split.
  - apply wlp_guarded. intros Hs. cbn. unfold wlp. msimpl.
    destruct (is_running_ _) eqn:Hr; cbn [negb]; [|intros H; exact H].
    destruct ((_ ← on_tm _; _ ← join_cleanup _ _; _ ← join_detection; _) _)
      as [r s'| |] eqn:E; [|done..].
    apply M_bind_returns in E as (? & s1 & _ & E).
    apply M_bind_returns in E as (? & s2 & _ & E).
    apply M_bind_returns in E as (? & s3 & _ & E). injection E as <- <-. done.
  - apply throws_guarded; [done|]. intros Hs. apply throws_bind; [done|]. cbn.
    destruct (negb _); [done|].
    apply throws_bind; [done|]. cbn. apply throws_bind; [apply join_cleanup_no_throw|].
    apply wlp_intro. intros [] s1 _. apply throws_bind; [apply join_detection_no_throw|].
    by apply wlp_intro.
Qed.

#[local] Hint Resolve stop_threads : respects.

#[local] Hint Extern 3 (respects threads_kept _) =>
  eapply threads_kept_frame; eauto using others_commit, others_abort, others_read,
    others_write, others_remove, others_lock, others_prepare, others_tpc : respects.

Lemma begin_threads isolation : respects threads_kept (begin_transaction isolation (L := L)).
Proof.
  intros [c m]. unfold wlp, throws_in. destruct (tm_mutex_ m) eqn:Hm.
  { unfold begin_transaction. rewrite guarded_relock by done. by split; cbn. }
  rewrite begin_step by done. destruct (is_running_ m); [|done]. split; [|done].
  apply threads_kept_same, begun_threads.
Qed.

#[local] Hint Resolve begin_threads : respects.

Lemma tm_run_threads call :
  respects threads_kept (tm_run order_txs order_nodes call).
Proof.
  destruct call; cbn [tm_run]; unfold ignore, start, get_transaction_state,
    get_active_transactions, get_transaction_info, set_event_handler, set_default_timeout,
    recover_transactions, cleanup_check, cleanup_loop_turn, cleanup_turn, detection_check,
    detection_loop_turn; respects_tac.
Qed.

Lemma told_fields e m :
  transactions_ (told e m) = transactions_ m ∧
  next_transaction_id_ (told e m) = next_transaction_id_ m.
Proof. unfold told. by destruct (event_handler_ m). Qed.

(** A call that names a transaction either derives the table or forgets it. *)
Definition named (m m' : TransactionManager L) : Prop :=
  next_transaction_id_ m' = next_transaction_id_ m ∧
  (derived (transactions_ m) (transactions_ m') ∨
   ∃ k, transactions_ m' = delete k (transactions_ m)).

Lemma named_frame {A} (b : M (TmSt L) A) c m a c' m' :
  respects (frame derived) b → b (c, m) = Returns a (c', m') → named m m'.
Proof. intros H E. apply (respects_returns _ _ _ _ _ H) in E as (_ & ? & _ & ?). by split; [|left]. Qed.

Lemma named_forget k e l m : named m (told e (set_lock_manager_ l (forget k m))).
Proof.
  destruct (told_fields e (set_lock_manager_ l (forget k m))) as [E1 E2].
  split; [by rewrite E2|right; exists k; by rewrite E1].
Qed.

Lemma commit_named tx_id c m r c' m' :
  enumerates order_nodes →
  commit_transaction order_nodes tx_id (c, m) = Returns r (c', m') → named m m'.
Proof.
  intros Horder H. pose proof H as (Hm & _)%guarded_returns_inv.
  pose proof (commit_transaction_outcomes order_nodes tx_id c m Horder Hm) as O.
  rewrite H in O. inversion O; subst; try by split; [|left].
  - split; [done|]. right. by eexists.
  - apply named_forget.
Qed.

Lemma abort_named tx_id c m r c' m' :
  abort_transaction order_nodes tx_id (c, m) = Returns r (c', m') → named m m'.
Proof.
  intros H. pose proof H as (Hm & _)%guarded_returns_inv.
  pose proof (abort_transaction_outcomes order_nodes tx_id c m Hm) as O.
  rewrite H in O. inversion O; subst; try by split; [|left]. apply named_forget.
Qed.

(** Every call: the table is as before, derived, forgets, or gains a transaction. *)
Inductive table_step m m' : Prop :=
  | table_named : named m m' → table_step m m'
  | table_begun isolation now :
      transactions_ m' = transactions_ (begun isolation now m) →
      next_transaction_id_ m' = next_transaction_id_ (begun isolation now m) →
      table_step m m'.

Lemma tm_run_table call c m c' m' :
  enumerates order_nodes →
  tm_run order_txs order_nodes call (c, m) = Returns tt (c', m') → table_step m m'.
Proof.
  intros Horder H. destruct (is_calm call) eqn:Hcalm.
  { apply (respects_returns _ _ _ _ _ (tm_run_calm order_txs order_nodes call Hcalm)) in H
      as (_ & E1 & E2). apply table_named. split; [done|]. left. cbn in E2. by rewrite E2. }
  destruct call; try discriminate Hcalm; cbn [tm_run] in H; unfold ignore in H;
    apply M_bind_returns in H as (r & s1 & H & [= ->]).
  - pose proof H as (Hm & _)%guarded_returns_inv. rewrite begin_step in H by done.
    destruct (is_running_ m); injection H as <- <- <-.
    + by eapply table_begun.
    + apply table_named. by split; [|left].
  - by eapply table_named, commit_named.
  - by eapply table_named, abort_named.
  - by eapply table_named, named_frame; [apply derived_read|].
  - by eapply table_named, named_frame; [apply derived_write|].
  - by eapply table_named, named_frame; [apply derived_remove|].
  - by eapply table_named, named_frame; [apply derived_lock|].
  - by eapply table_named, named_frame; [apply derived_prepare|].
  - by eapply table_named, named_frame; [apply derived_tpc|].
Qed.

Lemma tm_run_inv call c m c' m' :
  enumerates order_nodes → (next_transaction_id_ m + 1 < 2 ^ 64)%N → tm_inv m →
  tm_run order_txs order_nodes call (c, m) = Returns tt (c', m') →
  tm_inv m' ∧ (next_transaction_id_ m ≤ next_transaction_id_ m' ≤ next_transaction_id_ m + 1)%N.
Proof.
  intros Horder Hn [He Ht] H. pose proof (tm_run_table _ _ _ _ _ Horder H) as S.
  apply (respects_returns _ _ _ _ _ (tm_run_threads call)) in H.
  destruct S as [[E1 [E2|(k & E2)]]|i now E1 E2].
  - split; [split; [|by apply H]|by rewrite E1; lia]. rewrite E1. by eapply entries_derived.
  - split; [split; [|by apply H]|by rewrite E1; lia]. rewrite E1, E2. by apply entries_forget.
  - rewrite begun_next, wrap64_small in E2 by done.
    split; [split; [|by apply H]|by rewrite E2; lia].
    rewrite E1, E2, <- (wrap64_small (_ + 1)), <- (begun_next i now) by done.
    by apply entries_begun.
Qed.
End invariant.

(** C13. Any sequence of calls that return keeps the invariant: every entry is
    under its own identifier, below the next one; its state between calls is
    ACTIVE, PREPARED, COMMITTED or ABORTED; it has no participants and no
    coordinator; the threads exist exactly while the manager runs. *)
Theorem tm_calls_keep_invariant {L} `{!LockService L} order_txs order_nodes
    (calls : list tm_call) c (m : TransactionManager L) c' m' :
  enumerates order_nodes → tm_inv m →
  (next_transaction_id_ m + N.of_nat (length calls) < 2 ^ 64)%N →
  tm_runs order_txs order_nodes calls (c, m) = Returns tt (c', m') →
  tm_inv m' ∧ (next_transaction_id_ m ≤ next_transaction_id_ m')%N.
Proof.
  intros Horder. revert c m. induction calls as [|call calls IH]; intros c m Hi Hn H.
  - by injection H as <- <-.
  - cbn [length] in Hn. apply M_bind_returns in H as ([] & [c1 m1] & H1 & H2).
    destruct (tm_run_inv order_txs order_nodes call c m c1 m1 Horder ltac:(lia) Hi H1) as [Hi1 ?].
    destruct (IH c1 m1 Hi1 ltac:(lia) H2) as [? ?]. split; [done|lia].
Qed.

(** What the two transactions of the example go through. *)
Definition example_calls : list tm_call :=
  [CallBegin IsolationLevel.READ_COMMITTED; CallRead 1 example_key; CallPrepare 2;
   CallTpc (MkTpc TwoPhaseCommitMessage.COMMIT 2 "n1" "" "" 0); CallCommit 2; CallAbort 3;
   ThreadCleanupCheck; ThreadCleanupTurn; CallStop].

Lemma two_begun_inv : tm_inv two_begun.2.
Proof.
  split.
  - apply map_Forall_to_list. vm_compute map_to_list.
    repeat apply List.Forall_cons; try apply List.Forall_nil;
      (split; [reflexivity|reflexivity|by left|done]).
  - vm_compute. eauto.
Qed.

Lemma tm_calls_keep_invariant_witness :
  let H := single_lock_service in
  let s := state_after (tm_runs elements elements example_calls) two_begun in
  tm_inv s.2 ∧ (next_transaction_id_ two_begun.2 ≤ next_transaction_id_ s.2)%N.
Proof.
  intros H s.
  apply (tm_calls_keep_invariant elements elements example_calls two_begun.1 two_begun.2 s.1 s.2).
  - apply elements_enumerates.
  - apply two_begun_inv.
  - vm_compute. reflexivity.
  - vm_compute. reflexivity.
Defined.

(** ** Expired transactions *)

(** The entry of [k] stays, and nobody was active in it. *)
Definition still (k : TransactionId) : relation Txs := λ txs txs',
  ∀ tx, txs !! k = Some tx → ∃ tx', txs' !! k = Some tx' ∧
    last_activity tx' = last_activity tx ∧ tx_timeout tx' = tx_timeout tx.

#[export] Instance still_preorder k : PreOrder (still k).
Proof.
  split.
  - intros txs tx H. by exists tx.
  - intros a b d H1 H2 tx (ty & Hy & E1 & E2)%H1. apply H2 in Hy as (tz & Hz & E3 & E4).
    exists tz. split_and!; congruence.
Qed.

Definition clock_monotone (c : Clock) : Prop :=
  ∀ i j, i ≤ j → (reading c i ≤ reading c j)%Z.

(** The next reading finds the transaction expired. *)
Definition expired_now (k : TransactionId) (c : Clock) (txs : Txs) : Prop :=
  ∃ tx, txs !! k = Some tx ∧ tx_is_expired (tick c).1 tx = true.

Lemma expired_later k c c' txs txs' :
  clock_monotone c → clock_after c c' → still k txs txs' →
  expired_now k c txs → expired_now k c' txs'.
Proof.
  intros Hc [Er Ht] Hs (tx & (tx' & E & Ea & Eo)%Hs & Hx). exists tx'. split; [done|].
  unfold tx_is_expired in *. rewrite Ea, Eo. cbn [tick fst] in *. rewrite Er.
  apply Z.ltb_lt in Hx. apply Z.ltb_lt. pose proof (Hc _ _ Ht). lia.
Qed.

Section expired.
Context {L : Type} `{!LockService L}.
Context (order_txs : gset TransactionId → list TransactionId).
Context (order_nodes : gset NodeId → list NodeId).
Implicit Types m : TransactionManager L.

Lemma others_still j k (txs txs' : Txs) : j ≠ k → others j txs txs' → still k txs txs'.
Proof. intros Hjk H tx E. exists tx. by rewrite H. Qed.

(** Every method that opens with [validate_transaction] stops there. *)
Lemma expired_refused {A} k (body : unit → M (TmSt L) (Result A)) c m a s' :
  expired_now k c (transactions_ m) →
  guarded (mtry (validate_transaction k) body) (c, m) = Returns a s' →
  status_of a = Status.TIMEOUT ∧ s' = ((tick c).2, m).
Proof.
  intros (tx & Htx & Hx) H. pose proof H as (Hm & _)%guarded_returns_inv. cbn in Hm.
  revert H. rewrite guarded_tm by done. unfold mtry.
  mstep (validate_known k tx c (set_tm_mutex true m) Htx). rewrite Hx. cbn.
  intros [= <- <-]. by rewrite unlock_lock.
Qed.

#[local] Hint Resolve frame_apply frame_rollback : respects.
#[local] Hint Extern 1 (respects (frame (still _)) (update_tx _ _)) =>
  apply frame_set; intros txs tx Htx; rewrite lookup_alter; case_decide; subst;
  rewrite ?Htx; eauto : respects.

Lemma still_tpc k message : respects (frame (L := L) (still k)) (handle_tpc_message message).
Proof.
  unfold handle_tpc_message, handle_prepare_message, handle_prepare_response,
    handle_commit_message, handle_abort_message, when_known. respects_tac.
Qed.

Definition kept_expired (k : TransactionId) (s s' : TmSt L) : Prop :=
  later fst s s' ∧ still k (transactions_ s.2) (transactions_ s'.2).

Lemma kept_refused {A} j k (m : M (TmSt L) (Result A)) body s a s' :
  m = guarded (mtry (validate_transaction j) body) →
  respects (frame (others j)) m → expired_now k s.1 (transactions_ s.2) →
  m s = Returns a s' → kept_expired k s s'.
Proof.
  intros Em Hf Hx H. destruct (decide (j = k)) as [->|Hjk].
  - rewrite Em in H. destruct s as [c t]. cbn [fst snd] in Hx.
    destruct (expired_refused k body c t a s' Hx H) as [_ ->].
    split; [apply clock_after_tick|done].
  - apply (respects_returns _ _ _ _ _ Hf) in H as (Hl & _ & _ & Ho).
    split; [done|by eapply others_still].
Qed.

Lemma run_keeps_expired k call c m c' m' :
  (k < next_transaction_id_ m)%N → expired_now k c (transactions_ m) →
  tm_run order_txs order_nodes call (c, m) = Returns tt (c', m') →
  kept_expired k (c, m) (c', m').
Proof.
  intros Hk Hx H. destruct (is_calm call) eqn:Hcalm.
  { apply (respects_returns _ _ _ _ _ (tm_run_calm order_txs order_nodes call Hcalm)) in H
      as (Hl & _ & E). split; [done|]. cbn in E |- *. by rewrite E. }
  destruct call; try discriminate Hcalm; cbn [tm_run] in H; unfold ignore in H;
    apply M_bind_returns in H as (r & s1 & H & [= ->]).
  - pose proof H as (Hm & _)%guarded_returns_inv. rewrite begin_step in H by done.
    destruct (is_running_ m); injection H as <- <- <-; [|done]. split.
    + unfold later. cbn [fst]. trans (tick c).2; apply clock_after_tick.
    + cbn [snd]. rewrite begun_transactions. intros tx Htx. exists tx.
      rewrite lookup_insert_ne by lia. done.
  - by eapply (kept_refused tx_id k); [reflexivity|apply others_commit|exact Hx|exact H].
  - by eapply (kept_refused tx_id k); [reflexivity|apply others_abort|exact Hx|exact H].
  - by eapply (kept_refused tx_id k); [reflexivity|apply others_read|exact Hx|exact H].
  - by eapply (kept_refused tx_id k); [reflexivity|apply others_write|exact Hx|exact H].
  - by eapply (kept_refused tx_id k); [reflexivity|apply others_remove|exact Hx|exact H].
  - by eapply (kept_refused tx_id k); [reflexivity|apply others_lock|exact Hx|exact H].
  - by eapply (kept_refused tx_id k); [reflexivity|apply others_prepare|exact Hx|exact H].
  - by apply (respects_returns _ _ _ _ _ (still_tpc k message)) in H as (Hl & _ & _ & Hs).
Qed.
End expired.

(** C29. With a clock that never goes back, a transaction that has expired stays
    in the table for ever: after any calls that return it is still there, and
    committing or aborting it answers TIMEOUT. *)
Theorem expired_transactions_stay {L} `{!LockService L} order_txs order_nodes
    (calls : list tm_call) k c (m : TransactionManager L) c' m' :
  enumerates order_nodes → tm_inv m → clock_monotone c →
  (next_transaction_id_ m + N.of_nat (length calls) < 2 ^ 64)%N →
  expired_now k c (transactions_ m) →
  tm_runs order_txs order_nodes calls (c, m) = Returns tt (c', m') →
  expired_now k c' (transactions_ m') ∧
  (∀ r s, commit_transaction order_nodes k (c', m') = Returns r s → status_of r = Status.TIMEOUT) ∧
  (∀ r s, abort_transaction order_nodes k (c', m') = Returns r s → status_of r = Status.TIMEOUT).
Proof.
  intros Horder. revert c m. induction calls as [|call calls IH]; intros c m Hi Hc Hn Hx H.
  - injection H as <- <-. split; [done|].
    split; intros r s H; by destruct (expired_refused k _ _ _ _ _ Hx H).
  - cbn [length] in Hn. apply M_bind_returns in H as ([] & [c1 m1] & H1 & H2).
    destruct (tm_run_inv order_txs order_nodes call c m c1 m1 Horder ltac:(lia) Hi H1) as [Hi1 ?].
    assert (k < next_transaction_id_ m)%N as Hk
      by (destruct Hx as (tx & Htx & _); apply (tmi_entries _ Hi _ _ Htx)).
    destruct (run_keeps_expired order_txs order_nodes k call c m c1 m1 Hk Hx H1) as [Hl Hs].
    apply (IH c1 m1 Hi1); [|lia|by eapply expired_later|done].
    intros i j Hij. destruct Hl as [Er _]. cbn in Er. rewrite Er. by apply Hc.
Qed.

Definition late_clock : Clock := MkClock (λ n, (Z.of_nat n + 40000) * 1000000)%Z 0.

Lemma late_clock_monotone : clock_monotone late_clock.
Proof. intros i j Hij. cbn. lia. Qed.

Lemma expired_transactions_stay_witness :
  let H := single_lock_service in
  let s := state_after (tm_runs elements elements [CallRead 1 example_key; CallAbort 1])
             (late_clock, two_begun.2) in
  expired_now 1 s.1 (transactions_ s.2) ∧
  (∀ r s', commit_transaction elements 1 (s.1, s.2) = Returns r s' → status_of r = Status.TIMEOUT) ∧
  (∀ r s', abort_transaction elements 1 (s.1, s.2) = Returns r s' → status_of r = Status.TIMEOUT).
Proof.
  intros H s.
  apply (expired_transactions_stay elements elements [CallRead 1 example_key; CallAbort 1] 1
    late_clock two_begun.2 s.1 s.2).
  - apply elements_enumerates.
  - apply two_begun_inv.
  - apply late_clock_monotone.
  - vm_compute. reflexivity.
  - exists (fresh_transaction 1 IsolationLevel.SERIALIZABLE 1000000 30000).
    split; vm_compute; reflexivity.
  - vm_compute. reflexivity.
Defined.

(** ** Stopping *)

(** C40. stop joins the threads with the mutex of the manager held. If the
    cleanup thread has begun a turn, the turn locks that mutex first of all, so
    that the thread waits for stop and stop for the thread, for ever. With both
    threads between turns stop returns, and no transaction can be begun
    afterwards. *)
Theorem stop_joins_under_mutex {L} `{!LockService L} order_txs order_nodes
    c (m : TransactionManager L) :
  tm_mutex_ m = false → is_running_ m = true →
  (cleanup_thread_ m = Some InTurn → stop order_txs order_nodes (c, m) = Undefined JoinBlocked) ∧
  (cleanup_thread_ m ≠ Some InTurn → deadlock_detection_thread_ m ≠ Some InTurn →
   stop order_txs order_nodes (c, m) = Returns (ROk tt) (c, set_threads false true None None m) ∧
   ∀ isolation, begin_transaction isolation (c, set_threads false true None None m) =
     Returns (RErr Status.SERVICE_UNAVAILABLE "Transaction manager is not running")
       (c, set_threads false true None None m)).
Proof.
  intros Hm Hr. destruct m as [lm eh txs next running timeout ct dt st mu]. cbn in *. subst.
  unfold stop. rewrite guarded_tm by done. split.
  - by intros ->.
  - intros Hc Hd. split.
    + destruct ct as [[]|]; [|done|]; destruct dt as [[]|]; done.
    + intros isolation. by rewrite begin_step.
Qed.

Lemma stop_joins_under_mutex_witness :
  let H := single_lock_service in
  stop elements elements (state_after cleanup_check (lock_clock, just_started)) =
    Undefined JoinBlocked ∧
  stop elements elements (lock_clock, just_started) =
    Returns (ROk tt) (lock_clock, set_threads false true None None just_started).
Proof.
  intros H. split.
  - by apply (stop_joins_under_mutex elements elements lock_clock (state_after cleanup_check
      (lock_clock, just_started)).2).
  - by apply (stop_joins_under_mutex elements elements lock_clock just_started).
Defined.
