(* ===== verification/TransactionLocks.v ===== *)
(** * TransactionLocks: what the locks of a transaction promise

    Isolation of writers over any lock manager that keeps the laws of
    [LockService], and what happens with the manager's own lock manager: a
    transaction that was granted a lock can never be committed or aborted. *)

From Stdlib Require Import Ascii String ZArith NArith Lia.
From stdpp Require Import base numbers list strings gmap pretty.
From S2P Require Import Prelude OrdMap Types Files Locks LockManager Transactions.
From S2P Require Import TransactionManager TransactionOutcomes TransactionInvariants.

(** ** The lock manager across a call *)

(** The lock managers before and after are related by [K]. *)
Definition locks_opt {L} (K : relation L) (o o' : option L) : Prop :=
  match o, o' with
  | Some l, Some l' => K l l'
  | None, None => True
  | _, _ => False
  end.

Definition locks_step {L} (K : relation L) : relation (TmSt L) := λ s s',
  locks_opt K (lock_manager_ s.2) (lock_manager_ s'.2).

#[export] Instance locks_step_preorder {L} K `{!PreOrder K} : PreOrder (locks_step (L := L) K).
Proof.
  split; unfold locks_step, locks_opt.
  - intros s. by destruct (lock_manager_ s.2).
  - intros s t u. destruct (lock_manager_ s.2), (lock_manager_ t.2), (lock_manager_ u.2); try done.
    intros ??. by etrans.
Qed.

Section locks_step.
Context {L : Type} `{!LockService L}.
Context (order_nodes : gset NodeId → list NodeId).

(** Nothing but the clock. *)
Definition untouched : relation L := λ l l',
  (svc_ok l → svc_ok l') ∧ svc_left l' = svc_left l ∧
  ∀ tx k ty, svc_holds l tx k ty ↔ svc_holds l' tx k ty.

#[export] Instance untouched_preorder : PreOrder untouched.
Proof.
  split.
  - by intros l.
  - intros a b c (H1 & H2 & H3) (H4 & H5 & H6). split_and!; [auto|congruence|].
    intros tx k ty. by rewrite H3.
Qed.

Lemma untouched_clock c l : untouched l (svc_set_clock c l).
Proof.
  split_and!; [by apply svc_ok_clock|by rewrite svc_left_clock|].
  intros tx k ty. by rewrite svc_holds_clock.
Qed.

Lemma locks_call {A} (K : relation L) (m : M L A) :
  (∀ c l, K l (svc_set_clock c l)) → PreOrder K → respects K m →
  respects (locks_step K) (call_lock_manager m).
Proof.
  intros Hc HK Hm [c t]. unfold wlp, throws_in, call_lock_manager, locks_step, locks_opt. cbn.
  destruct (lock_manager_ t) as [l|]; [|done]. destruct (Hm (svc_set_clock c l)) as [H1 H2].
  unfold wlp, throws_in in H1, H2.
  destruct (m _) as [a l'|n l'|]; cbn; split; try done; (etrans; [apply Hc|done]).
Qed.

Lemma locks_frame (f : TransactionManager L → TransactionManager L) K `{!PreOrder K} :
  (∀ m, lock_manager_ (f m) = lock_manager_ m) → respects (locks_step K) (on_tm f).
Proof.
  intros Hf. apply respects_step. intros [c m]. eexists _, _. split; [reflexivity|].
  unfold locks_step, locks_opt. cbn. rewrite Hf. by destruct (lock_manager_ m).
Qed.

Section keep.
Context (K : relation L) `{!PreOrder K}.

Lemma locks_mutex b (s : TmSt L) : locks_step K s (set_owned b s).
Proof. unfold locks_step, locks_opt. cbn. by destruct (lock_manager_ s.2). Qed.

Lemma locks_now : respects (locks_step K) tm_now.
Proof.
  apply respects_step. intros [c m]. eexists _, _. split; [reflexivity|].
  unfold locks_step, locks_opt. cbn. by destruct (lock_manager_ m).
Qed.
End keep.

#[local] Hint Resolve locks_mutex locks_now : respects.
#[local] Hint Extern 2 (respects (locks_step _) (on_tm _)) =>
  apply locks_frame; [apply _|intros m; repeat case_match; reflexivity] : respects.

Section quiet.
Context (K : relation L) `{!PreOrder K}.

Lemma locks_update tx_id f : respects (locks_step K) (update_tx tx_id f).
Proof. unfold update_tx. respects_tac. Qed.
Lemma locks_erase tx_id : respects (locks_step K) (erase_tx tx_id).
Proof. unfold erase_tx. respects_tac. Qed.
Lemma locks_deref tx_id : respects (locks_step K) (deref tx_id).
Proof. unfold deref. respects_tac. Qed.
Lemma locks_notify e : respects (locks_step K) (notify e).
Proof. unfold notify. respects_tac. Qed.
Lemma locks_validate tx_id : respects (locks_step K) (validate_transaction tx_id).
Proof. unfold validate_transaction. respects_tac. Qed.
End quiet.

#[local] Hint Resolve locks_update locks_erase locks_deref locks_notify locks_validate : respects.

Section quiet_calls.
Context (K : relation L) `{!PreOrder K}.

Lemma locks_record tx_id type key g :
  respects (locks_step K) (op ← new_operation type key; record_operation tx_id (g op)).
Proof. unfold new_operation, record_operation, touch_tx. respects_tac. Qed.

Lemma locks_send type tx_id : respects (locks_step K) (send_messages order_nodes type tx_id).
Proof. unfold send_messages, make_message. respects_tac. Qed.

Lemma locks_tpc message : respects (locks_step K) (handle_tpc_message (L := L) message).
Proof.
  unfold handle_tpc_message, handle_prepare_message, handle_prepare_response,
    handle_commit_message, handle_abort_message, when_known, apply_transaction_operations,
    rollback_transaction_operations, apply_operation. respects_tac.
Qed.

Lemma locks_prepare tx_id : respects (locks_step K) (prepare (L := L) tx_id).
Proof. unfold prepare, touch_tx. respects_tac. Qed.

Lemma locks_generate : respects (locks_step K) (generate_transaction_id (L := L)).
Proof.
  apply respects_step. intros [c m]. eexists _, _. split; [reflexivity|].
  unfold locks_step, locks_opt. cbn. by destruct (lock_manager_ m).
Qed.

#[local] Hint Resolve locks_generate : respects.

Lemma locks_begin isolation : respects (locks_step K) (begin_transaction (L := L) isolation).
Proof. unfold begin_transaction, notify_transaction_started. respects_tac. Qed.
End quiet_calls.

(** ** Requests *)

(** What a request by [tx_id] does to the lock manager; [ok] is whether it
    was answered with a lock. *)
Definition granting (tx_id : TransactionId) (key : MultiLevelKey) (ty : LockType.t) (ok : bool) :
    relation L := λ l l',
  svc_ok l → (0 < svc_left l)%N →
  svc_ok l' ∧ (svc_left l ≤ svc_left l' + 1)%N ∧
  (∀ tx k t, svc_holds l tx k t → svc_holds l' tx k t) ∧
  (ok = true → svc_holds l' tx_id key ty).

Lemma granting_untouched tx_id key ty l l' l'' ok :
  untouched l l' → granting tx_id key ty ok l' l'' → granting tx_id key ty ok l l''.
Proof.
  intros (H1 & H2 & H3) H Hok Hl. rewrite <- H2 in Hl |- *.
  destruct (H (H1 Hok) Hl) as (? & ? & H4 & ?). split_and!; [done..| |done].
  intros tx k t Hh. by apply H4, H3.
Qed.

Lemma untouched_granting tx_id key ty l l' l'' ok ok' :
  (ok' = true → ok = true) →
  granting tx_id key ty ok l l' → untouched l' l'' → granting tx_id key ty ok' l l''.
Proof.
  intros Hi H (H1 & H2 & H3) Hok Hl. destruct (H Hok Hl) as (? & ? & H4 & H5).
  rewrite H2. split_and!; [auto|done| |].
  - intros tx k t Hh. by apply H3, H4.
  - intros Hok'. by apply H3, H5, Hi.
Qed.

Lemma granting_none tx_id key ty l l' : untouched l l' → granting tx_id key ty false l l'.
Proof.
  intros (H1 & H2 & H3) Hok Hl. rewrite H2. split_and!; [auto|lia| |done].
  intros tx k t. by rewrite H3.
Qed.

Lemma locks_step_mono (K K' : relation L) (s s' : TmSt L) :
  (∀ l l', K l l' → K' l l') → locks_step K s s' → locks_step K' s s'.
Proof.
  unfold locks_step, locks_opt. intros H. destruct (lock_manager_ s.2), (lock_manager_ s'.2); auto.
Qed.

Lemma locks_step_comp (K1 K2 K : relation L) (s t u : TmSt L) :
  (∀ a b c, K1 a b → K2 b c → K a c) →
  locks_step K1 s t → locks_step K2 t u → locks_step K s u.
Proof.
  unfold locks_step, locks_opt. intros H.
  destruct (lock_manager_ s.2), (lock_manager_ t.2), (lock_manager_ u.2); naive_solver.
Qed.

(** Nobody loses a lock over a request, and who it is granted to gets one. *)
Definition requests {A} (tx_id : TransactionId) (key : MultiLevelKey) (ty : LockType.t)
    (m : M (TmSt L) (Result A)) : Prop := ∀ s,
  wlp m (λ r s', locks_step (granting tx_id key ty (is_ok r)) s s') s ∧
  throws_in m (λ s', locks_step (granting tx_id key ty false) s s') s.

Lemma acquire_granting tx_id key ty t c l :
  match svc_acquire tx_id key ty t (svc_set_clock c l) with
  | Returns r l' => granting tx_id key ty (is_ok r) l l'
  | Throws _ l' => granting tx_id key ty false l l'
  | Undefined _ => True
  end.
Proof.
  destruct (svc_acquire _ _ _ _ _) as [r l'|n l'|u] eqn:E; [..|done];
    (apply (granting_untouched _ _ _ _ (svc_set_clock c l)); [apply untouched_clock|]);
    intros Hok Hl;
    (destruct (svc_acquire_keeps tx_id key ty t _ l' Hok Hl) as (? & ? & ?);
      [unfold leaves; eauto|]); split_and!; try done.
  intros Hr. destruct r as [id|]; [|done]. exact (svc_acquire_granted _ _ _ _ _ _ _ Hok Hl E).
Qed.

Lemma take_lock_granting tx_id key ty : requests tx_id key ty (take_lock tx_id key ty).
Proof.
  intros [c m]. unfold take_lock, mtry, wlp, throws_in, mbind, M_bind, call_lock_manager.
  cbn [fst snd]. destruct (lock_manager_ m) as [l|] eqn:El; [|done].
  pose proof (acquire_granting tx_id key ty 5000 c l) as Hg.
  destruct (svc_acquire _ _ _ _ _) as [[id|st msg] l'|n l'|u]; cbn;
    split; try done; unfold locks_step, locks_opt; cbn; by rewrite El.
Qed.

Lemma requests_none {A} tx_id key ty st msg :
  requests tx_id key ty (mret (RErr (A := A) st msg)).
Proof.
  intros s. split; [|done]. unfold wlp. cbn.
  eapply locks_step_mono; [intros l l'; apply granting_none|reflexivity].
Qed.

Lemma requests_bind {A B} tx_id key ty (m : M (TmSt L) A) (f : A → M (TmSt L) (Result B)) :
  respects (locks_step untouched) m → (∀ a, requests tx_id key ty (f a)) →
  requests tx_id key ty (m ≫= f).
Proof.
  intros Hm Hf s. destruct (Hm s) as [H1 H2]. unfold wlp, throws_in, mbind, M_bind in *.
  destruct (m s) as [a s1|n s1|u]; [|split; [done|]|done].
  - destruct (Hf a s1) as [F1 F2]. unfold wlp, throws_in in *.
    destruct (f a s1) as [r s2|n s2|u]; split; try done;
      (eapply locks_step_comp; [|exact H1|eassumption]); intros a' b d; apply granting_untouched.
  - eapply locks_step_mono; [intros l l'; apply granting_none|done].
Qed.

Lemma requests_try {A B} tx_id key ty (m : M (TmSt L) (Result A)) (f : A → M (TmSt L) (Result B)) :
  requests tx_id key ty m → (∀ a, respects (locks_step untouched) (f a)) →
  requests tx_id key ty (mtry m f).
Proof.
  intros Hm Hf s. destruct (Hm s) as [H1 H2]. unfold mtry, wlp, throws_in, mbind, M_bind in *.
  destruct (m s) as [[a|st msg] s1|n s1|u]; try (by split).
  destruct (Hf a s1) as [F1 F2]. unfold wlp, throws_in in *.
  destruct (f a s1) as [r s2|n s2|u]; split; try done;
    (eapply locks_step_comp; [|exact H1|eassumption]); intros a' b d; by apply untouched_granting.
Qed.

Lemma requests_guarded {A} tx_id key ty (m : M (TmSt L) (Result A)) :
  requests tx_id key ty m → requests tx_id key ty (guarded m).
Proof.
  intros Hm s. unfold wlp, throws_in, guarded. destruct (owned s) eqn:Hs.
  - cbn. split; [done|]. eapply locks_step_mono; [intros l l'; apply granting_none|reflexivity].
  - destruct (Hm (set_owned true s)) as [H1 H2]. unfold wlp, throws_in in *.
    by destruct (m _).
Qed.

(** A method that takes a lock after the checks. *)
Lemma request_granting {A} tx_id key ty (rest : M (TmSt L) (Result A)) :
  respects (locks_step untouched) rest →
  requests tx_id key ty
    (guarded (_ ←? validate_transaction tx_id; _ ←? take_lock tx_id key ty; rest)).
Proof.
  intros Hrest. apply requests_guarded. unfold mtry at 1.
  apply requests_bind; [apply (locks_validate untouched)|].
  intros [[]|st msg]; [|apply requests_none]. by apply requests_try; [apply take_lock_granting|].
Qed.

Lemma write_granting tx_id key v : requests tx_id key LockType.EXCLUSIVE (write tx_id key v).
Proof.
  apply request_granting.
  unfold new_operation, record_operation, touch_tx. respects_tac.
Qed.

Lemma remove_granting tx_id key : requests tx_id key LockType.EXCLUSIVE (remove tx_id key).
Proof.
  apply request_granting.
  unfold new_operation, record_operation, touch_tx. respects_tac.
Qed.

Lemma lock_granting tx_id key ty : requests tx_id key ty (lock tx_id key ty).
Proof.
  apply request_granting. unfold new_operation, record_operation, touch_tx. respects_tac.
Qed.

(** The rest of [read] after the lock. *)
Definition read_rest (tx_id : TransactionId) (key : MultiLevelKey) :
    M (TmSt L) (Result DataEntry) :=
  op ← new_operation TxOperationType.READ key;
  _ ← record_operation tx_id op;
  _ ← tm_now;
  now ← tm_now;
  mret (ROk (simulated_entry key now)).

Lemma read_as_request tx_id key tx c m :
  transactions_ m !! tx_id = Some tx →
  read tx_id key (c, m) =
    (if bool_decide (isolation_level tx = IsolationLevel.READ_UNCOMMITTED)
     then guarded (_ ←? validate_transaction tx_id; read_rest tx_id key)
     else guarded (_ ←? validate_transaction tx_id; _ ←? take_lock tx_id key LockType.SHARED;
                   read_rest tx_id key)) (c, m).
Proof.
  intros Htx. unfold read, read_rest. destruct (tm_mutex_ m) eqn:Hm.
  { by case_bool_decide; rewrite !guarded_relock. }
  pose proof (validate_known tx_id tx c (set_tm_mutex true m) Htx) as Hv.
  pose proof (deref_step tx_id tx (tick c).2 (set_tm_mutex true m) Htx) as Hd.
  case_bool_decide as Hi; rewrite !guarded_tm by done; unfold mtry at 1 3; rewrite !(M_bind_step _ _ _ _ _ Hv);
    (destruct (tx_is_expired _ tx); [done|]); mstep Hd.
  - by rewrite bool_decide_true.
  - by rewrite bool_decide_false.
Qed.

Lemma read_rest_quiet K `{!PreOrder K} tx_id key :
  respects (locks_step K) (read_rest tx_id key).
Proof. unfold read_rest, new_operation, record_operation, touch_tx. respects_tac. Qed.

#[local] Hint Resolve read_rest_quiet : respects.

(** Readers below [READ_COMMITTED] take no lock. *)
Lemma read_granting tx_id key s :
  wlp (read tx_id key)
    (λ r s', locks_step (granting tx_id key LockType.SHARED
       (is_ok r && negb (bool_decide (isolation_level <$> transactions_ s.2 !! tx_id =
                                       Some IsolationLevel.READ_UNCOMMITTED)))) s s') s ∧
  throws_in (read tx_id key)
    (λ s', locks_step (granting tx_id key LockType.SHARED false) s s') s.
Proof.
  assert (∀ s s' : TmSt L, locks_step untouched s s' →
    locks_step (granting tx_id key LockType.SHARED false) s s') as Hnone
    by (intros ? ?; apply locks_step_mono; intros l l'; apply granting_none).
  destruct s as [c m]. cbn [snd].
  destruct (transactions_ m !! tx_id) as [tx|] eqn:Htx; cbn [fmap option_fmap option_map].
  - unfold wlp, throws_in. rewrite (read_as_request _ _ _ _ _ Htx). case_bool_decide as Hi.
    + assert (respects (locks_step untouched)
        (guarded (_ ←? validate_transaction tx_id; read_rest tx_id key))) as Hr by respects_tac.
      destruct (Hr (c, m)) as [H1 H2]. unfold wlp, throws_in in H1, H2.
      rewrite bool_decide_true by congruence. destruct (guarded _ _); split; try done; [|by apply Hnone].
      rewrite andb_false_r. by apply Hnone.
    + rewrite bool_decide_false by congruence.
      destruct (request_granting tx_id key LockType.SHARED _ (read_rest_quiet untouched tx_id key)
        (c, m)) as [H1 H2]. unfold wlp, throws_in in H1, H2.
      destruct (guarded _ _); split; try done. by rewrite andb_true_r.
  - destruct (tm_mutex_ m) eqn:Hm.
    { unfold wlp, throws_in, read. rewrite guarded_relock by done. split; [done|]. by apply Hnone. }
    unfold wlp, throws_in, read. rewrite guarded_tm by done. unfold mtry at 1 3.
    rewrite !(M_bind_step _ _ _ _ _ (validate_unknown tx_id c (set_tm_mutex true m) Htx)).
    split; [|done]. apply Hnone. unfold locks_step, locks_opt. cbn. by destruct (lock_manager_ m).
Qed.

(** ** Runs of calls *)

Context (order_txs : gset TransactionId → list TransactionId).

(** The locks of [a] stay. *)
Definition keeping (a : TransactionId) : relation L := λ l l',
  svc_ok l → (0 < svc_left l)%N →
  svc_ok l' ∧ (svc_left l ≤ svc_left l' + 1)%N ∧
  ∀ k t, svc_holds l a k t → svc_holds l' a k t.

Lemma keeping_granting a tx_id key ty ok l l' : granting tx_id key ty ok l l' → keeping a l l'.
Proof. intros H Hok Hl. destruct (H Hok Hl) as (? & ? & ? & _). auto. Qed.

Lemma keeping_untouched a l l' : untouched l l' → keeping a l l'.
Proof. intros H. by eapply keeping_granting, (granting_none 0 (MkKey "" "") LockType.SHARED). Qed.

(** Between two calls, nothing but the clock. *)
Definition untouched_ok : relation L := λ l l', svc_ok l → untouched l l'.

#[export] Instance untouched_ok_preorder : PreOrder untouched_ok.
Proof.
  split; [done|]. intros x y z H1 H2 Hok. trans y; [by apply H1|]. apply H2. by apply H1.
Qed.

Lemma cleanup_untouched K `{!PreOrder K} :
  respects (locks_step K) (cleanup_expired_transactions (L := L) order_txs order_nodes).
Proof.
  generalize (cleanup_waits (L := L) order_txs order_nodes). apply respects_mono.
  intros s s' [_ E]. unfold locks_step, locks_opt. rewrite E. by destruct (lock_manager_ s.2).
Qed.

#[local] Hint Resolve cleanup_untouched locks_begin locks_prepare locks_tpc : respects.

(** Releasing the locks of [k] leaves those of [a]; a turn of the deadlock
    detection leaves all of them. *)
Definition release_keeps (a k : TransactionId) : Prop := ∀ l l',
  svc_ok l → leaves (svc_release_all k) l l' →
  svc_ok l' ∧ (svc_left l ≤ svc_left l')%N ∧ ∀ key t, svc_holds l a key t → svc_holds l' a key t.
Definition detection_keeps : Prop := respects (locks_step untouched_ok) (detection_turn (L := L)).

Lemma release_keeps_others a k : k ≠ a → release_keeps a k.
Proof.
  intros Hk l l' Hok H. destruct (svc_release_keeps _ _ _ Hok H) as (? & ? & Hh).
  split_and!; [done..|]. intros key t. apply Hh. congruence.
Qed.

(** The calls over which the locks of [a] stay. *)
Definition safe_for (a : TransactionId) (call : tm_call) : Prop :=
  match call with
  | CallCommit k | CallAbort k => release_keeps a k
  | CallStop | ThreadDetectionTurn => detection_keeps
  | _ => True
  end.

(** Whatever the lock manager: the calls that do not end [a], and run no
    deadlock resolution. *)
Definition spares (a : TransactionId) (call : tm_call) : bool :=
  match call with
  | CallCommit k | CallAbort k => negb (bool_decide (k = a))
  | CallStop | ThreadDetectionTurn => false
  | _ => true
  end.

Lemma spares_safe a call : spares a call = true → safe_for a call.
Proof.
  destruct call; cbn; try done;
    intros Hk%negb_true_iff%bool_decide_eq_false; by apply release_keeps_others.
Qed.

Lemma released_keeping a k c o out s :
  release_keeps a k → released k c o out → (out = Returns tt s ∨ ∃ n, out = Throws n s) →
  locks_opt (keeping a) o s.2.
Proof.
  intros Hk H Hout.
  assert (∀ l l', leaves (svc_release_all k) (svc_set_clock c l) l' → keeping a l l') as Hl.
  { intros l l' E Hok Hl. destruct (Hk _ _ (svc_ok_clock c l Hok) E) as (? & Hle & Hh).
    rewrite svc_left_clock in Hle. split_and!; [done|lia|].
    intros key t Hholds. apply Hh. by rewrite svc_holds_clock. }
  unfold leaves in Hl.
  destruct Hout as [->|(n & ->)]; inversion H; subst; cbn; try done; apply Hl; eauto.
Qed.

Lemma told_lock_manager e (m : TransactionManager L) : lock_manager_ (told e m) = lock_manager_ m.
Proof. unfold told. by destruct (event_handler_ m). Qed.

Lemma untouched_step a (s s' : TmSt L) :
  locks_step untouched s s' → locks_step (keeping a) s s'.
Proof. apply locks_step_mono. intros l l'. apply keeping_untouched. Qed.

Lemma untouched_ok_step a (s s' : TmSt L) :
  locks_step untouched_ok s s' → locks_step (keeping a) s s'.
Proof.
  apply locks_step_mono. intros l l' H Hok. by apply (keeping_untouched a l l' (H Hok)).
Qed.

Lemma same_lock_manager a (s s' : TmSt L) :
  lock_manager_ s'.2 = lock_manager_ s.2 → locks_step (keeping a) s s'.
Proof.
  intros E. apply untouched_step. unfold locks_step, locks_opt. rewrite E. by destruct (lock_manager_ s.2).
Qed.

Lemma commit_keeping a k c m s' :
  release_keeps a k → enumerates order_nodes →
  leaves (commit_transaction order_nodes k) (c, m) s' → locks_step (keeping a) (c, m) s'.
Proof.
  intros Hk Horder H. destruct (tm_mutex_ m) eqn:Hm.
  { unfold leaves, commit_transaction in H. rewrite guarded_relock in H by done. cbn in H.
    destruct H as [(? & ?)|(? & [= _ <-])]; [done|]. by apply same_lock_manager. }
  pose proof (commit_transaction_outcomes order_nodes k c m Horder Hm) as O.
  destruct H as [(r & H)|(n & H)]; rewrite H in O; inversion O; subst;
    try (by apply same_lock_manager); unfold locks_step; cbn; rewrite ?told_lock_manager;
    (eapply (released_keeping a k _ _ _ (_, _)); [done|eassumption|eauto]).
Qed.

Lemma abort_keeping a k c m s' :
  release_keeps a k → leaves (abort_transaction order_nodes k) (c, m) s' →
  locks_step (keeping a) (c, m) s'.
Proof.
  intros Hk H. destruct (tm_mutex_ m) eqn:Hm.
  { unfold leaves, abort_transaction in H. rewrite guarded_relock in H by done. cbn in H.
    destruct H as [(? & ?)|(? & [= _ <-])]; [done|]. by apply same_lock_manager. }
  pose proof (abort_transaction_outcomes order_nodes k c m Hm) as O.
  destruct H as [(r & H)|(n & H)]; rewrite H in O; inversion O; subst;
    try (by apply same_lock_manager); unfold locks_step; cbn; rewrite ?told_lock_manager;
    (eapply (released_keeping a k _ _ _ (_, _)); [done|eassumption|eauto]).
Qed.

(** The calls that leave the lock manager to itself. *)
Definition no_locks (call : tm_call) : bool :=
  match call with
  | CallStop | ThreadDetectionTurn | CallCommit _ | CallAbort _ | CallRead _ _ | CallWrite _ _ _
  | CallRemove _ _ | CallLock _ _ _ => false
  | _ => true
  end.

Lemma run_no_locks call :
  no_locks call = true → respects (locks_step untouched) (tm_run order_txs order_nodes call).
Proof.
  destruct call; try discriminate; intros _; cbn [tm_run]; unfold ignore, start,
    get_transaction_state, get_active_transactions, get_transaction_info, set_event_handler,
    set_default_timeout, recover_transactions, cleanup_check, cleanup_loop_turn, cleanup_turn,
    detection_check; respects_tac.
Qed.

(** Those that run the deadlock detection, or wait for it. *)
Lemma run_detection call :
  call = CallStop ∨ call = ThreadDetectionTurn → detection_keeps →
  respects (locks_step untouched_ok) (tm_run order_txs order_nodes call).
Proof.
  unfold detection_keeps. intros [->| ->] H; cbn [tm_run]; unfold ignore, stop, join_cleanup,
    join_detection, cleanup_turn, detection_loop_turn; respects_tac.
Qed.

Lemma requests_keeping {A} a tx_id key ty (m : M (TmSt L) (Result A)) s s' :
  requests tx_id key ty m → leaves m s s' → locks_step (keeping a) s s'.
Proof.
  intros Hm H. destruct (Hm s) as [H1 H2]. unfold wlp, throws_in in H1, H2.
  destruct H as [(r & E)|(n & E)]; rewrite E in H1, H2;
    (eapply locks_step_mono; [intros l l'; apply keeping_granting|eassumption]).
Qed.

Lemma read_keeping a tx_id key s s' :
  leaves (read tx_id key) s s' → locks_step (keeping a) s s'.
Proof.
  intros H. destruct (read_granting tx_id key s) as [H1 H2]. unfold wlp, throws_in in H1, H2.
  destruct H as [(r & E)|(n & E)]; rewrite E in H1, H2;
    (eapply locks_step_mono; [intros l l'; apply keeping_granting|eassumption]).
Qed.

Lemma run_keeping a call c m s' :
  enumerates order_nodes → safe_for a call →
  leaves (tm_run order_txs order_nodes call) (c, m) s' → locks_step (keeping a) (c, m) s'.
Proof.
  intros Horder Hs H. destruct (no_locks call) eqn:Hq.
  { apply untouched_step. by eapply respects_leaves; [apply run_no_locks|]. }
  destruct call; try discriminate.
  - apply untouched_ok_step. eapply respects_leaves; [|exact H]. apply run_detection; auto.
  - apply leaves_ignore in H. by eapply commit_keeping.
  - apply leaves_ignore in H. by eapply abort_keeping.
  - apply leaves_ignore in H. by eapply read_keeping.
  - apply leaves_ignore in H. by eapply requests_keeping; [apply write_granting|].
  - apply leaves_ignore in H. by eapply requests_keeping; [apply remove_granting|].
  - apply leaves_ignore in H. by eapply requests_keeping; [apply lock_granting|].
  - apply untouched_ok_step. eapply respects_leaves; [|exact H]. apply run_detection; auto.
Qed.

(** [a] holds an exclusive lock on [key], and [n] identifiers are left. *)
Definition owns (n : nat) (a : TransactionId) (key : MultiLevelKey) (s : TmSt L) : Prop :=
  ∃ l, lock_manager_ s.2 = Some l ∧ svc_ok l ∧ (N.of_nat n ≤ svc_left l)%N ∧
    svc_holds l a key LockType.EXCLUSIVE.

Lemma owns_run a key call n s s' :
  enumerates order_nodes → safe_for a call → owns (S n) a key s →
  leaves (tm_run order_txs order_nodes call) s s' → owns n a key s'.
Proof.
  destruct s as [c m]. intros Horder Hs (l & El & Hok & Hl & Hh) H.
  apply (run_keeping a) in H; [|done..]. unfold locks_step in H. cbn [snd] in *. rewrite El in H.
  unfold locks_opt in H. destruct (lock_manager_ s'.2) as [l'|] eqn:El'; [|done].
  destruct H as (? & ? & Hk); [done|lia|]. exists l'. split_and!; [done..|lia|by apply Hk].
Qed.

Lemma owns_runs a key calls s s' :
  enumerates order_nodes → Forall (safe_for a) calls →
  owns (S (length calls)) a key s →
  tm_caught order_txs order_nodes calls s = Returns tt s' → owns 1 a key s'.
Proof.
  intros Horder Hs. revert s. induction Hs as [|call calls Hs1 Hs2 IH]; intros s Ho H.
  - by injection H as <-.
  - apply M_bind_returns in H as ([] & s1 & H1%catching_returns_inv & H2).
    eapply IH; [|exact H2]. eapply owns_run; [done..|]. destruct H1 as [?|[n ?]]; unfold leaves; eauto.
Qed.

Lemma spares_all a calls : forallb (spares a) calls = true → Forall (safe_for a) calls.
Proof.
  induction calls as [|call calls IH]; [constructor|]. cbn.
  intros [H1 H2]%andb_true_iff. constructor; [by apply spares_safe|by apply IH].
Qed.

(** A write that succeeded still owns its key after the calls. *)
Lemma write_then_owns a key value calls (s s1 s2 : TmSt L) l :
  enumerates order_nodes → Forall (safe_for a) calls →
  lock_manager_ s.2 = Some l → svc_ok l → (N.of_nat (length calls) + 1 < svc_left l)%N →
  write a key value s = Returns (ROk tt) s1 →
  tm_caught order_txs order_nodes calls s1 = Returns tt s2 → owns 1 a key s2.
Proof.
  intros Horder Hs El Hok Hl Hw Hr.
  destruct (write_granting a key value s) as [Hg _]. apply (wlp_returns _ _ _ _ _ Hg) in Hw.
  unfold locks_step, locks_opt in Hw. rewrite El in Hw.
  destruct (lock_manager_ s1.2) as [l1|] eqn:El1; [|done].
  destruct Hw as (? & ? & _ & Hh); [done|lia|]. eapply owns_runs; [done..| |exact Hr].
  exists l1. split_and!; [done..|lia|by apply Hh].
Qed.

(** A request of another transaction for the key is not granted. *)
Lemma owns_excludes a b key ty ok s s' :
  a ≠ b → owns 1 a key s → locks_step (granting b key ty ok) s s' → ok = false.
Proof.
  intros Hab (l & El & Hok & Hl & Hh) H. unfold locks_step, locks_opt in H. rewrite El in H.
  destruct (lock_manager_ s'.2) as [l'|]; [|done].
  destruct H as (Hok' & _ & Hkept & Hnew); [done|lia|].
  destruct ok; [|done]. pose proof (svc_exclusion l' a b key _ _ Hok' (Hkept _ _ _ Hh)
    (Hnew eq_refl) Hab) as Hc. by destruct ty.
Qed.
End locks_step.

(** ** A concrete run *)
Definition written : TmSt LmSt :=
  state_after (write (LockService0 := single_lock_service) 1 example_key (DataEntry_default 0)) two_begun.

Definition read_elsewhere : TmSt LmSt :=
  state_after (tm_runs (LockService0 := single_lock_service) elements elements
    [CallRead 2 (MkKey "other" "")]) written.

(** Over any lock manager with the LockService laws: after a transaction wrote a
    key, and any calls that neither end it nor resolve deadlocks, no other
    transaction's write, remove, lock or read (above READ_UNCOMMITTED) of that
    key succeeds. *)
Theorem written_key_is_exclusive {L} `{!LockService L} order_txs order_nodes a b key value
    (calls : list tm_call) (s s1 s2 : TmSt L) l :
  enumerates order_nodes → a ≠ b → forallb (spares a) calls = true →
  lock_manager_ s.2 = Some l → svc_ok l → (N.of_nat (length calls) + 1 < svc_left l)%N →
  write a key value s = Returns (ROk tt) s1 →
  tm_caught order_txs order_nodes calls s1 = Returns tt s2 →
  (∀ v r s', write b key v s2 = Returns r s' → is_ok r = false) ∧
  (∀ r s', remove b key s2 = Returns r s' → is_ok r = false) ∧
  (∀ ty r s', lock b key ty s2 = Returns r s' → is_ok r = false) ∧
  (∀ tx r s', transactions_ s2.2 !! b = Some tx →
     isolation_level tx ≠ IsolationLevel.READ_UNCOMMITTED →
     read b key s2 = Returns r s' → is_ok r = false).
Proof.
  intros Horder Hab Hs%spares_all El Hok Hl Hw Hr.
  pose proof (write_then_owns order_nodes order_txs a key value calls s s1 s2 l
    Horder Hs El Hok Hl Hw Hr) as Ho.
  split_and!.
  - intros v r s' H. eapply owns_excludes; [exact Hab|exact Ho|].
    exact (wlp_returns _ _ _ _ _ (proj1 (write_granting b key v s2)) H).
  - intros r s' H. eapply owns_excludes; [exact Hab|exact Ho|].
    exact (wlp_returns _ _ _ _ _ (proj1 (remove_granting b key s2)) H).
  - intros ty r s' H. eapply owns_excludes; [exact Hab|exact Ho|].
    exact (wlp_returns _ _ _ _ _ (proj1 (lock_granting b key ty s2)) H).
  - intros tx r s' Htx Hi H. eapply (owns_excludes a b key); [exact Hab|exact Ho|].
    pose proof (wlp_returns _ _ _ _ _ (proj1 (read_granting b key s2)) H) as Hg'.
    cbn [snd] in Hg'. rewrite Htx in Hg'. cbn in Hg'.
    rewrite bool_decide_false, andb_true_r in Hg' by congruence. exact Hg'.
Qed.

Lemma written_key_is_exclusive_witness :
  let H := single_lock_service in
  write 1 example_key (DataEntry_default 0) two_begun = Returns (ROk tt) written ∧
  (∀ v r s', write 2 example_key v read_elsewhere = Returns r s' → is_ok r = false) ∧
  (∀ r s', remove 2 example_key read_elsewhere = Returns r s' → is_ok r = false) ∧
  (∀ ty r s', lock 2 example_key ty read_elsewhere = Returns r s' → is_ok r = false) ∧
  (∀ tx r s', transactions_ read_elsewhere.2 !! 2%N = Some tx →
     isolation_level tx ≠ IsolationLevel.READ_UNCOMMITTED →
     read 2 example_key read_elsewhere = Returns r s' → is_ok r = false).
Proof.
  intros H. split; [vm_compute; reflexivity|].
  apply (written_key_is_exclusive elements elements 1 2 example_key (DataEntry_default 0)
    [CallRead 2 (MkKey "other" "")] two_begun written read_elsewhere (lock_clock, LockManager_new)).
  - apply elements_enumerates.
  - done.
  - reflexivity.
  - vm_compute. reflexivity.
  - split; [reflexivity|apply LockManager_new_inv].
  - vm_compute. reflexivity.
  - vm_compute. reflexivity.
  - vm_compute. reflexivity.
Defined.

(** ** With [DefaultLockManager] *)

Section default.
Context (order_tx : gset TransactionId → list TransactionId).
Context (order_locks : gset LockId → list LockId).
Context (Htx : enumerates order_tx) (Hlocks : enumerates order_locks).
Context (meanwhile : M LmSt unit).
Context (Hmeanwhile : ∀ s s', leaves meanwhile s s' → s'.2 = s.2 ∧ clock_after s.1 s'.1).

#[local] Instance the_service : LockService LmSt :=
  default_lock_service order_tx order_locks Htx Hlocks meanwhile Hmeanwhile.

(** Releasing the locks of a transaction that has one throws. *)
Lemma released_holder a key c l o :
  svc_ok l → svc_holds l a key LockType.EXCLUSIVE → released a c (Some l) o →
  o = Throws LockManagerMutex (c, Some (c, l.2)).
Proof.
  destruct l as [cl l]. cbn. intros [Hm [Hi _]] Hh H.
  assert (release_all_locks order_locks a (c, l) = Throws LockManagerMutex (c, l)) as Hu.
  { destruct (transaction_locks_ l !! a) as [locks|] eqn:Es.
    - apply (release_all_relocks order_locks a locks); [done..|]. by apply (tab_sets _ Hi _ _ Es).
    - by destruct (holds_locks l a key LockType.EXCLUSIVE Hi Hh). }
  inversion H as [|? r l' E|? n l' E|? u E]; subst; cbn in E; rewrite Hu in E; [done| |done].
  by injection E as <- <-.
Qed.

(** Whatever is released, the tables stay. *)
Lemma release_all_untouched k :
  respects untouched_ok (svc_release_all (LockService := the_service) k).
Proof.
  intros l.
  assert (∀ l', leaves (release_all_locks order_locks k) l l' → untouched_ok l l') as H.
  { intros l' E [Hm Hi].
    by rewrite (release_all_same order_locks Hlocks k l l' (lmi_tables _ Hi) E). }
  unfold leaves, wlp, throws_in in *. cbn [svc_release_all the_service default_lock_service].
  destruct (release_all_locks order_locks k l); naive_solver.
Qed.

Lemma default_release_keeps a k : release_keeps a k.
Proof.
  intros l l' Hok H. pose proof (respects_leaves _ _ _ _ (release_all_untouched k) H Hok)
    as (? & E & Hh). rewrite E. split_and!; [auto|lia|]. intros key t. by apply Hh.
Qed.

Lemma detect_untouched : respects untouched_ok (svc_detect (LockService := the_service)).
Proof.
  intros [c l]. unfold wlp, throws_in. cbn [svc_detect the_service default_lock_service].
  destruct (lm_mutex_ l) eqn:Hm.
  { unfold detect_deadlocks. rewrite guarded_relock by done. by cbn. }
  unfold detect_deadlocks. rewrite guarded_lm by done. rewrite M_bind_gets.
  destruct (detect_loop _ _ _ _ _) as [ds|]; [|done]. cbn. split; [|done].
  assert (set_lm_mutex false (set_lm_mutex true l) = l) as -> by (by destruct l; cbn in *; subst).
  done.
Qed.

Lemma resolve_untouched cycle :
  respects untouched_ok (svc_resolve (LockService := the_service) cycle).
Proof.
  cbn [svc_resolve the_service default_lock_service]. destruct cycle as [|k cycle].
  - apply respects_ret. apply _.
  - apply release_all_untouched.
Qed.

Lemma default_detection_keeps : detection_keeps.
Proof.
  assert (∀ c l, untouched_ok l (svc_set_clock c l)) as Hc
    by (intros c l _; apply untouched_clock).
  unfold detection_keeps, detection_turn, resolve_each.
  apply respects_bind; [apply _|apply respects_gets; apply _|]. intros [l|].
  - apply respects_bind; [apply _|apply locks_call; [done|apply _|apply detect_untouched]|].
    intros ds. apply respects_mfor; [apply _|]. intros d.
    apply respects_bind; [apply _|apply locks_notify; apply _|]. intros _.
    apply respects_bind; [apply _|apply locks_call; [done|apply _|apply resolve_untouched]|].
    intros _. apply respects_ret. apply _.
  - apply respects_ret. apply _.
Qed.

(** No call whatsoever takes a lock away. *)
Lemma default_safe a calls : Forall (safe_for a) calls.
Proof.
  apply Forall_true. intros []; cbn; auto using default_release_keeps, default_detection_keeps.
Qed.
End default.

(** C9. With the default lock manager, once a transaction has written a key
    successfully, then whatever calls on the transaction manager follow, its own
    commits and aborts, stop and turns of the threads included, each returning
    or left by an exception that its caller catches, short of replacing the lock
    manager and of using up the 2^64 lock identifiers: its commit and its abort
    do not report success. Aborting it while it is not expired locks the lock
    manager's mutex a second time, which throws and leaves its entry ABORTING. *)
Theorem written_transaction_never_ends order_tx order_locks Htx Hlocks meanwhile Hmeanwhile
    order_txs order_nodes a key value calls (s s1 : TmSt LmSt) c2 m2 l :
  let H : LockService LmSt :=
    default_lock_service order_tx order_locks Htx Hlocks meanwhile Hmeanwhile in
  enumerates order_nodes →
  lock_manager_ s.2 = Some l → svc_ok l → (N.of_nat (length calls) + 1 < svc_left l)%N →
  write a key value s = Returns (ROk tt) s1 →
  tm_caught order_txs order_nodes calls s1 = Returns tt (c2, m2) →
  (∀ r s', commit_transaction order_nodes a (c2, m2) = Returns r s' → is_ok r = false) ∧
  (∀ r s', abort_transaction order_nodes a (c2, m2) = Returns r s' → is_ok r = false) ∧
  (∀ tx, tm_mutex_ m2 = false → transactions_ m2 !! a = Some tx →
     tx_is_expired (tick c2).1 tx = false →
     ∃ c3 m3, abort_transaction order_nodes a (c2, m2) = Throws LockManagerMutex (c3, m3) ∧
       tx_state <$> transactions_ m3 !! a = Some TransactionState.ABORTING).
Proof.
  intros H Horder El Hok Hl Hw Hr.
  destruct (write_then_owns order_nodes order_txs a key value calls s s1 (c2, m2) l Horder
    (default_safe order_tx order_locks Htx Hlocks meanwhile Hmeanwhile a calls) El Hok Hl Hw Hr)
    as (l2 & El2 & Hok2 & _ & Hh2). cbn [snd] in El2.
  assert (∀ c o, released a c (lock_manager_ m2) o →
    o = Throws LockManagerMutex (c, Some (c, l2.2))) as Hthrown.
  { intros c o Hrel. rewrite El2 in Hrel.
    by apply (released_holder order_tx order_locks Htx Hlocks meanwhile Hmeanwhile a key) in Hrel. }
  split_and!.
  - intros r s' Hc. pose proof Hc as (Hm & _)%guarded_returns_inv.
    pose proof (commit_transaction_outcomes order_nodes a c2 m2 Horder Hm) as O. rewrite Hc in O.
    inversion O as [| | | |? ? ? ? ? ? ? ? ? Hrel| |]; subst; try done. by apply Hthrown in Hrel.
  - intros r s' Hc. pose proof Hc as (Hm & _)%guarded_returns_inv.
    pose proof (abort_transaction_outcomes order_nodes a c2 m2 Hm) as O. rewrite Hc in O.
    inversion O as [| |? ? ? ? ? ? ? Hrel| |]; subst; try done. by apply Hthrown in Hrel.
  - intros tx Hm Htx2 Hx. pose proof (abort_transaction_outcomes order_nodes a c2 m2 Hm) as O.
    inversion O as [| |? ? ? ? ? ? ? Hrel|? ? ? ? ? ? ? ? ? Hrel Hf|? ? ? ? ? ? Hrel];
      simplify_eq; try congruence; apply Hthrown in Hrel; try done.
    injection Hrel as -> -> ->. eexists _, _. split; [reflexivity|].
    cbn. rewrite lookup_alter_eq, Htx2. cbn. by rewrite Hf.
Qed.

(** The commit of the example throws, and so does its abort; then the manager
    is stopped. *)
Definition gave_up : TmSt LmSt :=
  state_after (tm_caught (LockService0 := single_lock_service) elements elements
    [CallRead 2 (MkKey "other" ""); CallCommit 1; ThreadDetectionCheck; ThreadDetectionTurn;
     CallAbort 1; CallStop]) written.

Lemma written_transaction_never_ends_witness :
  let H := single_lock_service in
  let '(c2, m2) := gave_up in
  (∀ r s', commit_transaction elements 1 (c2, m2) = Returns r s' → is_ok r = false) ∧
  (∀ r s', abort_transaction elements 1 (c2, m2) = Returns r s' → is_ok r = false) ∧
  (∀ tx, tm_mutex_ m2 = false → transactions_ m2 !! 1%N = Some tx →
     tx_is_expired (tick c2).1 tx = false →
     ∃ c3 m3, abort_transaction elements 1 (c2, m2) = Throws LockManagerMutex (c3, m3) ∧
       tx_state <$> transactions_ m3 !! 1%N = Some TransactionState.ABORTING).
Proof.
  intros H. destruct gave_up as [c2 m2] eqn:E.
  apply (written_transaction_never_ends elements elements elements_enumerates elements_enumerates
    (mret tt) alone_meanwhile elements elements 1 example_key (DataEntry_default 0)
    [CallRead 2 (MkKey "other" ""); CallCommit 1; ThreadDetectionCheck; ThreadDetectionTurn;
     CallAbort 1; CallStop] two_begun written c2 m2 (lock_clock, LockManager_new)).
  - apply elements_enumerates.
  - vm_compute. reflexivity.
  - split; [reflexivity|apply LockManager_new_inv].
  - vm_compute. reflexivity.
  - vm_compute. reflexivity.
  - rewrite <- E. vm_compute. reflexivity.
Defined.
