(* ===== verification/Serializability.v ===== *)
(** * Serializability: what strict two-phase locking gives the transactions

    The history of a run of calls on the transaction manager: the accesses it
    answered with success and the transactions that ended, in the order of the
    calls.  Histories whose conflicting accesses are separated by the end of
    the first transaction have an acyclic precedence relation; every history of
    the manager, over any lock manager with the laws of [LockService], is one. *)

From Stdlib Require Import Ascii String ZArith NArith Lia.
From stdpp Require Import base numbers list relations strings gmap pretty.
From S2P Require Import Prelude OrdMap Types Files Locks LockManager Transactions.
From S2P Require Import TransactionManager TransactionOutcomes TransactionInvariants.
From S2P Require Import TransactionLocks.

(** ** Histories *)

Inductive tx_event :=
  | Access (tx : TransactionId) (key : MultiLevelKey) (writes : bool)
  | Ended (tx : TransactionId).

#[export] Instance tx_event_eq_dec : EqDecision tx_event.
Proof. solve_decision. Defined.

Abbreviation history := (list tx_event).

(** [a] accesses a key before [b] does, and one of the two writes it. *)
Definition precedes (h : history) : relation TransactionId := λ a b,
  a ≠ b ∧ ∃ i j key v w, i < j ∧ h !! i = Some (Access a key v) ∧
    h !! j = Some (Access b key w) ∧ v || w = true.

(** The end of [a] is followed by an access of [b]. *)
Definition ends_before (h : history) : relation TransactionId := λ a b,
  ∃ x j key w, x < j ∧ h !! x = Some (Ended a) ∧ h !! j = Some (Access b key w).

(** No two transactions overlap on a key that one of them writes, and nobody
    goes on after the end. *)
Record strict (h : history) : Prop := {
  strict_separate i j a b key v w :
    i < j → h !! i = Some (Access a key v) → h !! j = Some (Access b key w) →
    a ≠ b → v || w = true → ∃ x, i < x < j ∧ h !! x = Some (Ended a);
  strict_final a : ¬ ends_before h a a
}.

Definition conflict_serializable (h : history) : Prop := ∀ a, ¬ tc (precedes h) a a.

Lemma strict_ends_before h a b : strict h → tc (precedes h) a b → ends_before h a b.
Proof.
  intros Hh H. induction H as [a b Hp|a b c Hp _ IH];
    destruct Hp as (Hab & i & j & key & v & w & Hij & Hi & Hj & Hvw);
    destruct (strict_separate h Hh i j a b key v w Hij Hi Hj Hab Hvw) as (x & Hx & Ex).
  - exists x, j, key, w. split_and!; [lia|done..].
  - destruct IH as (y & k & key' & w' & Hyk & Ey & Ek).
    exists x, k, key', w'. split_and!; [|done..].
    destruct (decide (y < j)) as [Hyj|Hyj]; [|lia].
    exfalso. apply (strict_final h Hh b). by exists y, j, key, w.
Qed.

Lemma strict_serializable h : strict h → conflict_serializable h.
Proof. intros Hh a H. by eapply strict_final, strict_ends_before. Qed.

(** One more event. *)
Lemma lookup_snoc_cases (h : history) e i x :
  (h ++ [e]) !! i = Some x → h !! i = Some x ∨ (i = length h ∧ x = e).
Proof.
  rewrite lookup_app. destruct (h !! i) as [y|] eqn:E; [by intros [= ->]; left|].
  apply lookup_ge_None in E. destruct (i - length h) eqn:Ei; [|done].
  cbn. intros [= ->]. right. split; [lia|done].
Qed.

(** The accesses of [a] to [key] that its end has not followed yet. *)
Definition pending (h : history) (a : TransactionId) (key : MultiLevelKey) (v : bool) : Prop :=
  ∃ i, h !! i = Some (Access a key v) ∧ ∀ x, i < x → h !! x ≠ Some (Ended a).

Lemma pending_snoc h e a key v :
  pending (h ++ [e]) a key v → (pending h a key v ∧ e ≠ Ended a) ∨ e = Access a key v.
Proof.
  intros (i & Hi & Hx). apply lookup_snoc_cases in Hi as [Hi|[_ <-]]; [|by right]. left. split.
  - exists i. split; [done|]. intros x Hix Ex. apply (Hx x Hix). by apply lookup_app_l_Some.
  - intros ->. apply lookup_lt_Some in Hi. apply (Hx (length h)); [done|].
    by rewrite lookup_app_r, Nat.sub_diag.
Qed.

Lemma strict_ended h a : strict h → strict (h ++ [Ended a]).
Proof.
  intros [Hs Hf]. split.
  - intros i j b c key v w Hij Hi Hj Hbc Hvw.
    apply lookup_snoc_cases in Hi as [Hi|[_ ?]]; [|done].
    apply lookup_snoc_cases in Hj as [Hj|[_ ?]]; [|done].
    destruct (Hs i j b c key v w Hij Hi Hj Hbc Hvw) as (x & ? & ?).
    exists x. split; [done|]. by apply lookup_app_l_Some.
  - intros b (x & j & key & w & Hxj & Hx & Hj).
    apply lookup_snoc_cases in Hj as [Hj|[_ ?]]; [|done].
    apply lookup_snoc_cases in Hx as [Hx|[-> _]].
    + apply (Hf b). by exists x, j, key, w.
    + apply lookup_lt_Some in Hj. lia.
Qed.

(** An access that no pending one of another transaction conflicts with. *)
Lemma strict_access h b key w :
  strict h → Ended b ∉ h →
  (∀ a v, a ≠ b → pending h a key v → v || w = false) → strict (h ++ [Access b key w]).
Proof.
  intros [Hs Hf] Hb Hp. split.
  - intros i j a c key' v w' Hij Hi Hj Hac Hvw.
    apply lookup_snoc_cases in Hi as [Hi|[-> _]].
    2: { apply lookup_lt_Some in Hj. rewrite length_app in Hj. cbn in Hj. lia. }
    apply lookup_snoc_cases in Hj as [Hj|[-> [= -> -> ->]]].
    + destruct (Hs i j a c key' v w' Hij Hi Hj Hac Hvw) as (x & ? & ?).
      exists x. split; [done|]. by apply lookup_app_l_Some.
    + destruct (decide (Ended a ∈ drop (S i) h)) as [Hin|Hnin].
      * apply list_elem_of_lookup in Hin as (x & Hx). rewrite lookup_drop in Hx.
        exists (S i + x). pose proof (lookup_lt_Some _ _ _ Hx).
        split; [lia|]. by apply lookup_app_l_Some.
      * rewrite (Hp a v Hac) in Hvw; [done|]. exists i. split; [done|].
        intros x Hix Hx. apply Hnin, list_elem_of_lookup. exists (x - S i).
        rewrite lookup_drop. by replace (S i + (x - S i)) with x by lia.
  - intros a (x & j & key' & w' & Hxj & Hx & Hj).
    apply lookup_snoc_cases in Hx as [Hx|[_ ?]]; [|done].
    apply lookup_snoc_cases in Hj as [Hj|[-> [= -> -> ->]]].
    + apply (Hf a). by exists x, j, key', w'.
    + apply Hb, list_elem_of_lookup. by exists x.
Qed.

(** ** The history of a run *)

Section traces.
Context {L : Type} `{!LockService L}.
Context (order_txs : gset TransactionId → list TransactionId).
Context (order_nodes : gset NodeId → list NodeId).

(** The event of a call counts when the call succeeds. *)
Definition traced {A} (m : M (TmSt L) (Result A)) (e : history) : M (TmSt L) history :=
  r ← m; mret (if is_ok r then e else []).

(** A read at [READ_UNCOMMITTED] asks for no lock: it is no access here. *)
Definition read_event (tx_id : TransactionId) (key : MultiLevelKey) (s : TmSt L) : history :=
  if bool_decide (isolation_level <$> transactions_ s.2 !! tx_id =
                  Some IsolationLevel.READ_UNCOMMITTED)
  then [] else [Access tx_id key false].

Definition tm_trace (call : tm_call) : M (TmSt L) history := λ s,
  match call with
  | CallCommit tx_id => traced (commit_transaction order_nodes tx_id) [Ended tx_id] s
  | CallAbort tx_id => traced (abort_transaction order_nodes tx_id) [Ended tx_id] s
  | CallRead tx_id key => traced (read tx_id key) (read_event tx_id key s) s
  | CallWrite tx_id key value => traced (write tx_id key value) [Access tx_id key true] s
  | CallRemove tx_id key => traced (remove tx_id key) [Access tx_id key true] s
  | _ => (_ ← tm_run order_txs order_nodes call; mret []) s
  end.

Fixpoint tm_traces (calls : list tm_call) : M (TmSt L) history :=
  match calls with
  | [] => mret []
  | call :: calls => h ← tm_trace call; h' ← tm_traces calls; mret (h ++ h')
  end.

Lemma traced_returns {A} (m : M (TmSt L) (Result A)) e s h s' :
  traced m e s = Returns h s' →
  ∃ r, m s = Returns r s' ∧ h = if is_ok r then e else [].
Proof.
  intros H. apply M_bind_returns in H as (r & t & Hm & [= <- <-]). by exists r.
Qed.

(** Tracing does not change the run. *)
Lemma tm_trace_run call s h s' :
  tm_trace call s = Returns h s' → tm_run order_txs order_nodes call s = Returns tt s'.
Proof.
  intros H.
  destruct call; cbn [tm_trace] in H;
    try (apply M_bind_returns in H as ([] & t & Hm & [= <- <-]); exact Hm);
    apply traced_returns in H as (r & Hm & _); cbn [tm_run]; unfold ignore;
    by rewrite (M_bind_step _ _ _ _ _ Hm).
Qed.

(** ** Calls on a transaction that is gone *)

Definition gone (a : TransactionId) (m : TransactionManager L) : Prop :=
  transactions_ m !! a = None ∧ (a < next_transaction_id_ m)%N.

Lemma gone_step a call c m c' m' :
  enumerates order_nodes → (next_transaction_id_ m + 1 < 2 ^ 64)%N → gone a m →
  tm_run order_txs order_nodes call (c, m) = Returns tt (c', m') → gone a m'.
Proof.
  intros Horder Hn [Ha Hl] H. pose proof (tm_run_table _ _ _ _ _ _ _ Horder H) as S.
  destruct S as [[E1 [Hd|(k & E2)]]|i now E1 E2].
  - split; [|by rewrite E1]. destruct (transactions_ m' !! a) as [tx'|] eqn:E; [|done].
    apply Hd in E as (tx & E & _). congruence.
  - split; [|by rewrite E1]. rewrite E2. by rewrite lookup_delete_None; right.
  - rewrite begun_next, wrap64_small in E2 by done. split; [|by rewrite E2; lia].
    rewrite E1, begun_transactions, lookup_insert_ne by lia. done.
Qed.

Lemma unknown_refused {A} a (body : unit → M (TmSt L) (Result A)) s r s' :
  transactions_ s.2 !! a = None →
  guarded (mtry (validate_transaction a) body) s = Returns r s' → is_ok r = false.
Proof.
  destruct s as [c m]. intros Ha H. pose proof H as (Hm & _)%guarded_returns_inv. cbn in Ha, Hm.
  revert H. rewrite guarded_tm by done. unfold mtry.
  mstep (validate_unknown a c (set_tm_mutex true m) Ha). cbn. by intros [= <- _].
Qed.

Definition event_tx (e : tx_event) : TransactionId :=
  match e with Access tx _ _ => tx | Ended tx => tx end.

Lemma trace_of_gone call s h s' e :
  tm_trace call s = Returns h s' → e ∈ h → is_Some (transactions_ s.2 !! event_tx e).
Proof.
  intros H He. destruct (transactions_ s.2 !! event_tx e) as [tx|] eqn:E; [by exists tx|].
  destruct call; cbn [tm_trace] in H;
    try (apply M_bind_returns in H as ([] & t & Hm & [= <- <-]); by apply not_elem_of_nil in He);
    apply traced_returns in H as (r & Hm & ->).
  all: assert (is_ok r = false → False) as Hr
    by (intros Hr; rewrite Hr in He; by apply not_elem_of_nil in He).
  all: destruct (is_ok r) eqn:Hok; [|done].
  all: assert (event_tx e = tx_id) as Et
    by (unfold read_event in He; repeat case_bool_decide;
        (by apply not_elem_of_nil in He) || by apply list_elem_of_singleton in He as ->).
  all: rewrite Et in E; pose proof (unknown_refused _ _ _ _ _ E Hm); congruence.
Qed.

(** ** What the calls do to the locks *)

Definition mode_of (writes : bool) : LockType.t :=
  if writes then LockType.EXCLUSIVE else LockType.SHARED.

(** Neither stops the manager nor resolves deadlocks: those take locks away
    from transactions that go on. *)
Definition undisturbed (call : tm_call) : bool :=
  match call with CallStop | ThreadDetectionTurn => false | _ => true end.

Inductive trace_step (s : TmSt L) : history → TmSt L → Prop :=
  | trace_silent s' :
      (∀ a, locks_step (keeping a) s s') → trace_step s [] s'
  | trace_access b key w s' :
      locks_step (granting b key (mode_of w) true) s s' → trace_step s [Access b key w] s'
  | trace_ended b s' :
      (∀ a, a ≠ b → locks_step (keeping a) s s') → transactions_ s'.2 !! b = None →
      trace_step s [Ended b] s'.

Lemma commit_refused tx_id c m r s' :
  enumerates order_nodes → commit_transaction order_nodes tx_id (c, m) = Returns r s' →
  if is_ok r then transactions_ s'.2 !! tx_id = None else lock_manager_ s'.2 = lock_manager_ m.
Proof.
  intros Horder H. pose proof H as (Hm & _)%guarded_returns_inv.
  pose proof (commit_transaction_outcomes order_nodes tx_id c m Horder Hm) as O. rewrite H in O.
  inversion O; subst; try done. cbn. unfold told. cbn.
  destruct (event_handler_ m); apply lookup_delete_eq.
Qed.

Lemma abort_refused tx_id c m r s' :
  abort_transaction order_nodes tx_id (c, m) = Returns r s' →
  if is_ok r then transactions_ s'.2 !! tx_id = None else lock_manager_ s'.2 = lock_manager_ m.
Proof.
  intros H. pose proof H as (Hm & _)%guarded_returns_inv.
  pose proof (abort_transaction_outcomes order_nodes tx_id c m Hm) as O. rewrite H in O.
  inversion O; subst; try done. cbn. unfold told. cbn.
  destruct (event_handler_ m); apply lookup_delete_eq.
Qed.

(** A request is an access or leaves everybody's locks. *)
Lemma granting_trace_step b key w ok s s' :
  locks_step (granting b key (mode_of w) ok) s s' →
  trace_step s (if ok then [Access b key w] else []) s'.
Proof.
  intros H. destruct ok; [by apply trace_access|]. apply trace_silent. intros a.
  eapply locks_step_mono; [intros l l'; apply keeping_granting|exact H].
Qed.

Lemma tm_trace_step call s h s' :
  enumerates order_nodes → undisturbed call = true →
  tm_trace call s = Returns h s' → trace_step s h s'.
Proof.
  destruct s as [c m]. intros Horder Hu H. pose proof (tm_trace_run _ _ _ _ H) as Hrun.
  assert ((∀ a, spares a call = true) → ∀ a, locks_step (keeping a) (c, m) s') as Hkeep
    by (intros Hs a; eapply run_keeping; [done|by apply spares_safe|left; eauto]).
  destruct call; try discriminate Hu; cbn [tm_trace] in H;
    try (apply M_bind_returns in H as ([] & t & Hm & [= <- <-]); by apply trace_silent, Hkeep);
    apply traced_returns in H as (r & H & ->).
  - pose proof (commit_refused _ _ _ _ _ Horder H) as Hr. destruct (is_ok r).
    + apply trace_ended; [|done]. intros a Ha.
      eapply commit_keeping; [by apply release_keeps_others|done|left; eauto].
    + apply trace_silent. intros a. by apply same_lock_manager.
  - pose proof (abort_refused _ _ _ _ _ H) as Hr. destruct (is_ok r).
    + apply trace_ended; [|done]. intros a Ha.
      eapply abort_keeping; [by apply release_keeps_others|left; eauto].
    + apply trace_silent. intros a. by apply same_lock_manager.
  - pose proof (wlp_returns _ _ _ _ _ (proj1 (read_granting tx_id key (c, m))) H) as Hg. cbn in Hg.
    apply (granting_trace_step _ _ false) in Hg. unfold read_event. cbn [snd].
    destruct (is_ok r), (bool_decide _); exact Hg.
  - exact (granting_trace_step _ _ true _ _ _
             (wlp_returns _ _ _ _ _ (proj1 (write_granting tx_id key value (c, m))) H)).
  - exact (granting_trace_step _ _ true _ _ _
             (wlp_returns _ _ _ _ _ (proj1 (remove_granting tx_id key (c, m))) H)).
Qed.
End traces.

(** ** The invariant of the histories *)

Section invariant.
Context {L : Type} `{!LockService L}.
Context (order_txs : gset TransactionId → list TransactionId).
Context (order_nodes : gset NodeId → list NodeId).
Context (Hnodes : enumerates order_nodes).
Implicit Types s : TmSt L.

(** The locks behind the pending accesses, with [n] identifiers left. *)
Definition locked (n : nat) (h : history) s : Prop :=
  ∃ l, lock_manager_ s.2 = Some l ∧ svc_ok l ∧ (N.of_nat n ≤ svc_left l)%N ∧
    ∀ a key v, pending h a key v → svc_holds l a key (mode_of v).

Record serial_inv (n : nat) (h : history) s : Prop := {
  si_strict : strict h;
  si_locked : locked n h s;
  si_gone a : Ended a ∈ h → gone a s.2;
  si_table : tm_inv s.2;
  si_next : (next_transaction_id_ s.2 + N.of_nat n < 2 ^ 64)%N
}.

(** One lock is enough to see that the lock manager is still there. *)
Lemma locked_keeping n h h' s s' (P : TransactionId → Prop) :
  locked (S n) h s → (∀ a, P a → locks_step (keeping a) s s') → (∃ a, P a) →
  (∀ a key v, pending h' a key v → pending h a key v ∧ P a) → locked n h' s'.
Proof.
  intros (l & El & Hok & Hl & Hh) Hk [a0 Ha0] Hp.
  assert (∀ a, P a → locks_opt (keeping a) (Some l) (lock_manager_ s'.2)) as Hk'
    by (intros a Ha; rewrite <- El; by apply Hk).
  unfold locks_opt in Hk'. destruct (lock_manager_ s'.2) as [l'|] eqn:El'; [|by destruct (Hk' a0)].
  destruct (Hk' a0 Ha0) as (Hok' & Hl' & _); [done|lia|].
  exists l'. split_and!; [done..|lia|]. intros a key v (Hpend & Ha)%Hp.
  destruct (Hk' a Ha) as (_ & _ & Hkeep); [done|lia|]. by apply Hkeep, Hh.
Qed.

Lemma locked_access n h b key w s s' :
  locked (S n) h s → locks_step (granting b key (mode_of w) true) s s' →
  locked n (h ++ [Access b key w]) s' ∧
  ∀ a v, a ≠ b → pending h a key v → v || w = false.
Proof.
  intros (l & El & Hok & Hl & Hh) Hg. unfold locks_step, locks_opt in Hg. rewrite El in Hg.
  destruct (lock_manager_ s'.2) as [l'|] eqn:El'; [|done].
  destruct Hg as (Hok' & Hl' & Hkeep & Hnew); [done|lia|]. specialize (Hnew eq_refl). split.
  - exists l'. split_and!; [done..|lia|].
    intros a key' v [[Hp _]|[= <- <- <-]]%pending_snoc; [by apply Hkeep, Hh|done].
  - intros a v Hab Hp. apply Hh, Hkeep in Hp.
    pose proof (svc_exclusion l' a b key _ _ Hok' Hp Hnew Hab). by destruct v, w.
Qed.

Lemma serial_step n h call s h' s' :
  undisturbed call = true → serial_inv (S n) h s →
  tm_trace order_txs order_nodes call s = Returns h' s' → serial_inv n (h ++ h') s'.
Proof.
  intros Hu [Hstrict Hlock Hgone Htable Hnext] H. destruct s as [c m], s' as [c' m'].
  cbn [snd] in Hgone, Htable, Hnext.
  pose proof (tm_trace_run _ _ _ _ _ _ H) as Hrun.
  assert (next_transaction_id_ m + 1 < 2 ^ 64)%N as Hone by lia.
  destruct (tm_run_inv _ _ _ _ _ _ _ Hnodes Hone Htable Hrun) as [Htable' Hn'].
  assert (∀ a, Ended a ∈ h → gone a m') as Hgone'
    by (intros a Ha; eapply (gone_step order_txs order_nodes); [done..|by apply Hgone|done]).
  assert (∀ e, e ∈ h' → (Ended (event_tx e) ∉ h) ∧ (event_tx e < next_transaction_id_ m)%N) as Hlive.
  { intros e He. destruct (trace_of_gone _ _ _ _ _ _ _ H He) as [tx Htx]. split.
    - intros [E _]%Hgone. cbn in Htx. congruence.
    - by apply (tmi_entries _ Htable) in Htx as []. }
  pose proof (tm_trace_step _ _ _ _ _ _ Hnodes Hu H) as S.
  inversion S as [t Hk|b key w t Hg|b t Hk Hb]; subst.
  - rewrite app_nil_r. split; [done| |done..|cbn [snd] in *; lia].
    eapply (locked_keeping n h h _ _ (λ _, True)); [done|auto|by exists 0%N|auto].
  - destruct (locked_access n h b key w _ _ Hlock Hg) as [Hlock' Hfree].
    destruct (Hlive (Access b key w)) as [Hb _]; [by apply list_elem_of_singleton|].
    split; [by apply strict_access|done| |done|cbn [snd] in *; lia].
    intros a [Ha|Ha%list_elem_of_singleton]%elem_of_app; [by apply Hgone'|done].
  - destruct (Hlive (Ended b)) as [_ Hlt]; [by apply list_elem_of_singleton|]. cbn in Hlt.
    split; [by apply strict_ended| | |done|cbn [snd] in *; lia].
    + eapply (locked_keeping n h _ _ _ (λ a, a ≠ b)); [done..| |].
      * exists (b + 1)%N. lia.
      * intros a key v [[Hp Ha]|?]%pending_snoc; [|done]. split; [done|congruence].
    + intros a [Ha|Ha%list_elem_of_singleton]%elem_of_app; [by apply Hgone'|].
      injection Ha as ->. split; [done|cbn [snd] in *; lia].
Qed.

Lemma serial_run h calls s h' s' :
  forallb undisturbed calls = true → serial_inv (length calls) h s →
  tm_traces order_txs order_nodes calls s = Returns h' s' → serial_inv 0 (h ++ h') s'.
Proof.
  revert h s h'. induction calls as [|call calls IH]; intros h s h' Hu Hi H.
  - injection H as <- <-. by rewrite app_nil_r.
  - cbn in Hu. apply andb_true_iff in Hu as [Hu1 Hu2].
    apply M_bind_returns in H as (h1 & s1 & H1 & H2).
    apply M_bind_returns in H2 as (h2 & s2 & H2 & [= <- <-]).
    rewrite app_assoc. eapply IH; [done| |exact H2]. by eapply serial_step.
Qed.

Lemma serial_inv_start n s l :
  lock_manager_ s.2 = Some l → svc_ok l → (N.of_nat n ≤ svc_left l)%N → tm_inv s.2 →
  (next_transaction_id_ s.2 + N.of_nat n < 2 ^ 64)%N → serial_inv n [] s.
Proof.
  intros El Hok Hl Ht Hn. split; [|exists l; split_and!; [done..|]|set_solver|done|done].
  - split; [done|]. by intros a (x & j & key & w & _ & Hx & _).
  - by intros a key v (i & Hi & _).
Qed.
End invariant.

(** ** The plain lock table

    The least a lock manager with the laws of [LockService] can be: a list of
    granted locks, a request refused while somebody else's lock stands in its
    way.  Unlike [DefaultLockManager], it lets go of locks. *)
Module LockTable.
Abbreviation entry := (TransactionId * MultiLevelKey * LockType.t)%type.
Abbreviation t := (Clock * list entry)%type.

(** [e] does not stand in the way of the request. *)
Definition allows (tx : TransactionId) (key : MultiLevelKey) (ty : LockType.t) (e : entry) : bool :=
  bool_decide (e.1.1 = tx) || negb (bool_decide (e.1.2 = key)) || is_lock_compatible e.2 ty.

Definition acquire (tx : TransactionId) (key : MultiLevelKey) (ty : LockType.t) (_ : Z) :
    M t (Result LockId) := λ s,
  if forallb (allows tx key ty) s.2
  then Returns (ROk "") (s.1, (tx, key, ty) :: s.2)
  else Returns (RErr Status.TIMEOUT "Lock conflict") s.

Definition release_all (tx : TransactionId) : M t (Result unit) := λ s,
  Returns (ROk tt) (s.1, filter (λ e, e.1.1 ≠ tx) s.2).

Definition ok (s : t) : Prop :=
  ∀ tx tx' key ty ty', (tx, key, ty) ∈ s.2 → (tx', key, ty') ∈ s.2 → tx ≠ tx' →
    is_lock_compatible ty ty' = true.

Lemma acquire_ok tx key ty timeout s r s' :
  ok s → acquire tx key ty timeout s = Returns r s' →
  ok s' ∧ (∀ e, e ∈ s.2 → e ∈ s'.2) ∧ (is_ok r = true → (tx, key, ty) ∈ s'.2).
Proof.
  intros Hok. unfold acquire. destruct (forallb _ _) eqn:E; intros [= <- <-]; [|done].
  rewrite forallb_forall in E. split_and!; [|by right|by left].
  assert (∀ tx' ty', (tx', key, ty') ∈ s.2 → tx' ≠ tx → is_lock_compatible ty' ty = true) as Hin.
  { intros tx' ty' Hin%list_elem_of_In%E Ht. unfold allows in Hin. cbn in Hin.
    by rewrite bool_decide_false, bool_decide_true in Hin. }
  intros a b k x y [[= -> -> ->]|Ha]%elem_of_cons [[=]|Hb]%elem_of_cons Hab; subst.
  - done.
  - rewrite is_lock_compatible_sym. by eapply Hin.
  - by eapply Hin.
  - by eapply (Hok a b).
Qed.

Lemma release_none tx s :
  (∀ key ty, (tx, key, ty) ∉ s.2) → release_all tx s = Returns (ROk tt) s.
Proof.
  destruct s as [c es]. unfold release_all. cbn. intros H. do 2 f_equal.
  induction es as [|[[a k] ty] es IH]; [done|]. rewrite filter_cons_True.
  - f_equal. apply IH. intros key ty' Hin. by apply (H key ty'), list_elem_of_further.
  - cbn. intros ->. apply (H k ty), list_elem_of_here.
Qed.

Definition service : LockService t.
Proof.
  refine {|
    svc_acquire := acquire; svc_release_all := release_all; svc_detect := mret [];
    svc_resolve := λ _, mret (ROk tt); svc_clock := fst; svc_set_clock := λ c s, (c, s.2);
    svc_holds := λ s tx key ty, (tx, key, ty) ∈ s.2; svc_ok := ok;
    svc_left := λ _, (2 ^ 64)%N |}; try done.
  - intros tx key ty timeout s. unfold wlp, throws_in, acquire, later. by destruct (forallb _ _).
  - intros tx key ty timeout s s' Hok _ [(r & H)|(n & H)].
    2: { unfold acquire in H. by destruct (forallb _ _). }
    destruct (acquire_ok _ _ _ _ _ _ _ Hok H) as (? & Hs & _). split_and!; [done|lia|].
    intros tx' k' ty'. apply Hs.
  - intros tx key ty timeout s id s' Hok _ H.
    destruct (acquire_ok _ _ _ _ _ _ _ Hok H) as (_ & _ & Hg). by apply Hg.
  - intros s a b key ty ty' Hok. apply Hok.
  - intros tx s s' Hok [(r & [= <- <-])|(n & ?)]; [|done]. cbn. split_and!; [|done|].
    + intros a b k x y [_ Ha]%list_elem_of_filter [_ Hb]%list_elem_of_filter. by apply (Hok a b k).
    + intros tx' k' ty' Ht Hin. by apply list_elem_of_filter.
  - intros tx s _ Hnone. by apply release_none.
Defined.
End LockTable.

(** ** A concrete run

    Two transactions on one key: the second writes once the first is over. *)
Definition table_started : TransactionManager LockTable.t :=
  set_threads true false (Some AtCheck) (Some AtCheck)
    (DefaultTransactionManager_new (lock_clock, [])).

Definition table_calls : list tm_call :=
  [CallWrite 1 example_key (DataEntry_default 0); CallRead 2 example_key;
   CallRead 2 (MkKey "other" "");
   CallCommit 1; CallRead 2 example_key; CallRemove 2 example_key;
   CallWrite 1 (MkKey "other" "") (DataEntry_default 0); CallAbort 2].

Definition table_history : history :=
  [Access 1 example_key true; Access 2 (MkKey "other" "") false; Ended 1;
   Access 2 example_key false; Access 2 example_key true; Ended 2].

Definition table_begun : TmSt LockTable.t :=
  match tm_runs (LockService0 := LockTable.service) elements elements
    [CallBegin IsolationLevel.SERIALIZABLE; CallBegin IsolationLevel.READ_COMMITTED]
    (lock_clock, table_started) with
  | Returns _ s => s
  | _ => (lock_clock, table_started)
  end.

Lemma table_begun_inv : tm_inv table_begun.2.
Proof.
  split.
  - apply map_Forall_to_list. vm_compute map_to_list.
    repeat apply List.Forall_cons; try apply List.Forall_nil;
      (split; [reflexivity|reflexivity|by left|done]).
  - vm_compute. eauto.
Qed.

(** C4. Over any lock manager with the LockService laws, runs of calls that
    return, without stop and without deadlock resolution, are strict and
    conflict serializable: between a successful access of one transaction and a
    conflicting one of another to the same key, the first transaction was
    committed or aborted; nobody accesses anything after its end; and the
    precedence relation between transactions, which therefore follows the order
    of their ends, has no cycle. Reads at READ_UNCOMMITTED take no lock and do
    not count as accesses. The identifiers of transactions and locks, of 64
    bits, are not used up. *)
Theorem histories_are_serializable {L} `{!LockService L} order_txs order_nodes
    (calls : list tm_call) (s s' : TmSt L) l h :
  enumerates order_nodes → forallb undisturbed calls = true → tm_inv s.2 →
  (next_transaction_id_ s.2 + N.of_nat (length calls) < 2 ^ 64)%N →
  lock_manager_ s.2 = Some l → svc_ok l → (N.of_nat (length calls) ≤ svc_left l)%N →
  tm_traces order_txs order_nodes calls s = Returns h s' →
  (∀ i j a b key v w, i < j → h !! i = Some (Access a key v) → h !! j = Some (Access b key w) →
     a ≠ b → v || w = true → ∃ x, i < x < j ∧ h !! x = Some (Ended a)) ∧
  (∀ a, ¬ ends_before h a a) ∧
  (∀ a b, tc (precedes h) a b → ends_before h a b) ∧
  conflict_serializable h.
Proof.
  intros Horder Hu Ht Hn El Hok Hl H.
  pose proof (serial_inv_start order_nodes Horder (length calls) s l El Hok Hl Ht Hn) as Hi.
  pose proof (si_strict _ _ _ (serial_run order_txs order_nodes Horder [] calls s h s' Hu Hi H)) as Hs.
  cbn [app] in Hs. split_and!.
  - intros i j a b key v w. apply (strict_separate h Hs).
  - apply (strict_final h Hs).
  - intros a b. by apply strict_ends_before.
  - by apply strict_serializable.
Qed.

Lemma histories_are_serializable_witness :
  let H := LockTable.service in
  (∃ s', tm_traces elements elements table_calls table_begun = Returns table_history s') ∧
  precedes table_history 1%N 2%N ∧ conflict_serializable table_history.
Proof.
  intros H. split; [eexists; vm_compute; reflexivity|]. split.
  - split; [done|]. exists 0, 3, example_key, true, false. split_and!; [lia|done..].
  - refine (proj2 (proj2 (proj2 (histories_are_serializable elements elements table_calls
      table_begun _ (lock_clock, []) table_history _ _ _ _ _ _ _ _)))).
    + apply elements_enumerates.
    + reflexivity.
    + apply table_begun_inv.
    + vm_compute. reflexivity.
    + vm_compute. reflexivity.
    + by intros a b k x y Ha%elem_of_nil.
    + vm_compute. discriminate.
    + vm_compute. reflexivity.
Defined.
