(* ===== verification/TransactionProgress.v ===== *)
(** * TransactionProgress: the calls of a client come back

    What [wlp] leaves open: over a lock manager whose own operations return,
    every call that a client, a peer or the checks of the threads make on the
    transaction manager returns, leaves the mutex free, and a transaction that
    can commit does. *)

From Stdlib Require Import Ascii String ZArith NArith Lia.
From stdpp Require Import base numbers list relations strings gmap pretty.
From S2P Require Import Prelude OrdMap Types Files Locks LockManager Transactions.
From S2P Require Import TransactionManager TransactionOutcomes TransactionInvariants.
From S2P Require Import TransactionLocks Serializability.

(** ** Returning *)

Definition returns {S A} (m : M S A) (s : S) : Prop := ∃ a s', m s = Returns a s'.

(** From every state. *)
Definition always {S A} (m : M S A) : Prop := ∀ s, returns m s.

Section returning.
Context {S : Type}.

Lemma returns_bind {A B} (m : M S A) (f : A → M S B) s :
  returns m s → (∀ a s', m s = Returns a s' → returns (f a) s') → returns (m ≫= f) s.
Proof. intros (a & s' & E) Hf. unfold returns. mstep E. by apply Hf. Qed.

Lemma returns_mtry {A B} (m : M S (Result A)) (f : A → M S (Result B)) s :
  returns m s → (∀ a s', m s = Returns (ROk a) s' → returns (f a) s') → returns (mtry m f) s.
Proof.
  intros Hm Hf. apply returns_bind; [done|]. intros [a|st msg] s' E; [by apply Hf|].
  by eexists _, _.
Qed.

Lemma always_returns {A} (m : M S A) s : always m → returns m s.
Proof. intros H. apply H. Qed.

Lemma always_bind {A B} (m : M S A) (f : A → M S B) :
  always m → (∀ a, always (f a)) → always (m ≫= f).
Proof. intros Hm Hf s. apply returns_bind; [apply Hm|]. intros a s' _. apply Hf. Qed.

Lemma always_ret {A} (a : A) : always (S := S) (mret a).
Proof. intros s. by exists a, s. Qed.

Lemma always_gets {A} (f : S → A) : always (gets f).
Proof. intros s. by exists (f s), s. Qed.

Lemma always_mfor {A} (f : A → M S unit) l : (∀ x, always (f x)) → always (mfor f l).
Proof.
  intros Hf. induction l as [|x l IH]; [apply always_ret|]. cbn [mfor]. by apply always_bind.
Qed.

Lemma returns_guarded `{!HasMutex S} {A} (m : M S A) s :
  owned s = false → returns m (set_owned true s) → returns (guarded m) s.
Proof. intros Ho (a & s' & E). eexists _, _. by apply guarded_returns. Qed.

Lemma guarded_always `{!HasMutex S} {A} (m : M S A) s :
  owned s = false → always m → returns (guarded m) s.
Proof. intros Ho Hm. apply returns_guarded; [done|apply Hm]. Qed.
End returning.

Create HintDb always.

(** Goes through a body whose parts always return. *)
Ltac always_tac :=
  lazymatch goal with
  | |- ∀ _, _ => intros; always_tac
  | |- always (mbind _ _) => apply always_bind; [always_tac|always_tac]
  | |- always (mtry _ _) => unfold mtry; always_tac
  | |- always (mret _) => apply always_ret
  | |- always (gets _) => apply always_gets
  | |- always (mfor _ _) => apply always_mfor; always_tac
  | |- always (if ?b then _ else _) => destruct b; always_tac
  | |- always (match ?x with _ => _ end) => destruct x; always_tac
  | |- always _ => auto with always
  end.

Section progress.
Context {L : Type} `{!LockService L}.
Context (order_txs : gset TransactionId → list TransactionId).
Context (order_nodes : gset NodeId → list NodeId).
Implicit Types s : TmSt L.

Lemma always_on_tm f : always (on_tm (L := L) f).
Proof. intros s. by eexists _, _. Qed.
Lemma always_now : always (tm_now (L := L)).
Proof. intros s. by eexists _, _. Qed.
#[local] Hint Resolve always_on_tm always_now : always.

Lemma always_touch tx_id : always (touch_tx (L := L) tx_id).
Proof. unfold touch_tx, update_tx. always_tac. Qed.
#[local] Hint Resolve always_touch : always.

Lemma always_operation type key : always (new_operation (L := L) type key).
Proof. unfold new_operation. always_tac. Qed.
Lemma always_record tx_id op : always (record_operation (L := L) tx_id op).
Proof. unfold record_operation, update_tx. always_tac. Qed.
Lemma always_validate tx_id : always (validate_transaction (L := L) tx_id).
Proof. unfold validate_transaction. always_tac. Qed.
#[local] Hint Resolve always_operation always_record always_validate : always.

Lemma always_rollback tx : always (rollback_transaction_operations (L := L) tx).
Proof. intros s. unfold returns. rewrite rollback_step. by eexists _, _. Qed.
Lemma always_apply tx : always (apply_transaction_operations (L := L) tx).
Proof. intros s. unfold returns. rewrite apply_step. by eexists _, _. Qed.
#[local] Hint Resolve always_rollback always_apply : always.

(** ** A lock manager whose operations return *)

Definition service_returns : Prop :=
  (∀ tx key ty timeout l, svc_ok l → (0 < svc_left l)%N →
     returns (svc_acquire tx key ty timeout) l) ∧
  (∀ tx l, svc_ok l → returns (svc_release_all tx) l).

Context (Hservice : service_returns).

(** The lock manager is there, and [n] requests can be made. *)
Definition ready (n : nat) s : Prop :=
  ∃ l, lock_manager_ s.2 = Some l ∧ svc_ok l ∧ (N.of_nat n ≤ svc_left l)%N.

Lemma take_lock_returns tx_id key ty s :
  ready 1 s → returns (take_lock tx_id key ty) s.
Proof.
  intros (l & El & Hok & Hl). unfold take_lock. apply returns_mtry.
  - unfold call_lock_manager, returns. rewrite El.
    destruct (proj1 Hservice tx_id key ty 5000%Z (svc_set_clock s.1 l)) as (r & l' & ->).
    + by apply svc_ok_clock.
    + rewrite svc_left_clock. lia.
    + by eexists _, _.
  - intros id s' _. apply always_returns. unfold update_tx. always_tac.
Qed.

Lemma ready_untouched n s s' : locks_step untouched s s' → ready n s → ready n s'.
Proof.
  unfold locks_step, locks_opt. intros H (l & El & Hok & Hl). rewrite El in H.
  destruct (lock_manager_ s'.2) as [l'|] eqn:El'; [|done]. destruct H as (Hok' & Hl' & _).
  exists l'. rewrite Hl'. auto.
Qed.

Lemma request_returns {A} tx_id key ty (rest : M (TmSt L) (Result A)) s :
  tm_mutex_ s.2 = false → ready 1 s → always rest →
  returns (guarded (_ ←? validate_transaction tx_id; _ ←? take_lock tx_id key ty; rest)) s.
Proof.
  intros Hm Hr Hrest. apply returns_guarded; [done|].
  apply returns_mtry; [apply always_validate|]. intros [] s1 E1.
  apply (respects_returns _ _ _ _ _ (locks_validate untouched tx_id)) in E1.
  apply returns_mtry; [apply take_lock_returns|intros [] s2 _; apply Hrest].
  apply (ready_untouched 1 _ _ E1). by destruct s.
Qed.

(** ** The calls *)

Lemma read_returns tx_id key s :
  tm_mutex_ s.2 = false → ready 1 s → returns (read tx_id key) s.
Proof.
  destruct s as [c m]. intros Hm Hr. destruct (transactions_ m !! tx_id) as [tx|] eqn:Htx.
  - unfold returns. rewrite (read_as_request tx_id key tx c m Htx).
    assert (always (read_rest (L := L) tx_id key)) as Hrest by (unfold read_rest; always_tac).
    case_bool_decide; [|by apply request_returns].
    apply guarded_always; [done|]. always_tac.
  - unfold read. apply returns_guarded; [done|]. unfold mtry at 1, returns.
    mstep (validate_unknown tx_id c (set_tm_mutex true m) Htx). by eexists _, _.
Qed.

Lemma prepare_returns tx_id s : tm_mutex_ s.2 = false → returns (prepare tx_id) s.
Proof.
  destruct s as [c m]. intros Hm. apply returns_guarded; [done|]. unfold mtry, returns.
  change (set_owned true (c, m)) with (c, set_tm_mutex true m).
  destruct (transactions_ m !! tx_id) as [tx|] eqn:Htx.
  - mstep (validate_known tx_id tx c (set_tm_mutex true m) Htx).
    destruct (tx_is_expired _ tx); [by eexists _, _|].
    mstep (deref_step tx_id tx (tick c).2 (set_tm_mutex true m) Htx).
    apply always_returns. unfold update_tx. always_tac.
  - mstep (validate_unknown tx_id c (set_tm_mutex true m) Htx). by eexists _, _.
Qed.

Lemma tpc_returns message s :
  tm_mutex_ s.2 = false → returns (handle_tpc_message (L := L) message) s.
Proof.
  intros Hm. apply guarded_always; [done|].
  unfold handle_prepare_message, handle_prepare_response, handle_commit_message,
    handle_abort_message, when_known, update_tx. always_tac.
Qed.

Lemma released_returns tx_id c o out :
  match o with Some l => svc_ok l | None => True end → released tx_id c o out →
  ∃ cl, out = Returns tt cl.
Proof.
  intros Hok H. inversion H as [|? ? ? E|l n l' E|l u' E]; subst; [by eexists..| |];
    (destruct (proj2 Hservice tx_id (svc_set_clock c l)) as (r & t & E');
      [by apply svc_ok_clock|]); congruence.
Qed.

Lemma ready_ok n s : ready n s → match lock_manager_ s.2 with Some l => svc_ok l | None => True end.
Proof. by intros (l & -> & Hok & _). Qed.

Lemma commit_returns tx_id s :
  enumerates order_nodes → tm_mutex_ s.2 = false → ready 0 s →
  returns (commit_transaction order_nodes tx_id) s.
Proof.
  destruct s as [c m]. intros Horder Hm Hr. unfold returns.
  pose proof (commit_transaction_outcomes order_nodes tx_id c m Horder Hm) as O.
  destruct (commit_transaction _ _ _) as [r s'|n s'|u]; [by exists r, s'|..];
    inversion O as [| | | | |? ? ? ? ? ? ? ? ? ? ? Hrel|? ? ? ? ? ? ? ? Hrel]; subst;
    destruct (released_returns _ _ _ _ (ready_ok _ _ Hr) Hrel) as (? & ?); congruence.
Qed.

Lemma abort_returns tx_id s :
  tm_mutex_ s.2 = false → ready 0 s → returns (abort_transaction order_nodes tx_id) s.
Proof.
  destruct s as [c m]. intros Hm Hr. unfold returns.
  pose proof (abort_transaction_outcomes order_nodes tx_id c m Hm) as O.
  destruct (abort_transaction _ _ _) as [r s'|n s'|u]; [by exists r, s'|..];
    inversion O as [| | |? ? ? ? ? ? ? ? ? Hrel|? ? ? ? ? ? Hrel]; subst;
    destruct (released_returns _ _ _ _ (ready_ok _ _ Hr) Hrel) as (? & ?); congruence.
Qed.

(** Those left out wait for a thread, clean up or resolve deadlocks. *)
Definition prompt (call : tm_call) : bool :=
  match call with
  | CallStop | CallCleanup | ThreadCleanupTurn | ThreadDetectionTurn => false
  | _ => true
  end.

Lemma run_returns call s :
  enumerates order_nodes → prompt call = true → tm_mutex_ s.2 = false → ready 1 s →
  returns (tm_run order_txs order_nodes call) s.
Proof.
  intros Horder Hp Hm Hr. assert (ready 0 s) as Hr0
    by (destruct Hr as (l & ? & ? & ?); exists l; split_and!; [done..|lia]).
  destruct call; try discriminate Hp; cbn [tm_run]; unfold ignore;
    try (apply returns_bind; [|by eexists _, _]).
  - apply guarded_always; [done|]. always_tac.
  - destruct s as [c m]. unfold returns. rewrite begin_step by done. case_match; by eexists _, _.
  - by apply commit_returns.
  - by apply abort_returns.
  - by apply read_returns.
  - apply request_returns; [done..|]. always_tac.
  - apply request_returns; [done..|]. always_tac.
  - apply request_returns; [done..|]. always_tac.
  - by apply prepare_returns.
  - by apply tpc_returns.
  - apply guarded_always; [done|]. always_tac.
  - apply guarded_always; [done|]. always_tac.
  - apply guarded_always; [done|]. always_tac.
  - apply guarded_always; [done|]. always_tac.
  - apply guarded_always; [done|]. always_tac.
  - apply guarded_always; [done|]. always_tac.
  - apply always_on_tm.
  - apply always_on_tm.
Qed.

Lemma run_unlocks call s s' :
  prompt call = true → tm_mutex_ s.2 = false →
  tm_run order_txs order_nodes call s = Returns tt s' → tm_mutex_ s'.2 = false.
Proof.
  destruct call; try discriminate; intros _ Hm H; cbn [tm_run] in H; unfold ignore in H;
    try (apply M_bind_returns in H as (r & t & H & [= <-]));
    try (by apply guarded_returns_inv in H as (_ & ? & _));
    injection H as <-; cbn; repeat case_match; exact Hm.
Qed.

Lemma ready_run n call s s' :
  enumerates order_nodes → undisturbed call = true → ready (S n) s →
  tm_run order_txs order_nodes call s = Returns tt s' → ready n s'.
Proof.
  intros Horder Hu (l & El & Hok & Hl) H.
  set (a := match call with CallCommit k | CallAbort k => (k + 1)%N | _ => 0%N end).
  assert (spares a call = true) as Hs
    by (destruct call; try done; apply negb_true_iff, bool_decide_eq_false; subst a; lia).
  destruct s as [c m].
  assert (locks_step (keeping a) (c, m) s') as H'
    by (eapply run_keeping; [done|by apply spares_safe|left; eauto]).
  clear H. rename H' into H.
  unfold locks_step, locks_opt in H. rewrite El in H.
  destruct (lock_manager_ s'.2) as [l'|] eqn:El'; [|done].
  destruct H as (Hok' & Hl' & _); [done|lia|]. exists l'. split_and!; [done..|lia].
Qed.

Lemma trace_returns call s :
  enumerates order_nodes → prompt call = true → tm_mutex_ s.2 = false → ready 1 s →
  returns (tm_trace order_txs order_nodes call) s.
Proof.
  intros Horder Hp Hm Hr. destruct (run_returns call s Horder Hp Hm Hr) as ([] & s' & E).
  unfold returns. destruct call; cbn [tm_trace]; unfold traced; cbn [tm_run] in E;
    unfold ignore in E; try (mstep E; by eexists _, _);
    apply M_bind_returns in E as (r & t & E & _); mstep E; by eexists _, _.
Qed.

Lemma traces_return calls s :
  enumerates order_nodes → forallb prompt calls = true → tm_mutex_ s.2 = false →
  ready (length calls) s →
  ∃ h s', tm_traces order_txs order_nodes calls s = Returns h s' ∧
    tm_mutex_ s'.2 = false ∧ ready 0 s'.
Proof.
  intros Horder. revert s. induction calls as [|call calls IH]; intros s Hp Hm Hr.
  { exists [], s. auto. }
  cbn in Hp. apply andb_true_iff in Hp as [Hp1 Hp2]. cbn [length] in Hr.
  assert (ready 1 s) as Hr1
    by (destruct Hr as (l & ? & ? & ?); exists l; split_and!; [done..|lia]).
  destruct (trace_returns call s Horder Hp1 Hm Hr1) as (h1 & s1 & E1).
  pose proof (tm_trace_run _ _ _ _ _ _ E1) as Hrun.
  destruct (IH s1) as (h2 & s2 & E2 & Hm2 & Hr2); [done|by eapply run_unlocks| |].
  { eapply ready_run; [done| |done..]. by destruct call. }
  exists (h1 ++ h2), s2. split; [|done]. cbn [tm_traces]. mstep E1. mstep E2. done.
Qed.

(** A transaction that nothing speaks against. *)
Definition committable (tx_id : TransactionId) s : Prop :=
  ∃ tx, transactions_ s.2 !! tx_id = Some tx ∧ tx_state tx = TransactionState.ACTIVE ∧
    tx_is_expired (tick s.1).1 tx = false ∧ ∀ node, prepare_votes tx !! node ≠ Some false.

Lemma committable_commits tx_id s :
  enumerates order_nodes → tm_mutex_ s.2 = false → ready 0 s → committable tx_id s →
  ∃ s', commit_transaction order_nodes tx_id s = Returns (ROk tt) s' ∧
    transactions_ s'.2 !! tx_id = None.
Proof.
  intros Horder Hm Hr (tx & Htx & Hst & Hx & Hv).
  destruct (commit_returns tx_id s Horder Hm Hr) as (r & s' & E).
  destruct s as [c m]. cbn [fst snd] in *.
  pose proof (commit_refused order_nodes tx_id c m r s' Horder E) as Hgone.
  pose proof (commit_transaction_outcomes order_nodes tx_id c m Horder Hm) as O. rewrite E in O.
  inversion O; subst; try (exfalso; naive_solver congruence). by eexists.
Qed.
End progress.

(** ** A concrete run *)

Lemma lock_table_returns : service_returns (LockService0 := LockTable.service).
Proof.
  split.
  - intros tx key ty timeout l _ _. cbn. unfold LockTable.acquire, returns.
    destruct (forallb _ _); by eexists _, _.
  - intros tx l _. by eexists _, _.
Qed.

Definition early_calls : list tm_call := take 3 table_calls.

(** C26. Over a lock manager whose acquire and release return, and which has
    enough lock identifiers left, every sequence of calls of clients, peers and
    the loop checks of the threads (all but stop, clean-up and deadlock
    resolution) returns and leaves the mutex free; afterwards every transaction
    that is active, not expired and not voted against commits with success and
    is gone. *)
Theorem client_calls_return {L} `{!LockService L} order_txs order_nodes
    (calls : list tm_call) (s : TmSt L) l :
  enumerates order_nodes → service_returns → forallb prompt calls = true →
  tm_mutex_ s.2 = false → lock_manager_ s.2 = Some l → svc_ok l →
  (N.of_nat (length calls) ≤ svc_left l)%N →
  ∃ h s', tm_traces order_txs order_nodes calls s = Returns h s' ∧ tm_mutex_ s'.2 = false ∧
    ∀ tx_id, committable tx_id s' →
      ∃ s'', commit_transaction order_nodes tx_id s' = Returns (ROk tt) s'' ∧
        transactions_ s''.2 !! tx_id = None.
Proof.
  intros Horder Hs Hp Hm El Hok Hl.
  destruct (traces_return order_txs order_nodes Hs calls s Horder Hp Hm)
    as (h & s' & E & Hm' & Hr'); [by exists l|].
  exists h, s'. split_and!; [done..|]. intros tx_id.
  by apply (committable_commits order_nodes Hs tx_id s' Horder).
Qed.

Lemma client_calls_return_witness :
  let H := LockTable.service in
  ∃ h s', tm_traces elements elements early_calls table_begun = Returns h s' ∧
    h = [Access 1 example_key true; Access 2 (MkKey "other" "") false] ∧
    ∃ s'', commit_transaction elements 1 s' = Returns (ROk tt) s'' ∧
      transactions_ s''.2 !! 1%N = None.
Proof.
  intros H.
  destruct (client_calls_return elements elements early_calls table_begun (lock_clock, [])
    elements_enumerates lock_table_returns) as (h & s' & E & _ & Hc).
  - vm_compute. reflexivity.
  - vm_compute. reflexivity.
  - vm_compute. reflexivity.
  - by intros a b k x y Ha%elem_of_nil.
  - vm_compute. discriminate.
  - exists h, s'. split; [exact E|].
    assert (E' := E). vm_compute in E'. injection E' as <- <-. split; [reflexivity|].
    apply Hc. eexists. split_and!; [vm_compute; reflexivity..|]. intros node. vm_compute. discriminate.
Defined.
