(* ===== verification/TransactionContext.v ===== *)
(** * TransactionContext: [TransactionContext] of
    [src/transaction/transaction_manager.cpp]

    The handle a client keeps of its transaction, over any manager with the
    interface [TransactionService].  The state is the manager's, which other
    handles share, together with the fields of the handle. *)

From Stdlib Require Import Ascii String ZArith NArith Lia.
From stdpp Require Import base numbers list strings gmap pretty.
From S2P Require Import Prelude OrdMap Types Files Locks LockManager Transactions.
From S2P Require Import TransactionManager TransactionOutcomes.

Record TransactionContext := MkContext {
  transaction_id_ : TransactionId;
  is_committed_ : bool;
  is_aborted_ : bool
}.

Definition TransactionContext_new (tx_id : TransactionId) : TransactionContext :=
  MkContext tx_id false false.

Section context.
Context {T : Type} `{!TransactionService T}.
Abbreviation CtxSt := (T * TransactionContext)%type.

Definition on_manager {A} (m : M T A) : M CtxSt A := zoom fst (λ t s, (t, s.2)) m.

Definition finished (x : TransactionContext) : bool := is_committed_ x || is_aborted_ x.

(** [if (is_committed_ || is_aborted_) return error; ...] *)
Definition unless_finished {A} (m : TransactionId → M CtxSt (Result A)) : M CtxSt (Result A) :=
  x ← gets snd;
  if finished x
  then mret (RErr Status.INVALID_STATE "Transaction is already finished")
  else m (transaction_id_ x).

Definition ctx_read (key : MultiLevelKey) : M CtxSt (Result DataEntry) :=
  unless_finished (λ tx_id, on_manager (svc_read tx_id key)).
Definition ctx_write (key : MultiLevelKey) (value : DataEntry) : M CtxSt (Result unit) :=
  unless_finished (λ tx_id, on_manager (svc_write tx_id key value)).
Definition ctx_remove (key : MultiLevelKey) : M CtxSt (Result unit) :=
  unless_finished (λ tx_id, on_manager (svc_remove tx_id key)).
Definition ctx_lock (key : MultiLevelKey) (type : LockType.t) : M CtxSt (Result unit) :=
  unless_finished (λ tx_id, on_manager (svc_lock tx_id key type)).

Definition ctx_commit : M CtxSt (Result unit) := unless_finished (λ tx_id,
  result ← on_manager (svc_commit tx_id);
  if is_ok result then
    _ ← modify (λ s : CtxSt, (s.1, MkContext (transaction_id_ s.2) true (is_aborted_ s.2)));
    mret result
  else mret result).
Definition ctx_abort : M CtxSt (Result unit) := unless_finished (λ tx_id,
  result ← on_manager (svc_abort tx_id);
  if is_ok result then
    _ ← modify (λ s : CtxSt, (s.1, MkContext (transaction_id_ s.2) (is_committed_ s.2) true));
    mret result
  else mret result).

Definition ctx_get_state : M CtxSt TransactionState.t :=
  x ← gets snd; on_manager (svc_state (transaction_id_ x)).

(** [~TransactionContext]. *)
Definition ctx_destroy : M CtxSt unit := noexcept (
  x ← gets snd;
  if negb (is_committed_ x) && negb (is_aborted_ x) then _ ← ctx_abort; mret tt else mret tt).

(** What a client can do with a handle. *)
Inductive ctx_op :=
  | OpRead (key : MultiLevelKey)
  | OpWrite (key : MultiLevelKey) (value : DataEntry)
  | OpRemove (key : MultiLevelKey)
  | OpLock (key : MultiLevelKey) (type : LockType.t)
  | OpCommit
  | OpAbort.

Definition ends (op : ctx_op) : bool :=
  match op with OpCommit | OpAbort => true | _ => false end.

Definition rvoid {A} (r : Result A) : Result unit :=
  match r with ROk _ => ROk tt | RErr st msg => RErr st msg end.

Definition ctx_run (op : ctx_op) : M CtxSt (Result unit) :=
  match op with
  | OpRead key => r ← ctx_read key; mret (rvoid r)
  | OpWrite key value => ctx_write key value
  | OpRemove key => ctx_remove key
  | OpLock key type => ctx_lock key type
  | OpCommit => ctx_commit
  | OpAbort => ctx_abort
  end.

Lemma unless_finished_done {A} (m : TransactionId → M CtxSt (Result A)) t x :
  finished x = true →
  unless_finished m (t, x) =
    Returns (RErr Status.INVALID_STATE "Transaction is already finished") (t, x).
Proof. intros H. unfold unless_finished. msimpl. by rewrite H. Qed.

Lemma on_manager_frame {A} (m : M T A) t x a s' :
  on_manager m (t, x) = Returns a s' → s'.2 = x.
Proof. unfold on_manager, zoom. cbn. destruct (m t); [|done..]. by intros [= _ <-]. Qed.

(** Only a successful commit or abort finishes a handle. *)
Lemma ctx_run_flags op t x r t' x' :
  ctx_run op (t, x) = Returns r (t', x') → finished x = false →
  x' = match op with
       | OpCommit => MkContext (transaction_id_ x) (is_ok r) false
       | OpAbort => MkContext (transaction_id_ x) false (is_ok r)
       | _ => x
       end.
Proof.
  destruct x as [k [] []]; try done. intros H _.
  destruct op; cbn [ctx_run] in H;
    [apply M_bind_returns in H as (r0 & [t0 x0] & H & [= _ _ <-])|..];
    unfold ctx_read, ctx_write, ctx_remove, ctx_lock, ctx_commit, ctx_abort, unless_finished in H;
    rewrite M_bind_gets in H; cbn [snd finished is_committed_ is_aborted_ orb] in H;
    try (by apply on_manager_frame in H);
    apply M_bind_returns in H as (r1 & [t2 x2] & H1 & H2);
    apply on_manager_frame in H1; cbn in H1; subst x2;
    by destruct r1; injection H2 as <- _ <-.
Qed.

Lemma ctx_run_finished op t x :
  finished x = true →
  ctx_run op (t, x) =
    Returns (RErr Status.INVALID_STATE "Transaction is already finished") (t, x).
Proof.
  intros Hx. destruct op; cbn [ctx_run];
    unfold ctx_read, ctx_write, ctx_remove, ctx_lock, ctx_commit, ctx_abort;
    rewrite ?unless_finished_done by done; [|done..].
  by mstep (unless_finished_done (A := DataEntry)
    (λ tx_id, on_manager (svc_read tx_id key)) t x Hx).
Qed.

Lemma ctx_destroy_finished t x : finished x = true → ctx_destroy (t, x) = Returns tt (t, x).
Proof.
  intros Hx. unfold ctx_destroy, noexcept. msimpl. unfold finished in Hx.
  by destruct (is_committed_ x), (is_aborted_ x).
Qed.
End context.

(** C30. A handle is finished exactly by a commit or abort that succeeded, by
    one of the two only; from then on every operation answers INVALID_STATE,
    destroying it does nothing, and the manager is not touched. *)
Theorem finished_context_is_inert {T} `{!TransactionService T} op t x r (t1 : T) x1 :
  finished x = false → ctx_run op (t, x) = Returns r (t1, x1) →
  finished x1 = is_ok r && ends op ∧
  (finished x1 = true →
   negb (is_committed_ x1 && is_aborted_ x1) = true ∧
   ∀ t2, ctx_destroy (t2, x1) = Returns tt (t2, x1) ∧
   ∀ op2, ctx_run op2 (t2, x1) =
     Returns (RErr Status.INVALID_STATE "Transaction is already finished") (t2, x1)).
Proof.
  intros Hx H. pose proof (ctx_run_flags _ _ _ _ _ _ H Hx) as Hx1. split.
  - destruct op; subst x1; cbn [ends]; rewrite ?andb_true_r, ?andb_false_r; try done.
    unfold finished. cbn. by rewrite orb_false_r.
  - intros Hf. split.
    + destruct op; subst x1; cbn in *; try congruence; try by rewrite andb_false_r.
      all: unfold finished in Hx; by destruct (is_committed_ x), (is_aborted_ x).
    + intros t2. split; [by apply ctx_destroy_finished|]. intros op2. by apply ctx_run_finished.
Qed.

Lemma get_state_unknown {L} tx_id c (m : TransactionManager L) :
  tm_mutex_ m = false → transactions_ m !! tx_id = None →
  get_transaction_state tx_id (c, m) = Returns TransactionState.ABORTED (c, m).
Proof.
  intros Hm Hn. unfold get_transaction_state. rewrite guarded_tm by done.
  unfold gets. cbn. rewrite Hn. by rewrite unlock_lock.
Qed.

(** After a handle's commit succeeded, get_state on it answers ABORTED, since
    the manager forgets committed transactions and takes unknown ones for
    aborted. *)
Theorem committed_context_reports_aborted {L} `{!LockService L} order_nodes
    (s s1 : TmSt L) x x1 :
  let H := default_transaction_service order_nodes in
  enumerates order_nodes →
  ctx_commit (s, x) = Returns (ROk tt) (s1, x1) →
  is_committed_ x1 = true ∧
  ctx_get_state (s1, x1) = Returns TransactionState.ABORTED (s1, x1).
Proof.
  intros H Horder Hc. unfold ctx_commit, unless_finished in Hc. rewrite M_bind_gets in Hc.
  cbn [snd] in Hc. destruct (finished x); [done|].
  apply M_bind_returns in Hc as (r & [s2 x2] & Hc & Hr).
  destruct r as [[]|st msg]; [|by injection Hr]. injection Hr as <- <-. split; [done|].
  pose proof Hc as Hx2. apply on_manager_frame in Hx2. cbn in Hx2. subst x2.
  unfold on_manager, zoom in Hc. cbn [fst svc_commit] in Hc.
  destruct s as [c m].
  change (svc_commit (transaction_id_ x)) with (commit_transaction order_nodes (transaction_id_ x))
    in Hc.
  destruct (commit_transaction order_nodes (transaction_id_ x) (c, m)) as [r s3| |] eqn:E; [|done..].
  injection Hc as -> ->. pose proof E as (Hm & Hm2 & _)%guarded_returns_inv. cbn in Hm.
  pose proof (commit_transaction_outcomes order_nodes (transaction_id_ x) c m Horder Hm) as O.
  rewrite E in O. inversion O; subst.
  unfold ctx_get_state. rewrite M_bind_gets. unfold on_manager, zoom. cbn [fst snd transaction_id_].
  change (svc_state (transaction_id_ x)) with
    (get_transaction_state (L := L) (transaction_id_ x)).
  rewrite get_state_unknown; [done|exact Hm2|].
  unfold told. cbn. destruct (event_handler_ m); cbn; by rewrite lookup_delete_eq.
Qed.

(** Handles of the two transactions of the example. *)
Lemma finished_context_is_inert_witness :
  let H := default_transaction_service (LockService0 := single_lock_service) elements in
  let s := state_after (commit_transaction (LockService0 := single_lock_service) elements 1) two_begun in
  let x := MkContext 1 true false in
  finished x = true ∧
  (finished x = true →
   negb (is_committed_ x && is_aborted_ x) = true ∧
   ∀ t2, ctx_destroy (t2, x) = Returns tt (t2, x) ∧
   ∀ op2, ctx_run op2 (t2, x) =
     Returns (RErr Status.INVALID_STATE "Transaction is already finished") (t2, x)).
Proof.
  intros H s x.
  apply (finished_context_is_inert OpCommit two_begun (TransactionContext_new 1) (ROk tt) s x).
  - reflexivity.
  - vm_compute. reflexivity.
Defined.

Lemma committed_context_reports_aborted_witness :
  let H := default_transaction_service (LockService0 := single_lock_service) elements in
  let s := state_after (commit_transaction (LockService0 := single_lock_service) elements 1) two_begun in
  let x := MkContext 1 true false in
  is_committed_ x = true ∧ ctx_get_state (s, x) = Returns TransactionState.ABORTED (s, x).
Proof.
  intros H s x.
  apply (committed_context_reports_aborted (LockService0 := single_lock_service) elements two_begun s
    (TransactionContext_new 1) x).
  - apply elements_enumerates.
  - vm_compute. reflexivity.
Defined.
