(* ===== verification/Search.v ===== *)
(** * Search: breadth-first search for the components of a graph

    [cluster/split_brain_detector.cpp] has this loop twice: over the nodes of a
    detector, whose connections depend on the clock, and over the indices of a
    connectivity matrix.  Here it is once, over any candidates and any test. *)

From Stdlib Require Import ZArith NArith Lia.
From stdpp Require Import base numbers list gmap fin_sets relations.
From S2P Require Import Prelude.

Lemma elem_of_concat {A} (x : A) ls : x ∈ concat ls ↔ ∃ l, x ∈ l ∧ l ∈ ls.
Proof.
  induction ls as [|l ls IH]; cbn.
  - split; [set_solver +|]. intros (l & _ & Hl). set_solver + Hl.
  - rewrite elem_of_app, IH. split.
    + intros [Hx|(l' & Hx & Hl')]; [exists l|exists l']; split; [done|by left|done|by right].
    + intros (l' & Hx & [->|Hl']%elem_of_cons); [by left|right; eauto].
Qed.

Section search.
Context {S A : Type} `{Countable A}.
(** The test, the candidates in the order the loops visit them, and which of
    them take part at all. *)
Context (connected : A → A → M S bool) (ids : list A) (eligible : A → bool).

(** The loop that queues the neighbours of [current]. *)
Fixpoint scan (current : A) (others : list A) (queue : list A) (visited : gset A) :
    M S (list A * gset A) :=
  match others with
  | [] => mret (queue, visited)
  | other :: others =>
      if negb (bool_decide (other ∈ visited)) && eligible other then
        found ← connected current other;
        if found : bool
        then scan current others (queue ++ [other]) ({[other]} ∪ visited)
        else scan current others queue visited
      else scan current others queue visited
  end.

(** [while (!queue.empty())]. *)
Fixpoint bfs (turns : nat) (queue : list A) (visited : gset A) (component : list A) :
    M S (list A * gset A) :=
  match queue with
  | [] => mret (component, visited)
  | current :: queue =>
      match turns with
      | 0 => undefined OutOfFuel
      | Datatypes.S turns =>
          '(queue, visited) ← scan current ids queue visited;
          bfs turns queue visited (component ++ [current])
      end
  end.

(** The loop over the candidates a component can start from. *)
Fixpoint components (starts : list A) (visited : gset A) (found : list (list A)) :
    M S (list (list A)) :=
  match starts with
  | [] => mret found
  | start :: starts =>
      if negb (bool_decide (start ∈ visited)) && eligible start then
        '(component, visited) ← bfs (length ids) [start] ({[start]} ∪ visited) [];
        components starts visited (found ++ [component])
      else components starts visited found
  end.

(** What the test keeps, the search keeps. *)
Lemma respects_components (R : relation S) `{!PreOrder R} starts visited found :
  (∀ a b, respects R (connected a b)) → respects R (components starts visited found).
Proof.
  intros Hc. assert (∀ current others queue visited, respects R (scan current others queue visited)).
  { intros current others. induction others; intros; cbn [scan]; respects_tac. }
  assert (∀ turns queue visited component, respects R (bfs turns queue visited component)).
  { induction turns; intros [|? ?] ? ?; cbn [bfs]; respects_tac. }
  revert visited found. induction starts; intros; cbn [components]; respects_tac.
Qed.

(** ** Every candidate is in one component *)

Definition candidates : list A := filter (λ x, eligible x = true) ids.

(** How far a search has come: [old] was visited before it began. *)
Record searched (old : gset A) (seen queue : list A) (visited : gset A) : Prop := {
  sr_visited : ∀ x, x ∈ visited ↔ x ∈ old ∨ x ∈ seen ∨ x ∈ queue;
  sr_nodup : NoDup (seen ++ queue);
  sr_fresh : ∀ x, x ∈ seen ++ queue → x ∉ old ∧ x ∈ candidates
}.

Lemma searched_push old seen queue visited x :
  searched old seen queue visited → x ∉ visited → x ∈ candidates →
  searched old seen (queue ++ [x]) ({[x]} ∪ visited).
Proof.
  intros [Hv Hn Hf] Hx Hc. assert (x ∉ seen ++ queue ∧ x ∉ old) as [Hx1 Hx2].
  { rewrite elem_of_app. rewrite Hv in Hx. tauto. }
  split.
  - intros y. rewrite elem_of_union, elem_of_singleton, Hv, elem_of_app, list_elem_of_singleton.
    tauto.
  - rewrite (assoc_L (++)). apply NoDup_app. split; [done|]. split; [|apply NoDup_singleton].
    intros y Hy ->%list_elem_of_singleton. done.
  - intros y. rewrite (assoc_L (++)). intros [Hy| ->%list_elem_of_singleton]%elem_of_app; auto.
Qed.

Lemma searched_pop old seen current queue visited :
  searched old seen (current :: queue) visited → searched old (seen ++ [current]) queue visited.
Proof.
  intros [Hv Hn Hf]. split.
  - intros y. rewrite Hv, elem_of_cons, elem_of_app, list_elem_of_singleton. tauto.
  - by rewrite <- (assoc_L (++)).
  - intros y Hy. apply Hf. by rewrite <- (assoc_L (++)) in Hy.
Qed.

(** ** What the answers of the test tell

    [ans a b c]: the test may answer [c] for [a] and [b], in the states the
    search meets, those with [inv]. *)
Context (inv : S → Prop) (ans : A → A → bool → Prop).
Context (Hans : ∀ a b s, inv s → a ∈ ids → b ∈ ids →
  ∃ c s', connected a b s = Returns c s' ∧ inv s' ∧ ans a b c).

Lemma scan_ok old seen current others queue visited s :
  inv s → current ∈ ids → others ⊆ ids → searched old seen queue visited →
  ∃ more visited' s', scan current others queue visited s = Returns (queue ++ more, visited') s' ∧
    inv s' ∧ searched old seen (queue ++ more) visited' ∧ visited ⊆ visited' ∧
    (∀ y, y ∈ more → ans current y true) ∧
    (∀ y, y ∈ others → eligible y = true → y ∈ visited' ∨ ans current y false).
Proof.
  intros Hi Hcur. revert queue visited s Hi.
  induction others as [|y others IH]; intros queue visited s Hi Hsub Hs; cbn [scan].
  { exists [], visited, s. rewrite app_nil_r. split_and!; [done..|set_solver +|set_solver +]. }
  assert (y ∈ ids ∧ others ⊆ ids) as [Hy Hothers] by set_solver +Hsub.
  destruct (negb _ && _) eqn:Ey.
  - apply andb_true_iff in Ey as [Hn%negb_true_iff%bool_decide_eq_false He].
    destruct (Hans current y s Hi Hcur Hy) as (c & s1 & E & Hi1 & Hc). mstep E. destruct c.
    + assert (y ∈ candidates) as Hcand by (by apply list_elem_of_filter).
      destruct (IH (queue ++ [y]) ({[y]} ∪ visited) s1 Hi1 Hothers
        (searched_push _ _ _ _ _ Hs Hn Hcand)) as (more & v & s2 & E2 & Hi2 & Hs2 & Hv & Ht & Hf).
      exists (y :: more), v, s2. rewrite <- (assoc_L (++)) in E2, Hs2. cbn in E2, Hs2.
      split_and!; [done..|set_solver +Hv| |].
      * intros z [->|Hz]%elem_of_cons; auto.
      * intros z [->|Hz]%elem_of_cons Hez; [left; set_solver +Hv|auto].
    + destruct (IH queue visited s1 Hi1 Hothers Hs) as (more & v & s2 & E2 & Hi2 & Hs2 & Hv & Ht & Hf).
      exists more, v, s2. split_and!; [done..|].
      intros z [->|Hz]%elem_of_cons Hez; auto.
  - destruct (IH queue visited s Hi Hothers Hs) as (more & v & s2 & E2 & Hi2 & Hs2 & Hv & Ht & Hf).
    exists more, v, s2. split_and!; [done..|]. intros z [->|Hz]%elem_of_cons Hez; [|auto].
    left. apply Hv. rewrite Hez, andb_true_r in Ey.
    by apply negb_false_iff, bool_decide_eq_true in Ey.
Qed.

(** One may go from [a] to [b] by positive answers among the candidates. *)
Definition steps : relation A := λ a b, a ∈ candidates ∧ b ∈ candidates ∧ ans a b true.

Lemma length_seen seen queue :
  NoDup (seen ++ queue) → (∀ x, x ∈ seen ++ queue → x ∈ candidates) →
  length seen + length queue ≤ length ids.
Proof.
  intros Hn Hsub. rewrite <- length_app. trans (length candidates).
  - apply submseteq_length, NoDup_submseteq; done.
  - apply length_filter.
Qed.

Lemma bfs_ok old start turns queue visited seen s :
  inv s → searched old seen queue visited → length ids ≤ turns + length seen →
  (∀ x, x ∈ seen ++ queue → rtc steps start x) →
  (∀ x y, x ∈ seen → y ∈ candidates → y ∈ visited ∨ ans x y false) →
  ∃ component visited' s', bfs turns queue visited seen s = Returns (component, visited') s' ∧
    inv s' ∧ searched old component [] visited' ∧ seen ++ queue ⊆ component ∧
    (∀ x, x ∈ component → rtc steps start x) ∧
    (∀ x y, x ∈ component → y ∈ candidates → y ∈ visited' ∨ ans x y false).
Proof.
  revert queue visited seen s. induction turns as [|turns IH]; intros queue visited seen s Hi Hs Ht Hr Hc;
    (destruct queue as [|current queue];
     [exists seen, visited, s; cbn; split_and!; [done..|by rewrite app_nil_r|by rewrite app_nil_r in Hr|done]|]).
  { destruct Hs as [Hv Hn Hf]. pose proof (length_seen seen (current :: queue) Hn) as Hl.
    cbn in Hl, Ht. destruct Hl; [intros x Hx; by apply Hf|lia|lia]. }
  cbn [bfs]. assert (current ∈ candidates) as Hcur
    by (apply (sr_fresh _ _ _ _ Hs); rewrite elem_of_app; right; by left).
  assert (current ∈ ids) as Hin by (by apply list_elem_of_filter in Hcur as []).
  apply searched_pop in Hs.
  destruct (scan_ok old (seen ++ [current]) current ids queue visited s Hi Hin ltac:(done) Hs)
    as (more & v & s1 & E & Hi1 & Hs1 & Hsub & Htrue & Hfalse).
  mstep E. destruct (IH (queue ++ more) v (seen ++ [current]) s1 Hi1 Hs1)
    as (component & v2 & s2 & E2 & Hi2 & Hs2 & Hincl & Hr2 & Hc2).
  - rewrite length_app. cbn. lia.
  - intros x Hx. rewrite (assoc_L (++)), <- (assoc_L (++) seen) in Hx. cbn in Hx.
    apply elem_of_app in Hx as [Hx|Hx]; [by apply Hr|].
    trans current; [apply Hr; rewrite elem_of_app; right; by left|].
    apply rtc_once. split; [done|]. split; [|by apply Htrue].
    apply (sr_fresh _ _ _ _ Hs1). rewrite !elem_of_app. auto.
  - intros x y [Hx| ->%list_elem_of_singleton]%elem_of_app Hy.
    + destruct (Hc x y Hx Hy) as [Hv|]; [left; by apply Hsub|by right].
    + apply list_elem_of_filter in Hy as [He Hy]. by apply Hfalse.
  - exists component, v2, s2. split_and!; [done..| |done|done].
    intros x Hx. apply Hincl. rewrite !elem_of_app. rewrite elem_of_app, elem_of_cons in Hx.
    rewrite list_elem_of_singleton. tauto.
Qed.

(** ** The components found so far *)

Record separated (found : list (list A)) (visited : gset A) : Prop := {
  sep_visited : ∀ x, x ∈ visited ↔ x ∈ concat found;
  sep_nodup : NoDup (concat found);
  sep_candidates : ∀ x, x ∈ concat found → x ∈ candidates;
  sep_joined : ∀ c, c ∈ found → ∃ start, start ∈ c ∧ ∀ x, x ∈ c → rtc steps start x;
  sep_closed : ∀ x y, x ∈ concat found → y ∈ candidates → y ∈ visited ∨ ans x y false;
  sep_apart : ∀ i j c d x y, i < j → found !! i = Some c → found !! j = Some d →
    x ∈ c → y ∈ d → ans x y false
}.

Lemma separated_add found visited start component v :
  separated found visited → searched visited component [] v → start ∈ component →
  (∀ x, x ∈ component → rtc steps start x) →
  (∀ x y, x ∈ component → y ∈ candidates → y ∈ v ∨ ans x y false) →
  separated (found ++ [component]) v.
Proof.
  intros [Hv Hn Hcand Hj Hc Ha] [Hv' Hn' Hf] Hstart Hr Hcl. rewrite app_nil_r in Hn'.
  assert (concat (found ++ [component]) = concat found ++ component) as Ecat
    by (rewrite concat_app; cbn; by rewrite app_nil_r).
  split; rewrite ?Ecat.
  - intros x. rewrite Hv', Hv, elem_of_app. set_solver +.
  - apply NoDup_app. split; [done|]. split; [|done]. intros x Hx Hx'.
    destruct (Hf x) as [Hold _]; [by rewrite app_nil_r|]. by apply Hold, Hv.
  - intros x [Hx|Hx]%elem_of_app; [auto|]. apply Hf. by rewrite app_nil_r.
  - intros c [Hc'| ->%list_elem_of_singleton]%elem_of_app; [auto|]. by exists start.
  - intros x y [Hx|Hx]%elem_of_app Hy; [|by apply Hcl].
    destruct (Hc x y Hx Hy) as [Hy'|]; [left|by right]. apply Hv'. by left.
  - intros i j c d x y Hij Hi Hjd Hx Hy.
    assert (i < length found) as Hlen.
    { apply lookup_lt_Some in Hjd. rewrite length_app in Hjd. cbn in Hjd. lia. }
    rewrite lookup_app_l in Hi by done.
    destruct (decide (j < length found)) as [Hj'|Hj'].
    + rewrite lookup_app_l in Hjd by done. by apply (Ha i j c d).
    + rewrite lookup_app_r in Hjd by lia. apply list_lookup_singleton_Some in Hjd as [_ <-].
      assert (x ∈ concat found) as Hx2 by (apply elem_of_concat; exists c; eauto using list_elem_of_lookup_2).
      destruct (Hf y) as [Hold Hcy]; [by rewrite app_nil_r|].
      destruct (Hc x y Hx2 Hcy) as [Hy2|]; done.
Qed.

Lemma components_ok starts visited found s :
  inv s → starts ⊆ ids → separated found visited →
  ∃ found' visited' s', components starts visited found s = Returns found' s' ∧
    inv s' ∧ separated found' visited' ∧ visited ⊆ visited' ∧
    ∀ x, x ∈ starts → eligible x = true → x ∈ visited'.
Proof.
  revert visited found s. induction starts as [|start starts IH]; intros visited found s Hi Hsub Hs;
    cbn [components]; [exists found, visited, s; set_solver +Hs Hi|].
  assert (start ∈ ids ∧ starts ⊆ ids) as [Hin Hstarts] by set_solver +Hsub.
  destruct (negb _ && _) eqn:Ey.
  - apply andb_true_iff in Ey as [Hn%negb_true_iff%bool_decide_eq_false He].
    assert (start ∈ candidates) as Hcand by (by apply list_elem_of_filter).
    assert (searched visited [] [start] ({[start]} ∪ visited)) as Hs0.
    { apply (searched_push visited [] [] visited start); [|done..].
      split; [set_solver +|constructor|set_solver +]. }
    destruct (bfs_ok visited start (length ids) [start] _ [] s Hi Hs0)
      as (component & v & s1 & E & Hi1 & Hs1 & Hincl & Hr & Hc); [cbn; lia|set_solver +|set_solver +|].
    mstep E. assert (start ∈ component) as Hst by (apply Hincl; by left).
    destruct (IH v (found ++ [component]) s1 Hi1 Hstarts
      (separated_add found visited start component v Hs Hs1 Hst Hr Hc))
      as (found' & v' & s2 & E2 & Hi2 & Hs2 & Hsub2 & Hall).
    exists found', v', s2. split_and!; [done..| |].
    + etrans; [|exact Hsub2]. intros x Hx. apply (sr_visited _ _ _ _ Hs1). by left.
    + intros x [->|Hx]%elem_of_cons Hex; [|by apply Hall].
      apply Hsub2, (sr_visited _ _ _ _ Hs1). right. by left.
  - destruct (IH visited found s Hi Hstarts Hs) as (found' & v' & s2 & E2 & Hi2 & Hs2 & Hsub2 & Hall).
    exists found', v', s2. split_and!; [done..|].
    intros x [->|Hx]%elem_of_cons Hex; [|by apply Hall]. apply Hsub2.
    rewrite Hex, andb_true_r in Ey. by apply negb_false_iff, bool_decide_eq_true in Ey.
Qed.

(** The search ends with every candidate in exactly one component. *)
Lemma components_partition s :
  inv s → NoDup ids →
  ∃ found s', components ids ∅ [] s = Returns found s' ∧ inv s' ∧ concat found ≡ₚ candidates ∧
    (∀ c, c ∈ found → ∃ start, start ∈ c ∧ ∀ x, x ∈ c → rtc steps start x) ∧
    ∀ i j c d x y, i < j → found !! i = Some c → found !! j = Some d →
      x ∈ c → y ∈ d → ans x y false.
Proof.
  intros Hi Hnd. destruct (components_ok ids ∅ [] s Hi) as (found & v & s' & E & Hi' & [Hv Hn Hc Hj Hcl Ha] & _ & Hall);
    [done|split; cbn; [set_solver +|constructor|set_solver +|set_solver +|set_solver +|done]|].
  exists found, s'. split_and!; [done|done| |done|done].
  apply NoDup_Permutation; [done|by apply NoDup_filter|]. intros x. split; [apply Hc|].
  intros [Hx Hx2]%list_elem_of_filter. apply Hv. by apply Hall.
Qed.
End search.

(** A test that depends on its arguments alone, and is symmetric: two
    candidates are in one component exactly if positive answers lead from one
    to the other. *)
Definition together {A} (found : list (list A)) (x y : A) : Prop :=
  ∃ c, c ∈ found ∧ x ∈ c ∧ y ∈ c.

Section symmetric.
Context {S A : Type} `{Countable A}.
Context (connected : A → A → M S bool) (ids : list A) (eligible : A → bool).
Context (inv : S → Prop) (conn : A → A → bool).
Context (Hconn : ∀ a b s, inv s → a ∈ ids → b ∈ ids →
  ∃ s', connected a b s = Returns (conn a b) s' ∧ inv s').
Context (Hsym : ∀ a b, conn a b = conn b a).

Abbreviation linked := (steps ids eligible (λ a b c, c = conn a b)).

Lemma linked_sym a b : linked a b → linked b a.
Proof. unfold steps. intros (? & ? & E). split_and!; [done..|]. by rewrite Hsym. Qed.

Lemma rtc_linked_sym a b : rtc linked a b → rtc linked b a.
Proof.
  induction 1 as [|a c b Hl _ IH]; [done|]. eapply rtc_r; [exact IH|]. by apply linked_sym.
Qed.

Lemma components_classes s :
  inv s → NoDup ids →
  ∃ found s', components connected ids eligible ids ∅ [] s = Returns found s' ∧ inv s' ∧
    concat found ≡ₚ candidates ids eligible ∧
    ∀ x y, x ∈ candidates ids eligible → y ∈ candidates ids eligible →
      together found x y ↔ rtc linked x y.
Proof.
  intros Hi Hnd.
  destruct (components_partition connected ids eligible inv (λ a b c, c = conn a b)) with s
    as (found & s' & E & Hi' & Hp & Hj & Ha); [|done|done|].
  { intros a b s0 Hi0 Hina Hinb. destruct (Hconn a b s0 Hi0 Hina Hinb) as (s1 & E & ?). eauto. }
  exists found, s'. split_and!; [done..|]. intros x y Hx Hy. split.
  - intros (c & Hc & Hxc & Hyc). destruct (Hj c Hc) as (start & _ & Hreach).
    trans start; [|by apply Hreach].
    apply rtc_linked_sym. by apply Hreach.
  - intros Hr. assert (∃ c, c ∈ found ∧ x ∈ c) as (c & Hc & Hxc).
    { rewrite <- Hp, elem_of_concat in Hx. destruct Hx as (c & ? & ?). eauto. }
    exists c. split_and!; [done..|]. revert Hxc. clear Hx.
    induction Hr as [z|z w y (Hz & Hw & E2) Hr IH]; [done|]. intros Hzc. apply IH; [done|].
    rewrite <- Hp, elem_of_concat in Hw. destruct Hw as (d & Hwd & Hd).
    apply list_elem_of_lookup in Hc as [i Hci]. apply list_elem_of_lookup in Hd as [j Hjd].
    destruct (Nat.lt_trichotomy i j) as [Hij|[->|Hij]].
    + pose proof (Ha i j c d z w Hij Hci Hjd Hzc Hwd). congruence.
    + by simplify_eq.
    + pose proof (Ha j i d c w z Hij Hjd Hci Hwd Hzc) as E3. rewrite Hsym in E3. congruence.
Qed.
End symmetric.
