(* ===== verification/SplitBrain.v ===== *)
(** * SplitBrain: [cluster/split_brain_detector.cpp]

    The detector of network partitions: the status of the nodes, the
    components of the cluster as the heartbeats show them, quorum decisions,
    isolation and recovery, the two background threads, and the functions of
    [split_brain_utils].  The detection thread reads the node table without
    the mutex; a turn of it is one step here.  What happens while the recovery
    thread sleeps lies between its two steps. *)

From Stdlib Require Import Ascii String ZArith NArith Lia.
From stdpp Require Import base numbers list strings gmap pretty relations fin_sets.
From S2P Require Import Prelude OrdMap Types Files Search.

Abbreviation NodeId := string.

Module SplitBrainStatus.
Inductive t := HEALTHY | SUSPECTED | CONFIRMED | RECOVERING | ISOLATED.
#[global] Instance t_eq_dec : EqDecision t.
Proof. solve_decision. Defined.
End SplitBrainStatus.

Module QuorumStrategy.
Inductive t := MAJORITY | STATIC_QUORUM | DYNAMIC_QUORUM | WITNESS_BASED.
#[global] Instance t_eq_dec : EqDecision t.
Proof. solve_decision. Defined.
End QuorumStrategy.

Record NetworkPartition := MkPartition {
  partition_a : list NodeId;
  partition_b : list NodeId;
  detected_at : Z;
  duration : option Z;
  resolved : bool
}.

Record QuorumDecision := MkDecision {
  has_quorum : bool;
  active_nodes : list NodeId;
  isolated_nodes : list NodeId;
  strategy_used : QuorumStrategy.t;
  reason : string
}.

(** Durations in milliseconds. *)
Record SplitBrainConfig := MkSbConfig {
  heartbeat_timeout : Z;
  split_detection_timeout : Z;
  max_missed_heartbeats : N;
  quorum_strategy : QuorumStrategy.t;
  min_quorum_size : N;
  witness_nodes : list NodeId;
  auto_recovery_enabled : bool;
  recovery_timeout : Z;
  max_recovery_attempts : N
}.

Definition SplitBrainConfig_default : SplitBrainConfig :=
  MkSbConfig 1000 5000 3 QuorumStrategy.MAJORITY 2 [] true 30000 3.

Record NodeStatus := MkNodeStatus {
  ns_node_id : NodeId;
  is_alive : bool;
  last_seen : Z;
  last_heartbeat : Z;
  missed_heartbeats : N;
  is_isolated : bool;
  isolation_reason : string
}.

(** [NodeStatus(id)]; a time point starts at the epoch. *)
Definition NodeStatus_new (id : NodeId) : NodeStatus := MkNodeStatus id false 0 0 0 false "".

Inductive SbEvent :=
  | SplitBrainDetected (p : NetworkPartition)
  | SplitBrainResolved (p : NetworkPartition)
  | NodeIsolated (node : NodeId) (reason : string)
  | QuorumLost
  | QuorumRestored.

Record Detector := MkDetector {
  sb_config : SplitBrainConfig;
  sb_handler : option (list SbEvent);
  nodes_ : gmap NodeId NodeStatus;
  detected_partitions_ : list NetworkPartition;
  isolated_nodes_ : gset NodeId;
  status_ : SplitBrainStatus.t;
  sb_running : bool;
  detection_thread_ : option thread_at;
  recovery_thread_ : option thread_at;
  sb_stop : bool;
  sb_mutex : bool
}.

(** [DefaultSplitBrainDetector()]. *)
Definition Detector_new : Detector :=
  MkDetector SplitBrainConfig_default None ∅ [] ∅ SplitBrainStatus.HEALTHY false None None
    false false.

Abbreviation SbSt := (Clock * Detector)%type.

Definition sb_set_nodes (ns : gmap NodeId NodeStatus) (iso : gset NodeId) (d : Detector) :
    Detector :=
  MkDetector (sb_config d) (sb_handler d) ns (detected_partitions_ d) iso (status_ d)
    (sb_running d) (detection_thread_ d) (recovery_thread_ d) (sb_stop d) (sb_mutex d).
Definition sb_set_partitions (ps : list NetworkPartition) (d : Detector) : Detector :=
  MkDetector (sb_config d) (sb_handler d) (nodes_ d) ps (isolated_nodes_ d) (status_ d)
    (sb_running d) (detection_thread_ d) (recovery_thread_ d) (sb_stop d) (sb_mutex d).
Definition sb_set_status (st : SplitBrainStatus.t) (d : Detector) : Detector :=
  MkDetector (sb_config d) (sb_handler d) (nodes_ d) (detected_partitions_ d)
    (isolated_nodes_ d) st (sb_running d) (detection_thread_ d) (recovery_thread_ d)
    (sb_stop d) (sb_mutex d).
Definition sb_set_config (c : SplitBrainConfig) (d : Detector) : Detector :=
  MkDetector c (sb_handler d) (nodes_ d) (detected_partitions_ d) (isolated_nodes_ d)
    (status_ d) (sb_running d) (detection_thread_ d) (recovery_thread_ d) (sb_stop d)
    (sb_mutex d).
Definition sb_set_handler (h : option (list SbEvent)) (d : Detector) : Detector :=
  MkDetector (sb_config d) h (nodes_ d) (detected_partitions_ d) (isolated_nodes_ d)
    (status_ d) (sb_running d) (detection_thread_ d) (recovery_thread_ d) (sb_stop d)
    (sb_mutex d).
Definition sb_set_threads (running stopping : bool) (detection recovery : option thread_at)
    (d : Detector) : Detector :=
  MkDetector (sb_config d) (sb_handler d) (nodes_ d) (detected_partitions_ d)
    (isolated_nodes_ d) (status_ d) running detection recovery stopping (sb_mutex d).
Definition sb_set_mutex (b : bool) (d : Detector) : Detector :=
  MkDetector (sb_config d) (sb_handler d) (nodes_ d) (detected_partitions_ d)
    (isolated_nodes_ d) (status_ d) (sb_running d) (detection_thread_ d)
    (recovery_thread_ d) (sb_stop d) b.

#[export, refine] Instance Detector_mutex : HasMutex SbSt := {|
  which_mutex := DetectorMutex;
  owned := λ s, sb_mutex s.2;
  set_owned := λ b s, (s.1, sb_set_mutex b s.2)
|}.
Proof. all: by intros; destruct s as [? []]. Defined.

Definition on_sb (f : Detector → Detector) : M SbSt unit := modify (λ s, (s.1, f s.2)).
Definition sb_now : M SbSt Z := lift (λ s, let '(t, c) := tick s.1 in (t, (c, s.2))).

Section detector.
(** The order in which the node table iterates. *)
Context (order_nodes : gset NodeId → list NodeId).

(** ** Notifications *)

Definition sb_notify (e : SbEvent) : M SbSt unit :=
  on_sb (λ d, match sb_handler d with
              | Some events => sb_set_handler (Some (events ++ [e])) d
              | None => d
              end).
Definition notify_split_brain_detected (p : NetworkPartition) := sb_notify (SplitBrainDetected p).
Definition notify_split_brain_resolved (p : NetworkPartition) := sb_notify (SplitBrainResolved p).
Definition notify_node_isolated (node : NodeId) (why : string) :=
  sb_notify (NodeIsolated node why).
Definition notify_quorum_lost := sb_notify QuorumLost.
Definition notify_quorum_restored := sb_notify QuorumRestored.
Definition handle_partition_detected (p : NetworkPartition) := notify_split_brain_detected p.
Definition handle_partition_resolved (p : NetworkPartition) := notify_split_brain_resolved p.

(** ** Quorum *)

(** The nodes in iteration order, and those that are alive and not isolated. *)
Definition node_ids (d : Detector) : list NodeId := order_nodes (dom (nodes_ d)).
Definition counts_as_alive (d : Detector) (node : NodeId) : bool :=
  match nodes_ d !! node with
  | Some status => is_alive status && negb (is_isolated status)
  | None => false
  end.
Definition alive_ids (d : Detector) : list NodeId :=
  List.filter (counts_as_alive d) (node_ids d).
Definition count (l : list NodeId) : N := N.of_nat (length l).

Definition majority_quorum (d : Detector) : QuorumDecision :=
  let alive_nodes := alive_ids d in
  let dead_nodes := List.filter (λ n, negb (counts_as_alive d n)) (node_ids d) in
  let total_nodes := N.of_nat (size (nodes_ d)) in
  let required_quorum := (total_nodes / 2 + 1)%N in
  let has := (required_quorum <=? count alive_nodes)%N in
  MkDecision has alive_nodes dead_nodes QuorumStrategy.MAJORITY
    (if has
     then "Majority quorum achieved with " +:+ pretty (count alive_nodes) +:+ "/" +:+
          pretty total_nodes +:+ " nodes"
     else "Majority quorum lost: only " +:+ pretty (count alive_nodes) +:+ "/" +:+
          pretty total_nodes +:+ " nodes alive").

Definition static_quorum (d : Detector) : QuorumDecision :=
  let alive_nodes := alive_ids d in
  MkDecision (min_quorum_size (sb_config d) <=? count alive_nodes)%N alive_nodes []
    QuorumStrategy.STATIC_QUORUM
    ("Static quorum: " +:+ pretty (count alive_nodes) +:+ " >= " +:+
     pretty (min_quorum_size (sb_config d))).

Definition dynamic_quorum (d : Detector) : QuorumDecision :=
  let alive_nodes := alive_ids d in
  let dynamic_quorum_size :=
    N.max (min_quorum_size (sb_config d)) ((count alive_nodes + 1) / 2) in
  MkDecision (dynamic_quorum_size <=? count alive_nodes)%N alive_nodes []
    QuorumStrategy.DYNAMIC_QUORUM
    ("Dynamic quorum: " +:+ pretty (count alive_nodes) +:+ " >= " +:+
     pretty dynamic_quorum_size).

Definition witness_based_quorum (d : Detector) : QuorumDecision :=
  let alive_nodes := alive_ids d in
  let alive_witnesses :=
    List.filter (λ n, bool_decide (n ∈ witness_nodes (sb_config d))) alive_nodes in
  MkDecision (negb (bool_decide (alive_witnesses = [])) &&
              (min_quorum_size (sb_config d) <=? count alive_nodes)%N) alive_nodes []
    QuorumStrategy.WITNESS_BASED
    ("Witness-based quorum: " +:+ pretty (count alive_witnesses) +:+ " witnesses, " +:+
     pretty (count alive_nodes) +:+ " total nodes").

Definition calculate_quorum (d : Detector) : QuorumDecision :=
  match quorum_strategy (sb_config d) with
  | QuorumStrategy.MAJORITY => majority_quorum d
  | QuorumStrategy.STATIC_QUORUM => static_quorum d
  | QuorumStrategy.DYNAMIC_QUORUM => dynamic_quorum d
  | QuorumStrategy.WITNESS_BASED => witness_based_quorum d
  end.

(** ** Components *)

Definition is_recent (now : Z) (d : Detector) (status : NodeStatus) : bool :=
  (now - last_heartbeat status <? heartbeat_timeout (sb_config d) * 2 * ns_per_ms)%Z.

Definition are_nodes_connected (node1 node2 : NodeId) : M SbSt bool :=
  d ← gets snd;
  match nodes_ d !! node1, nodes_ d !! node2 with
  | Some status1, Some status2 =>
      now ← sb_now;
      mret (is_recent now d status1 && is_recent now d status2)
  | _, _ => mret false
  end.

Definition node_alive (d : Detector) (node : NodeId) : bool :=
  match nodes_ d !! node with Some status => is_alive status | None => false end.

Definition find_connected_components : M SbSt (list (list NodeId)) :=
  d ← gets snd;
  components are_nodes_connected (node_ids d) (node_alive d) (node_ids d) ∅ [].

(** The heartbeat check of one node. *)
Definition check_heartbeat (now : Z) (c : SplitBrainConfig) (status : NodeStatus) : NodeStatus :=
  if is_isolated status then status
  else if (heartbeat_timeout c * ns_per_ms <? now - last_heartbeat status)%Z then
    let missed := wrap32 (missed_heartbeats status + 1) in
    MkNodeStatus (ns_node_id status)
      (if (max_missed_heartbeats c <=? missed)%N then false else is_alive status)
      (last_seen status) (last_heartbeat status) missed (is_isolated status)
      (isolation_reason status)
  else status.

(** The pairs [i < j] of the two nested loops. *)
Fixpoint pairs {A} (l : list A) : list (A * A) :=
  match l with
  | [] => []
  | x :: l => map (pair x) l ++ pairs l
  end.

Definition record_partition (now : Z) (p : list NodeId * list NodeId) : M SbSt unit :=
  constructed ← sb_now;
  let partition := MkPartition p.1 p.2 now None false in
  _ ← on_sb (λ d, sb_set_partitions (detected_partitions_ d ++ [partition]) d);
  handle_partition_detected partition.

Definition detect_network_partitions : M SbSt unit :=
  now ← sb_now;
  _ ← on_sb (λ d, sb_set_nodes (check_heartbeat now (sb_config d) <$> nodes_ d)
                    (isolated_nodes_ d) d);
  found ← find_connected_components;
  if (1 <? N.of_nat (length found))%N then mfor (record_partition now) (pairs found)
  else mret tt.

Definition detect_split_brain (d : Detector) : bool :=
  negb (bool_decide (detected_partitions_ d = [])).

(** ** Nodes *)

Definition add_node (node_id : NodeId) : M SbSt unit := guarded (on_sb (λ d,
  sb_set_nodes (<[node_id := NodeStatus_new node_id]> (nodes_ d)) (isolated_nodes_ d) d)).
Definition remove_node (node_id : NodeId) : M SbSt unit := guarded (on_sb (λ d,
  sb_set_nodes (delete node_id (nodes_ d)) (isolated_nodes_ d ∖ {[node_id]}) d)).

Definition update_node_status (node_id : NodeId) (alive : bool) (seen : Z) : M SbSt unit :=
  guarded (on_sb (λ d,
    match nodes_ d !! node_id with
    | Some st =>
        sb_set_nodes (<[node_id := MkNodeStatus (ns_node_id st) alive seen (last_heartbeat st)
            (if alive then 0%N else missed_heartbeats st) (is_isolated st)
            (isolation_reason st)]> (nodes_ d)) (isolated_nodes_ d) d
    | None => d
    end)).

Definition process_heartbeat (from_node to_node : NodeId) (timestamp : Z) : M SbSt unit :=
  guarded (on_sb (λ d,
    match nodes_ d !! from_node with
    | Some st =>
        sb_set_nodes (<[from_node := MkNodeStatus (ns_node_id st) true (last_seen st) timestamp
            0 (is_isolated st) (isolation_reason st)]> (nodes_ d)) (isolated_nodes_ d) d
    | None => d
    end)).

Definition isolate_node (node_id : NodeId) (why : string) : M SbSt (Result unit) := guarded (
  found ← gets (λ s : SbSt, nodes_ s.2 !! node_id);
  match found with
  | Some st =>
      _ ← on_sb (λ d, sb_set_nodes
            (<[node_id := MkNodeStatus (ns_node_id st) (is_alive st) (last_seen st)
                 (last_heartbeat st) (missed_heartbeats st) true why]> (nodes_ d))
            ({[node_id]} ∪ isolated_nodes_ d) d);
      _ ← notify_node_isolated node_id why;
      mret (ROk tt)
  | None => mret (ROk tt)
  end).

Definition restore_node (node_id : NodeId) : M SbSt (Result unit) := guarded (
  _ ← on_sb (λ d,
    match nodes_ d !! node_id with
    | Some st =>
        sb_set_nodes (<[node_id := MkNodeStatus (ns_node_id st) (is_alive st) (last_seen st)
            (last_heartbeat st) (missed_heartbeats st) false ""]> (nodes_ d))
          (isolated_nodes_ d ∖ {[node_id]}) d
    | None => d
    end);
  mret (ROk tt)).

(** ** Queries and settings *)

Definition get_status : M SbSt SplitBrainStatus.t := gets (λ s : SbSt, status_ s.2).
Definition check_quorum : M SbSt QuorumDecision :=
  guarded (gets (λ s : SbSt, calculate_quorum s.2)).
Definition detector_has_quorum : M SbSt bool :=
  decision ← check_quorum; mret (has_quorum decision).
Definition get_detected_partitions : M SbSt (list NetworkPartition) :=
  guarded (gets (λ s : SbSt, detected_partitions_ s.2)).
Definition is_node_isolated (node_id : NodeId) : M SbSt bool :=
  guarded (gets (λ s : SbSt, bool_decide (node_id ∈ isolated_nodes_ s.2))).
Definition sb_set_event_handler (h : option (list SbEvent)) : M SbSt unit :=
  guarded (on_sb (sb_set_handler h)).
Definition sb_update_config (c : SplitBrainConfig) : M SbSt unit :=
  guarded (on_sb (sb_set_config c)).
Definition sb_get_config : M SbSt SplitBrainConfig :=
  guarded (gets (λ s : SbSt, sb_config s.2)).

(** ** Recovery *)

Definition set_resolved (p : NetworkPartition) : NetworkPartition :=
  MkPartition (partition_a p) (partition_b p) (detected_at p) (duration p) true.

(** The loop of [force_merge_partitions]. *)
Fixpoint merge_loop (ps : list NetworkPartition) : M SbSt (list NetworkPartition) :=
  match ps with
  | [] => mret []
  | p :: ps =>
      if resolved p then rest ← merge_loop ps; mret (p :: rest)
      else
        let p := set_resolved p in
        _ ← handle_partition_resolved p;
        rest ← merge_loop ps;
        mret (p :: rest)
  end.

Definition force_merge_partitions : M SbSt (Result unit) := guarded (
  ps ← gets (λ s : SbSt, detected_partitions_ s.2);
  ps ← merge_loop ps;
  _ ← on_sb (sb_set_partitions (List.filter (λ p, negb (resolved p)) ps));
  _ ← on_sb (sb_set_status SplitBrainStatus.HEALTHY);
  mret (ROk tt)).

(** The nested loops over a list of pairs, up to the first that fails. *)
Fixpoint all_connected (ps : list (NodeId * NodeId)) : M SbSt bool :=
  match ps with
  | [] => mret true
  | (a, b) :: ps =>
      c ← are_nodes_connected a b;
      if c : bool then all_connected ps else mret false
  end.
Fixpoint any_connected (ps : list (NodeId * NodeId)) : M SbSt bool :=
  match ps with
  | [] => mret false
  | (a, b) :: ps =>
      c ← are_nodes_connected a b;
      if c : bool then mret true else any_connected ps
  end.

Definition cross (l k : list NodeId) : list (NodeId * NodeId) :=
  a ← l; map (pair a) k.

Fixpoint update_loop (now : Z) (ps : list NetworkPartition) : M SbSt (list NetworkPartition) :=
  match ps with
  | [] => mret []
  | p :: ps =>
      if resolved p then rest ← update_loop now ps; mret (p :: rest)
      else
        partition_a_connected ← all_connected (pairs (partition_a p));
        partition_b_connected ← all_connected (pairs (partition_b p));
        inter_partition_connected ← any_connected (cross (partition_a p) (partition_b p));
        if inter_partition_connected : bool then
          let p := MkPartition (partition_a p) (partition_b p) (detected_at p)
            (Some (Z.quot (now - detected_at p) ns_per_ms)) true in
          _ ← handle_partition_resolved p;
          rest ← update_loop now ps;
          mret (p :: rest)
        else rest ← update_loop now ps; mret (p :: rest)
  end.

Definition update_partition_status : M SbSt unit :=
  now ← sb_now;
  ps ← gets (λ s : SbSt, detected_partitions_ s.2);
  ps ← update_loop now ps;
  on_sb (sb_set_partitions ps).

(** ** The threads *)

Definition detection_turn : M SbSt unit :=
  _ ← detect_network_partitions;
  split ← gets (λ s : SbSt, detect_split_brain s.2);
  if split : bool then
    decision ← gets (λ s : SbSt, calculate_quorum s.2);
    if has_quorum decision then
      mfor (λ node, _ ← isolate_node node "Split brain - minority partition"; mret tt)
        (isolated_nodes decision)
    else
      _ ← on_sb (sb_set_status SplitBrainStatus.CONFIRMED);
      notify_quorum_lost
  else mret tt.

Definition detection_check : M SbSt unit := on_sb (λ d,
  match detection_thread_ d with
  | Some AtCheck =>
      if sb_stop d then d
      else sb_set_threads (sb_running d) (sb_stop d) (Some InTurn) (recovery_thread_ d) d
  | _ => d
  end).
Definition detection_loop_turn : M SbSt unit :=
  thread ← gets (λ s : SbSt, detection_thread_ s.2);
  match thread with
  | Some InTurn =>
      _ ← catching detection_turn;
      on_sb (λ d, sb_set_threads (sb_running d) (sb_stop d)
                    ((λ _, AtCheck) <$> detection_thread_ d) (recovery_thread_ d) d)
  | _ => mret tt
  end.

(** A turn of the recovery thread up to its first sleep, and the rest; the
    thread is [InTurn] while it waits for the network to recover.  In the code
    the flag, the test of [status_] and the store to it are three accesses to
    atomics without the mutex; here nothing comes between them. *)
Definition recovery_check : M SbSt unit := on_sb (λ d,
  match recovery_thread_ d with
  | Some AtCheck =>
      if sb_stop d then d
      else if auto_recovery_enabled (sb_config d) &&
              bool_decide (status_ d = SplitBrainStatus.CONFIRMED)
      then sb_set_threads (sb_running d) (sb_stop d) (detection_thread_ d) (Some InTurn)
             (sb_set_status SplitBrainStatus.RECOVERING d)
      else d
  | _ => d
  end).
Definition recovery_turn : M SbSt unit :=
  _ ← update_partition_status;
  all_resolved ← gets (λ s : SbSt, forallb resolved (detected_partitions_ s.2));
  if all_resolved : bool then
    _ ← on_sb (sb_set_status SplitBrainStatus.HEALTHY);
    notify_quorum_restored
  else mret tt.
Definition recovery_loop_turn : M SbSt unit :=
  thread ← gets (λ s : SbSt, recovery_thread_ s.2);
  match thread with
  | Some InTurn =>
      _ ← catching recovery_turn;
      on_sb (λ d, sb_set_threads (sb_running d) (sb_stop d) (detection_thread_ d)
                    ((λ _, AtCheck) <$> recovery_thread_ d) d)
  | _ => mret tt
  end.

(** ** Life cycle *)

Definition sb_start (config : SplitBrainConfig) : M SbSt (Result unit) := guarded (
  running ← gets (λ s : SbSt, sb_running s.2);
  if running : bool then mret (ROk tt)
  else
    _ ← on_sb (λ d, sb_set_threads true false (Some AtCheck) (Some AtCheck)
                      (sb_set_status SplitBrainStatus.HEALTHY (sb_set_config config d)));
    mret (ROk tt)).

Definition join_detection : M SbSt unit :=
  thread ← gets (λ s : SbSt, detection_thread_ s.2);
  match thread with
  | Some InTurn => joining detection_turn
  | _ => mret tt
  end.
Definition join_recovery : M SbSt unit :=
  thread ← gets (λ s : SbSt, recovery_thread_ s.2);
  match thread with
  | Some InTurn => joining recovery_turn
  | _ => mret tt
  end.

Definition sb_stop_threads : M SbSt (Result unit) := guarded (
  running ← gets (λ s : SbSt, sb_running s.2);
  if negb running then mret (ROk tt)
  else
    _ ← on_sb (λ d, sb_set_threads (sb_running d) true (detection_thread_ d)
                      (recovery_thread_ d) d);
    _ ← join_detection;
    _ ← join_recovery;
    _ ← on_sb (sb_set_threads false true None None);
    mret (ROk tt)).

Definition Detector_destroy : M SbSt unit := noexcept (
  running ← gets (λ s : SbSt, sb_running s.2);
  if running : bool then _ ← sb_stop_threads; mret tt else mret tt).
End detector.

(** ** [split_brain_utils] *)

Section utils.
(** One row of the matrix: the entries before [i] are those of the rows above. *)
Definition calculate_connectivity_matrix (nodes : list NodeId)
    (connectivity_checker : NodeId → NodeId → bool) : list (list bool) :=
  imap (λ i a, imap (λ j b,
    if decide (i = j) then true
    else if decide (i < j) then connectivity_checker a b
    else connectivity_checker b a) nodes) nodes.

(** [connectivity_matrix[current][j]]. *)
Definition matrix_entry (connectivity_matrix : list (list bool)) (current j : nat) : M unit bool :=
  match connectivity_matrix !! current ≫= (.!! j) with
  | Some b => mret b
  | None => undefined PastEnd
  end.

Definition find_network_partitions (nodes : list NodeId) (connectivity_matrix : list (list bool)) :
    M unit (list (list NodeId)) :=
  found ← components (matrix_entry connectivity_matrix) (seq 0 (length nodes)) (λ _, true)
    (seq 0 (length nodes)) ∅ [];
  mret (map (omap (M := list) (λ i : nat, nodes !! i)) found).

Definition calculate_required_quorum_size (total_nodes : N) (strategy : QuorumStrategy.t) : N :=
  match strategy with
  | QuorumStrategy.MAJORITY => total_nodes / 2 + 1
  | QuorumStrategy.STATIC_QUORUM => N.max 1 (total_nodes / 3)
  | QuorumStrategy.DYNAMIC_QUORUM => N.max 1 ((total_nodes + 1) / 2)
  | QuorumStrategy.WITNESS_BASED => N.max 1 (total_nodes / 2)
  end.

(** The two loops that look for a node seen before. *)
Fixpoint no_repeat (nodes : list NodeId) (all_accounted : gset NodeId) : option (gset NodeId) :=
  match nodes with
  | [] => Some all_accounted
  | node :: nodes =>
      if decide (node ∈ all_accounted) then None
      else no_repeat nodes ({[node]} ∪ all_accounted)
  end.

Definition validate_quorum_decision (decision : QuorumDecision) (all_nodes : list NodeId) : bool :=
  if negb (bool_decide (length (active_nodes decision) + length (isolated_nodes decision) =
                        length all_nodes))
  then false
  else
    match no_repeat (active_nodes decision) ∅ with
    | None => false
    | Some all_accounted =>
        match no_repeat (isolated_nodes decision) all_accounted with
        | None => false
        | Some _ => true
        end
    end.
End utils.
