(* ===== verification/Partitions.v ===== *)
(** * Partitions: the components the split-brain detector finds

    What [find_connected_components] and the matrix functions of
    [split_brain_utils] return, from the generic search of [Search]. *)

From Stdlib Require Import Ascii String ZArith NArith Lia.
From stdpp Require Import base numbers list strings gmap pretty relations fin_sets.
From S2P Require Import Prelude OrdMap Types Files Search SplitBrain.

(** The table iterates over every node once. *)
Definition enumerates_once (order_nodes : gset NodeId → list NodeId) : Prop :=
  ∀ s, NoDup (order_nodes s) ∧ ∀ x, x ∈ order_nodes s ↔ x ∈ s.

Lemma elements_enumerates_once : enumerates_once elements.
Proof. intros s. split; [apply NoDup_elements|intros x; apply elem_of_elements]. Qed.

(** Every reading of the clock shows [now]. *)
Definition shows (now : Z) (c : Clock) : Prop := ∀ k, reading c k = now.

Lemma shows_tick now c : shows now c → (tick c).1 = now ∧ shows now (tick c).2.
Proof. intros H. split; [apply H|exact H]. Qed.

Section components.
Context (order_nodes : gset NodeId → list NodeId) (Horder : enumerates_once order_nodes).

Lemma elem_of_node_ids d x : x ∈ node_ids order_nodes d ↔ is_Some (nodes_ d !! x).
Proof. unfold node_ids. destruct (Horder (dom (nodes_ d))) as [_ H]. by rewrite H, elem_of_dom. Qed.

Lemma NoDup_node_ids d : NoDup (node_ids order_nodes d).
Proof. apply Horder. Qed.

(** The nodes the search covers. *)
Definition alive_nodes (d : Detector) : list NodeId :=
  candidates (node_ids order_nodes d) (node_alive d).

Lemma elem_of_alive_nodes d x : x ∈ alive_nodes d ↔ node_alive d x = true.
Proof.
  unfold alive_nodes, candidates. rewrite list_elem_of_filter, elem_of_node_ids.
  split; [by intros []|]. intros H. split; [done|].
  unfold node_alive in H. by destruct (nodes_ d !! x).
Qed.

Definition recent_at (now : Z) (d : Detector) (x : NodeId) : bool :=
  match nodes_ d !! x with Some status => is_recent now d status | None => false end.

Lemma connected_keeps d a b c :
  is_Some (nodes_ d !! a) → is_Some (nodes_ d !! b) →
  are_nodes_connected a b (c, d) =
    Returns (recent_at (tick c).1 d a && recent_at (tick c).1 d b) ((tick c).2, d).
Proof.
  intros [sa Ha] [sb Hb]. unfold are_nodes_connected. msimpl. unfold recent_at.
  by rewrite Ha, Hb.
Qed.

(** Whatever the clock shows during the search, find_connected_components ends,
    changes nothing, and puts every alive node into exactly one component. *)
Theorem find_connected_components_partition d c :
  ∃ found c', find_connected_components order_nodes (c, d) = Returns found (c', d) ∧
    concat found ≡ₚ alive_nodes d.
Proof.
  unfold find_connected_components. msimpl.
  destruct (components_partition are_nodes_connected (node_ids order_nodes d) (node_alive d)
    (λ s, s.2 = d) (λ _ _ _, True)) with (c, d) as (found & [c' d'] & E & Hd & Hp & _);
    [|done|apply NoDup_node_ids|].
  - intros a b [c0 d0] Hd Ha Hb. cbn in Hd. subst d0.
    rewrite connected_keeps by (by apply elem_of_node_ids). eauto.
  - cbn in Hd. subst d'. exists found, c'. split; [exact E|exact Hp].
Qed.

Lemma rtc_recent now d x y :
  rtc (steps (node_ids order_nodes d) (node_alive d)
    (λ a b c, c = recent_at now d a && recent_at now d b)) x y →
  x = y ∨ recent_at now d x = true ∧ recent_at now d y = true.
Proof.
  induction 1 as [x|x y z (_ & _ & E) _ IH]; [by left|]. right.
  symmetry in E. apply andb_true_iff in E as [Hx Hy]. split; [done|].
  destruct IH as [->|[_ Hz]]; done.
Qed.

(** C31. While the clock stands still, two alive nodes are in one component of
    find_connected_components exactly if they are the same node or both have a
    recent heartbeat: the nodes heard from form one component and every other
    alive node is a component of its own, so the detector never sees two groups
    of nodes. *)
Theorem find_connected_components_recent now d c :
  shows now c →
  ∃ found c', find_connected_components order_nodes (c, d) = Returns found (c', d) ∧
    concat found ≡ₚ alive_nodes d ∧
    ∀ x y, node_alive d x = true → node_alive d y = true →
      together found x y ↔ x = y ∨ recent_at now d x = true ∧ recent_at now d y = true.
Proof.
  intros Hc. unfold find_connected_components. msimpl.
  destruct (components_classes are_nodes_connected (node_ids order_nodes d) (node_alive d)
    (λ s, shows now s.1 ∧ s.2 = d) (λ a b, recent_at now d a && recent_at now d b))
    with (c, d) as (found & [c' d'] & E & [_ Hd] & Hp & Ht); [| |done|apply NoDup_node_ids|].
  - intros a b [c0 d0] [Hs Hd] Ha Hb. cbn in Hs, Hd. subst d0.
    apply shows_tick in Hs as [E Hs].
    rewrite connected_keeps by (by apply elem_of_node_ids). rewrite E. eauto.
  - intros a b. apply andb_comm.
  - cbn in Hd. subst d'. exists found, c'. split; [exact E|]. split; [exact Hp|].
    intros x y Hx Hy. rewrite <- elem_of_alive_nodes in Hx, Hy. rewrite (Ht x y Hx Hy). split.
    + apply rtc_recent.
    + intros [->|[Rx Ry]]; [done|]. apply rtc_once. unfold steps. by rewrite Rx, Ry.
Qed.
End components.

Lemma find_connected_components_recent_witness :
  let d := sb_set_nodes {[ "a" := MkNodeStatus "a" true 0 0 0 false "";
                           "b" := MkNodeStatus "b" true 0 9 0 false "" ]} ∅ Detector_new in
  let c := MkClock (λ _, 9%Z) 0 in
  shows 9 c ∧ ∃ found c', find_connected_components elements (c, d) = Returns found (c', d) ∧
    concat found ≡ₚ alive_nodes elements d ∧
    ∀ x y, node_alive d x = true → node_alive d y = true →
      together found x y ↔ x = y ∨ recent_at 9 d x = true ∧ recent_at 9 d y = true.
Proof.
  intros d c. split; [done|].
  apply (find_connected_components_recent elements elements_enumerates_once 9 d c).
  intros k. reflexivity.
Defined.

Lemma find_connected_components_partition_witness :
  let d := sb_set_nodes {[ "a" := MkNodeStatus "a" true 0 0 0 false "" ]} ∅ Detector_new in
  let c := MkClock (λ k, Z.of_nat k) 0 in
  ∃ found c', find_connected_components elements (c, d) = Returns found (c', d) ∧
    concat found ≡ₚ alive_nodes elements d.
Proof.
  intros d c. exact (find_connected_components_partition elements elements_enumerates_once d c).
Defined.

(** ** Connectivity matrices *)

Lemma omap_lookup_seq {A} (l : list A) : omap (M := list) (l !!.) (seq 0 (length l)) = l.
Proof.
  induction l as [|x l IH]; [done|]. cbn. f_equal. trans (omap (M := list) (l !!.) (seq 0 (length l))); [|exact IH].
  rewrite <- fmap_S_seq. generalize (seq 0 (length l)) as js.
  induction js as [|j js IHj]; [done|]. cbn. by rewrite IHj.
Qed.

Lemma concat_omap {A B} (f : A → option B) ls :
  concat (map (omap (M := list) f) ls) = omap (M := list) f (concat ls).
Proof. induction ls as [|l ls IH]; [done|]. cbn. by rewrite omap_app, IH. Qed.

Lemma candidates_all {A} `{Countable A} (l : list A) : candidates l (λ _, true) = l.
Proof.
  unfold candidates. induction l as [|x l IH]; [done|].
  by rewrite filter_cons_True, IH.
Qed.

Lemma together_omap {A} (l : list A) found i j x y :
  NoDup l → l !! i = Some x → l !! j = Some y →
  together (map (omap (M := list) (l !!.)) found) x y ↔ together found i j.
Proof.
  intros Hn Hi Hj. unfold together. split.
  - intros (? & (c & -> & Hc)%list_elem_of_fmap & Hx & Hy). exists c.
    apply list_elem_of_omap in Hx as (i' & ? & Hi'), Hy as (j' & ? & Hj').
    by rewrite (NoDup_lookup _ _ _ _ Hn Hi Hi'), (NoDup_lookup _ _ _ _ Hn Hj Hj').
  - intros (c & Hc & ? & ?). exists (omap (M := list) (l !!.) c).
    split; [by apply list_elem_of_fmap_2|]. split; apply list_elem_of_omap; eauto.
Qed.

Section matrix.
Context (nodes : list NodeId) (checker : NodeId → NodeId → bool).
Context (Hnodes : NoDup nodes) (Hsym : ∀ a b, checker a b = checker b a).

(** A link between two nodes, and an entry of the matrix. *)
Definition node_link : relation NodeId := λ a b, a ∈ nodes ∧ b ∈ nodes ∧ checker a b = true.
Definition entry (i j : nat) : bool :=
  match nodes !! i, nodes !! j with
  | Some a, Some b => if decide (i = j) then true else checker a b
  | _, _ => false
  end.

Lemma entry_sym i j : entry i j = entry j i.
Proof.
  unfold entry. destruct (nodes !! i), (nodes !! j); try done.
  destruct (decide (i = j)), (decide (j = i)); [done|congruence..|apply Hsym].
Qed.

Lemma matrix_entry_ok i j :
  i < length nodes → j < length nodes →
  matrix_entry (calculate_connectivity_matrix nodes checker) i j tt = Returns (entry i j) tt.
Proof.
  intros [a Ha]%lookup_lt_is_Some [b Hb]%lookup_lt_is_Some.
  unfold matrix_entry, calculate_connectivity_matrix, entry.
  rewrite list_lookup_imap, Ha. cbn. rewrite list_lookup_imap, Hb. cbn.
  destruct (decide (i = j)); [done|]. destruct (decide (i < j)); [done|]. by rewrite Hsym.
Qed.

Abbreviation linked_at :=
  (steps (seq 0 (length nodes)) (λ _, true) (λ a b c, c = entry a b)).

Lemma elem_of_indices i : i ∈ candidates (seq 0 (length nodes)) (λ _, true) ↔ i < length nodes.
Proof. unfold candidates. rewrite list_elem_of_filter, elem_of_seq. lia. Qed.

Lemma linked_at_node_link i j x y :
  nodes !! i = Some x → nodes !! j = Some y → rtc linked_at i j → rtc node_link x y.
Proof.
  intros Hx Hy Hr. revert x Hx. induction Hr as [i|i k j (_ & Hk & E) _ IH]; intros x Hx.
  - by simplify_eq.
  - apply elem_of_indices, lookup_lt_is_Some in Hk as [z Hz]. specialize (IH Hy z Hz).
    unfold entry in E. rewrite Hx, Hz in E. case_decide as Hik.
    + subst. by simplify_eq.
    + etrans; [|exact IH]. apply rtc_once. split_and!; eauto using list_elem_of_lookup_2.
Qed.

Lemma node_link_linked_at i j x y :
  nodes !! i = Some x → nodes !! j = Some y → rtc node_link x y → rtc linked_at i j.
Proof using Hnodes.
  intros Hx Hy Hr. revert i Hx. induction Hr as [x|x z y (_ & Hz & E) _ IH]; intros i Hx.
  - by rewrite (NoDup_lookup _ _ _ _ Hnodes Hx Hy).
  - apply list_elem_of_lookup in Hz as [k Hk]. etrans; [|by apply (IH Hy k)].
    apply rtc_once. split_and!; [apply elem_of_indices; eauto using lookup_lt_Some..|].
    unfold entry. rewrite Hx, Hk. by case_decide.
Qed.

(** C8. On the connectivity matrix of distinct nodes, for a symmetric test,
    find_network_partitions returns the connected components of the cluster:
    every node is in exactly one of the lists, and two nodes are in one list
    exactly if a chain of connections leads from one to the other. *)
Theorem find_network_partitions_components :
  ∃ found, find_network_partitions nodes (calculate_connectivity_matrix nodes checker) tt
             = Returns found tt ∧
    concat found ≡ₚ nodes ∧
    ∀ x y, x ∈ nodes → y ∈ nodes → together found x y ↔ rtc node_link x y.
Proof using Hnodes Hsym.
  unfold find_network_partitions.
  destruct (components_classes (matrix_entry (calculate_connectivity_matrix nodes checker))
    (seq 0 (length nodes)) (λ _, true) (λ _, True) entry) with tt
    as (found & [] & E & _ & Hp & Ht); [|apply entry_sym|done|apply NoDup_seq|].
  - intros i j [] _ Hi%elem_of_seq Hj%elem_of_seq. exists tt. split; [|done].
    apply matrix_entry_ok; lia.
  - mstep E. exists (map (omap (M := list) (nodes !!.)) found). split; [done|]. split.
    + by rewrite concat_omap, Hp, candidates_all, omap_lookup_seq.
    + intros x y [i Hi]%list_elem_of_lookup [j Hj]%list_elem_of_lookup.
      rewrite (together_omap nodes found i j x y Hnodes Hi Hj), Ht
        by (apply elem_of_indices; eauto using lookup_lt_Some).
      split; [by apply linked_at_node_link|by apply node_link_linked_at].
Qed.
End matrix.

Lemma find_network_partitions_components_witness :
  let nodes := ["a"; "b"; "c"] in
  let checker a b := String.eqb a b || (negb (String.eqb a "c") && negb (String.eqb b "c")) in
  find_network_partitions nodes (calculate_connectivity_matrix nodes checker) tt
    = Returns [["a"; "b"]; ["c"]] tt ∧
  ∃ found, find_network_partitions nodes (calculate_connectivity_matrix nodes checker) tt
             = Returns found tt ∧
    concat found ≡ₚ nodes ∧
    ∀ x y, x ∈ nodes → y ∈ nodes → together found x y ↔ rtc (node_link nodes checker) x y.
Proof.
  intros nodes checker. split; [vm_compute; reflexivity|].
  apply (find_network_partitions_components nodes checker).
  - apply (bool_decide_unpack _). vm_compute. exact I.
  - intros a b. unfold checker. rewrite (String.eqb_sym a b).
    destruct (String.eqb b a), (String.eqb a "c"), (String.eqb b "c"); reflexivity.
Defined.
