(* ===== verification/Quorum.v ===== *)
(** * Quorum: what the quorum strategies of the split-brain detector decide

    Two sides of a split cluster must not both have a quorum.  The majority
    strategy keeps that; the dynamic one decides exactly what the static one
    decides, and both let two disjoint sides have it. *)

From Stdlib Require Import Ascii String ZArith NArith Lia.
From stdpp Require Import base numbers list strings gmap pretty fin_sets.
From S2P Require Import Prelude OrdMap Types Files Search SplitBrain Partitions.

(** [std::copy_if] as the library filters. *)
Lemma elem_of_List_filter {A} (f : A → bool) l x : x ∈ List.filter f l ↔ f x = true ∧ x ∈ l.
Proof. rewrite !list_elem_of_In, filter_In. tauto. Qed.

Lemma length_List_filter_split {A} (f : A → bool) l :
  length (List.filter f l) + length (List.filter (λ x, negb (f x)) l) = length l.
Proof. induction l as [|x l IH]; [done|]. cbn. destruct (f x); cbn; lia. Qed.

Section quorum.
Context (order_nodes : gset NodeId → list NodeId) (Horder : enumerates_once order_nodes).

Lemma NoDup_List_filter_ids (f : NodeId → bool) d :
  NoDup (List.filter f (node_ids order_nodes d)).
Proof. apply NoDup_ListNoDup, List.NoDup_filter, NoDup_ListNoDup, NoDup_node_ids, Horder. Qed.

Lemma size_node_ids d : length (node_ids order_nodes d) = size (nodes_ d).
Proof.
  rewrite <- size_dom, <- (size_list_to_set (C := gset NodeId)) by (by apply NoDup_node_ids).
  f_equal. apply set_eq. intros x. rewrite elem_of_list_to_set. apply Horder.
Qed.

(** The nodes that count, as a set. *)
Definition active_set (d : Detector) : gset NodeId := list_to_set (alive_ids order_nodes d).

Lemma elem_of_active_set d x :
  x ∈ active_set d ↔ counts_as_alive d x = true.
Proof.
  unfold active_set, alive_ids. rewrite elem_of_list_to_set, elem_of_List_filter.
  rewrite elem_of_node_ids by done. split; [by intros []|]. intros H. split; [done|].
  unfold counts_as_alive in H. by destruct (nodes_ d !! x).
Qed.

Lemma size_active_set d : size (active_set d) = length (alive_ids order_nodes d).
Proof. apply size_list_to_set, NoDup_List_filter_ids. Qed.

Lemma active_set_dom d : active_set d ⊆ dom (nodes_ d).
Proof.
  intros x Hx%elem_of_active_set. apply elem_of_dom. unfold counts_as_alive in Hx.
  by destruct (nodes_ d !! x).
Qed.

Lemma majority_has_quorum d :
  has_quorum (majority_quorum order_nodes d) = true ↔ size (nodes_ d) < 2 * size (active_set d).
Proof.
  unfold majority_quorum, count. cbn [has_quorum]. rewrite N.leb_le, size_active_set.
  pose proof (N.mul_div_le (N.of_nat (size (nodes_ d))) 2 ltac:(done)).
  pose proof (N.mul_succ_div_gt (N.of_nat (size (nodes_ d))) 2 ltac:(done)). lia.
Qed.

Lemma static_has_quorum d :
  has_quorum (static_quorum order_nodes d) = true ↔
  (min_quorum_size (sb_config d) ≤ N.of_nat (size (active_set d)))%N.
Proof. unfold static_quorum, count. cbn [has_quorum]. by rewrite N.leb_le, size_active_set. Qed.

(** The dynamic strategy, which is to adapt the size of the quorum to the nodes
    that are active, always decides what the static one decides: the half it
    asks for of the active nodes is never more than these. *)
Theorem dynamic_quorum_is_static d :
  has_quorum (dynamic_quorum order_nodes d) = has_quorum (static_quorum order_nodes d) ∧
  active_nodes (dynamic_quorum order_nodes d) = active_nodes (static_quorum order_nodes d).
Proof.
  split; [|done]. unfold dynamic_quorum, static_quorum. cbn [has_quorum].
  generalize (count (alive_ids order_nodes d)) (min_quorum_size (sb_config d)). intros n q.
  apply eq_true_iff_eq. rewrite !N.leb_le.
  pose proof (N.mul_div_le (n + 1) 2 ltac:(done)). lia.
Qed.
End quorum.

(** C23. Two detectors that watch the same nodes and both see a majority quorum
    count a common node as active, whatever each thinks of the others: the two
    sides of a split cannot both have it. *)
Theorem majority_quorums_meet order1 order2 d1 d2 :
  enumerates_once order1 → enumerates_once order2 → dom (nodes_ d1) = dom (nodes_ d2) →
  has_quorum (majority_quorum order1 d1) = true →
  has_quorum (majority_quorum order2 d2) = true →
  ∃ x, x ∈ active_nodes (majority_quorum order1 d1) ∧ x ∈ active_nodes (majority_quorum order2 d2).
Proof.
  intros H1 H2 Hdom Q1%majority_has_quorum Q2%majority_has_quorum; [|done..].
  rewrite <- size_dom in Q1, Q2. rewrite <- Hdom in Q2.
  destruct (set_choose_or_empty (active_set order1 d1 ∩ active_set order2 d2)) as [[x Hx]|He].
  - exists x. unfold active_set in Hx. by rewrite elem_of_intersection, !elem_of_list_to_set in Hx.
  - exfalso. pose proof (active_set_dom order1 H1 d1) as S1.
    pose proof (active_set_dom order2 H2 d2) as S2. rewrite <- Hdom in S2.
    assert (active_set order1 d1 ∪ active_set order2 d2 ⊆ dom (nodes_ d1)) as S by set_solver +S1 S2.
    apply subseteq_size in S. rewrite size_union in S by set_solver +He. lia.
Qed.

(** The detector of a node that hears from [alive] and not from [silent]. *)
Definition hears (c : SplitBrainConfig) (alive silent : gset NodeId) : Detector :=
  sb_set_config c (sb_set_nodes
    (set_to_map (λ x, (x, MkNodeStatus x true 0 0 0 false "")) alive ∪
     set_to_map (λ x, (x, MkNodeStatus x false 0 0 3 false "")) silent) ∅ Detector_new).

Lemma counts_as_alive_hears c alive silent x :
  counts_as_alive (hears c alive silent) x = bool_decide (x ∈ alive).
Proof.
  unfold counts_as_alive, hears. cbn [nodes_ sb_set_config sb_set_nodes].
  set (f := λ y, (y, MkNodeStatus y true 0 0 0 false "")).
  set (g := λ y, (y, MkNodeStatus y false 0 0 3 false "")).
  destruct (decide (x ∈ alive)) as [Ha|Ha].
  - rewrite bool_decide_true, (lookup_union_Some_l _ _ _ (MkNodeStatus x true 0 0 0 false "")); [done| |done].
    apply lookup_set_to_map; [by intros ?? _ _ ?|]. by exists x.
  - rewrite bool_decide_false by done. destruct (_ !! x) as [st|] eqn:E; [|done].
    apply lookup_union_Some_raw in E as [E|[_ E]];
      apply lookup_set_to_map in E as (y & Hy & [= <- <-]); done.
Qed.

(** C37. Under the static and the dynamic strategy both sides of a split have a
    quorum as soon as each has min_quorum_size nodes: two disjoint sides of a
    cluster, each of which hears only from itself, go on as if they were the
    whole. *)
Theorem fixed_quorums_split order_nodes c (A B : gset NodeId) :
  enumerates_once order_nodes → A ## B →
  (min_quorum_size c ≤ N.of_nat (size A))%N → (min_quorum_size c ≤ N.of_nat (size B))%N →
  let a := hears c A B in let b := hears c B A in
  has_quorum (static_quorum order_nodes a) = true ∧
  has_quorum (static_quorum order_nodes b) = true ∧
  has_quorum (dynamic_quorum order_nodes a) = true ∧
  has_quorum (dynamic_quorum order_nodes b) = true ∧
  ∀ x, x ∈ active_nodes (static_quorum order_nodes a) →
       x ∉ active_nodes (static_quorum order_nodes b).
Proof.
  intros Ho Hd HA HB a b.
  assert (∀ C D, active_set order_nodes (hears c C D) = C) as Hset.
  { intros C D. apply set_eq. intros x.
    by rewrite elem_of_active_set, counts_as_alive_hears, bool_decide_eq_true. }
  assert (∀ C D, (min_quorum_size c ≤ N.of_nat (size C))%N →
    has_quorum (static_quorum order_nodes (hears c C D)) = true) as Hq.
  { intros C D HC. apply static_has_quorum; [done|]. by rewrite Hset. }
  split_and!; [by apply Hq..| | |].
  - destruct (dynamic_quorum_is_static order_nodes a) as [-> _]. by apply Hq.
  - destruct (dynamic_quorum_is_static order_nodes b) as [-> _]. by apply Hq.
  - intros x Ha Hb. cbn [active_nodes static_quorum] in Ha, Hb.
    rewrite <- (elem_of_list_to_set (C := gset NodeId)) in Ha, Hb.
    change (x ∈ active_set order_nodes (hears c A B)) in Ha.
    change (x ∈ active_set order_nodes (hears c B A)) in Hb.
    rewrite Hset in Ha, Hb. set_solver +Hd Ha Hb.
Qed.

(** Three nodes; each side of the witness hears from two of them. *)
Lemma majority_quorums_meet_witness :
  let d1 := hears SplitBrainConfig_default {[ "a"; "b" ]} {[ "c" ]} in
  let d2 := hears SplitBrainConfig_default {[ "b"; "c" ]} {[ "a" ]} in
  has_quorum (majority_quorum elements d1) = true ∧
  has_quorum (majority_quorum elements d2) = true ∧
  ∃ x, x ∈ active_nodes (majority_quorum elements d1) ∧
       x ∈ active_nodes (majority_quorum elements d2).
Proof.
  intros d1 d2.
  assert (has_quorum (majority_quorum elements d1) = true) as Q1 by (vm_compute; reflexivity).
  assert (has_quorum (majority_quorum elements d2) = true) as Q2 by (vm_compute; reflexivity).
  split; [exact Q1|]. split; [exact Q2|].
  apply (majority_quorums_meet elements elements d1 d2 elements_enumerates_once
    elements_enumerates_once); [|exact Q1|exact Q2].
  apply (bool_decide_unpack _). vm_compute. exact I.
Defined.

Lemma fixed_quorums_split_witness :
  let a := hears SplitBrainConfig_default {[ "a"; "b" ]} {[ "c"; "d" ]} in
  let b := hears SplitBrainConfig_default {[ "c"; "d" ]} {[ "a"; "b" ]} in
  has_quorum (static_quorum elements a) = true ∧
  has_quorum (static_quorum elements b) = true ∧
  has_quorum (dynamic_quorum elements a) = true ∧
  has_quorum (dynamic_quorum elements b) = true ∧
  ∀ x, x ∈ active_nodes (static_quorum elements a) →
       x ∉ active_nodes (static_quorum elements b).
Proof.
  apply (fixed_quorums_split elements SplitBrainConfig_default {[ "a"; "b" ]} {[ "c"; "d" ]}
    elements_enumerates_once).
  - apply (bool_decide_unpack _). vm_compute. exact I.
  - vm_compute. discriminate.
  - vm_compute. discriminate.
Defined.

(** ** Validation *)

Lemma no_repeat_ok nodes (seen : gset NodeId) :
  no_repeat nodes seen =
    if decide (NoDup nodes ∧ list_to_set nodes ## seen)
    then Some (list_to_set nodes ∪ seen) else None.
Proof.
  revert seen. induction nodes as [|x nodes IH]; intros seen; cbn [no_repeat list_to_set].
  - rewrite decide_True by (split; [constructor|set_solver +]). f_equal. set_solver +.
  - destruct (decide (x ∈ seen)) as [Hx|Hx].
    + rewrite decide_False; [done|]. intros [_ H]. set_solver +H Hx.
    + rewrite IH. destruct (decide (NoDup nodes ∧ _)) as [[Hn Hf]|Hne].
      * rewrite decide_True; [f_equal; set_solver +|]. split; [|set_solver +Hf Hx].
        constructor; [|done]. set_solver +Hf.
      * rewrite decide_False; [done|]. intros [[Hx2 Hn]%NoDup_cons Hf]. apply Hne.
        split; [done|]. set_solver +Hf Hx2.
Qed.

Lemma validate_quorum_decision_spec decision all_nodes :
  validate_quorum_decision decision all_nodes =
    bool_decide (length (active_nodes decision ++ isolated_nodes decision) = length all_nodes ∧
                 NoDup (active_nodes decision ++ isolated_nodes decision)).
Proof.
  unfold validate_quorum_decision. rewrite <- length_app.
  case_bool_decide as Hl; cbn [negb]; [|symmetry; apply bool_decide_eq_false; tauto].
  rewrite no_repeat_ok. destruct (decide _) as [[Ha _]|Ha].
  - rewrite no_repeat_ok. destruct (decide _) as [[Hi Hf]|Hi]; symmetry.
    + apply bool_decide_eq_true. rewrite NoDup_app. split_and!; [done..| |done].
      set_solver +Hf.
    + apply bool_decide_eq_false. rewrite NoDup_app. intros (_ & _ & Hd & Hi2). apply Hi. split; [done|].
      set_solver +Hd.
  - symmetry. apply bool_decide_eq_false. rewrite NoDup_app. intros (_ & Ha2 & _). apply Ha. split; [done|].
    set_solver +.
Qed.

(** On the nodes of the detector itself, validate_quorum_decision accepts every
    decision of the majority strategy; a decision of another strategy, which
    leaves the list of isolated nodes empty, it accepts only when every node
    counts as active. *)
Theorem validate_own_decision order_nodes d :
  enumerates_once order_nodes →
  validate_quorum_decision (calculate_quorum order_nodes d) (node_ids order_nodes d) =
    match quorum_strategy (sb_config d) with
    | QuorumStrategy.MAJORITY => true
    | _ => forallb (counts_as_alive d) (node_ids order_nodes d)
    end.
Proof.
  intros Ho. rewrite validate_quorum_decision_spec. unfold calculate_quorum.
  set (ids := node_ids order_nodes d). set (f := counts_as_alive d).
  pose proof (length_List_filter_split f ids) as Hl.
  assert (bool_decide (length (List.filter f ids ++ []) = length ids ∧
    NoDup (List.filter f ids ++ [])) = forallb f ids) as Hplain.
  { rewrite app_nil_r. apply eq_true_iff_eq. rewrite bool_decide_eq_true, forallb_forall. split.
    - intros [E _] x Hx. assert (List.filter (λ x, negb (f x)) ids = []) as En
        by (apply length_zero_iff_nil; lia).
      destruct (f x) eqn:Ef; [done|]. exfalso.
      assert (x ∈ List.filter (λ x, negb (f x)) ids) as Hx2
        by (apply elem_of_List_filter; rewrite Ef; split; [done|by apply list_elem_of_In]).
      rewrite En in Hx2. set_solver +Hx2.
    - intros Hall. rewrite forallb_filter_id by (by apply forallb_forall).
      split; [done|by apply NoDup_node_ids]. }
  destruct (quorum_strategy _); [|exact Hplain..].
  apply bool_decide_eq_true. cbn [active_nodes isolated_nodes majority_quorum].
  rewrite length_app. split; [exact Hl|]. apply NoDup_app.
  split; [by apply NoDup_List_filter_ids|]. split; [|by apply NoDup_List_filter_ids].
  intros x [E1 _]%elem_of_List_filter [E2 _]%elem_of_List_filter. by rewrite E1 in E2.
Qed.

Lemma validate_own_decision_witness :
  let d := hears SplitBrainConfig_default {[ "a"; "b" ]} {[ "c" ]} in
  validate_quorum_decision (calculate_quorum elements d) (node_ids elements d) = true.
Proof.
  intros d. exact (validate_own_decision elements d elements_enumerates_once).
Defined.
