(* ===== verification/SplitBrainRuns.v ===== *)
(** * SplitBrainRuns: what runs of the split-brain detector keep

    The calls on a detector and the steps of its two threads, in any order. *)

From Stdlib Require Import Ascii String ZArith NArith Lia.
From stdpp Require Import base numbers list strings gmap pretty fin_sets.
From S2P Require Import Prelude OrdMap Types Files Search SplitBrain Partitions Quorum.

Section runs.
Context (order_nodes : gset NodeId → list NodeId).

Inductive sb_call :=
  | SbStart (config : SplitBrainConfig)
  | SbStop
  | SbAdd (node : NodeId)
  | SbRemove (node : NodeId)
  | SbUpdate (node : NodeId) (alive : bool) (seen : Z)
  | SbHeartbeat (from to : NodeId) (timestamp : Z)
  | SbCheckQuorum
  | SbMerge
  | SbIsolate (node : NodeId) (why : string)
  | SbRestore (node : NodeId)
  | SbSetHandler (handler : option (list SbEvent))
  | SbUpdateConfig (config : SplitBrainConfig)
  | SbDetectionCheck
  | SbDetectionTurn
  | SbRecoveryCheck
  | SbRecoveryTurn.

Definition sb_ignore {A} (m : M SbSt A) : M SbSt unit := _ ← m; mret tt.

Definition sb_run (call : sb_call) : M SbSt unit :=
  match call with
  | SbStart config => sb_ignore (sb_start config)
  | SbStop => sb_ignore (sb_stop_threads order_nodes)
  | SbAdd node => add_node node
  | SbRemove node => remove_node node
  | SbUpdate node alive seen => update_node_status node alive seen
  | SbHeartbeat from to timestamp => process_heartbeat from to timestamp
  | SbCheckQuorum => sb_ignore (check_quorum order_nodes)
  | SbMerge => sb_ignore force_merge_partitions
  | SbIsolate node why => sb_ignore (isolate_node node why)
  | SbRestore node => sb_ignore (restore_node node)
  | SbSetHandler handler => sb_set_event_handler handler
  | SbUpdateConfig config => sb_update_config config
  | SbDetectionCheck => detection_check
  | SbDetectionTurn => detection_loop_turn order_nodes
  | SbRecoveryCheck => recovery_check
  | SbRecoveryTurn => recovery_loop_turn
  end.

Definition sb_runs (calls : list sb_call) : M SbSt unit := mfor sb_run calls.
End runs.

(** ** Relations between the states of a detector *)

Definition on_detector (R : relation Detector) : relation SbSt := λ s s', R s.2 s'.2.

#[export] Instance on_detector_preorder R `{!PreOrder R} : PreOrder (on_detector R).
Proof.
  split; [intros s; unfold on_detector; reflexivity|].
  intros s t u. unfold on_detector. intros. by trans t.2.
Qed.

Lemma respects_on_sb (R : relation Detector) f :
  (∀ d, R d (f d)) → respects (on_detector R) (on_sb f).
Proof. intros H. apply respects_step. intros s. eexists _, _. split; [reflexivity|]. apply H. Qed.

Lemma respects_sb_now R `{!PreOrder R} : respects (on_detector R) sb_now.
Proof.
  apply respects_step. intros [c d]. eexists _, _. split; [reflexivity|].
  unfold on_detector. cbn. reflexivity.
Qed.

(** What every step of the detector keeps follows from what its assignments
    keep. *)
Class DetectorFrame (R : relation Detector) := {
  df_preorder :: PreOrder R;
  df_mutex b d : R d (sb_set_mutex b d);
  df_handler h d : R d (sb_set_handler h d);
  df_threads r s t u d : R d (sb_set_threads r s t u d)
}.

Section frames.
Context (R : relation Detector) `{!DetectorFrame R}.

Lemma frame_set_owned b s : on_detector R s (set_owned b s).
Proof. destruct s as [c d]. apply df_mutex. Qed.

Lemma frame_sb_notify e : respects (on_detector R) (sb_notify e).
Proof. apply respects_on_sb. intros d. destruct (sb_handler d); [apply df_handler|reflexivity]. Qed.

Lemma frame_are_nodes_connected a b : respects (on_detector R) (are_nodes_connected a b).
Proof.
  unfold are_nodes_connected. pose proof (respects_sb_now R). respects_tac.
Qed.

Lemma frame_find_connected_components order_nodes :
  respects (on_detector R) (find_connected_components order_nodes).
Proof.
  unfold find_connected_components.
  apply respects_bind; [apply _|apply respects_gets; apply _|]. intros d.
  apply respects_components; [apply _|apply frame_are_nodes_connected].
Qed.

Lemma frame_all_connected ps : respects (on_detector R) (all_connected ps).
Proof.
  induction ps as [|[a b] ps IH]; cbn [all_connected]; [apply respects_ret, _|].
  pose proof (frame_are_nodes_connected a b). respects_tac.
Qed.

Lemma frame_any_connected ps : respects (on_detector R) (any_connected ps).
Proof.
  induction ps as [|[a b] ps IH]; cbn [any_connected]; [apply respects_ret, _|].
  pose proof (frame_are_nodes_connected a b). respects_tac.
Qed.
End frames.

#[export] Hint Extern 1 (DetectorFrame _) => apply _ : respects.
#[export] Hint Resolve respects_sb_now frame_set_owned frame_sb_notify frame_are_nodes_connected
  frame_find_connected_components frame_all_connected frame_any_connected : respects.

Ltac on_sb_tac := respects_tac; try (apply respects_on_sb; intros []).

Section frame_calls.
Context (order_nodes : gset NodeId → list NodeId).
Context (R : relation Detector) `{!DetectorFrame R}.
Context (Hnodes : ∀ now d, R d (sb_set_nodes (check_heartbeat now (sb_config d) <$> nodes_ d)
                                  (isolated_nodes_ d) d)).
Context (Hrecord : ∀ p d, R d (sb_set_partitions (detected_partitions_ d ++ [p]) d)).

Lemma frame_detect_network_partitions : respects (on_detector R) (detect_network_partitions order_nodes).
Proof using All.
  unfold detect_network_partitions, record_partition, handle_partition_detected,
    notify_split_brain_detected. respects_tac; apply respects_on_sb; auto.
Qed.

Lemma frame_record_partition now p : respects (on_detector R) (record_partition now p).
Proof using All.
  unfold record_partition, handle_partition_detected, notify_split_brain_detected.
  respects_tac. apply respects_on_sb. auto.
Qed.
End frame_calls.

(** ** The status *)

(** The status changes at most to one with [X]. *)
Definition status_to (X : SplitBrainStatus.t → Prop) : relation Detector :=
  λ d d', status_ d' = status_ d ∨ X (status_ d').

#[export] Instance status_to_preorder X : PreOrder (status_to X).
Proof.
  split; [intros d; by left|]. unfold status_to. intros a b c [E1|H1] [E2|H2]; auto.
  - left. congruence.
  - right. congruence.
Qed.

#[export] Instance status_to_frame X : DetectorFrame (status_to X).
Proof. split; [apply _|by left..]. Qed.

(** Which status a call may set; a stop lets the turns in progress end. *)
Definition may_set (call : sb_call) (st st' : SplitBrainStatus.t) : Prop :=
  match call with
  | SbStart _ | SbMerge | SbRecoveryTurn => st' = SplitBrainStatus.HEALTHY
  | SbDetectionTurn => st' = SplitBrainStatus.CONFIRMED
  | SbRecoveryCheck => st = SplitBrainStatus.CONFIRMED ∧ st' = SplitBrainStatus.RECOVERING
  | SbStop => st' = SplitBrainStatus.HEALTHY ∨ st' = SplitBrainStatus.CONFIRMED
  | _ => False
  end.

Section status.
Context (order_nodes : gset NodeId → list NodeId).

Abbreviation keeps X := (respects (on_detector (status_to X))).

Lemma status_detection_turn (X : SplitBrainStatus.t → Prop) :
  X SplitBrainStatus.CONFIRMED → keeps X (detection_turn order_nodes).
Proof.
  intros HX. pose proof (frame_detect_network_partitions order_nodes (status_to X)
    (λ _ _, or_introl eq_refl) (λ _ _, or_introl eq_refl)).
  unfold detection_turn, isolate_node, notify_node_isolated, notify_quorum_lost. on_sb_tac.
  all: first [by left|right; exact HX].
Qed.

Lemma status_update_loop X now ps : keeps X (update_loop now ps).
Proof.
  induction ps as [|p ps IH]; cbn [update_loop];
    unfold handle_partition_resolved, notify_split_brain_resolved; on_sb_tac.
Qed.

Lemma status_recovery_turn (X : SplitBrainStatus.t → Prop) :
  X SplitBrainStatus.HEALTHY → keeps X recovery_turn.
Proof.
  intros HX. pose proof (status_update_loop X).
  unfold recovery_turn, update_partition_status, notify_quorum_restored. on_sb_tac.
  all: first [by left|right; exact HX].
Qed.
End status.

Lemma status_merge_loop X ps : respects (on_detector (status_to X)) (merge_loop ps).
Proof.
  induction ps as [|p ps IH]; cbn [merge_loop];
    unfold handle_partition_resolved, notify_split_brain_resolved; on_sb_tac.
Qed.


(** The bodies of the calls. *)
Ltac sb_unfold :=
  cbn [sb_run]; unfold sb_ignore, sb_start, sb_stop_threads, join_detection, join_recovery,
    add_node, remove_node, update_node_status, process_heartbeat, check_quorum,
    force_merge_partitions, restore_node,
    sb_set_event_handler, sb_update_config, detection_check, detection_loop_turn,
    recovery_loop_turn.

Lemma status_run order_nodes st call :
  call ≠ SbRecoveryCheck →
  respects (on_detector (status_to (may_set call st))) (sb_run order_nodes call).
Proof.
  intros Hne. pose proof status_merge_loop.
  destruct call; try done; sb_unfold; unfold isolate_node; on_sb_tac; cbn [may_set].
  all: first [apply status_detection_turn; cbn; by auto|apply status_recovery_turn; cbn; by auto
             |repeat case_match; first [by left|by right]].
Qed.

(** C14. The status of the detector is a state machine: every call makes only
    the transitions listed for it, so SUSPECTED and ISOLATED are never entered,
    and RECOVERING only from CONFIRMED, by the recovery thread. *)
Theorem sb_status_machine order_nodes call c d c' d' :
  sb_run order_nodes call (c, d) = Returns tt (c', d') →
  status_ d' = status_ d ∨ may_set call (status_ d) (status_ d').
Proof.
  intros H.
  assert (call = SbRecoveryCheck ∨ call ≠ SbRecoveryCheck) as [->|Hne]
    by (destruct call; auto; right; discriminate).
  - unfold sb_run, recovery_check, on_sb, modify in H. cbn [fst snd] in H. injection H as <- <-.
    destruct (recovery_thread_ d) as [[]|]; [|by left..].
    destruct (sb_stop d); [by left|]. destruct (_ && _) eqn:E; [|by left].
    apply andb_true_iff in E as [_ E%bool_decide_eq_true]. right. by split.
  - apply (respects_returns _ _ _ _ _ (status_run order_nodes (status_ d) call Hne)) in H.
    exact H.
Qed.

(** The detector starts, finds a split without quorum, and starts to recover. *)
Definition split_state : SbSt :=
  let d := hears SplitBrainConfig_default {[ "a" ]} {[ "b" ]} in
  (MkClock (λ _, 0%Z) 0, sb_set_status SplitBrainStatus.CONFIRMED
     (sb_set_threads true false (Some AtCheck) (Some AtCheck) d)).

Lemma sb_status_machine_witness :
  ∃ c' d', sb_run elements SbRecoveryCheck split_state = Returns tt (c', d') ∧
    (status_ d' = SplitBrainStatus.CONFIRMED ∨
     may_set SbRecoveryCheck SplitBrainStatus.CONFIRMED (status_ d')).
Proof.
  eexists _, _. split; [reflexivity|].
  apply (sb_status_machine elements SbRecoveryCheck split_state.1 split_state.2
    split_state.1 (sb_set_threads true false (Some AtCheck) (Some InTurn)
       (sb_set_status SplitBrainStatus.RECOVERING split_state.2))).
  reflexivity.
Defined.

(** ** Isolation *)

(** [isolated_nodes_] repeats what the flags of the nodes say. *)
Definition isolation_agrees (d : Detector) : Prop :=
  ∀ n, n ∈ isolated_nodes_ d ↔ ∃ st, nodes_ d !! n = Some st ∧ is_isolated st = true.

Definition isolation_kept : relation Detector := λ d d', isolation_agrees d → isolation_agrees d'.

#[export] Instance isolation_kept_preorder : PreOrder isolation_kept.
Proof. unfold isolation_kept. split; [intros d H; exact H|intros a b c; auto]. Qed.

#[export] Instance isolation_kept_frame : DetectorFrame isolation_kept.
Proof. split; [apply _|intros; intros H; exact H..]. Qed.

Lemma isolation_heartbeats now d :
  isolation_kept d (sb_set_nodes (check_heartbeat now (sb_config d) <$> nodes_ d)
                      (isolated_nodes_ d) d).
Proof.
  intros H n. cbn [isolated_nodes_ nodes_ sb_set_nodes]. rewrite (H n), lookup_fmap. split.
  - intros (st & E & Hi). exists st. rewrite E. cbn. unfold check_heartbeat. by rewrite Hi.
  - intros (st' & (st & E & ->)%fmap_Some & Hi). exists st. split; [done|].
    revert Hi. unfold check_heartbeat. destruct (is_isolated st) eqn:Ei; [done|].
    destruct (_ <? _)%Z; cbn; congruence.
Qed.

(** Changing a node of the table without its flag, or with it the set. *)
Lemma isolation_insert n st iso d :
  (is_isolated st = true ∧ iso = {[n]} ∪ isolated_nodes_ d ∨
   is_isolated st = false ∧ iso = isolated_nodes_ d ∖ {[n]} ∨
   iso = isolated_nodes_ d ∧ ∃ st0, nodes_ d !! n = Some st0 ∧ is_isolated st = is_isolated st0) →
  isolation_kept d (sb_set_nodes (<[n := st]> (nodes_ d)) iso d).
Proof.
  intros Hc H m. cbn [isolated_nodes_ nodes_ sb_set_nodes]. rewrite lookup_insert.
  case_decide as Hm.
  - subst m. transitivity (is_isolated st = true); [|naive_solver].
    destruct Hc as [[E ->]|[[E ->]|[-> (st0 & E0 & E)]]]; rewrite E.
    + set_solver +.
    + split; [set_solver +|done].
    + rewrite (H n), E0. naive_solver.
  - rewrite <- (H m). destruct Hc as [[_ ->]|[[_ ->]|[-> _]]]; set_solver +Hm.
Qed.

Lemma isolation_delete n d :
  isolation_kept d (sb_set_nodes (delete n (nodes_ d)) (isolated_nodes_ d ∖ {[n]}) d).
Proof.
  intros H m. cbn [isolated_nodes_ nodes_ sb_set_nodes]. rewrite lookup_delete.
  case_decide as Hm; [subst; set_solver +|]. rewrite <- (H m). set_solver +Hm.
Qed.

Lemma isolation_isolate_node n why : respects (on_detector isolation_kept) (isolate_node n why).
Proof.
  unfold isolate_node, notify_node_isolated.
  apply respects_guarded; [apply _|apply frame_set_owned, _|].
  apply (respects_gets_then (on_detector isolation_kept)). intros s.
  destruct (nodes_ s.2 !! n) as [st|] eqn:E; [|by apply respects_ret; apply _].
  apply (respects_modify_then (on_detector isolation_kept)); [|respects_tac].
  apply isolation_insert. by left.
Qed.

Lemma isolation_detection_turn order_nodes :
  respects (on_detector isolation_kept) (detection_turn order_nodes).
Proof.
  pose proof isolation_isolate_node.
  pose proof (frame_detect_network_partitions order_nodes isolation_kept isolation_heartbeats
    (λ _ _ H, H)).
  unfold detection_turn, notify_quorum_lost. on_sb_tac. intros H2. exact H2.
Qed.

Lemma isolation_merge_loop ps : respects (on_detector isolation_kept) (merge_loop ps).
Proof.
  induction ps as [|p ps IH]; cbn [merge_loop];
    unfold handle_partition_resolved, notify_split_brain_resolved; on_sb_tac.
Qed.

Lemma isolation_update_loop now ps : respects (on_detector isolation_kept) (update_loop now ps).
Proof.
  induction ps as [|p ps IH]; cbn [update_loop];
    unfold handle_partition_resolved, notify_split_brain_resolved; on_sb_tac.
Qed.

Lemma isolation_recovery_turn : respects (on_detector isolation_kept) recovery_turn.
Proof.
  pose proof isolation_update_loop.
  unfold recovery_turn, update_partition_status, notify_quorum_restored. on_sb_tac; intros H2; exact H2.
Qed.

Lemma isolation_run order_nodes call :
  (∀ n, call ≠ SbAdd n) → respects (on_detector isolation_kept) (sb_run order_nodes call).
Proof.
  intros Hne. pose proof isolation_merge_loop. pose proof isolation_isolate_node.
  pose proof (isolation_detection_turn order_nodes). pose proof isolation_recovery_turn.
  destruct call; try (by destruct (Hne node)); sb_unfold;
    respects_tac; try apply respects_on_sb; intros d.
  all: first [solve [repeat case_match; intros Hd; exact Hd]|apply isolation_delete|idtac].
  all: destruct (nodes_ d !! _) as [st|] eqn:E; [|by intros Hd].
  all: apply isolation_insert; first [by right; left|right; right; split; [done|by exists st]].
Qed.

(** C32. Every call that returns, but one, keeps isolated_nodes_ and the flags
    of the nodes in agreement. The one is adding a node that is isolated: it
    clears the flag but leaves the node in the set. The node then waits for its
    next heartbeat to count for the quorum, and when that has been processed it
    does count, while isolated_nodes_ still holds it. *)
Theorem isolation_agreement order_nodes call c d c' d' :
  isolation_agrees d → sb_run order_nodes call (c, d) = Returns tt (c', d') →
  (isolation_agrees d' ↔ ¬ ∃ n, call = SbAdd n ∧ n ∈ isolated_nodes_ d) ∧
  (∀ n, call = SbAdd n → n ∈ isolated_nodes_ d → counts_as_alive d' n = false ∧
   ∀ to timestamp c2 d2, sb_run order_nodes (SbHeartbeat n to timestamp) (c', d') =
       Returns tt (c2, d2) → counts_as_alive d2 n = true ∧ n ∈ isolated_nodes_ d2).
Proof.
  intros Hd H.
  assert ((∃ n, call = SbAdd n) ∨ ∀ n, call ≠ SbAdd n) as [[n ->]|Hne]
    by (destruct call; eauto; right; discriminate).
  - unfold sb_run, add_node, guarded, on_sb, modify in H. cbn [owned Detector_mutex snd] in H.
    destruct (sb_mutex d); [done|]. cbn in H. injection H as <- <-. split; [split|].
    + intros Hd' (m & [= <-] & Hn). assert (n ∈ isolated_nodes_ d) as Hn2 by done.
      apply (Hd' n) in Hn2 as (st & Hst & Hi). cbn in Hst.
      rewrite lookup_insert_eq in Hst. by simplify_eq.
    + intros Hn. assert (isolation_kept d (sb_set_nodes (<[n := NodeStatus_new n]> (nodes_ d))
        (isolated_nodes_ d) d)) as Hk; [|exact (Hk Hd)].
      apply isolation_insert. right. left. split; [done|].
      assert (n ∉ isolated_nodes_ d) by eauto. set_solver.
    + intros m [= <-] Hn. unfold counts_as_alive. cbn [nodes_ sb_set_nodes sb_set_mutex].
      rewrite lookup_insert_eq. split; [done|]. intros to timestamp c2 d2.
      unfold sb_run, process_heartbeat, guarded, on_sb, modify. cbn [owned Detector_mutex].
      cbn -[lookup insert]. rewrite lookup_insert_eq. intros [= <- <-].
      cbn [nodes_ sb_set_nodes sb_set_mutex isolated_nodes_]. by rewrite lookup_insert_eq.
  - split; [|intros n ->; by destruct (Hne n)].
    split; [intros _ (n & -> & _); by apply (Hne n)|]. intros _.
    apply (respects_returns _ _ _ _ _ (isolation_run order_nodes call Hne)) in H. by apply H.
Qed.

(** An isolated node is added again, and heard from. *)
Lemma isolation_agreement_witness :
  let d := sb_set_nodes {[ "a" := MkNodeStatus "a" true 0 0 0 true "why" ]} {[ "a" ]} Detector_new in
  let d' := sb_set_nodes {[ "a" := NodeStatus_new "a" ]} {[ "a" ]} Detector_new in
  let c := MkClock (λ _, 0%Z) 0 in
  isolation_agrees d ∧
  (isolation_agrees d' ↔ ¬ ∃ n, SbAdd "a" = SbAdd n ∧ n ∈ isolated_nodes_ d) ∧
  (∀ n, SbAdd "a" = SbAdd n → n ∈ isolated_nodes_ d → counts_as_alive d' n = false ∧
   ∀ to timestamp c2 d2, sb_run elements (SbHeartbeat n to timestamp) (c, d') =
       Returns tt (c2, d2) → counts_as_alive d2 n = true ∧ n ∈ isolated_nodes_ d2).
Proof.
  intros d d' c. assert (isolation_agrees d) as Hd.
  { intros n. cbn [d sb_set_nodes nodes_ isolated_nodes_].
    rewrite elem_of_singleton, lookup_singleton. split.
    - intros ->. rewrite decide_True by done. eauto.
    - intros (st & E & _). case_decide; [done|discriminate]. }
  split; [exact Hd|].
  apply (isolation_agreement elements (SbAdd "a") c d c d' Hd).
  vm_compute. reflexivity.
Defined.

(** ** Recorded partitions *)

(** What identifies an entry of [detected_partitions_]. *)
Definition partition_key (p : NetworkPartition) : list NodeId * list NodeId * Z :=
  (partition_a p, partition_b p, detected_at p).
Definition recorded (d : Detector) : list (list NodeId * list NodeId * Z) :=
  map partition_key (detected_partitions_ d).

Definition record_grows : relation Detector := λ d d', recorded d `prefix_of` recorded d'.
Definition same_partitions : relation Detector :=
  λ d d', detected_partitions_ d' = detected_partitions_ d.

#[export] Instance record_grows_preorder : PreOrder record_grows.
Proof. unfold record_grows. split; [intros d; reflexivity|intros a b c; apply transitivity]. Qed.

#[export] Instance record_grows_frame : DetectorFrame record_grows.
Proof. split; [apply _|intros; unfold record_grows; reflexivity..]. Qed.

#[export] Instance same_partitions_preorder : PreOrder same_partitions.
Proof. unfold same_partitions. split; [by intros d|]. intros a b c. congruence. Qed.

#[export] Instance same_partitions_frame : DetectorFrame same_partitions.
Proof. by split; [apply _|..]. Qed.

Lemma same_partitions_grows d d' : same_partitions d d' → record_grows d d'.
Proof. unfold same_partitions, record_grows, recorded. by intros ->. Qed.

Lemma record_partition_grows p d :
  record_grows d (sb_set_partitions (detected_partitions_ d ++ [p]) d).
Proof.
  unfold record_grows, recorded. cbn [detected_partitions_ sb_set_partitions].
  rewrite map_app. by apply prefix_app_r.
Qed.

Lemma update_loop_same now ps : respects (on_detector same_partitions) (update_loop now ps).
Proof.
  induction ps as [|p ps IH]; cbn [update_loop];
    unfold handle_partition_resolved, notify_split_brain_resolved; on_sb_tac.
Qed.

Lemma update_loop_keys now ps s ps' s' :
  update_loop now ps s = Returns ps' s' → map partition_key ps' = map partition_key ps.
Proof.
  revert s ps' s'. induction ps as [|p ps IH]; intros s ps' s'; cbn [update_loop].
  { by intros [= <- _]. }
  destruct (resolved p).
  - intros (rest & s1 & E & [= <- _])%M_bind_returns. cbn. f_equal. by apply (IH s rest s1).
  - intros (b1 & s1 & _ & H)%M_bind_returns. apply M_bind_returns in H as (b2 & s2 & _ & H).
    apply M_bind_returns in H as (b3 & s3 & _ & H). destruct b3.
    + apply M_bind_returns in H as ([] & s4 & _ & H).
      apply M_bind_returns in H as (rest & s5 & E & [= <- _]). cbn. f_equal. by apply (IH s4 rest s5).
    + apply M_bind_returns in H as (rest & s5 & E & [= <- _]). cbn. f_equal. by apply (IH s3 rest s5).
Qed.

Lemma update_partition_status_grows : respects (on_detector record_grows) update_partition_status.
Proof.
  unfold update_partition_status.
  apply respects_bind; [apply _|apply respects_sb_now; apply _|]. intros now.
  apply (respects_gets_then (on_detector record_grows)). intros s.
  pose proof (update_loop_same now (detected_partitions_ s.2) s) as [_ H].
  unfold respects_from, wlp, throws_in, mbind, M_bind in *.
  destruct (update_loop _ _ _) as [ps s1|n s1|u] eqn:E; [|by split; [|apply same_partitions_grows]|done].
  unfold on_sb, modify, on_detector, record_grows, recorded. split; [|done].
  cbn [snd detected_partitions_ sb_set_partitions]. by rewrite (update_loop_keys _ _ _ _ _ E).
Qed.

Lemma grows_detection_turn order_nodes : respects (on_detector record_grows) (detection_turn order_nodes).
Proof.
  pose proof (frame_detect_network_partitions order_nodes record_grows
    (λ _ _, same_partitions_grows _ _ eq_refl) record_partition_grows).
  unfold detection_turn, isolate_node, notify_node_isolated, notify_quorum_lost. on_sb_tac.
  all: by apply same_partitions_grows.
Qed.

Lemma grows_recovery_turn : respects (on_detector record_grows) recovery_turn.
Proof.
  pose proof update_partition_status_grows.
  unfold recovery_turn, notify_quorum_restored. on_sb_tac. by apply same_partitions_grows.
Qed.

Lemma grows_run order_nodes call :
  call ≠ SbMerge → respects (on_detector record_grows) (sb_run order_nodes call).
Proof.
  intros Hne. pose proof (grows_detection_turn order_nodes). pose proof grows_recovery_turn.
  destruct call; try done; sb_unfold; unfold isolate_node, notify_node_isolated; on_sb_tac.
  all: apply same_partitions_grows; unfold same_partitions; by repeat case_match.
Qed.

Lemma grows_runs order_nodes calls :
  SbMerge ∉ calls → respects (on_detector record_grows) (sb_runs order_nodes calls).
Proof.
  unfold sb_runs. induction calls as [|call calls IH]; intros Hne; cbn [mfor].
  - apply respects_ret, _.
  - apply not_elem_of_cons in Hne as [Hcall Hcalls].
    apply respects_bind; [apply _|by apply grows_run|]. intros _. by apply IH.
Qed.

Lemma record_partition_returns now p s : ∃ s', record_partition now p s = Returns tt s'.
Proof. destruct s as [c d]. unfold record_partition. cbn. eauto. Qed.

Lemma mfor_returns {S A} (f : A → M S unit) l s :
  (∀ x s, ∃ s', f x s = Returns tt s') → ∃ s', mfor f l s = Returns tt s'.
Proof.
  intros Hf. revert s. induction l as [|x l IH]; intros s; [by exists s|]. cbn [mfor].
  destruct (Hf x s) as [s1 E]. mstep E. apply IH.
Qed.

Lemma detect_network_partitions_returns order_nodes s :
  enumerates_once order_nodes → ∃ s', detect_network_partitions order_nodes s = Returns tt s'.
Proof.
  intros Ho. destruct s as [c d]. unfold detect_network_partitions.
  set (d1 := sb_set_nodes (check_heartbeat (tick c).1 (sb_config d) <$> nodes_ d)
               (isolated_nodes_ d) d).
  destruct (find_connected_components_partition order_nodes Ho d1 (tick c).2)
    as (found & c' & E & _).
  assert ((sb_now ≫= (λ now, on_sb (λ d0, sb_set_nodes (check_heartbeat now (sb_config d0) <$> nodes_ d0)
     (isolated_nodes_ d0) d0))) (c, d) = Returns tt ((tick c).2, d1)) as Hstart by done.
  apply M_bind_returns in Hstart as (now & s1 & E1 & E2). mstep E1. mstep E2. mstep E.
  destruct (_ <? _)%N; [|by eexists]. apply mfor_returns, record_partition_returns.
Qed.

Lemma detect_split_brain_recorded d : detect_split_brain d = true ↔ recorded d ≠ [].
Proof.
  unfold detect_split_brain, recorded. rewrite negb_true_iff, bool_decide_eq_false.
  destruct (detected_partitions_ d); by split.
Qed.

Lemma split_grows d d' :
  record_grows d d' → detect_split_brain d = true → detect_split_brain d' = true.
Proof.
  intros [l E] H%detect_split_brain_recorded. apply detect_split_brain_recorded. rewrite E.
  by destruct (recorded d).
Qed.

(** C33. The detector never forgets a partition, resolved or not, unless
    force_merge_partitions is called: after any other calls it is still
    recorded, a split is still reported, and the next turn of the detection
    thread that sees no quorum confirms a split brain again. *)
Theorem split_never_forgotten order_nodes calls c d c' d' :
  enumerates_once order_nodes → SbMerge ∉ calls → detect_split_brain d = true →
  sb_runs order_nodes calls (c, d) = Returns tt (c', d') →
  recorded d `prefix_of` recorded d' ∧ detect_split_brain d' = true ∧
  ∃ c1 d1, detect_network_partitions order_nodes (c', d') = Returns tt (c1, d1) ∧
    (has_quorum (calculate_quorum order_nodes d1) = false →
     ∃ c2 d2, detection_turn order_nodes (c', d') = Returns tt (c2, d2) ∧
       status_ d2 = SplitBrainStatus.CONFIRMED).
Proof.
  intros Ho Hm Hd H. apply (respects_returns _ _ _ _ _ (grows_runs order_nodes calls Hm)) in H.
  pose proof (split_grows d d' H Hd) as Hd'. split_and!; [exact H|done|].
  destruct (detect_network_partitions_returns order_nodes (c', d') Ho) as [[c1 d1] E].
  exists c1, d1. split; [done|]. intros Hq. unfold detection_turn. mstep E.
  assert (detect_split_brain d1 = true) as Hd1.
  { refine (split_grows d' d1 _ Hd').
    apply (respects_returns (on_detector record_grows) _ _ _ _
      (frame_detect_network_partitions order_nodes record_grows
        (λ _ _, same_partitions_grows _ _ eq_refl) record_partition_grows) E). }
  rewrite M_bind_gets. cbn [snd]. rewrite Hd1, M_bind_gets. cbn [snd]. rewrite Hq.
  eexists _, _. split; [reflexivity|]. cbn [status_ sb_set_status]. by destruct (sb_handler _).
Qed.

(** ** Stopping *)

(** stop joins the detection thread with the mutex held. If that thread is in a
    turn in which it finds a recorded partition, a majority and a node to
    isolate, it needs the mutex itself, and stop never returns. *)
Theorem stop_waits_for_ever order_nodes c d c1 d1 :
  sb_running d = true → sb_mutex d = false → detection_thread_ d = Some InTurn →
  quorum_strategy (sb_config d1) = QuorumStrategy.MAJORITY →
  detect_network_partitions order_nodes
    (c, sb_set_threads true true (Some InTurn) (recovery_thread_ d) (sb_set_mutex true d))
    = Returns tt (c1, d1) →
  sb_mutex d1 = true → detect_split_brain d1 = true →
  has_quorum (majority_quorum order_nodes d1) = true →
  isolated_nodes (majority_quorum order_nodes d1) ≠ [] →
  sb_stop_threads order_nodes (c, d) = Undefined JoinBlocked.
Proof.
  intros Hr Hm Ht Hs E Hm1 Hd1 Hq Hi.
  assert (detection_turn order_nodes
    (c, sb_set_threads true true (Some InTurn) (recovery_thread_ d) (sb_set_mutex true d))
    = Throws DetectorMutex (c1, d1)) as Hturn.
  { unfold detection_turn. mstep E. rewrite M_bind_gets. cbn [snd]. rewrite Hd1, M_bind_gets.
    cbn [snd]. unfold calculate_quorum. rewrite Hs, Hq.
    destruct (isolated_nodes _) as [|node l]; [done|]. cbn [mfor].
    apply M_bind_throws, M_bind_throws. unfold isolate_node. by rewrite guarded_relock. }
  unfold sb_stop_threads, guarded. cbn [owned set_owned Detector_mutex fst snd]. rewrite Hm.
  rewrite M_bind_gets. cbn [snd sb_running sb_set_mutex]. rewrite Hr. cbn [negb].
  unfold on_sb. rewrite M_bind_modify. cbn [fst snd].
  rewrite (M_bind_undefined (join_detection order_nodes) _ _ JoinBlocked); [done|].
  unfold join_detection. rewrite M_bind_gets. destruct d as [cf h ns ps iso st r dt rt stop mx].
  cbn in Hr, Ht, Hturn |- *. subst. unfold joining. unfold sb_set_mutex in *. cbn in *. by rewrite Hturn.
Qed.

(** A detector of three nodes, with a partition that was resolved long ago. *)
Definition healed_state : SbSt :=
  let d := hears SplitBrainConfig_default {[ "a"; "b" ]} {[ "c" ]} in
  (MkClock (λ _, 0%Z) 0, sb_set_partitions [MkPartition ["a"; "b"] ["c"] 0 (Some 7%Z) true]
     (sb_set_threads true false (Some AtCheck) (Some AtCheck) d)).

Definition state_of {A} (m : M SbSt A) (s : SbSt) : SbSt :=
  match m s with Returns _ s' => s' | _ => s end.

Definition healed_calls : list sb_call := [SbHeartbeat "c" "a" 5; SbDetectionCheck].
Definition healed_later : SbSt := state_of (sb_runs elements healed_calls) healed_state.

Lemma split_never_forgotten_witness :
  recorded healed_state.2 `prefix_of` recorded healed_later.2 ∧ detect_split_brain healed_later.2 = true ∧
  ∃ c1 d1, detect_network_partitions elements (healed_later.1, healed_later.2) = Returns tt (c1, d1) ∧
    (has_quorum (calculate_quorum elements d1) = false →
     ∃ c2 d2, detection_turn elements (healed_later.1, healed_later.2) = Returns tt (c2, d2) ∧
       status_ d2 = SplitBrainStatus.CONFIRMED).
Proof.
  apply (split_never_forgotten elements healed_calls healed_state.1 healed_state.2
    healed_later.1 healed_later.2 elements_enumerates_once).
  - intros H. inversion H as [|? ? ? H2]; subst. inversion H2 as [|? ? ? H3]; subst. inversion H3.
  - vm_compute. reflexivity.
  - vm_compute. reflexivity.
Defined.

(** The detection thread is in a turn, and [stop] has set its flag. *)
Definition turning_state : Detector :=
  sb_set_threads true false (Some InTurn) (Some AtCheck) healed_state.2.
Definition stopping_state : SbSt :=
  state_of (detect_network_partitions elements)
    (healed_state.1, sb_set_threads true true (Some InTurn) (recovery_thread_ turning_state)
                       (sb_set_mutex true turning_state)).

Lemma stop_waits_for_ever_witness :
  sb_stop_threads elements (healed_state.1, turning_state) = Undefined JoinBlocked.
Proof.
  apply (stop_waits_for_ever elements healed_state.1 turning_state stopping_state.1
    stopping_state.2); vm_compute; first [reflexivity|discriminate].
Defined.
