(* ===== verification/TimeSync.v ===== *)
(** * TimeSync: [time/time_sync.cpp], the time service

    [DefaultTimeService]: the hybrid logical clock, the offsets of the other
    nodes, the Berkeley algorithm, the NTP client as far as it is written, and
    the two background threads.  A turn of a thread is one step: what other
    threads do while it sleeps inside [measure_offset_with_node] touches none
    of the variables that function uses. *)

From Stdlib Require Import Ascii String ZArith NArith Lia SpecFloat.
From stdpp Require Import base numbers list strings gmap sorting fin_sets.
From S2P Require Import Prelude Types Files Doubles.

Abbreviation NodeId := string.

(** ** Hybrid logical clocks *)

(** Nanoseconds since the epoch, and a 64-bit counter. *)
Record HybridLogicalClock := MkHlc {
  physical_time : Z;
  logical_time : N
}.

Definition hlc_ltb (a b : HybridLogicalClock) : bool :=
  if negb (physical_time a =? physical_time b)%Z
  then (physical_time a <? physical_time b)%Z
  else (logical_time a <? logical_time b)%N.
Definition hlc_eqb (a b : HybridLogicalClock) : bool :=
  (physical_time a =? physical_time b)%Z && (logical_time a =? logical_time b)%N.
Definition hlc_leb (a b : HybridLogicalClock) : bool := hlc_ltb a b || hlc_eqb a b.
Definition hlc_geb (a b : HybridLogicalClock) : bool := negb (hlc_ltb a b).

(** ** Data *)

Module TimeSyncMessageType.
Inductive t := TIME_REQUEST | TIME_RESPONSE | OFFSET_UPDATE | SYNC_HEARTBEAT.
#[global] Instance t_eq_dec : EqDecision t.
Proof. solve_decision. Defined.
End TimeSyncMessageType.

(** Durations ([estimated_offset], the fields of the next two records) are
    counts of milliseconds. *)
Record TimeSyncMessage := MkTsMessage {
  tsm_type : TimeSyncMessageType.t;
  from_node : NodeId;
  to_node : NodeId;
  send_time : Z;
  receive_time : Z;
  response_time : Z;
  estimated_offset : Z;
  round_trip_time : Z
}.

Record ClockOffsetInfo := MkOffset {
  oi_node_id : NodeId;
  offset : Z;
  uncertainty : Z;
  last_sync : Z;
  sync_count : N;
  confidence : double
}.

Record TimeSyncConfig := MkTsConfig {
  sync_interval : Z;
  max_clock_drift : Z;
  sync_timeout : Z;
  min_samples : N;
  enable_ntp_sync : bool;
  ntp_servers : list string;
  ntp_sync_interval : Z;
  offset_filter_alpha : double;
  max_offset_age : Z;
  enable_hybrid_logical_clock : bool
}.

Definition TimeSyncConfig_default : TimeSyncConfig :=
  MkTsConfig 5000 100 1000 3 false ["pool.ntp.org"; "time.google.com"] 300000 d_eighth 60000 true.

Inductive TsEvent :=
  | ClockDriftDetected (node : NodeId) (drift : Z)
  | TimeSyncCompleted (node : NodeId) (offset : Z)
  | TimeSyncFailed (node : NodeId) (reason : string)
  | NtpSyncCompleted (offset : Z).

Record TimeService := MkTimeService {
  ts_config : TimeSyncConfig;
  ts_handler : option (list TsEvent);
  node_offsets_ : gmap NodeId ClockOffsetInfo;
  sync_nodes_ : gset NodeId;
  local_offset_ : Z;
  logical_time_ : N;
  last_physical_time_ : Z;
  ts_running : bool;
  sync_thread_ : option thread_at;
  ntp_thread_ : option thread_at;
  ts_stop : bool;
  sync_attempts_ : N;
  sync_successes_ : N;
  sync_failures_ : N;
  ts_mutex : bool
}.

(** [DefaultTimeService()]; [now] is the reading it makes. *)
Definition TimeService_new (now : Z) : TimeService :=
  MkTimeService TimeSyncConfig_default None ∅ ∅ 0 0 now false None None false 0 0 0 false.

(** The clock and the numbers [std::rand()] returns. *)
Record TsEnv := MkTsEnv {
  ts_clock : Clock;
  rand_value : nat → Z;
  draws : nat
}.

Abbreviation TsSt := (TsEnv * TimeService)%type.

Definition ts_set_offsets (os : gmap NodeId ClockOffsetInfo) (t : TimeService) : TimeService :=
  MkTimeService (ts_config t) (ts_handler t) os (sync_nodes_ t) (local_offset_ t)
    (logical_time_ t) (last_physical_time_ t) (ts_running t) (sync_thread_ t) (ntp_thread_ t)
    (ts_stop t) (sync_attempts_ t) (sync_successes_ t) (sync_failures_ t) (ts_mutex t).
Definition ts_set_nodes (ns : gset NodeId) (t : TimeService) : TimeService :=
  MkTimeService (ts_config t) (ts_handler t) (node_offsets_ t) ns (local_offset_ t)
    (logical_time_ t) (last_physical_time_ t) (ts_running t) (sync_thread_ t) (ntp_thread_ t)
    (ts_stop t) (sync_attempts_ t) (sync_successes_ t) (sync_failures_ t) (ts_mutex t).
Definition ts_set_local_offset (o : Z) (t : TimeService) : TimeService :=
  MkTimeService (ts_config t) (ts_handler t) (node_offsets_ t) (sync_nodes_ t) o
    (logical_time_ t) (last_physical_time_ t) (ts_running t) (sync_thread_ t) (ntp_thread_ t)
    (ts_stop t) (sync_attempts_ t) (sync_successes_ t) (sync_failures_ t) (ts_mutex t).
Definition ts_set_logical (h : HybridLogicalClock) (t : TimeService) : TimeService :=
  MkTimeService (ts_config t) (ts_handler t) (node_offsets_ t) (sync_nodes_ t)
    (local_offset_ t) (logical_time h) (physical_time h) (ts_running t) (sync_thread_ t)
    (ntp_thread_ t) (ts_stop t) (sync_attempts_ t) (sync_successes_ t) (sync_failures_ t)
    (ts_mutex t).
Definition ts_set_threads (running stopping : bool) (sync ntp : option thread_at)
    (t : TimeService) : TimeService :=
  MkTimeService (ts_config t) (ts_handler t) (node_offsets_ t) (sync_nodes_ t)
    (local_offset_ t) (logical_time_ t) (last_physical_time_ t) running sync ntp stopping
    (sync_attempts_ t) (sync_successes_ t) (sync_failures_ t) (ts_mutex t).
Definition ts_set_counts (attempts successes failures : N) (t : TimeService) : TimeService :=
  MkTimeService (ts_config t) (ts_handler t) (node_offsets_ t) (sync_nodes_ t)
    (local_offset_ t) (logical_time_ t) (last_physical_time_ t) (ts_running t)
    (sync_thread_ t) (ntp_thread_ t) (ts_stop t) attempts successes failures (ts_mutex t).
Definition ts_set_config (c : TimeSyncConfig) (t : TimeService) : TimeService :=
  MkTimeService c (ts_handler t) (node_offsets_ t) (sync_nodes_ t)
    (local_offset_ t) (logical_time_ t) (last_physical_time_ t) (ts_running t)
    (sync_thread_ t) (ntp_thread_ t) (ts_stop t) (sync_attempts_ t) (sync_successes_ t)
    (sync_failures_ t) (ts_mutex t).
Definition ts_set_handler (h : option (list TsEvent)) (t : TimeService) : TimeService :=
  MkTimeService (ts_config t) h (node_offsets_ t) (sync_nodes_ t)
    (local_offset_ t) (logical_time_ t) (last_physical_time_ t) (ts_running t)
    (sync_thread_ t) (ntp_thread_ t) (ts_stop t) (sync_attempts_ t) (sync_successes_ t)
    (sync_failures_ t) (ts_mutex t).
Definition ts_set_mutex (b : bool) (t : TimeService) : TimeService :=
  MkTimeService (ts_config t) (ts_handler t) (node_offsets_ t) (sync_nodes_ t)
    (local_offset_ t) (logical_time_ t) (last_physical_time_ t) (ts_running t)
    (sync_thread_ t) (ntp_thread_ t) (ts_stop t) (sync_attempts_ t) (sync_successes_ t)
    (sync_failures_ t) b.

#[export, refine] Instance TimeService_mutex : HasMutex TsSt := {|
  which_mutex := TimeServiceMutex;
  owned := λ s, ts_mutex s.2;
  set_owned := λ b s, (s.1, ts_set_mutex b s.2)
|}.
Proof. all: by intros; destruct s as [? []]. Defined.

Definition on_ts (f : TimeService → TimeService) : M TsSt unit := modify (λ s, (s.1, f s.2)).
Definition ts_now : M TsSt Z := lift (λ s,
  let '(z, c) := tick (ts_clock s.1) in (z, (MkTsEnv c (rand_value s.1) (draws s.1), s.2))).

(** [std::rand()]. *)
Definition std_rand : M TsSt Z := lift (λ s,
  (rand_value s.1 (draws s.1),
   (MkTsEnv (ts_clock s.1) (rand_value s.1) (S (draws s.1)), s.2))).

Section service.
(** The orders in which the offsets and the nodes iterate. *)
Context (order_offsets order_nodes : gset NodeId → list NodeId).

(** ** Notifications *)

Definition ts_notify (e : TsEvent) : M TsSt unit :=
  on_ts (λ t, match ts_handler t with
              | Some events => ts_set_handler (Some (events ++ [e])) t
              | None => t
              end).
Definition notify_clock_drift_detected (node : NodeId) (drift : Z) :=
  ts_notify (ClockDriftDetected node drift).
Definition notify_time_sync_completed (node : NodeId) (o : Z) :=
  ts_notify (TimeSyncCompleted node o).
Definition notify_time_sync_failed (node : NodeId) (why : string) :=
  ts_notify (TimeSyncFailed node why).
Definition notify_ntp_sync_completed (o : Z) := ts_notify (NtpSyncCompleted o).

(** ** Time *)

Definition now_synchronized : M TsSt Z :=
  current_time ← ts_now;
  gets (λ s : TsSt, current_time + local_offset_ s.2 * ns_per_ms)%Z.

(** The default constructor of a clock value reads the clock, in vain. *)
Definition increment_logical_clock : M TsSt HybridLogicalClock :=
  current_physical ← now_synchronized;
  current_logical ← gets (λ s : TsSt, logical_time_ s.2);
  _ ← ts_now;
  last ← gets (λ s : TsSt, last_physical_time_ s.2);
  let result :=
    if (last <? current_physical)%Z then MkHlc current_physical 0
    else MkHlc last (wrap64 (current_logical + 1)) in
  _ ← on_ts (ts_set_logical result);
  mret result.

Definition now_logical : M TsSt HybridLogicalClock := guarded (
  enabled ← gets (λ s : TsSt, enable_hybrid_logical_clock (ts_config s.2));
  if enabled : bool then increment_logical_clock
  else
    _ ← ts_now;
    physical ← now_synchronized;
    mret (MkHlc physical 0)).

Definition update_logical_clock (received : HybridLogicalClock) : M TsSt HybridLogicalClock :=
  guarded (
  enabled ← gets (λ s : TsSt, enable_hybrid_logical_clock (ts_config s.2));
  if negb enabled then now_logical
  else
    current_physical ← now_synchronized;
    t ← gets snd;
    let current_logical := logical_time_ t in
    let result :=
      if (physical_time received <? current_physical)%Z
      then MkHlc current_physical (wrap64 (N.max current_logical (logical_time received) + 1))
      else if (current_physical =? physical_time received)%Z
      then MkHlc current_physical (wrap64 (N.max current_logical (logical_time received) + 1))
      else
        MkHlc
          (if (max_clock_drift (ts_config t) <?
               ms_of_ns (physical_time received - current_physical))%Z
           then current_physical else physical_time received)
          (wrap64 (logical_time received + 1)) in
    _ ← on_ts (ts_set_logical result);
    _ ← ts_now;
    mret result).

(** Called from nowhere. *)
Definition update_logical_clock_from_physical : M TsSt unit :=
  current_physical ← now_synchronized;
  on_ts (λ t, if (last_physical_time_ t <? current_physical)%Z
              then ts_set_logical (MkHlc current_physical 0) t else t).

(** ** Offsets *)

Definition get_offset (node_id : NodeId) : M TsSt Z := guarded (
  gets (λ s : TsSt, match node_offsets_ s.2 !! node_id with
                    | Some info => offset info
                    | None => 0%Z
                    end)).

Definition set_offset (node_id : NodeId) (o : Z) : M TsSt (Result unit) := guarded (
  found ← gets (λ s : TsSt, node_offsets_ s.2 !! node_id);
  match found with
  | Some info =>
      now ← ts_now;
      _ ← on_ts (λ t, ts_set_offsets
            (<[node_id := MkOffset (oi_node_id info) o (uncertainty info) now
                 (wrap32 (sync_count info + 1)) (confidence info)]> (node_offsets_ t)) t);
      mret (ROk tt)
  | None =>
      _ ← ts_now;
      now ← ts_now;
      _ ← on_ts (λ t, ts_set_offsets
            (<[node_id := MkOffset node_id o 0 now 1 d0]> (node_offsets_ t)) t);
      mret (ROk tt)
  end).

(** The offsets in iteration order. *)
Definition offset_list (t : TimeService) : list ClockOffsetInfo :=
  omap (M := list) (λ n, node_offsets_ t !! n) (order_offsets (dom (node_offsets_ t))).

Definition get_all_offsets : M TsSt (list ClockOffsetInfo) :=
  guarded (gets (λ s : TsSt, offset_list s.2)).

Definition filter_offset (current new_sample : Z) : M TsSt Z :=
  alpha ← gets (λ s : TsSt, offset_filter_alpha (ts_config s.2));
  cast_int64 (dadd (dmul (dsub d1 alpha) (of_int current)) (dmul alpha (of_int new_sample))).

Definition update_offset_with_sample (node_id : NodeId) (sample sample_uncertainty : Z) :
    M TsSt unit := guarded (
  found ← gets (λ s : TsSt, node_offsets_ s.2 !! node_id);
  match found with
  | Some info =>
      filtered_offset ← filter_offset (offset info) sample;
      now ← ts_now;
      let count := wrap32 (sync_count info + 1) in
      on_ts (λ t, ts_set_offsets
        (<[node_id := MkOffset (oi_node_id info) filtered_offset sample_uncertainty now count
             (dmin d1 (ddiv (of_nat64 count) d10))]> (node_offsets_ t)) t)
  | None =>
      _ ← ts_now;
      now ← ts_now;
      on_ts (λ t, ts_set_offsets
        (<[node_id := MkOffset node_id sample sample_uncertainty now 1 d_tenth]>
           (node_offsets_ t)) t)
  end).

(** ** Synchronisation with a node *)

(** No message is sent: the response is made up from the request.  A message
    reads the clock when it is constructed. *)
Definition measure_offset_with_node (node_id : NodeId) : M TsSt (Result Z) :=
  _ ← ts_now;
  request_send_time ← ts_now;
  _ ← ts_now;
  let response_receive_time := (request_send_time + 5 * ns_per_ms)%Z in
  response_time ← ts_now;
  let rtt := (response_time - request_send_time)%Z in
  let estimated_network_delay := Z.quot rtt 2 in
  let remote_time := (response_receive_time + estimated_network_delay)%Z in
  local_time ← ts_now;
  mret (ROk (ms_of_ns (remote_time - local_time))).

Definition count_attempt (t : TimeService) : TimeService :=
  ts_set_counts (wrap64 (sync_attempts_ t + 1)) (sync_successes_ t) (sync_failures_ t) t.
Definition count_success (t : TimeService) : TimeService :=
  ts_set_counts (sync_attempts_ t) (wrap64 (sync_successes_ t + 1)) (sync_failures_ t) t.
Definition count_failure (t : TimeService) : TimeService :=
  ts_set_counts (sync_attempts_ t) (sync_successes_ t) (wrap64 (sync_failures_ t + 1)) t.

Definition sync_with_node (node_id : NodeId) : M TsSt (Result unit) :=
  _ ← on_ts count_attempt;
  measure_result ← measure_offset_with_node node_id;
  match measure_result with
  | RErr st msg => _ ← on_ts count_failure; mret (RErr st msg)
  | ROk o =>
      _ ← update_offset_with_sample node_id o 50;
      _ ← on_ts count_success;
      _ ← ts_notify (TimeSyncCompleted node_id o);
      mret (ROk tt)
  end.

(** ** NTP *)

Definition query_ntp_server (server : string) : M TsSt (Result Z) :=
  r ← std_rand;
  mret (ROk (Z.rem r 100 - 50)%Z).

Definition sync_with_ntp_server (ntp_server : string) : M TsSt (Result Z) :=
  result ← query_ntp_server ntp_server;
  match result with
  | ROk o =>
      local ← gets (λ s : TsSt, local_offset_ s.2);
      filtered_offset ← filter_offset local o;
      _ ← on_ts (ts_set_local_offset filtered_offset);
      mret result
  | RErr _ _ => mret result
  end.

(** The loop over the servers. *)
Fixpoint try_servers (servers : list string) : M TsSt (Result unit) :=
  match servers with
  | [] => mret (RErr Status.NETWORK_ERROR "Failed to sync with any NTP server")
  | server :: servers =>
      sync_result ← sync_with_ntp_server server;
      match sync_result with
      | ROk o => _ ← ts_notify (NtpSyncCompleted o); mret (ROk tt)
      | RErr _ _ => try_servers servers
      end
  end.

Definition sync_with_ntp : M TsSt (Result unit) :=
  c ← gets (λ s : TsSt, ts_config s.2);
  if negb (enable_ntp_sync c) || bool_decide (ntp_servers c = [])
  then mret (RErr Status.INVALID_ARGUMENT "NTP sync is not enabled or no servers configured")
  else try_servers (ntp_servers c).

(** ** Messages *)

(** The response is built and dropped. *)
Definition handle_time_request (message : TimeSyncMessage) : M TsSt unit :=
  _ ← ts_now;
  _ ← now_synchronized;
  _ ← now_synchronized;
  mret tt.

Definition handle_time_response (message : TimeSyncMessage) : M TsSt unit :=
  let rtt := (response_time message - send_time message)%Z in
  let estimated_delay := Z.quot rtt 2 in
  let remote_time := (receive_time message + estimated_delay)%Z in
  local_time ← now_synchronized;
  update_offset_with_sample (from_node message) (ms_of_ns (remote_time - local_time))
    (ms_of_ns (Z.quot rtt 4)).

Definition handle_offset_update (message : TimeSyncMessage) : M TsSt unit :=
  update_offset_with_sample (from_node message) (estimated_offset message) 50.

Definition handle_sync_message (message : TimeSyncMessage) : M TsSt (Result unit) := guarded (
  match tsm_type message with
  | TimeSyncMessageType.TIME_REQUEST => _ ← handle_time_request message; mret (ROk tt)
  | TimeSyncMessageType.TIME_RESPONSE => _ ← handle_time_response message; mret (ROk tt)
  | TimeSyncMessageType.OFFSET_UPDATE => _ ← handle_offset_update message; mret (ROk tt)
  | TimeSyncMessageType.SYNC_HEARTBEAT => mret (ROk tt)
  end).

(** ** Nodes and settings *)

Definition ts_add_node (node_id : NodeId) : M TsSt unit :=
  guarded (on_ts (λ t, ts_set_nodes ({[node_id]} ∪ sync_nodes_ t) t)).
Definition ts_remove_node (node_id : NodeId) : M TsSt unit := guarded (
  _ ← on_ts (λ t, ts_set_nodes (sync_nodes_ t ∖ {[node_id]}) t);
  on_ts (λ t, ts_set_offsets (delete node_id (node_offsets_ t)) t)).
Definition get_sync_nodes : M TsSt (list NodeId) :=
  guarded (gets (λ s : TsSt, order_nodes (sync_nodes_ s.2))).
Definition ts_set_event_handler (h : option (list TsEvent)) : M TsSt unit :=
  guarded (on_ts (ts_set_handler h)).
Definition ts_update_config (c : TimeSyncConfig) : M TsSt unit :=
  guarded (on_ts (ts_set_config c)).
Definition ts_get_config : M TsSt TimeSyncConfig :=
  guarded (gets (λ s : TsSt, ts_config s.2)).

(** ** Statistics *)

(** The mean of some samples, and the sample variance around it. *)
Definition dmean (xs : list double) : double := ddiv (dsum xs) (of_int (Z.of_nat (length xs))).
Definition dvariance (xs : list double) : double :=
  let mean := dmean xs in
  ddiv (dsum (map (λ x, dmul (dsub x mean) (dsub x mean)) xs))
       (of_int (Z.of_nat (length xs) - 1)).

Definition get_estimated_uncertainty : M TsSt Z := guarded (
  t ← gets snd;
  if bool_decide (node_offsets_ t = ∅) then mret 1000%Z
  else
    let offsets := map (λ info, of_int (offset info)) (offset_list t) in
    if decide (length offsets < 2) then mret 100%Z
    else cast_int64 (dsqrt (dvariance offsets))).

Definition get_sync_quality : M TsSt double :=
  uncertainty ← get_estimated_uncertainty;
  t ← gets snd;
  if (sync_attempts_ t =? 0)%N then mret d0
  else
    let success_rate := ddiv (of_nat64 (sync_successes_ t)) (of_nat64 (sync_attempts_ t)) in
    let uncertainty_factor := ddiv d1 (dadd d1 (ddiv (of_int uncertainty) d100)) in
    mret (dmul success_rate uncertainty_factor).

(** ** Drift, age and the Berkeley algorithm *)

Definition detect_clock_drift : M TsSt unit := guarded (
  t ← gets snd;
  mfor (λ n,
    match node_offsets_ t !! n with
    | Some info =>
        if (max_clock_drift (ts_config t) <? Z.abs (offset info))%Z
        then ts_notify (ClockDriftDetected n (offset info)) else mret tt
    | None => mret tt
    end) (order_offsets (dom (node_offsets_ t)))).

(** [is_expired] of an offset reads the clock itself. *)
Definition cleanup_offset (n : NodeId) : M TsSt unit :=
  found ← gets (λ s : TsSt, node_offsets_ s.2 !! n);
  match found with
  | Some info =>
      now ← ts_now;
      on_ts (λ t, if (max_offset_age (ts_config t) * ns_per_ms <? now - last_sync info)%Z
                  then ts_set_offsets (delete n (node_offsets_ t)) t else t)
  | None => mret tt
  end.
Definition cleanup_expired_offsets : M TsSt unit := guarded (
  _ ← ts_now;
  ids ← gets (λ s : TsSt, order_offsets (dom (node_offsets_ s.2)));
  mfor cleanup_offset ids).

(** The middle of a sorted list, or between the two middle ones. *)
Definition median_of (sorted : list Z) : Z :=
  let n := length sorted in
  if Nat.even n
  then Z.quot (sorted !!! (n / 2 - 1)%nat + sorted !!! (n / 2)%nat) 2
  else sorted !!! (n / 2)%nat.

(** [std::sort]. *)
Definition sort_offsets (os : list Z) : list Z := merge_sort Z.le os.

Definition berkeley_algorithm : M TsSt (Result Z) := guarded (
  t ← gets snd;
  if (N.of_nat (size (node_offsets_ t)) <? min_samples (ts_config t))%N
  then mret (RErr Status.INSUFFICIENT_DATA "Not enough offset samples")
  else
    let offsets := map offset
      (List.filter (λ info, dltb d_half (confidence info)) (offset_list t)) in
    if bool_decide (offsets = [])
    then mret (RErr Status.INSUFFICIENT_DATA "No high-confidence offset samples")
    else mret (ROk (median_of (sort_offsets offsets)))).

(** ** The threads *)

Definition sync_turn : M TsSt unit :=
  nodes ← get_sync_nodes;
  _ ← mfor (λ n, _ ← sync_with_node n; mret tt) nodes;
  c ← gets (λ s : TsSt, ts_config s.2);
  _ ← (if (min_samples c <=? N.of_nat (length nodes))%N
       then
         berkeley_result ← berkeley_algorithm;
         match berkeley_result with
         | ROk o => on_ts (ts_set_local_offset o)
         | RErr _ _ => mret tt
         end
       else mret tt);
  _ ← detect_clock_drift;
  cleanup_expired_offsets.
Definition ntp_turn : M TsSt unit := _ ← sync_with_ntp; mret tt.

Definition sync_check : M TsSt unit := on_ts (λ t,
  match sync_thread_ t with
  | Some AtCheck =>
      if ts_stop t then t
      else ts_set_threads (ts_running t) (ts_stop t) (Some InTurn) (ntp_thread_ t) t
  | _ => t
  end).
Definition sync_loop_turn : M TsSt unit :=
  thread ← gets (λ s : TsSt, sync_thread_ s.2);
  match thread with
  | Some InTurn =>
      _ ← catching sync_turn;
      on_ts (λ t, ts_set_threads (ts_running t) (ts_stop t)
                    ((λ _, AtCheck) <$> sync_thread_ t) (ntp_thread_ t) t)
  | _ => mret tt
  end.
Definition ntp_check : M TsSt unit := on_ts (λ t,
  match ntp_thread_ t with
  | Some AtCheck =>
      if ts_stop t then t
      else ts_set_threads (ts_running t) (ts_stop t) (sync_thread_ t) (Some InTurn) t
  | _ => t
  end).
Definition ntp_loop_turn : M TsSt unit :=
  thread ← gets (λ s : TsSt, ntp_thread_ s.2);
  match thread with
  | Some InTurn =>
      _ ← catching ntp_turn;
      on_ts (λ t, ts_set_threads (ts_running t) (ts_stop t) (sync_thread_ t)
                    ((λ _, AtCheck) <$> ntp_thread_ t) t)
  | _ => mret tt
  end.

(** ** Life cycle *)

Definition ts_start (config : TimeSyncConfig) : M TsSt (Result unit) := guarded (
  running ← gets (λ s : TsSt, ts_running s.2);
  if running : bool then mret (ROk tt)
  else
    _ ← on_ts (λ t, ts_set_threads true false (Some AtCheck)
                      (if enable_ntp_sync config then Some AtCheck else ntp_thread_ t)
                      (ts_set_config config t));
    mret (ROk tt)).

Definition join_sync : M TsSt unit :=
  thread ← gets (λ s : TsSt, sync_thread_ s.2);
  match thread with
  | Some InTurn => joining sync_turn
  | _ => mret tt
  end.
Definition join_ntp : M TsSt unit :=
  thread ← gets (λ s : TsSt, ntp_thread_ s.2);
  match thread with
  | Some InTurn => joining ntp_turn
  | _ => mret tt
  end.

Definition ts_stop_threads : M TsSt (Result unit) := guarded (
  running ← gets (λ s : TsSt, ts_running s.2);
  if negb running then mret (ROk tt)
  else
    _ ← on_ts (λ t, ts_set_threads (ts_running t) true (sync_thread_ t) (ntp_thread_ t) t);
    _ ← join_sync;
    _ ← join_ntp;
    _ ← on_ts (ts_set_threads false true None None);
    mret (ROk tt)).

Definition TimeService_destroy : M TsSt unit := noexcept (
  running ← gets (λ s : TsSt, ts_running s.2);
  if running : bool then _ ← ts_stop_threads; mret tt else mret tt).
End service.

(** ** [time_utils] *)

Definition time_difference (t1 t2 : Z) : Z := ms_of_ns (t1 - t2).

Definition calculate_sync_quality (offsets : list ClockOffsetInfo) (max_uncertainty : Z) : double :=
  if bool_decide (length offsets = 0) then d0
  else
    let uncertainty_factor info :=
      dmax d0 (dsub d1 (ddiv (of_int (uncertainty info)) (of_int max_uncertainty))) in
    let size := of_int (Z.of_nat (length offsets)) in
    let avg_confidence := ddiv (dsum (map confidence offsets)) size in
    let avg_uncertainty_factor := ddiv (dsum (map uncertainty_factor offsets)) size in
    ddiv (dadd avg_confidence avg_uncertainty_factor) d2.

Definition calculate_median_offset (offsets : list Z) : Z :=
  if bool_decide (offsets = []) then 0 else median_of (sort_offsets offsets).

Definition calculate_offset_stddev (offsets : list Z) : M unit Z :=
  if decide (length offsets < 2) then mret 0%Z
  else cast_int64 (dsqrt (dvariance (map of_int offsets))).

(** Seconds from 1900 to 1970, and nanoseconds in a second. *)
Definition ntp_seconds_1970 : Z := 2208988800.
Definition ns_per_s : Z := 1000000000.

(** A 64-bit timestamp: seconds above, a binary fraction below.  [count()] is
    signed, the shift and the product are unsigned. *)
Definition physical_to_ntp_timestamp (timestamp : Z) : N :=
  let duration_since_ntp_epoch := (timestamp + ntp_seconds_1970 * ns_per_s)%Z in
  let seconds := Z.quot duration_since_ntp_epoch ns_per_s in
  let fraction := (duration_since_ntp_epoch - seconds * ns_per_s)%Z in
  let ntp_seconds := u64_of_i64 seconds in
  let ntp_fraction := (wrap64 (u64_of_i64 fraction * 2 ^ 32) / 1000000000)%N in
  N.lor (wrap64 (N.shiftl ntp_seconds 32)) ntp_fraction.

Definition ntp_to_physical_timestamp (ntp_timestamp : N) : Z :=
  let seconds := wrap32 (N.land (N.shiftr ntp_timestamp 32) (2 ^ 32 - 1)) in
  let fraction := wrap32 (N.land ntp_timestamp (2 ^ 32 - 1)) in
  let unix_seconds := sub64 seconds (Z.to_N ntp_seconds_1970) in
  let nanoseconds := N.shiftr (wrap64 (fraction * 1000000000)) 32 in
  (i64_of_u64 unix_seconds * ns_per_s + i64_of_u64 nanoseconds)%Z.
