(* ===== verification/LogicalClock.v ===== *)
(** * LogicalClock: what the time service promises about its clocks

    The hybrid logical clock never repeats or goes back while only
    [now_logical] moves it; receiving a timestamp can set it back.  The median
    of the Berkeley algorithm, the filter of the NTP client, and the
    conversion of timestamps to the format of NTP and back. *)

From Stdlib Require Import Ascii String ZArith NArith Lia SpecFloat.
From stdpp Require Import base numbers list strings gmap sorting fin_sets.
From S2P Require Import Prelude Types Files Doubles TimeSync.

(** ** The order on clock values *)

Lemma hlc_ltb_spec a b :
  hlc_ltb a b = true ↔
  (physical_time a < physical_time b)%Z ∨
  physical_time a = physical_time b ∧ (logical_time a < logical_time b)%N.
Proof.
  unfold hlc_ltb. destruct (Z.eqb_spec (physical_time a) (physical_time b)); cbn [negb].
  - rewrite N.ltb_lt. lia.
  - rewrite Z.ltb_lt. lia.
Qed.

Lemma hlc_leb_spec a b : hlc_leb a b = negb (hlc_ltb b a).
Proof.
  apply eq_true_iff_eq. unfold hlc_leb, hlc_eqb.
  rewrite orb_true_iff, andb_true_iff, negb_true_iff, <- not_true_iff_false, !hlc_ltb_spec,
    Z.eqb_eq, N.eqb_eq. lia.
Qed.

Lemma hlc_ltb_trans a b c : hlc_ltb a b = true → hlc_ltb b c = true → hlc_ltb a c = true.
Proof. rewrite !hlc_ltb_spec. lia. Qed.

(** ** The clock of the service *)

(** What the service last set its clock to. *)
Definition clock_value (t : TimeService) : HybridLogicalClock :=
  MkHlc (last_physical_time_ t) (logical_time_ t).

(** What [now_synchronized] shows next. *)
Definition next_synchronized (s : TsSt) : Z :=
  ((tick (ts_clock s.1)).1 + local_offset_ s.2 * ns_per_ms)%Z.

(** The environment after some readings of the clock. *)
Definition read_on (n : nat) (e : TsEnv) : TsEnv :=
  MkTsEnv (MkClock (reading (ts_clock e)) (n + ticks (ts_clock e))) (rand_value e) (draws e).

(** The values the two operations give the clock. *)
Definition incremented_value (cur : Z) (t : TimeService) : HybridLogicalClock :=
  if (last_physical_time_ t <? cur)%Z then MkHlc cur 0
  else MkHlc (last_physical_time_ t) (wrap64 (logical_time_ t + 1)).
Definition received_value (cur : Z) (r : HybridLogicalClock) (t : TimeService) :
    HybridLogicalClock :=
  if (physical_time r <=? cur)%Z
  then MkHlc cur (wrap64 (N.max (logical_time_ t) (logical_time r) + 1))
  else MkHlc (if (max_clock_drift (ts_config t) <? ms_of_ns (physical_time r - cur))%Z
              then cur else physical_time r) (wrap64 (logical_time r + 1)).

Lemma now_logical_returns e t :
  ts_mutex t = false → enable_hybrid_logical_clock (ts_config t) = true →
  now_logical (e, t) =
    let h := incremented_value (next_synchronized (e, t)) t in
    Returns h (read_on 2 e, ts_set_logical h t).
Proof.
  intros Hm He. unfold now_logical, guarded. destruct t as [[]]. cbn in Hm, He. subst. cbn. done.
Qed.

Lemma update_logical_clock_returns r e t :
  ts_mutex t = false → enable_hybrid_logical_clock (ts_config t) = true →
  update_logical_clock r (e, t) =
    let h := received_value (next_synchronized (e, t)) r t in
    Returns h (read_on 2 e, ts_set_logical h t).
Proof.
  intros Hm He.
  pose (written := λ (cur : Z) (u : TimeService),
    if (physical_time r <? cur)%Z
    then MkHlc cur (wrap64 (N.max (logical_time_ u) (logical_time r) + 1))
    else if (cur =? physical_time r)%Z
    then MkHlc cur (wrap64 (N.max (logical_time_ u) (logical_time r) + 1))
    else MkHlc (if (max_clock_drift (ts_config u) <? ms_of_ns (physical_time r - cur))%Z
                then cur else physical_time r) (wrap64 (logical_time r + 1))).
  assert (received_value (next_synchronized (e, t)) r t = written (next_synchronized (e, t)) t) as ->.
  { unfold received_value, written. set (cur := next_synchronized (e, t)).
    destruct (Z.ltb_spec (physical_time r) cur), (Z.leb_spec (physical_time r) cur); try lia; [done|..].
    - by rewrite (proj2 (Z.eqb_eq cur (physical_time r))) by lia.
    - by rewrite (proj2 (Z.eqb_neq cur (physical_time r))) by lia. }
  unfold update_logical_clock, guarded. destruct t as [[]]. cbn in Hm, He. by subst.
Qed.

(** C24. While hybrid clocks are enabled, now_logical returns a value above the
    one the clock had, whatever the system clock shows, even when it goes back,
    and this value is what the clock has afterwards; the 64-bit counter must
    only not have reached its end. *)
Theorem now_logical_increases e t :
  ts_mutex t = false → enable_hybrid_logical_clock (ts_config t) = true →
  (logical_time_ t < 2 ^ 64 - 1)%N →
  ∃ h e' t', now_logical (e, t) = Returns h (e', t') ∧
    clock_value t' = h ∧ hlc_ltb (clock_value t) h = true ∧
    (h = MkHlc (next_synchronized (e, t)) 0 ∨
     h = MkHlc (last_physical_time_ t) (logical_time_ t + 1)).
Proof.
  intros Hm He Hl. rewrite now_logical_returns by done. eexists _, _, _.
  split; [reflexivity|]. split; [by destruct (incremented_value _ t)|].
  unfold incremented_value. rewrite hlc_ltb_spec.
  destruct (Z.ltb_spec (last_physical_time_ t) (next_synchronized (e, t))); cbn.
  - split; [by left|by left].
  - rewrite wrap64_small by lia. split; [right; lia|by right].
Qed.

(** C25. With hybrid clocks enabled, the logical counters of the clock and of
    the received timestamp below 2^64 - 1 and max_clock_drift not negative: a
    received timestamp that is no further ahead of the system clock than
    max_clock_drift is below the clock after it was received; one that is
    further ahead is above it, and the clock then shows the system time with the
    received counter plus one. And the clock is not kept above its own past:
    when it is ahead of the system clock and a timestamp arrives that is not,
    the clock afterwards shows the system time, with the larger counter plus
    one, and is below what it was. *)
Theorem update_logical_clock_orders r e t :
  ts_mutex t = false → enable_hybrid_logical_clock (ts_config t) = true →
  (logical_time_ t < 2 ^ 64 - 1)%N → (logical_time r < 2 ^ 64 - 1)%N →
  (0 ≤ max_clock_drift (ts_config t))%Z →
  ∃ h e' t', update_logical_clock r (e, t) = Returns h (e', t') ∧ clock_value t' = h ∧
    (if (ms_of_ns (physical_time r - next_synchronized (e, t)) <=? max_clock_drift (ts_config t))%Z
     then hlc_ltb r h = true
     else hlc_ltb h r = true ∧ h = MkHlc (next_synchronized (e, t)) (logical_time r + 1)) ∧
    ((physical_time r ≤ next_synchronized (e, t) < last_physical_time_ t)%Z →
     h = MkHlc (next_synchronized (e, t)) (N.max (logical_time_ t) (logical_time r) + 1) ∧
     hlc_ltb h (clock_value t) = true).
Proof.
  intros Hm He Hl Hr Hd. rewrite update_logical_clock_returns by done. eexists _, _, _.
  split; [reflexivity|]. split; [by destruct (received_value _ r t)|].
  unfold received_value. set (cur := next_synchronized (e, t)).
  destruct (Z.leb_spec (physical_time r) cur) as [Hle|Hgt].
  - assert (ms_of_ns (physical_time r - cur) ≤ 0)%Z as Hms 
      by (unfold ms_of_ns, ns_per_ms; Z.to_euclidean_division_equations; lia).
    rewrite (proj2 (Z.leb_le _ _)) by lia. rewrite wrap64_small by lia.
    rewrite !hlc_ltb_spec. cbn. split; [lia|]. intros ?. split; [done|lia].
  - rewrite wrap64_small by lia. split; [|lia].
    destruct (Z.leb_spec (ms_of_ns (physical_time r - cur)) (max_clock_drift (ts_config t)));
      rewrite hlc_ltb_spec; cbn.
    + rewrite (proj2 (Z.ltb_ge _ _)) by lia. lia.
    + rewrite (proj2 (Z.ltb_lt _ _)) by lia. split; [lia|done].
Qed.

(** A service whose clock is ahead of the system clock by 30 ms. *)
Definition ahead_service : TimeService := ts_set_logical (MkHlc 130000000 5) (TimeService_new 0).
Definition steady_env : TsEnv := MkTsEnv (MkClock (λ _, 100000000%Z) 0) (λ _, 0%Z) 0.

Lemma now_logical_increases_witness :
  ∃ h e' t', now_logical (steady_env, ahead_service) = Returns h (e', t') ∧
    clock_value t' = h ∧ hlc_ltb (clock_value ahead_service) h = true ∧
    (h = MkHlc (next_synchronized (steady_env, ahead_service)) 0 ∨
     h = MkHlc (last_physical_time_ ahead_service) (logical_time_ ahead_service + 1)).
Proof.
  apply (now_logical_increases steady_env ahead_service); [reflexivity..|vm_compute; reflexivity].
Defined.

Lemma update_logical_clock_orders_witness :
  let r := MkHlc 90000000 7 in
  ∃ h e' t', update_logical_clock r (steady_env, ahead_service) = Returns h (e', t') ∧
    clock_value t' = h ∧
    (if (ms_of_ns (physical_time r - next_synchronized (steady_env, ahead_service))
           <=? max_clock_drift (ts_config ahead_service))%Z
     then hlc_ltb r h = true
     else hlc_ltb h r = true ∧
       h = MkHlc (next_synchronized (steady_env, ahead_service)) (logical_time r + 1)) ∧
    ((physical_time r ≤ next_synchronized (steady_env, ahead_service)
        < last_physical_time_ ahead_service)%Z →
     h = MkHlc (next_synchronized (steady_env, ahead_service))
           (N.max (logical_time_ ahead_service) (logical_time r) + 1) ∧
     hlc_ltb h (clock_value ahead_service) = true).
Proof.
  apply (update_logical_clock_orders (MkHlc 90000000 7) steady_env ahead_service);
    [reflexivity..|vm_compute; reflexivity|vm_compute; reflexivity|vm_compute; discriminate].
Defined.

(** ** Medians *)

Lemma sorted_lookup_le (l : list Z) i j x y :
  StronglySorted Z.le l → i ≤ j → l !! i = Some x → l !! j = Some y → (x ≤ y)%Z.
Proof.
  intros Hs. revert i j. induction Hs as [|z l Hs IH Hz]; intros [|i] [|j] Hij Hi Hj;
    try done; cbn in Hi, Hj; simplify_eq; try lia.
  - rewrite Forall_forall in Hz. eapply Hz, list_elem_of_lookup_2, Hj.
  - apply (IH i j); [lia|done..].
Qed.

Lemma sorted_count_below (l : list Z) k m :
  StronglySorted Z.le l → k < length l → (l !!! k ≤ m)%Z →
  k + 1 ≤ length (filter (λ x, x ≤ m)%Z l).
Proof.
  intros Hs Hk Hm. rewrite <- (take_drop (k + 1) l), filter_app, length_app.
  rewrite filter_all; [rewrite length_take; lia|].
  apply Forall_forall, Forall_lookup. intros i x [Hi Hlt]%lookup_take_Some.
  transitivity (l !!! k); [|done].
  apply (sorted_lookup_le l i k); [done|lia|done|]. by apply list_lookup_lookup_total_lt.
Qed.

Lemma sorted_count_above (l : list Z) k m :
  StronglySorted Z.le l → k < length l → (m ≤ l !!! k)%Z →
  length l - k ≤ length (filter (λ x, m ≤ x)%Z l).
Proof.
  intros Hs Hk Hm. rewrite <- (take_drop k l) at 2. rewrite filter_app, length_app.
  rewrite (filter_all _ (drop k l)); [rewrite length_drop; lia|].
  apply Forall_forall, Forall_lookup. intros i x Hi. rewrite lookup_drop in Hi.
  transitivity (l !!! k); [done|].
  apply (sorted_lookup_le l k (k + i)); [done|lia| |done]. by apply list_lookup_lookup_total_lt.
Qed.

Lemma sort_offsets_sorted os : StronglySorted Z.le (sort_offsets os).
Proof. apply Sorted_StronglySorted; [apply _|]. apply Sorted_merge_sort, _. Qed.

Lemma sort_offsets_perm os : sort_offsets os ≡ₚ os.
Proof. apply merge_sort_Permutation. Qed.

Lemma sort_offsets_unique os os' : os ≡ₚ os' → sort_offsets os = sort_offsets os'.
Proof.
  intros Hp. apply (StronglySorted_unique Z.le); try apply sort_offsets_sorted.
  by rewrite !sort_offsets_perm.
Qed.

Lemma median_of_between l :
  StronglySorted Z.le l → l ≠ [] →
  (l !!! ((length l - 1) / 2)%nat ≤ median_of l ≤ l !!! (length l / 2)%nat)%Z.
Proof.
  intros Hs Hne. assert (0 < length l) as Hlen by (destruct l; [done|cbn; lia]).
  unfold median_of. destruct (Nat.even (length l)) eqn:Ee.
  - apply Nat.even_spec in Ee as [k Hk]. rewrite Hk.
    replace ((2 * k - 1) / 2) with (k - 1) by (rewrite <- (Nat.div_unique (2 * k - 1) 2 (k - 1) 1); lia).
    replace (2 * k / 2) with k by (rewrite Nat.mul_comm, Nat.div_mul; lia).
    assert (l !!! (k - 1)%nat ≤ l !!! k)%Z.
    { apply (sorted_lookup_le l (k - 1) k); [done|lia|apply list_lookup_lookup_total_lt; lia..]. }
    Z.to_euclidean_division_equations. lia.
  - apply (f_equal negb) in Ee. rewrite Nat.negb_even in Ee. apply Nat.odd_spec in Ee as [k Hk].
    rewrite Hk. replace ((2 * k + 1 - 1) / 2) with k by (rewrite Nat.add_sub, Nat.mul_comm, Nat.div_mul; lia).
    replace ((2 * k + 1) / 2) with k by (apply (Nat.div_unique _ 2 k 1); lia). lia.
Qed.

Lemma calculate_median_nonempty os :
  os ≠ [] → calculate_median_offset os = median_of (sort_offsets os).
Proof. intros Hne. unfold calculate_median_offset. by rewrite (bool_decide_false (os = []) Hne). Qed.

(** The median of a non-empty list of offsets has at least half of them on
    either side of it, itself counted on both, and depends on the offsets alone,
    not on their order. *)
Theorem calculate_median_offset_median os :
  os ≠ [] →
  length os ≤ 2 * length (filter (λ x, x ≤ calculate_median_offset os)%Z os) ∧
  length os ≤ 2 * length (filter (λ x, calculate_median_offset os ≤ x)%Z os) ∧
  ∀ os', os' ≡ₚ os → calculate_median_offset os' = calculate_median_offset os.
Proof.
  intros Hne. rewrite (calculate_median_nonempty os Hne).
  set (l := sort_offsets os). set (m := median_of l).
  pose proof (sort_offsets_perm os) as Hp. fold l in Hp.
  assert (l ≠ []) as Hl by (intros El; rewrite El in Hp; by apply Permutation_nil in Hp).
  pose proof (sort_offsets_sorted os) as Hs. fold l in Hs.
  pose proof (median_of_between l Hs Hl) as [Hlo Hhi]. fold m in Hlo, Hhi.
  assert (0 < length l) as Hlen by (destruct l; [done|cbn; lia]).
  pose proof (Nat.div_mod (length l - 1) 2 ltac:(lia)) as D1.
  pose proof (Nat.mod_upper_bound (length l - 1) 2 ltac:(lia)) as B1.
  pose proof (Nat.div_mod (length l) 2 ltac:(lia)) as D2.
  pose proof (Nat.mod_upper_bound (length l) 2 ltac:(lia)) as B2.
  assert ((length l - 1) / 2 < length l ∧ length l / 2 < length l) as [K1 K2] by lia.
  pose proof (sorted_count_below l _ m Hs K1 Hlo) as C1.
  pose proof (sorted_count_above l _ m Hs K2 Hhi) as C2.
  split_and!.
  - rewrite <- Hp. lia.
  - rewrite <- Hp. lia.
  - intros os' Hp'. rewrite calculate_median_nonempty.
    + unfold m, l. by rewrite (sort_offsets_unique _ _ Hp').
    + intros ->. by apply Permutation_nil in Hp'.
Qed.

Lemma calculate_median_offset_median_witness :
  let os := [5; -3; 8; 2]%Z in
  calculate_median_offset os = 3%Z ∧
  length os ≤ 2 * length (filter (λ x, x ≤ calculate_median_offset os)%Z os) ∧
  length os ≤ 2 * length (filter (λ x, calculate_median_offset os ≤ x)%Z os) ∧
  ∀ os', os' ≡ₚ os → calculate_median_offset os' = calculate_median_offset os.
Proof.
  intros os. split; [vm_compute; reflexivity|].
  apply (calculate_median_offset_median os). discriminate.
Defined.

(** The offsets the Berkeley algorithm takes into account. *)
Definition confident_offsets (order_offsets : gset NodeId → list NodeId) (t : TimeService) : list Z :=
  map offset (List.filter (λ info, dltb d_half (confidence info)) (offset_list order_offsets t)).

Lemma confident_offsets_perm order1 order2 t :
  (∀ s, order1 s ≡ₚ order2 s) → confident_offsets order1 t ≡ₚ confident_offsets order2 t.
Proof.
  intros Ho. unfold confident_offsets, offset_list.
  assert (omap (M := list) (λ n, node_offsets_ t !! n) (order1 (dom (node_offsets_ t))) ≡ₚ
    omap (M := list) (λ n, node_offsets_ t !! n) (order2 (dom (node_offsets_ t)))) as Hp
    by (apply omap_Permutation, Ho).
  revert Hp. generalize (omap (M := list) (λ n, node_offsets_ t !! n) (order1 (dom (node_offsets_ t)))).
  generalize (omap (M := list) (λ n, node_offsets_ t !! n) (order2 (dom (node_offsets_ t)))).
  intros l1 l2 Hp. apply Permutation_map. induction Hp; cbn; repeat case_match; by econstructor.
Qed.

(** The Berkeley algorithm returns the median of the offsets with a confidence
    above one half, the one of calculate_median_offset, whatever the order in
    which the table iterates; with too few offsets, or none of that confidence,
    it reports that the data do not suffice. *)
Theorem berkeley_algorithm_median order1 order2 e t :
  ts_mutex t = false → (∀ s, order1 s ≡ₚ order2 s) →
  berkeley_algorithm order1 (e, t) = Returns
    (if (N.of_nat (size (node_offsets_ t)) <? min_samples (ts_config t))%N
     then RErr Status.INSUFFICIENT_DATA "Not enough offset samples"
     else match confident_offsets order2 t with
          | [] => RErr Status.INSUFFICIENT_DATA "No high-confidence offset samples"
          | os => ROk (calculate_median_offset os)
          end) (e, t).
Proof.
  intros Hm Ho. pose proof (confident_offsets_perm order1 order2 t Ho) as Hp.
  unfold berkeley_algorithm, guarded. cbn [owned TimeService_mutex snd]. rewrite Hm.
  rewrite M_bind_gets. destruct t as [cf h os ns lo lt lp r st nt stop a su f mx].
  cbn [ts_mutex] in Hm. subst. cbn [fst snd set_owned TimeService_mutex ts_set_mutex ts_config node_offsets_].
  set (t := MkTimeService cf h os ns lo lt lp r st nt stop a su f false) in *.
  change (map offset _) with (confident_offsets order1 t).
  destruct (_ <? _)%N; [done|]. case_bool_decide as E.
  - rewrite E in Hp. apply Permutation_nil in Hp. by rewrite Hp.
  - destruct (confident_offsets order2 t) as [|o l] eqn:E2.
    { by apply Permutation_nil_r in Hp. }
    rewrite <- E2 in *. rewrite <- (calculate_median_nonempty _ E).
    unfold mret, M_ret. cbn. do 2 f_equal. rewrite !calculate_median_nonempty by (done || by rewrite E2).
    by rewrite (sort_offsets_unique _ _ Hp).
Qed.

Lemma berkeley_algorithm_median_witness :
  berkeley_algorithm elements (steady_env, ahead_service) = Returns
    (RErr Status.INSUFFICIENT_DATA "Not enough offset samples") (steady_env, ahead_service).
Proof.
  apply (berkeley_algorithm_median elements elements steady_env ahead_service); [reflexivity|].
  intros s. reflexivity.
Defined.

(** ** The filter of the NTP client *)

(** With the default weight of one eighth, on offsets up to 50 ms, the filter
    computes in doubles exactly the weighted sum, truncated. *)
Definition small_offsets : list Z := (λ n, Z.of_nat n - 50)%Z <$> seq 0 101.

Lemma elem_of_small_offsets z : z ∈ small_offsets ↔ (-50 ≤ z ≤ 50)%Z.
Proof.
  unfold small_offsets. rewrite list_elem_of_fmap.
  setoid_rewrite elem_of_seq. split; [intros (n & -> & ?); lia|].
  intros ?. exists (Z.to_nat (z + 50)). lia.
Qed.

Lemma filter_small_exact :
  forallb (λ c, forallb (λ s, bool_decide (to_int64 (dadd (dmul (dsub d1 d_eighth) (of_int c))
    (dmul d_eighth (of_int s))) = Some (Z.quot (7 * c + s) 8))) small_offsets) small_offsets = true.
Proof. vm_compute. reflexivity. Qed.

Lemma filter_offset_small c s st :
  offset_filter_alpha (ts_config st.2) = d_eighth → (-50 ≤ c ≤ 50)%Z → (-50 ≤ s ≤ 50)%Z →
  filter_offset c s st = Returns (Z.quot (7 * c + s) 8) st.
Proof.
  intros Ha Hc%elem_of_small_offsets%list_elem_of_In Hs%elem_of_small_offsets%list_elem_of_In.
  pose proof filter_small_exact as H. rewrite forallb_forall in H. specialize (H c Hc).
  rewrite forallb_forall in H. specialize (H s Hs). apply bool_decide_eq_true in H.
  unfold filter_offset. rewrite M_bind_gets, Ha. unfold cast_int64. by rewrite H.
Qed.

(** With the default filter, NTP synchronisation takes the simulated answer of
    the first server and always succeeds; it keeps a local offset of at most 50
    ms that small, and moves it to the weighted sum of seven parts of itself and
    one of the answer, truncated towards zero. *)
Theorem sync_with_ntp_bounded e t server servers :
  ntp_servers (ts_config t) = server :: servers → enable_ntp_sync (ts_config t) = true →
  offset_filter_alpha (ts_config t) = d_eighth →
  (-50 ≤ local_offset_ t ≤ 50)%Z → (0 ≤ rand_value e (draws e))%Z →
  ∃ e' t', sync_with_ntp (e, t) = Returns (ROk tt) (e', t') ∧
    local_offset_ t' = Z.quot (7 * local_offset_ t + (Z.rem (rand_value e (draws e)) 100 - 50)) 8 ∧
    (-50 ≤ local_offset_ t' ≤ 50)%Z.
Proof.
  intros Hs He Ha Hl Hr. set (o := (Z.rem (rand_value e (draws e)) 100 - 50)%Z).
  assert (-50 ≤ o ≤ 50)%Z as Ho by (pose proof (Z.rem_bound_pos (rand_value e (draws e)) 100); lia).
  unfold sync_with_ntp. rewrite M_bind_gets. cbn [snd]. rewrite He, Hs. cbn [negb orb].
  rewrite (bool_decide_false (_ = [])) by done. cbn [try_servers].
  assert (sync_with_ntp_server server (e, t) = Returns (ROk o)
    (MkTsEnv (ts_clock e) (rand_value e) (S (draws e)),
     ts_set_local_offset (Z.quot (7 * local_offset_ t + o) 8) t)) as E.
  { unfold sync_with_ntp_server.
    rewrite (M_bind_step _ _ _ (ROk o) (MkTsEnv (ts_clock e) (rand_value e) (S (draws e)), t)) by done.
    rewrite M_bind_gets. cbn [snd]. by mstep (filter_offset_small _ _
      (MkTsEnv (ts_clock e) (rand_value e) (S (draws e)), t) Ha Hl Ho). }
  mstep E. eexists _, _. split; [reflexivity|]. cbn [snd].
  assert (-50 ≤ Z.quot (7 * local_offset_ t + o) 8 ≤ 50)%Z as Hb
    by (Z.to_euclidean_division_equations; lia).
  revert Hb. generalize (Z.quot (7 * local_offset_ t + o) 8) as m. intros m Hb.
  cbn. by destruct (ts_handler t).
Qed.

Lemma sync_with_ntp_bounded_witness :
  let c := MkTsConfig 5000 100 1000 3 true ["pool.ntp.org"] 300000 d_eighth 60000 true in
  let t := ts_set_config c (TimeService_new 0) in
  ∃ e' t', sync_with_ntp (steady_env, t) = Returns (ROk tt) (e', t') ∧
    local_offset_ t' = Z.quot (7 * local_offset_ t +
      (Z.rem (rand_value steady_env (draws steady_env)) 100 - 50)) 8 ∧
    (-50 ≤ local_offset_ t' ≤ 50)%Z.
Proof.
  intros c t. apply (sync_with_ntp_bounded steady_env t "pool.ntp.org" []);
    [reflexivity|reflexivity|reflexivity|vm_compute; split; discriminate|vm_compute; discriminate].
Defined.

(** ** Timestamps of NTP *)

Lemma lor_shiftl_add a b n : (b < 2 ^ n)%N → N.lor (N.shiftl a n) b = (a * 2 ^ n + b)%N.
Proof.
  intros Hb. rewrite <- N.shiftl_mul_pow2.
  assert (N.land (N.shiftl a n) b = 0%N) as Hl.
  { apply N.bits_inj. intros m. rewrite N.land_spec, N.bits_0.
    destruct (N.lt_ge_cases m n) as [Hm|Hm]; [by rewrite N.shiftl_spec_low|].
    rewrite <- (N.mod_small b (2 ^ n)) by done. rewrite N.mod_pow2_bits_high by done.
    apply andb_false_r. }
  rewrite N.add_nocarry_lxor by done. symmetry. by apply N.lxor_lor.
Qed.

Lemma physical_to_ntp_parts (s f : Z) :
  (0 ≤ s < 2 ^ 33)%Z → (0 ≤ f < ns_per_s)%Z →
  physical_to_ntp_timestamp (s * ns_per_s + f - ntp_seconds_1970 * ns_per_s) =
    (Z.to_N (s mod 2 ^ 32) * 2 ^ 32 + Z.to_N f * 2 ^ 32 / 1000000000)%N.
Proof.
  intros Hs Hf. unfold physical_to_ntp_timestamp.
  replace (s * ns_per_s + f - ntp_seconds_1970 * ns_per_s + ntp_seconds_1970 * ns_per_s)%Z
    with (s * ns_per_s + f)%Z by lia.
  assert (Z.quot (s * ns_per_s + f) ns_per_s = s) as ->.
  { rewrite Z.quot_div_nonneg by (unfold ns_per_s in *; lia).
    rewrite Z.div_add_l by done. rewrite Z.div_small by done. lia. }
  replace (s * ns_per_s + f - s * ns_per_s)%Z with f by lia.
  unfold u64_of_i64. rewrite !Z.mod_small by (unfold ns_per_s in *; lia).
  assert (Z.to_N f * 2 ^ 32 < 1000000000 * 2 ^ 32)%N as Hp.
  { apply N.mul_lt_mono_pos_r; [done|]. unfold ns_per_s in Hf. lia. }
  rewrite (wrap64_small (Z.to_N f * 2 ^ 32)) by (eapply N.lt_trans; [exact Hp|done]).
  assert (Z.to_N f * 2 ^ 32 / 1000000000 < 2 ^ 32)%N as Hq
    by (apply N.Div0.div_lt_upper_bound; exact Hp).
  assert (wrap64 (N.shiftl (Z.to_N s) 32) = N.shiftl (Z.to_N (s mod 2 ^ 32)) 32) as ->.
  { rewrite !N.shiftl_mul_pow2. unfold wrap64. change (2 ^ 64)%N with (2 ^ 32 * 2 ^ 32)%N.
    rewrite N.Div0.mul_mod_distr_r. f_equal. rewrite Z2N.inj_mod by lia. done. }
  by apply lor_shiftl_add.
Qed.

Lemma ntp_to_physical_parts (s q : N) :
  (s < 2 ^ 32)%N → (q < 2 ^ 32)%N →
  ntp_to_physical_timestamp (s * 2 ^ 32 + q) =
    (Z.of_N s * ns_per_s - ntp_seconds_1970 * ns_per_s + Z.of_N (q * 1000000000 / 2 ^ 32))%Z.
Proof.
  intros Hs Hq. unfold ntp_to_physical_timestamp. change (2 ^ 32 - 1)%N with (N.ones 32).
  rewrite !N.land_ones, N.shiftr_div_pow2.
  rewrite N.div_add_l by done. rewrite (N.div_small q) by done. rewrite N.add_0_r.
  rewrite (N.mod_small s) by done.
  replace ((s * 2 ^ 32 + q) mod 2 ^ 32)%N with q.
  2: { rewrite N.add_comm, N.Div0.mod_add. symmetry. by apply N.mod_small. }
  rewrite !wrap32_small by done.
  assert (q * 1000000000 < 2 ^ 32 * 1000000000)%N as Hp by (by apply N.mul_lt_mono_pos_r).
  rewrite (wrap64_small (q * 1000000000)) by (eapply N.lt_trans; [exact Hp|done]).
  rewrite N.shiftr_div_pow2.
  assert (q * 1000000000 / 2 ^ 32 < 1000000000)%N as Hn by (by apply N.Div0.div_lt_upper_bound).
  revert Hn. generalize (q * 1000000000 / 2 ^ 32)%N. intros n Hn.
  assert (i64_of_u64 n = Z.of_N n) as ->.
  { unfold i64_of_u64. by rewrite (proj2 (N.ltb_lt n (2 ^ 63))) by lia. }
  assert (i64_of_u64 (sub64 s (Z.to_N ntp_seconds_1970)) = Z.of_N s - ntp_seconds_1970)%Z as ->; [|lia].
  unfold sub64, ntp_seconds_1970. rewrite (wrap64_small (Z.to_N _)) by done.
  unfold wrap64, i64_of_u64. change (Z.to_N 2208988800) with 2208988800%N.
  destruct (N.lt_ge_cases s 2208988800).
  - rewrite N.mod_small by lia. destruct (N.ltb_spec (s + 2 ^ 64 - 2208988800) (2 ^ 63)); lia.
  - replace (s + 2 ^ 64 - 2208988800)%N with (s - 2208988800 + 1 * 2 ^ 64)%N by lia.
    rewrite N.Div0.mod_add, N.mod_small by lia.
    destruct (N.ltb_spec (s - 2208988800) (2 ^ 63)); lia.
Qed.

(** C35. From 1900 until the 32-bit seconds of NTP run out in 2036, a timestamp
    converted to the format of NTP and back is the same or one nanosecond less;
    a timestamp of the 136 years after that is converted to that of the instant
    2^32 seconds before. *)
Theorem ntp_round_trip ts :
  (- ntp_seconds_1970 * ns_per_s ≤ ts < (2 ^ 32 - ntp_seconds_1970) * ns_per_s)%Z →
  (ts - 1 ≤ ntp_to_physical_timestamp (physical_to_ntp_timestamp ts) ≤ ts)%Z ∧
  physical_to_ntp_timestamp (ts + 2 ^ 32 * ns_per_s) = physical_to_ntp_timestamp ts.
Proof.
  intros Hts. set (d := (ts + ntp_seconds_1970 * ns_per_s)%Z).
  pose proof (Z.div_mod d ns_per_s ltac:(done)) as Hd.
  pose proof (Z.mod_pos_bound d ns_per_s ltac:(done)) as Hf.
  set (s := (d / ns_per_s)%Z) in *. set (f := (d mod ns_per_s)%Z) in *.
  assert (0 ≤ s < 2 ^ 32)%Z as Hs by (unfold d, ns_per_s in *; lia).
  assert (ts = s * ns_per_s + f - ntp_seconds_1970 * ns_per_s)%Z as Ets by (unfold d in Hd; lia).
  clearbody s f d. subst ts.
  replace (s * ns_per_s + f - ntp_seconds_1970 * ns_per_s + 2 ^ 32 * ns_per_s)%Z
    with ((s + 2 ^ 32) * ns_per_s + f - ntp_seconds_1970 * ns_per_s)%Z by lia.
  rewrite !physical_to_ntp_parts by lia.
  replace ((s + 2 ^ 32) mod 2 ^ 32)%Z with (s mod 2 ^ 32)%Z
    by (rewrite <- (Z.mod_add s 1) by done; f_equal; lia).
  split; [|done]. rewrite Z.mod_small by done.
  set (q := (Z.to_N f * 2 ^ 32 / 1000000000)%N).
  pose proof (N.mul_div_le (Z.to_N f * 2 ^ 32) 1000000000 ltac:(done)) as Q1. fold q in Q1.
  pose proof (N.mul_succ_div_gt (Z.to_N f * 2 ^ 32) 1000000000 ltac:(done)) as Q2. fold q in Q2.
  assert (q < 2 ^ 32)%N as Hq by (unfold ns_per_s in Hf; lia).
  rewrite ntp_to_physical_parts by (done || lia).
  pose proof (N.mul_div_le (q * 1000000000) (2 ^ 32) ltac:(done)) as R1.
  pose proof (N.mul_succ_div_gt (q * 1000000000) (2 ^ 32) ltac:(done)) as R2.
  rewrite Z2N.id by lia. unfold ns_per_s in *. lia.
Qed.

Lemma ntp_round_trip_witness :
  let ts := 1700000000123456789%Z in
  ntp_to_physical_timestamp (physical_to_ntp_timestamp ts) = (ts - 1)%Z ∧
  (ts - 1 ≤ ntp_to_physical_timestamp (physical_to_ntp_timestamp ts) ≤ ts)%Z ∧
  physical_to_ntp_timestamp (ts + 2 ^ 32 * ns_per_s) = physical_to_ntp_timestamp ts.
Proof.
  intros ts. split; [vm_compute; reflexivity|].
  apply (ntp_round_trip ts). unfold ts, ntp_seconds_1970, ns_per_s. lia.
Defined.

(** ** Methods that lock twice *)

(** A time response or an offset update makes handle_sync_message lock the mutex
    of the service a second time, which throws before anything is changed, so
    the measurements of other nodes can never be taken over; a request or a
    heartbeat is accepted and changes nothing but the time. *)
Theorem sync_messages_relock m e t :
  ts_mutex t = false →
  handle_sync_message m (e, t) =
    match tsm_type m with
    | TimeSyncMessageType.TIME_RESPONSE => Throws TimeServiceMutex (read_on 1 e, t)
    | TimeSyncMessageType.OFFSET_UPDATE => Throws TimeServiceMutex (e, t)
    | TimeSyncMessageType.TIME_REQUEST => Returns (ROk tt) (read_on 3 e, t)
    | TimeSyncMessageType.SYNC_HEARTBEAT => Returns (ROk tt) (e, t)
    end.
Proof.
  intros Hm. unfold handle_sync_message, guarded. destruct t. cbn in Hm. subst. cbn.
  by destruct (tsm_type m), e.
Qed.

(** Hybrid clocks disabled: [update_logical_clock] calls [now_logical] with the
    mutex locked. *)
Theorem disabled_clock_relocks r e t :
  ts_mutex t = false → enable_hybrid_logical_clock (ts_config t) = false →
  update_logical_clock r (e, t) = Throws TimeServiceMutex (e, t).
Proof.
  intros Hm He. unfold update_logical_clock, guarded. destruct t as [[]].
  cbn in Hm, He. by subst.
Qed.

(** stop joins the synchronisation thread with the mutex held, which every turn
    of the thread begins by locking: if the thread is in a turn, stop never
    returns. If both threads are between two turns, it returns, and they are
    gone. *)
Theorem ts_stop_joins_under_mutex order_offsets order_nodes e t :
  ts_mutex t = false → ts_running t = true →
  (sync_thread_ t = Some InTurn →
   ts_stop_threads order_offsets order_nodes (e, t) = Undefined JoinBlocked) ∧
  (sync_thread_ t = Some AtCheck → ntp_thread_ t ≠ Some InTurn →
   ts_stop_threads order_offsets order_nodes (e, t) =
     Returns (ROk tt) (e, ts_set_threads false true None None t)).
Proof.
  intros Hm Hr. unfold ts_stop_threads, guarded. destruct t as [cf h os ns lo lt lp r st nt stop a su f mx].
  cbn in Hm, Hr. subst. split; intros Hs; cbn in Hs; subst; [done|].
  intros Hn. cbn in Hn. by destruct nt as [[]|].
Qed.

Lemma sync_messages_relock_witness :
  let m := MkTsMessage TimeSyncMessageType.OFFSET_UPDATE "a" "local" 0 0 0 20 0 in
  handle_sync_message m (steady_env, ahead_service) =
    Throws TimeServiceMutex (steady_env, ahead_service).
Proof.
  apply (sync_messages_relock (MkTsMessage TimeSyncMessageType.OFFSET_UPDATE "a" "local" 0 0 0 20 0)
    steady_env ahead_service). reflexivity.
Defined.

Lemma ts_stop_joins_under_mutex_witness :
  let t := ts_set_threads true false (Some InTurn) None ahead_service in
  (sync_thread_ t = Some InTurn →
   ts_stop_threads elements elements (steady_env, t) = Undefined JoinBlocked) ∧
  (sync_thread_ t = Some AtCheck → ntp_thread_ t ≠ Some InTurn →
   ts_stop_threads elements elements (steady_env, t) =
     Returns (ROk tt) (steady_env, ts_set_threads false true None None t)).
Proof. intros t. apply (ts_stop_joins_under_mutex elements elements); reflexivity. Defined.
