(* ===== verification/TimeText.v ===== *)
(** * TimeText: timestamps as text

    [timestamp_to_string] and [timestamp_from_string] of [time_utils], and
    [to_string] and [from_string] of [HybridLogicalClock], all from
    [time/time_sync.cpp].  Both write UTC and read local time. *)

From Stdlib Require Import Ascii String ZArith NArith Lia SpecFloat.
From stdpp Require Import base numbers list strings gmap pretty.
From S2P Require Import Prelude Bytes Numerals Calendar Types Files Doubles TimeSync.
From S2P Require Import LogicalClock.

Local Open Scope Z_scope.

Definition ns_per_s : Z := 1000000000.

(** [system_clock::to_time_t] and [from_time_t]. *)
Definition to_time_t (t : Z) : Z := Z.quot t ns_per_s.
Definition from_time_t (secs : Z) : Z := secs * ns_per_s.

(** ["%Y-%m-%d %H:%M:%S"]. *)
Definition timestamp_format : list conversion :=
  [Year; Literal "-"; Month; Literal "-"; Day; Literal " "; Hour; Literal ":"; Minute;
   Literal ":"; Second]%char.

(** [std::tm tm = {}]. *)
Definition tm_zero : tm := MkTm 1900 1 0 0 0 0.

Definition timestamp_to_string (timestamp : Z) : string :=
  string_of (put_time timestamp_format (gmtime (to_time_t timestamp))) +:+ "." +:+
  pad3 (pretty (Z.rem (ms_of_ns timestamp) 1000)).

Definition hlc_to_string (h : HybridLogicalClock) : string :=
  string_of (put_time compact_format (gmtime (to_time_t (physical_time h)))) +:+ "_" +:+
  pretty (logical_time h).

Section reading.
(** The standard time of the host, and what [get_time] leaves in the broken-down
    time when it does not reach the end of the format, which the standard does
    not say in full. *)
Context (zone : Z → Z) (partial : bytes → tm).

(** A stream that failed, or is at its end, has no next character.  An [int] is not written when
    there is nothing left to read. *)
Definition timestamp_from_string (str : string) : M unit Z :=
  match get_time timestamp_format tm_zero (bytes_of str) with
  | None => mret (from_time_t (mktime zone (partial (bytes_of str))))
  | Some (t, rest) =>
      let timestamp := from_time_t (mktime zone t) in
      match rest with
      | "."%char :: rest =>
          match read_int rest with
          | None => undefined Indeterminate
          | Some ms => mret (timestamp + ms * ns_per_ms)
          end
      | _ => mret timestamp
      end
  end.

(** [now] is the clock reading of the constructor; [None] is the exception of
    [stoull]. *)
Definition hlc_from_string (now : Z) (str : string) : option HybridLogicalClock :=
  match split_last "_" (bytes_of str) with
  | None => Some (MkHlc now 0)
  | Some (time_str, logical_str) =>
      logical ← stoull (string_of logical_str);
      let t := match get_time compact_format tm_zero time_str with
               | Some (t, _) => t
               | None => partial time_str
               end in
      Some (MkHlc (from_time_t (mktime zone t)) logical)
  end.
End reading.

(** ** Reading back *)

Lemma to_time_t_range t : is_i64 t → - 2 ^ 34 <= to_time_t t < 2 ^ 34.
Proof. unfold is_i64, to_time_t, ns_per_s. intros. Z.to_euclidean_division_equations. lia. Qed.

Lemma put_digits_start w n rest :
  skip_spaces (put_digits (S w) n ++ rest) = put_digits (S w) n ++ rest.
Proof.
  revert n rest. induction w as [|w IH]; intros n rest.
  - cbn [put_digits app]. pose proof (Z.mod_pos_bound n 10 eq_refl).
    by destruct (digit_start (pretty_N_char (Z.to_N (n mod 10))) rest) as [? _];
      [apply pretty_N_char_digit; lia|].
  - cbn [put_digits]. rewrite <- (assoc_L (++)). apply IH.
Qed.

(** Reads one conversion back. *)
Ltac read_field :=
  first
  [ rewrite get_put_year by lia
  | rewrite get_put_number by (done || lia)
  | rewrite decide_True by done
  | rewrite put_digits_start
  | match goal with |- context [is_space ?c] =>
      let v := eval vm_compute in (is_space c) in change (is_space c) with v; cbn iota
    end
  | match goal with |- context [skip_spaces (" "%char :: ?s)] =>
      change (skip_spaces (" "%char :: s)) with (skip_spaces s)
    end
  | progress cbn [mbind option_bind get_fields get_field app tm_zero] ].

Lemma get_put_timestamp t rest :
  tm_ok t → get_time timestamp_format tm_zero (put_time timestamp_format t ++ rest) = Some (t, rest).
Proof.
  intros []. unfold get_time, put_time, timestamp_format. cbn [fmap list_fmap concat put_field].
  rewrite app_nil_r, <- !(assoc_L (++)). repeat read_field. by destruct t.
Qed.

Lemma get_put_hlc t rest :
  tm_ok t → get_time compact_format tm_zero (put_time compact_format t ++ rest) = Some (t, rest).
Proof.
  intros []. unfold get_time, put_time, compact_format. cbn [fmap list_fmap concat put_field].
  rewrite app_nil_r, <- !(assoc_L (++)). repeat read_field. by destruct t.
Qed.

(** ** The conversions *)

(** C34. A timestamp is written as text in UTC and read back as local time that
    is not daylight saving time (tm_isdst is 0): what is read back is the whole
    second of the timestamp minus the offset of the host's standard time, in
    winter and in summer, plus the milliseconds (of negative milliseconds above
    -10, zero padding hides the sign). So from 1970 on, and where standard time
    is UTC, it is read back as itself cut to milliseconds. *)
Theorem timestamp_text_round_trip zone partial t :
  is_i64 t →
  let secs := to_time_t t in
  let ms := Z.rem (ms_of_ns t) 1000 in
  timestamp_from_string zone partial (timestamp_to_string t) tt =
    Returns (from_time_t (secs - zone secs) +
             (if (-10 <? ms) && (ms <? 0) then 0 else ms) * ns_per_ms) tt ∧
  (0 ≤ t → zone secs = 0 →
   timestamp_from_string zone partial (timestamp_to_string t) tt =
     Returns (t - t mod ns_per_ms) tt).
Proof.
  intros Ht secs ms.
  assert (timestamp_from_string zone partial (timestamp_to_string t) tt =
    Returns (from_time_t (secs - zone secs) +
             (if (-10 <? ms) && (ms <? 0) then 0 else ms) * ns_per_ms) tt) as E.
  { unfold timestamp_from_string, timestamp_to_string. fold secs ms.
    rewrite !bytes_of_app, bytes_of_string_of, get_put_timestamp
      by (by apply gmtime_ok, to_time_t_range).
    change (bytes_of ".") with ["."%char]. cbn [app]. rewrite read_int_pad3.
    - unfold mktime. by rewrite timegm_gmtime.
    - unfold ms. Z.to_euclidean_division_equations. lia. }
  split; [exact E|]. intros Hp Hz. rewrite E, Hz. f_equal.
  assert (0 <= ms) as Hms.
  { unfold ms, ms_of_ns, ns_per_ms. Z.to_euclidean_division_equations. lia. }
  rewrite (proj2 (Z.ltb_ge ms 0)), andb_false_r by lia.
  unfold ms, secs, from_time_t, to_time_t, ms_of_ns, ns_per_s, ns_per_ms.
  Z.to_euclidean_division_equations. lia.
Qed.

Lemma hlc_read_back zone partial now h :
  is_i64 (physical_time h) → (logical_time h < 2 ^ 64)%N →
  let secs := to_time_t (physical_time h) in
  hlc_from_string zone partial now (hlc_to_string h) =
    Some (MkHlc (from_time_t (secs - zone secs)) (logical_time h)).
Proof.
  intros Ht Hl secs. unfold hlc_from_string, hlc_to_string. fold secs.
  rewrite !bytes_of_app, bytes_of_string_of. change (bytes_of "_") with ["_"%char]. cbn [app].
  rewrite split_last_app.
  2: { intros Hin. pose proof (pretty_digits (logical_time h)) as Hd.
       rewrite Forall_forall in Hd. by apply Hd in Hin. }
  rewrite string_of_bytes_of, stoull_pretty by done. cbn [mbind option_bind].
  rewrite <- (app_nil_r (put_time _ _)), get_put_hlc by (by apply gmtime_ok, to_time_t_range).
  unfold mktime. by rewrite timegm_gmtime.
Qed.

(** The text of a hybrid clock drops what is below a second: of two clocks of
    the same second, the earlier one with the larger counter is read back as the
    later one. *)
Theorem hlc_text_round_trip zone partial now a b :
  is_i64 (physical_time a) → is_i64 (physical_time b) →
  (logical_time b < logical_time a < 2 ^ 64)%N →
  to_time_t (physical_time a) = to_time_t (physical_time b) → physical_time a < physical_time b →
  let read h := hlc_from_string zone partial now (hlc_to_string h) in
  let physical := from_time_t (to_time_t (physical_time a) - zone (to_time_t (physical_time a))) in
  read a = Some (MkHlc physical (logical_time a)) ∧
  read b = Some (MkHlc physical (logical_time b)) ∧
  hlc_ltb a b = true ∧
  hlc_ltb (MkHlc physical (logical_time b)) (MkHlc physical (logical_time a)) = true.
Proof.
  intros Ha Hb [Hlt Hmax] Hs Hp read physical. unfold read, physical.
  rewrite !hlc_read_back, <- Hs by (done || lia).
  split; [done|]. split; [done|]. split; apply hlc_ltb_spec; cbn; [by left|by right].
Qed.

(** The end of 28 February 2024, read back from UTC. *)
Lemma timestamp_text_round_trip_witness :
  timestamp_to_string 1709164799123456789 = "2024-02-28 23:59:59.123" ∧
  timestamp_from_string (λ _, 0) (λ _, tm_zero) "2024-02-28 23:59:59.123" tt =
    Returns 1709164799123000000 tt.
Proof.
  split; [vm_compute; reflexivity|].
  apply (timestamp_text_round_trip (λ _, 0) (λ _, tm_zero) 1709164799123456789);
    [unfold is_i64; lia|lia|done].
Defined.

Lemma hlc_text_round_trip_witness :
  hlc_to_string (MkHlc 1709164799123456789 7) = "20240228_235959_7" ∧
  hlc_from_string (λ _, 3600) (λ _, tm_zero) 0 "20240228_235959_7" =
    Some (MkHlc 1709161199000000000 7) ∧
  hlc_from_string (λ _, 3600) (λ _, tm_zero) 0 (hlc_to_string (MkHlc 1709164799123456790 6)) =
    Some (MkHlc 1709161199000000000 6) ∧
  hlc_ltb (MkHlc 1709164799123456789 7) (MkHlc 1709164799123456790 6) = true ∧
  hlc_ltb (MkHlc 1709161199000000000 6) (MkHlc 1709161199000000000 7) = true.
Proof.
  split; [vm_compute; reflexivity|].
  apply (hlc_text_round_trip (λ _, 3600) (λ _, tm_zero) 0 (MkHlc 1709164799123456789 7)
    (MkHlc 1709164799123456790 6)); [unfold is_i64; cbn; lia..|cbn; lia|reflexivity|cbn; lia].
Defined.

(** A string that ends behind the point: the milliseconds are read from a
    stream that has nothing left, into a variable that nothing initialised. *)
Lemma timestamp_from_string_indeterminate :
  timestamp_from_string (λ _, 0) (λ _, tm_zero) "2024-02-28 23:59:59." tt =
    Undefined Indeterminate.
Proof. vm_compute. reflexivity. Qed.
