(* ===== verification/Timestamps.v ===== *)
(** * Timestamps: [TimestampOrdering] of [time/time_sync.cpp]

    The source of transaction timestamps, over any service with a logical
    clock.  It makes the values of the service strictly increasing, whatever
    the service returns. *)

From Stdlib Require Import Ascii String ZArith NArith Lia Sorted.
From stdpp Require Import base numbers list strings gmap sorting.
From S2P Require Import Prelude Types Files Doubles TimeSync LogicalClock.

(** What [TimestampOrdering] uses of a [TimeService]. *)
Class LogicalClockService (T : Type) := {
  svc_now_logical : M T HybridLogicalClock
}.

#[export] Instance default_logical_clock : LogicalClockService TsSt := {|
  svc_now_logical := now_logical
|}.

Record TimestampOrdering (T : Type) := MkOrdering {
  time_service_ : T;
  latest_timestamp_ : HybridLogicalClock;
  to_mutex : bool
}.
Arguments MkOrdering {T} time_service_ latest_timestamp_ to_mutex.
Arguments time_service_ {T} t.
Arguments latest_timestamp_ {T} t.
Arguments to_mutex {T} t.

#[export, refine] Instance TimestampOrdering_mutex T : HasMutex (TimestampOrdering T) := {|
  which_mutex := TimestampMutex;
  owned := to_mutex;
  set_owned := λ b o, MkOrdering (time_service_ o) (latest_timestamp_ o) b
|}.
Proof. all: by intros; destruct s. Defined.

Section ordering.
Context {T : Type} `{!LogicalClockService T}.

Abbreviation OrdSt := (TimestampOrdering T).

(** [TimestampOrdering(time_service)]. *)
Definition TimestampOrdering_new : M T OrdSt :=
  latest ← svc_now_logical;
  gets (λ t : T, MkOrdering t latest false).

Definition on_service {A} (m : M T A) : M OrdSt A :=
  zoom time_service_ (λ t o, MkOrdering t (latest_timestamp_ o) (to_mutex o)) m.

Definition generate_timestamp : M OrdSt HybridLogicalClock := guarded (
  new_timestamp ← on_service svc_now_logical;
  latest ← gets (latest_timestamp_ (T := T));
  let new_timestamp :=
    if hlc_leb new_timestamp latest
    then MkHlc (physical_time latest) (wrap64 (logical_time latest + 1))
    else new_timestamp in
  _ ← modify (λ o : OrdSt, MkOrdering (time_service_ o) new_timestamp (to_mutex o));
  mret new_timestamp).

Definition is_before (ts1 ts2 : HybridLogicalClock) : bool := hlc_ltb ts1 ts2.

(** The difference of the counters wraps, and is then read as signed. *)
Definition is_concurrent (ts1 ts2 : HybridLogicalClock) : bool :=
  let time_diff := Z.abs (ms_of_ns (physical_time ts1 - physical_time ts2)) in
  let logical_diff := Z.abs (i64_of_u64 (sub64 (logical_time ts1) (logical_time ts2))) in
  (time_diff <? 100)%Z && (logical_diff <? 10)%Z.

(** [others k]: what other threads do while the mutex is released for the
    [k]-th time, and whether that wait ended at the deadline. *)
Context (others : nat → M OrdSt bool).

Definition wait_released (k : nat) : M OrdSt bool :=
  _ ← modify (set_owned (S := OrdSt) false);
  timed_out ← others k;
  _ ← modify (set_owned (S := OrdSt) true);
  mret timed_out.

(** [condition_variable::wait_until] with a predicate. *)
Fixpoint wait_loop (turns k : nat) (target_ts : HybridLogicalClock) : M OrdSt bool :=
  latest ← gets (latest_timestamp_ (T := T));
  if hlc_geb latest target_ts then mret true
  else
    match turns with
    | 0 => undefined OutOfFuel
    | S turns =>
        timed_out ← wait_released k;
        if timed_out : bool
        then gets (λ o : OrdSt, hlc_geb (latest_timestamp_ o) target_ts)
        else wait_loop turns (S k) target_ts
    end.

Definition wait_for_timestamp (turns : nat) (target_ts : HybridLogicalClock) :
    M OrdSt (Result unit) := guarded (
  result ← wait_loop turns 0 target_ts;
  if result : bool then mret (ROk tt)
  else mret (RErr Status.TIMEOUT "Timeout waiting for timestamp")).

(** The timestamps of some calls in a row. *)
Fixpoint generate_many (n : nat) : M OrdSt (list HybridLogicalClock) :=
  match n with
  | 0 => mret []
  | S n => ts ← generate_timestamp; rest ← generate_many n; mret (ts :: rest)
  end.

(** ** Timestamps increase *)

Lemma generate_timestamp_step o h o' :
  (logical_time (latest_timestamp_ o) < 2 ^ 64 - 1)%N →
  generate_timestamp o = Returns h o' →
  latest_timestamp_ o' = h ∧ hlc_ltb (latest_timestamp_ o) h = true ∧ to_mutex o' = false.
Proof.
  intros Hl (_ & Hm & u & H & ->)%guarded_returns_inv.
  apply M_bind_returns in H as (n & s1 & E & H). rewrite M_bind_gets, M_bind_modify in H.
  assert (latest_timestamp_ s1 = latest_timestamp_ o) as El.
  { unfold on_service, zoom in E. destruct (svc_now_logical _); [|done..].
    injection E as _ <-. done. }
  rewrite El in H. injection H as Hh <-. cbn. subst h. split; [done|]. split; [|done].
  destruct (hlc_leb n _) eqn:Eb.
  - apply hlc_ltb_spec. right. cbn [physical_time logical_time].
    rewrite wrap64_small by lia. lia.
  - rewrite hlc_leb_spec in Eb. by apply negb_false_iff in Eb.
Qed.

(** C15. The timestamps of successive calls of generate_timestamp are strictly
    increasing and above the latest one before, whatever values the time service
    returns in between, as long as the 64-bit counter has not reached its end. *)
Theorem timestamps_strictly_increase n o hs o' :
  (logical_time (latest_timestamp_ o) < 2 ^ 64 - 1)%N →
  Forall (λ h, logical_time h < 2 ^ 64 - 1)%N hs →
  generate_many n o = Returns hs o' →
  StronglySorted (λ a b, hlc_ltb a b = true) (latest_timestamp_ o :: hs).
Proof.
  revert o hs. induction n as [|n IH]; intros o hs Hl Hf H; cbn [generate_many] in H.
  { injection H as <- _. repeat constructor. }
  apply M_bind_returns in H as (h & o1 & E & H). apply M_bind_returns in H as (rest & o2 & E2 & H).
  injection H as <- <-. apply Forall_cons in Hf as [Hh Hrest].
  destruct (generate_timestamp_step o h o1 Hl E) as (E1 & Hlt & _). subst h.
  specialize (IH o1 rest Hh Hrest E2). constructor; [done|].
  apply Forall_cons. split; [done|]. apply StronglySorted_inv in IH as [_ Hall].
  eapply Forall_impl; [exact Hall|]. intros x Hx. cbn in Hx. by eapply hlc_ltb_trans.
Qed.

(** ** Waiting *)

Lemma wait_loop_result turns k target o b o' :
  wait_loop turns k target o = Returns b o' → b = hlc_geb (latest_timestamp_ o') target.
Proof.
  revert k o. induction turns as [|turns IH]; intros k o H; cbn [wait_loop] in H;
    rewrite M_bind_gets in H; destruct (hlc_geb (latest_timestamp_ o) target) eqn:E.
  1,3: by injection H as <- <-.
  { done. }
  apply M_bind_returns in H as (timed_out & o1 & _ & H). destruct timed_out.
  - by injection H as <- <-.
  - by apply IH in H.
Qed.

Lemma wait_loop_ends turns k target o :
  (∀ j o, ∃ b o', others j o = Returns b o' ∧ (j + 1 = k + turns → b = true)) →
  0 < turns → ∃ b o', wait_loop turns k target o = Returns b o'.
Proof.
  intros Ho. revert k o Ho. induction turns as [|turns IH]; intros k o Ho Ht; [lia|].
  cbn [wait_loop]. rewrite M_bind_gets.
  destruct (hlc_geb (latest_timestamp_ o) target); [by eexists _, _|].
  unfold wait_released at 1.
  destruct (Ho k (set_owned false o)) as (b & o1 & E & Hb).
  assert ((modify (set_owned (S := OrdSt) false) ≫= λ _, others k ≫= λ timed_out : bool,
    modify (set_owned (S := OrdSt) true) ≫= λ _, mret timed_out) o = Returns b (set_owned true o1)) as Ew.
  { rewrite M_bind_modify. by mstep E. }
  mstep Ew. destruct b; [by eexists _, _|].
  apply IH.
  - intros j p. destruct (Ho j p) as (b & p' & Ej & Hj). exists b, p'. split; [done|].
    intros. apply Hj. lia.
  - destruct turns; [|lia]. discriminate Hb. lia.
Qed.

(** If what the other threads do returns, and a wait ends at the deadline in the
    end, wait_for_timestamp returns: with success exactly if the latest
    timestamp is then at least the one waited for. *)
Theorem wait_for_timestamp_result turns target o :
  to_mutex o = false →
  (∀ j o, ∃ b o', others j o = Returns b o' ∧ (j + 1 = turns → b = true)) → 0 < turns →
  ∃ r o', wait_for_timestamp turns target o = Returns r o' ∧
    (if hlc_geb (latest_timestamp_ o') target then r = ROk tt
     else r = RErr Status.TIMEOUT "Timeout waiting for timestamp").
Proof.
  intros Hm Ho Ht.
  destruct (wait_loop_ends turns 0 target (set_owned true o) Ho Ht) as (b & o1 & E).
  pose proof (wait_loop_result _ _ _ _ _ _ E) as Hb.
  exists (if b then ROk tt else RErr Status.TIMEOUT "Timeout waiting for timestamp"), (set_owned false o1).
  split.
  - apply guarded_returns; [done|]. mstep E. by destruct b.
  - cbn. rewrite <- Hb. by destruct b.
Qed.
End ordering.

(** A service whose clock a received timestamp has set back. *)
Lemma timestamps_strictly_increase_witness :
  let o := MkOrdering (steady_env, ahead_service) (MkHlc 200000000 3) false in
  generate_many 2 o = Returns [MkHlc 200000000 4; MkHlc 200000000 5]
    (MkOrdering (read_on 4 steady_env, ts_set_logical (MkHlc 130000000 7) ahead_service)
       (MkHlc 200000000 5) false) ∧
  StronglySorted (λ a b, hlc_ltb a b = true)
    [MkHlc 200000000 3; MkHlc 200000000 4; MkHlc 200000000 5].
Proof.
  intros o.
  assert (generate_many 2 o = Returns [MkHlc 200000000 4; MkHlc 200000000 5]
    (MkOrdering (read_on 4 steady_env, ts_set_logical (MkHlc 130000000 7) ahead_service)
       (MkHlc 200000000 5) false)) as E by (vm_compute; reflexivity).
  split; [exact E|].
  refine (timestamps_strictly_increase 2 o [MkHlc 200000000 4; MkHlc 200000000 5] _ _ _ E).
  - vm_compute. reflexivity.
  - repeat constructor.
Defined.

(** Another thread generates a timestamp while we wait. *)
Lemma wait_for_timestamp_result_witness :
  let o := MkOrdering (steady_env, ahead_service) (MkHlc 200000000 3) false in
  let others (k : nat) : M (TimestampOrdering TsSt) bool :=
    modify (λ p, MkOrdering (time_service_ p) (MkHlc 200000000 4) (to_mutex p)) ≫= λ _, mret (k =? 1) in
  ∃ r o', wait_for_timestamp others 2 (MkHlc 200000000 5) o = Returns r o' ∧
    (if hlc_geb (latest_timestamp_ o') (MkHlc 200000000 5) then r = ROk tt
     else r = RErr Status.TIMEOUT "Timeout waiting for timestamp").
Proof.
  intros o others. apply (wait_for_timestamp_result others 2 (MkHlc 200000000 5) o).
  - reflexivity.
  - intros j p. eexists _, _. split; [reflexivity|]. intros Hj.
    replace j with 1 by lia. reflexivity.
  - lia.
Defined.
