(* ===== verification/Hotspot.v ===== *)
(** * Hotspot: [hotspot/hotspot_manager.cpp]

    [DefaultHotspotManager]: detection of hot keys from the statistics of an
    access recorder, their handling, the queue of events, and three background
    threads; and the functions of [hotspot_utils].  [DefaultAccessRecorder] has
    no code in the repository: the recorder is any that has the operations of
    [AccessRecorder]. *)

From Stdlib Require Import Ascii String ZArith NArith Lia SpecFloat.
From stdpp Require Import base numbers list strings gmap sorting fin_sets.
From S2P Require Import Prelude OrdMap Types Files Doubles.

Abbreviation NodeId := string.

Module HotspotLevel.
Inductive t := NORMAL | WARM | HOT | CRITICAL.
#[global] Instance t_eq_dec : EqDecision t.
Proof. solve_decision. Defined.
(** The value of the enumerator, which the code compares. *)
Definition rank (l : t) : nat :=
  match l with NORMAL => 0 | WARM => 1 | HOT => 2 | CRITICAL => 3 end.
End HotspotLevel.

Module HotspotStrategy.
Inductive t := REPLICATION | PARTITIONING | CACHING | LOAD_BALANCING | RATE_LIMITING.
#[global] Instance t_eq_dec : EqDecision t.
Proof. solve_decision. Defined.
End HotspotStrategy.

Module AccessPattern.
Inductive t := READ_HEAVY | WRITE_HEAVY | MIXED | BURST | PERIODIC.
#[global] Instance t_eq_dec : EqDecision t.
Proof. solve_decision. Defined.
End AccessPattern.

Record HotspotKeyInfo := MkHotKey {
  hk_key : MultiLevelKey;
  hk_level : HotspotLevel.t;
  hk_pattern : AccessPattern.t;
  total_access_count : N;
  read_count : N;
  write_count : N;
  access_rate : double;
  first_detected : Z;
  last_access : Z;
  hk_detection_window : Z;
  node_access_counts : gmap NodeId N;
  applied_strategies : list HotspotStrategy.t
}.

(** [HotspotKeyInfo()]; [now] is the reading it makes. *)
Definition HotspotKeyInfo_new (now : Z) : HotspotKeyInfo :=
  MkHotKey (MkKey "" "") HotspotLevel.NORMAL AccessPattern.MIXED 0 0 0 d0 now now 60000 ∅ [].

Definition get_read_ratio (i : HotspotKeyInfo) : double :=
  if (0 <? total_access_count i)%N
  then ddiv (of_nat64 (read_count i)) (of_nat64 (total_access_count i)) else d0.
Definition get_write_ratio (i : HotspotKeyInfo) : double :=
  if (0 <? total_access_count i)%N
  then ddiv (of_nat64 (write_count i)) (of_nat64 (total_access_count i)) else d0.
Definition d_four_fifths : double := ddiv (of_int 8) d10.
Definition is_read_heavy (i : HotspotKeyInfo) : bool := dltb d_four_fifths (get_read_ratio i).
Definition is_write_heavy (i : HotspotKeyInfo) : bool := dltb d_half (get_write_ratio i).

(** Durations in milliseconds. *)
Record HotspotDetectionConfig := MkDetectionConfig {
  warm_threshold : N;
  hot_threshold : N;
  critical_threshold : N;
  detection_window : Z;
  cooling_period : Z;
  max_node_access_ratio : double;
  min_nodes_for_distribution : N;
  enable_pattern_detection : bool;
  burst_detection_window : Z;
  burst_multiplier : double
}.

Definition HotspotDetectionConfig_default : HotspotDetectionConfig :=
  MkDetectionConfig 1000 5000 20000 60000 300000 (ddiv (of_int 7) d10) 2 true 10000 (of_int 5).

Record HotspotHandlingConfig := MkHandlingConfig {
  max_replicas : N;
  min_replicas_for_hot : N;
  local_cache_size : N;
  cache_ttl : Z;
  max_qps_per_key : N;
  rate_limit_window : Z;
  enable_key_partitioning : bool;
  max_partitions_per_key : N;
  auto_handle_hotspots : bool;
  preferred_strategies : list HotspotStrategy.t
}.

Definition HotspotHandlingConfig_default : HotspotHandlingConfig :=
  MkHandlingConfig 5 3 10000 300000 10000 1000 true 4 true
    [HotspotStrategy.REPLICATION; HotspotStrategy.CACHING].

Module HotspotEventType.
Inductive t := HOTSPOT_DETECTED | HOTSPOT_RESOLVED | STRATEGY_APPLIED | STRATEGY_REMOVED.
#[global] Instance t_eq_dec : EqDecision t.
Proof. solve_decision. Defined.
End HotspotEventType.

Record HotspotEvent := MkHsEvent {
  he_type : HotspotEventType.t;
  he_key : MultiLevelKey;
  he_level : HotspotLevel.t;
  he_strategy : HotspotStrategy.t;
  he_timestamp : Z;
  details : string
}.

(** The calls of a [HotspotEventHandler]. *)
Inductive HsNotice :=
  | OnHotspotDetected (hotspot : HotspotKeyInfo)
  | OnHotspotResolved (key : MultiLevelKey)
  | OnStrategyApplied (key : MultiLevelKey) (strategy : HotspotStrategy.t)
  | OnStrategyFailed (key : MultiLevelKey) (strategy : HotspotStrategy.t) (why : string).

(** What the manager uses of an [AccessRecorder]. *)
Class AccessRecorder (R : Type) := {
  ar_record_access : MultiLevelKey → OperationType.t → NodeId → M R unit;
  ar_get_key_stats : MultiLevelKey → M R HotspotKeyInfo;
  ar_get_top_keys : N → M R (list MultiLevelKey)
}.

(** [DefaultHotspotHandler]: it has no state, and every strategy succeeds. *)
Inductive DefaultHotspotHandler := MkHandler.
Definition handler_apply_strategy (h : DefaultHotspotHandler) (key : MultiLevelKey)
    (strategy : HotspotStrategy.t) : Result unit := ROk tt.
Definition handler_remove_strategy (h : DefaultHotspotHandler) (key : MultiLevelKey)
    (strategy : HotspotStrategy.t) : Result unit := ROk tt.
Definition handler_get_applied_strategies (h : DefaultHotspotHandler) (key : MultiLevelKey) :
    list HotspotStrategy.t := [].
Definition handler_is_strategy_applied (h : DefaultHotspotHandler) (key : MultiLevelKey)
    (strategy : HotspotStrategy.t) : bool := false.
Definition handler_evaluate_strategy_effectiveness (h : DefaultHotspotHandler)
    (key : MultiLevelKey) (strategy : HotspotStrategy.t) : double := d1.

Record HotspotManager (R : Type) := MkHotspotManager {
  detection_config_ : HotspotDetectionConfig;
  handling_config_ : HotspotHandlingConfig;
  access_recorder_ : option R;
  hotspot_handler_ : option DefaultHotspotHandler;
  hs_event_handler_ : option (list HsNotice);
  current_hotspots_ : gmap MultiLevelKey HotspotKeyInfo;
  recent_events_ : list HotspotEvent;
  hs_running : bool;
  hs_detection : option thread_at;
  hs_handling : option thread_at;
  hs_cleanup : option thread_at;
  hs_stop : bool;
  hs_mutex : bool
}.
Arguments MkHotspotManager {R}.
Arguments detection_config_ {R}.
Arguments handling_config_ {R}.
Arguments access_recorder_ {R}.
Arguments hotspot_handler_ {R}.
Arguments hs_event_handler_ {R}.
Arguments current_hotspots_ {R}.
Arguments recent_events_ {R}.
Arguments hs_running {R}.
Arguments hs_detection {R}.
Arguments hs_handling {R}.
Arguments hs_cleanup {R}.
Arguments hs_stop {R}.
Arguments hs_mutex {R}.

Section manager.
Context {R : Type} `{!AccessRecorder R}.

Abbreviation HsSt := (Clock * HotspotManager R)%type.

(** [DefaultHotspotManager()], with the recorder it creates. *)
Definition HotspotManager_new (recorder : R) : HotspotManager R :=
  MkHotspotManager HotspotDetectionConfig_default HotspotHandlingConfig_default (Some recorder)
    (Some MkHandler) None ∅ [] false None None None false false.

Definition hs_set_recorder (r : option R) (m : HotspotManager R) : HotspotManager R :=
  MkHotspotManager (detection_config_ m) (handling_config_ m) r (hotspot_handler_ m)
    (hs_event_handler_ m) (current_hotspots_ m) (recent_events_ m) (hs_running m)
    (hs_detection m) (hs_handling m) (hs_cleanup m) (hs_stop m) (hs_mutex m).
Definition hs_set_hotspots (hs : gmap MultiLevelKey HotspotKeyInfo) (m : HotspotManager R) :
    HotspotManager R :=
  MkHotspotManager (detection_config_ m) (handling_config_ m) (access_recorder_ m)
    (hotspot_handler_ m) (hs_event_handler_ m) hs (recent_events_ m) (hs_running m)
    (hs_detection m) (hs_handling m) (hs_cleanup m) (hs_stop m) (hs_mutex m).
Definition hs_set_events (es : list HotspotEvent) (m : HotspotManager R) : HotspotManager R :=
  MkHotspotManager (detection_config_ m) (handling_config_ m) (access_recorder_ m)
    (hotspot_handler_ m) (hs_event_handler_ m) (current_hotspots_ m) es (hs_running m)
    (hs_detection m) (hs_handling m) (hs_cleanup m) (hs_stop m) (hs_mutex m).
Definition hs_set_handler (h : option (list HsNotice)) (m : HotspotManager R) :
    HotspotManager R :=
  MkHotspotManager (detection_config_ m) (handling_config_ m) (access_recorder_ m)
    (hotspot_handler_ m) h (current_hotspots_ m) (recent_events_ m) (hs_running m)
    (hs_detection m) (hs_handling m) (hs_cleanup m) (hs_stop m) (hs_mutex m).
Definition hs_set_configs (dc : HotspotDetectionConfig) (hc : HotspotHandlingConfig)
    (m : HotspotManager R) : HotspotManager R :=
  MkHotspotManager dc hc (access_recorder_ m)
    (hotspot_handler_ m) (hs_event_handler_ m) (current_hotspots_ m) (recent_events_ m)
    (hs_running m) (hs_detection m) (hs_handling m) (hs_cleanup m) (hs_stop m) (hs_mutex m).
Definition hs_set_threads (running stopping : bool) (d h c : option thread_at)
    (m : HotspotManager R) : HotspotManager R :=
  MkHotspotManager (detection_config_ m) (handling_config_ m) (access_recorder_ m)
    (hotspot_handler_ m) (hs_event_handler_ m) (current_hotspots_ m) (recent_events_ m)
    running d h c stopping (hs_mutex m).
Definition hs_set_mutex (b : bool) (m : HotspotManager R) : HotspotManager R :=
  MkHotspotManager (detection_config_ m) (handling_config_ m) (access_recorder_ m)
    (hotspot_handler_ m) (hs_event_handler_ m) (current_hotspots_ m) (recent_events_ m)
    (hs_running m) (hs_detection m) (hs_handling m) (hs_cleanup m) (hs_stop m) b.

#[export, refine] Instance HotspotManager_mutex : HasMutex HsSt := {|
  which_mutex := HotspotMutex;
  owned := λ s, hs_mutex s.2;
  set_owned := λ b s, (s.1, hs_set_mutex b s.2)
|}.
Proof. all: by intros; destruct s as [? []]. Defined.

Definition on_hs (f : HotspotManager R → HotspotManager R) : M HsSt unit :=
  modify (λ s, (s.1, f s.2)).
Definition hs_now : M HsSt Z := lift (λ s, let '(t, c) := tick s.1 in (t, (c, s.2))).

(** A call of the recorder, or [otherwise] if there is none. *)
Definition on_recorder {A} (m : M R A) (otherwise : M HsSt A) : M HsSt A := λ s,
  match access_recorder_ s.2 with
  | None => otherwise s
  | Some r =>
      match m r with
      | Returns a r => Returns a (s.1, hs_set_recorder (Some r) s.2)
      | Throws n r => Throws n (s.1, hs_set_recorder (Some r) s.2)
      | Undefined u => Undefined u
      end
  end.

(** The order in which the table of hot keys iterates. *)
Context (order_keys : gset MultiLevelKey → list MultiLevelKey).

(** ** Events *)

Definition hs_notice (n : HsNotice) : M HsSt unit :=
  on_hs (λ m, match hs_event_handler_ m with
              | Some ns => hs_set_handler (Some (ns ++ [n])) m
              | None => m
              end).

Definition add_event (event : HotspotEvent) : M HsSt unit := guarded (
  _ ← on_hs (λ m, hs_set_events (recent_events_ m ++ [event]) m);
  match he_type event with
  | HotspotEventType.HOTSPOT_RESOLVED => hs_notice (OnHotspotResolved (he_key event))
  | HotspotEventType.STRATEGY_APPLIED =>
      hs_notice (OnStrategyApplied (he_key event) (he_strategy event))
  | _ => mret tt
  end).

(** An event reads the clock when it is constructed, and again for its
    timestamp. *)
Definition notify_hotspot_detected (hotspot : HotspotKeyInfo) : M HsSt unit :=
  _ ← hs_now;
  now ← hs_now;
  _ ← hs_notice (OnHotspotDetected hotspot);
  add_event (MkHsEvent HotspotEventType.HOTSPOT_DETECTED (hk_key hotspot) (hk_level hotspot)
    HotspotStrategy.REPLICATION now
    ("Hotspot detected for key: " +:+ key_to_string (hk_key hotspot))).
Definition notify_hotspot_resolved (key : MultiLevelKey) : M HsSt unit :=
  _ ← hs_now;
  now ← hs_now;
  add_event (MkHsEvent HotspotEventType.HOTSPOT_RESOLVED key HotspotLevel.NORMAL
    HotspotStrategy.REPLICATION now ("Hotspot resolved for key: " +:+ key_to_string key)).
Definition notify_strategy_applied (key : MultiLevelKey) (strategy : HotspotStrategy.t) :
    M HsSt unit :=
  _ ← hs_now;
  now ← hs_now;
  add_event (MkHsEvent HotspotEventType.STRATEGY_APPLIED key HotspotLevel.NORMAL
    strategy now ("Strategy applied for key: " +:+ key_to_string key)).
(** Called from nowhere. *)
Definition notify_strategy_failed (key : MultiLevelKey) (strategy : HotspotStrategy.t)
    (why : string) : M HsSt unit :=
  _ ← hs_now;
  now ← hs_now;
  _ ← hs_notice (OnStrategyFailed key strategy why);
  add_event (MkHsEvent HotspotEventType.STRATEGY_REMOVED key HotspotLevel.NORMAL
    strategy now
    ("Strategy failed for key: " +:+ key_to_string key +:+ ", reason: " +:+ why)).

(** ** Detection *)

Definition calculate_hotspot_level (c : HotspotDetectionConfig) (key_info : HotspotKeyInfo) :
    HotspotLevel.t :=
  if (critical_threshold c <=? total_access_count key_info)%N then HotspotLevel.CRITICAL
  else if (hot_threshold c <=? total_access_count key_info)%N then HotspotLevel.HOT
  else if (warm_threshold c <=? total_access_count key_info)%N then HotspotLevel.WARM
  else HotspotLevel.NORMAL.

(** Called from nowhere, as [select_strategies]. *)
Definition detect_access_pattern (key_info : HotspotKeyInfo) : AccessPattern.t :=
  AccessPattern.BURST.
Definition select_strategies (hotspot : HotspotKeyInfo) : list HotspotStrategy.t :=
  match hk_level hotspot with
  | HotspotLevel.CRITICAL => [HotspotStrategy.REPLICATION; HotspotStrategy.PARTITIONING;
                              HotspotStrategy.LOAD_BALANCING]
  | HotspotLevel.HOT => [HotspotStrategy.REPLICATION; HotspotStrategy.LOAD_BALANCING]
  | HotspotLevel.WARM => [HotspotStrategy.LOAD_BALANCING]
  | HotspotLevel.NORMAL => []
  end.

Definition hk_set_level (l : HotspotLevel.t) (i : HotspotKeyInfo) : HotspotKeyInfo :=
  MkHotKey (hk_key i) l (hk_pattern i) (total_access_count i) (read_count i) (write_count i)
    (access_rate i) (first_detected i) (last_access i) (hk_detection_window i)
    (node_access_counts i) (applied_strategies i).

(** The loop over the most accessed keys. *)
Fixpoint detect_loop (top_keys : list MultiLevelKey) (result : list HotspotKeyInfo) :
    M HsSt (list HotspotKeyInfo) :=
  match top_keys with
  | [] => mret result
  | key :: top_keys =>
      key_info ← on_recorder (ar_get_key_stats key) (undefined NullPointer);
      c ← gets (λ s : HsSt, detection_config_ s.2);
      let key_info := hk_set_level (calculate_hotspot_level c key_info) key_info in
      if bool_decide (hk_level key_info = HotspotLevel.NORMAL)
      then detect_loop top_keys result
      else detect_loop top_keys (result ++ [key_info])
  end.

Definition detect_hotspots : M HsSt (list HotspotKeyInfo) := guarded (
  top_keys ← on_recorder (ar_get_top_keys 1000) (mret []);
  detect_loop top_keys []).

Definition record_access (key : MultiLevelKey) (op_type : OperationType.t) (node_id : NodeId) :
    M HsSt unit :=
  running ← gets (λ s : HsSt, hs_running s.2);
  if negb running then mret tt
  else on_recorder (ar_record_access key op_type node_id) (mret tt).

(** ** Handling *)

Definition apply_strategy_internal (key : MultiLevelKey) (strategy : HotspotStrategy.t) :
    M HsSt (Result unit) :=
  handler ← gets (λ s : HsSt, hotspot_handler_ s.2);
  match handler with
  | None => mret (RErr Status.NOT_IMPLEMENTED "Hotspot handler not available")
  | Some h => mret (handler_apply_strategy h key strategy)
  end.

(** The loop over the strategies, up to the first that succeeds. *)
Fixpoint apply_first (key : MultiLevelKey) (strategies : list HotspotStrategy.t) :
    M HsSt (Result unit) :=
  match strategies with
  | [] => mret (RErr Status.STORAGE_ERROR "All hotspot handling strategies failed")
  | strategy :: strategies =>
      result ← apply_strategy_internal key strategy;
      if is_ok result
      then _ ← notify_strategy_applied key strategy; mret (ROk tt)
      else apply_first key strategies
  end.

Definition handle_hotspot (key : MultiLevelKey) (strategies : list HotspotStrategy.t) :
    M HsSt (Result unit) :=
  handler ← gets (λ s : HsSt, hotspot_handler_ s.2);
  match handler with
  | None => mret (RErr Status.NOT_IMPLEMENTED "Hotspot handler not available")
  | Some _ =>
      apply_first key
        (if bool_decide (strategies = [])
         then [HotspotStrategy.REPLICATION; HotspotStrategy.LOAD_BALANCING] else strategies)
  end.

Definition resolve_hotspot (key : MultiLevelKey) : M HsSt (Result unit) := guarded (
  found ← gets (λ s : HsSt, current_hotspots_ s.2 !! key);
  match found with
  | Some _ =>
      _ ← on_hs (λ m, hs_set_hotspots (delete key (current_hotspots_ m)) m);
      _ ← notify_hotspot_resolved key;
      mret (ROk tt)
  | None => mret (ROk tt)
  end).

(** ** Queries *)

Definition hotspot_list (m : HotspotManager R) : list HotspotKeyInfo :=
  omap (M := list) (λ k, current_hotspots_ m !! k) (order_keys (dom (current_hotspots_ m))).
Definition get_current_hotspots : M HsSt (list HotspotKeyInfo) :=
  guarded (gets (λ s : HsSt, hotspot_list s.2)).
Definition get_hotspot_level (key : MultiLevelKey) : M HsSt HotspotLevel.t := guarded (
  gets (λ s : HsSt, match current_hotspots_ s.2 !! key with
                    | Some i => hk_level i
                    | None => HotspotLevel.NORMAL
                    end)).
Definition get_top_accessed_keys (limit : N) : M HsSt (list MultiLevelKey) :=
  on_recorder (ar_get_top_keys limit) (mret []).
Definition get_key_info (key : MultiLevelKey) : M HsSt HotspotKeyInfo := guarded (
  found ← gets (λ s : HsSt, current_hotspots_ s.2 !! key);
  match found with
  | Some i => mret i
  | None =>
      now ← hs_now;
      on_recorder (ar_get_key_stats key)
        (mret (MkHotKey key HotspotLevel.NORMAL AccessPattern.MIXED 0 0 0 d0 now now 60000 ∅ []))
  end).

(** The copied queue is emptied from its front. *)
Definition get_recent_events (limit : N) : M HsSt (list HotspotEvent) :=
  guarded (gets (λ s : HsSt, take (N.to_nat limit) (recent_events_ s.2))).

(** ** The threads *)

Definition record_hotspot (hotspot : HotspotKeyInfo) : M HsSt unit :=
  _ ← on_hs (λ m, hs_set_hotspots (<[hk_key hotspot := hotspot]> (current_hotspots_ m)) m);
  notify_hotspot_detected hotspot.
(** The turns of the threads, without the handler around them. *)
Definition detection_turn : M HsSt unit :=
  detected ← detect_hotspots;
  guarded (mfor record_hotspot detected).

Definition is_hot (i : HotspotKeyInfo) : bool :=
  (HotspotLevel.rank HotspotLevel.HOT <=? HotspotLevel.rank (hk_level i))%nat.
Definition handling_turn : M HsSt unit :=
  hotspots_to_handle ← guarded (gets (λ s : HsSt, List.filter is_hot (hotspot_list s.2)));
  mfor (λ hotspot, _ ← handle_hotspot (hk_key hotspot) []; mret tt) hotspots_to_handle.

Definition ns_per_minute : Z := 60000000000.
Definition cool (now : Z) (key : MultiLevelKey) : M HsSt unit :=
  m ← gets snd;
  match current_hotspots_ m !! key with
  | Some i =>
      if (Z.quot (cooling_period (detection_config_ m)) 60000 <?
          Z.quot (now - last_access i) ns_per_minute)%Z
      then
        _ ← notify_hotspot_resolved key;
        on_hs (λ m, hs_set_hotspots (delete key (current_hotspots_ m)) m)
      else mret tt
  | None => mret tt
  end.
Definition cleanup_turn : M HsSt unit :=
  now ← hs_now;
  guarded (
    keys ← gets (λ s : HsSt, order_keys (dom (current_hotspots_ s.2)));
    _ ← mfor (cool now) keys;
    on_hs (λ m, hs_set_events (drop (length (recent_events_ m) - 1000) (recent_events_ m)) m)).

(** A thread reads the stop flag, or makes the turn [m]. *)
Definition thread_check (get : HotspotManager R → option thread_at)
    (set : option thread_at → HotspotManager R → HotspotManager R) : M HsSt unit :=
  on_hs (λ m, match get m with
              | Some AtCheck => if hs_stop m then m else set (Some InTurn) m
              | _ => m
              end).
Definition thread_turn (get : HotspotManager R → option thread_at)
    (set : option thread_at → HotspotManager R → HotspotManager R) (turn : M HsSt unit) :
    M HsSt unit :=
  thread ← gets (λ s : HsSt, get s.2);
  match thread with
  | Some InTurn => _ ← catching turn; on_hs (λ m, set ((λ _, AtCheck) <$> get m) m)
  | _ => mret tt
  end.

Definition set_detection (p : option thread_at) (m : HotspotManager R) : HotspotManager R :=
  hs_set_threads (hs_running m) (hs_stop m) p (hs_handling m) (hs_cleanup m) m.
Definition set_handling (p : option thread_at) (m : HotspotManager R) : HotspotManager R :=
  hs_set_threads (hs_running m) (hs_stop m) (hs_detection m) p (hs_cleanup m) m.
Definition set_cleanup (p : option thread_at) (m : HotspotManager R) : HotspotManager R :=
  hs_set_threads (hs_running m) (hs_stop m) (hs_detection m) (hs_handling m) p m.

Definition hs_detection_check := thread_check hs_detection set_detection.
Definition hs_detection_loop_turn := thread_turn hs_detection set_detection detection_turn.
Definition hs_handling_check := thread_check hs_handling set_handling.
Definition hs_handling_loop_turn := thread_turn hs_handling set_handling handling_turn.
Definition hs_cleanup_check := thread_check hs_cleanup set_cleanup.
Definition hs_cleanup_loop_turn := thread_turn hs_cleanup set_cleanup cleanup_turn.

(** ** Life cycle *)

Definition hs_start (dc : HotspotDetectionConfig) (hc : HotspotHandlingConfig) :
    M HsSt (Result unit) := guarded (
  running ← gets (λ s : HsSt, hs_running s.2);
  if running : bool then mret (ROk tt)
  else
    _ ← on_hs (λ m, hs_set_threads true false (Some AtCheck) (Some AtCheck) (Some AtCheck)
                      (hs_set_configs dc hc m));
    mret (ROk tt)).

Definition hs_join (get : HotspotManager R → option thread_at) (turn : M HsSt unit) :
    M HsSt unit :=
  thread ← gets (λ s : HsSt, get s.2);
  match thread with
  | Some InTurn => joining turn
  | _ => mret tt
  end.

Definition hs_stop_threads : M HsSt (Result unit) := guarded (
  running ← gets (λ s : HsSt, hs_running s.2);
  if negb running then mret (ROk tt)
  else
    _ ← on_hs (λ m, hs_set_threads (hs_running m) true (hs_detection m) (hs_handling m)
                      (hs_cleanup m) m);
    _ ← hs_join hs_detection detection_turn;
    _ ← hs_join hs_handling handling_turn;
    _ ← hs_join hs_cleanup cleanup_turn;
    _ ← on_hs (hs_set_threads false true None None None);
    mret (ROk tt)).

Definition HotspotManager_destroy : M HsSt unit := noexcept (
  running ← gets (λ s : HsSt, hs_running s.2);
  if running : bool then _ ← hs_stop_threads; mret tt else mret tt).
End manager.

(** ** [hotspot_utils] *)

Definition hotspot_level_to_string (level : HotspotLevel.t) : string :=
  match level with
  | HotspotLevel.NORMAL => "NORMAL"
  | HotspotLevel.WARM => "WARM"
  | HotspotLevel.HOT => "HOT"
  | HotspotLevel.CRITICAL => "CRITICAL"
  end.
Definition string_to_hotspot_level (str : string) : HotspotLevel.t :=
  if bool_decide (str = "NORMAL") then HotspotLevel.NORMAL
  else if bool_decide (str = "WARM") then HotspotLevel.WARM
  else if bool_decide (str = "HOT") then HotspotLevel.HOT
  else if bool_decide (str = "CRITICAL") then HotspotLevel.CRITICAL
  else HotspotLevel.NORMAL.

Definition strategy_to_string (strategy : HotspotStrategy.t) : string :=
  match strategy with
  | HotspotStrategy.REPLICATION => "REPLICATION"
  | HotspotStrategy.PARTITIONING => "PARTITIONING"
  | HotspotStrategy.CACHING => "CACHING"
  | HotspotStrategy.LOAD_BALANCING => "LOAD_BALANCING"
  | HotspotStrategy.RATE_LIMITING => "RATE_LIMITING"
  end.
Definition string_to_strategy (str : string) : HotspotStrategy.t :=
  if bool_decide (str = "REPLICATION") then HotspotStrategy.REPLICATION
  else if bool_decide (str = "PARTITIONING") then HotspotStrategy.PARTITIONING
  else if bool_decide (str = "CACHING") then HotspotStrategy.CACHING
  else if bool_decide (str = "LOAD_BALANCING") then HotspotStrategy.LOAD_BALANCING
  else if bool_decide (str = "RATE_LIMITING") then HotspotStrategy.RATE_LIMITING
  else HotspotStrategy.REPLICATION.

Definition pattern_to_string (pattern : AccessPattern.t) : string :=
  match pattern with
  | AccessPattern.READ_HEAVY => "READ_HEAVY"
  | AccessPattern.WRITE_HEAVY => "WRITE_HEAVY"
  | AccessPattern.MIXED => "MIXED"
  | AccessPattern.BURST => "BURST"
  | AccessPattern.PERIODIC => "PERIODIC"
  end.
Definition string_to_pattern (str : string) : AccessPattern.t :=
  if bool_decide (str = "READ_HEAVY") then AccessPattern.READ_HEAVY
  else if bool_decide (str = "WRITE_HEAVY") then AccessPattern.WRITE_HEAVY
  else if bool_decide (str = "MIXED") then AccessPattern.MIXED
  else if bool_decide (str = "BURST") then AccessPattern.BURST
  else if bool_decide (str = "PERIODIC") then AccessPattern.PERIODIC
  else AccessPattern.MIXED.

(** The loads in the order in which their table iterates.  The square of a load
    is computed in 64 bits. *)
Definition calculate_load_balance_factor (node_loads : list (NodeId * N)) : double :=
  if bool_decide (length node_loads = 0) then d1
  else
    let size := of_int (Z.of_nat (length node_loads)) in
    let sum := dsum (map (λ nl, of_nat64 nl.2) node_loads) in
    let sum_squares := dsum (map (λ nl, of_nat64 (wrap64 (nl.2 * nl.2))) node_loads) in
    let mean := ddiv sum size in
    let variance := dsub (ddiv sum_squares size) (dmul mean mean) in
    ddiv variance (dmul mean mean).

Definition find_overloaded_nodes (node_loads : list (NodeId * N)) (threshold : double) :
    list NodeId :=
  let total_load := dsum (map (λ nl, of_nat64 nl.2) node_loads) in
  let average_load := ddiv total_load (of_int (Z.of_nat (length node_loads))) in
  let overload_threshold := dmul average_load threshold in
  map fst (List.filter (λ nl, dltb overload_threshold (of_nat64 nl.2)) node_loads).

Definition sum64 (counts : list N) : N := fold_left add64 counts 0%N.

(** [std::log2] is the one of the C library. *)
Definition calculate_access_entropy (log2 : double → double) (access_counts : list N) : double :=
  if bool_decide (length access_counts = 0) then d0
  else
    let total := sum64 access_counts in
    if (total =? 0)%N then d0
    else fold_left (λ entropy count,
      if (0 <? count)%N
      then let probability := ddiv (of_nat64 count) (of_nat64 total) in
           dsub entropy (dmul probability (log2 probability))
      else entropy) access_counts d0.

Definition is_power_law_distribution (access_counts : list N) : bool :=
  if (length access_counts <? 10)%nat then false
  else
    let sorted_counts := reverse (merge_sort N.le access_counts) in
    let top_20_percent := Nat.max 1 (length sorted_counts / 5) in
    let top_sum := sum64 (take top_20_percent sorted_counts) in
    let total_sum := sum64 sorted_counts in
    (0 <? total_sum)%N &&
    SFleb d_four_fifths (ddiv (of_nat64 top_sum) (of_nat64 total_sum)).
