(* ===== verification/HotspotRuns.v ===== *)
(** * HotspotRuns: what the hot key manager does

    Telling of a hot key locks the mutex of the manager a second time, which
    throws: the keys enter the table and do not leave it again, and no event
    says so.  The levels and the names of the enumerators, and the queue of
    events. *)

From Stdlib Require Import Ascii String ZArith NArith Lia SpecFloat.
From stdpp Require Import base numbers list strings gmap sorting fin_sets.
From S2P Require Import Prelude OrdMap Types Files Doubles Hotspot.

(** ** Levels and names *)

(** The level of a key never falls when it is accessed more, and with ascending
    thresholds it is the number of thresholds the count of accesses has reached. *)
Theorem hotspot_level_counts c i j :
  ((total_access_count i ≤ total_access_count j)%N →
   HotspotLevel.rank (calculate_hotspot_level c i) ≤ HotspotLevel.rank (calculate_hotspot_level c j)) ∧
  ((warm_threshold c ≤ hot_threshold c ≤ critical_threshold c)%N →
   HotspotLevel.rank (calculate_hotspot_level c i) =
     length (filter (λ t, t ≤ total_access_count i)%N
       [warm_threshold c; hot_threshold c; critical_threshold c])).
Proof.
  unfold calculate_hotspot_level. split.
  - intros Hij. repeat case_match; cbn; try lia;
      repeat match goal with
      | H : (_ <=? _)%N = true |- _ => apply N.leb_le in H
      | H : (_ <=? _)%N = false |- _ => apply N.leb_gt in H
      end; lia.
  - intros [H1 H2]. rewrite !filter_cons, filter_nil.
    repeat case_match; cbn; try lia;
      repeat match goal with
      | H : (_ <=? _)%N = true |- _ => apply N.leb_le in H
      | H : (_ <=? _)%N = false |- _ => apply N.leb_gt in H
      end; lia.
Qed.

(** The names of levels, strategies and access patterns are read back as what
    they name; every other string is taken for the default. *)
Theorem hotspot_names_round_trip :
  (∀ l, string_to_hotspot_level (hotspot_level_to_string l) = l) ∧
  (∀ s, string_to_strategy (strategy_to_string s) = s) ∧
  (∀ p, string_to_pattern (pattern_to_string p) = p) ∧
  ∀ str,
    (hotspot_level_to_string (string_to_hotspot_level str) = str ∨
     string_to_hotspot_level str = HotspotLevel.NORMAL) ∧
    (strategy_to_string (string_to_strategy str) = str ∨
     string_to_strategy str = HotspotStrategy.REPLICATION) ∧
    (pattern_to_string (string_to_pattern str) = str ∨
     string_to_pattern str = AccessPattern.MIXED).
Proof.
  split_and!; [by intros []..|]. intros str.
  unfold string_to_hotspot_level, string_to_strategy, string_to_pattern.
  split_and!; repeat case_bool_decide; subst; auto.
Qed.

(** ** Runs *)

Section runs.
Context {R : Type} `{!AccessRecorder R}.
Context (order_keys : gset MultiLevelKey → list MultiLevelKey).

Abbreviation HsSt := (Clock * HotspotManager R)%type.

Inductive hs_call :=
  | HsStart (dc : HotspotDetectionConfig) (hc : HotspotHandlingConfig)
  | HsStop
  | HsRecordAccess (key : MultiLevelKey) (op_type : OperationType.t) (node : NodeId)
  | HsDetect
  | HsCurrent
  | HsLevel (key : MultiLevelKey)
  | HsHandle (key : MultiLevelKey) (strategies : list HotspotStrategy.t)
  | HsResolve (key : MultiLevelKey)
  | HsTop (limit : N)
  | HsInfo (key : MultiLevelKey)
  | HsEvents (limit : N)
  | HsDetectionCheck
  | HsDetectionTurn
  | HsHandlingCheck
  | HsHandlingTurn
  | HsCleanupCheck
  | HsCleanupTurn.

Definition hs_ignore {A} (m : M HsSt A) : M HsSt unit := _ ← m; mret tt.

Definition hs_run (call : hs_call) : M HsSt unit :=
  match call with
  | HsStart dc hc => hs_ignore (hs_start dc hc)
  | HsStop => hs_ignore (hs_stop_threads order_keys)
  | HsRecordAccess key op_type node => record_access key op_type node
  | HsDetect => hs_ignore detect_hotspots
  | HsCurrent => hs_ignore (get_current_hotspots order_keys)
  | HsLevel key => hs_ignore (get_hotspot_level key)
  | HsHandle key strategies => hs_ignore (handle_hotspot key strategies)
  | HsResolve key => hs_ignore (resolve_hotspot key)
  | HsTop limit => hs_ignore (get_top_accessed_keys limit)
  | HsInfo key => hs_ignore (get_key_info key)
  | HsEvents limit => hs_ignore (get_recent_events limit)
  | HsDetectionCheck => hs_detection_check
  | HsDetectionTurn => hs_detection_loop_turn
  | HsHandlingCheck => hs_handling_check
  | HsHandlingTurn => hs_handling_loop_turn order_keys
  | HsCleanupCheck => hs_cleanup_check
  | HsCleanupTurn => hs_cleanup_loop_turn order_keys
  end.

(** A run of calls; an exception ends the call it leaves, and its caller goes on. *)
Definition hs_caught (calls : list hs_call) : M HsSt unit :=
  mfor (λ call, catching (hs_run call)) calls.

(** Of the events of hot keys only a strategy that was applied is recorded, and
    the hot keys with [K] stay. *)
Section kept.
Context (K : MultiLevelKey → Prop).

Definition kept : relation HsSt := λ s s',
  (∀ e, e ∈ recent_events_ s'.2 → e ∈ recent_events_ s.2 ∨
     he_type e = HotspotEventType.STRATEGY_APPLIED) ∧
  (∀ k, K k → is_Some (current_hotspots_ s.2 !! k) → is_Some (current_hotspots_ s'.2 !! k)).

#[local] Instance kept_preorder : PreOrder kept.
Proof.
  split; [intros s; split; auto|]. intros s t u [H1 H2] [H3 H4].
  split; [|auto]. intros e He. apply H3 in He as [He|?]; auto.
Qed.

Lemma kept_owned b s : kept s (set_owned b s).
Proof. destruct s as [c m]. split; auto. Qed.

(** What changes neither the events nor the keys with [K]. *)
Lemma kept_on_hs f :
  (∀ m, recent_events_ (f m) = recent_events_ m) →
  (∀ m k, K k → is_Some (current_hotspots_ m !! k) → is_Some (current_hotspots_ (f m) !! k)) →
  respects kept (on_hs f).
Proof.
  intros He Hk. apply respects_step. intros s. eexists _, _. split; [reflexivity|].
  split; cbn [snd]; [|apply Hk]. intros e. rewrite He. by left.
Qed.

Lemma held_on_hs f :
  (∀ m, recent_events_ (f m) = recent_events_ m) →
  (∀ m k, K k → is_Some (current_hotspots_ m !! k) → is_Some (current_hotspots_ (f m) !! k)) →
  (∀ m, hs_mutex (f m) = hs_mutex m) → respects (held kept) (on_hs f).
Proof.
  intros He Hk Hm. apply respects_step. intros s. eexists _, _. split; [reflexivity|].
  intros Hs. split; [cbn; by rewrite Hm|].
  split; cbn [snd]; [|apply Hk]. intros e. rewrite He. by left.
Qed.

Lemma kept_now : respects kept hs_now.
Proof.
  apply respects_step. intros [c m]. eexists _, _. split; [reflexivity|]. split; auto.
Qed.

Lemma held_now : respects (held kept) hs_now.
Proof.
  apply respects_step. intros [c m]. eexists _, _. split; [reflexivity|].
  intros Hs. split; [exact Hs|split; auto].
Qed.

Lemma kept_recorder {A} (m : M R A) otherwise :
  respects kept otherwise → respects kept (on_recorder m otherwise).
Proof.
  intros Ho s. unfold wlp, throws_in, on_recorder.
  destruct (access_recorder_ s.2); [|apply Ho].
  destruct (m r); split; try done; split; auto.
Qed.

#[local] Hint Resolve kept_now held_now kept_owned : respects.
#[local] Hint Extern 1 (respects kept (on_recorder _ _)) => apply kept_recorder : respects.
#[local] Hint Extern 1 (PreOrder kept) => apply kept_preorder : respects.

Ltac on_hs_tac := first
  [apply kept_on_hs|apply held_on_hs]; intros; cbn; repeat case_match; cbn; by auto.
#[local] Hint Extern 2 (respects kept (on_hs _)) => on_hs_tac : respects.
#[local] Hint Extern 2 (respects (held kept) (on_hs _)) => on_hs_tac : respects.

Lemma held_notice n : respects (held kept) (hs_notice n).
Proof. apply held_on_hs; intros m; by destruct (hs_event_handler_ m). Qed.

Lemma kept_notice n : respects kept (hs_notice n).
Proof. apply kept_on_hs; intros m; by destruct (hs_event_handler_ m). Qed.

Lemma held_add_event e : respects (held kept) (add_event e).
Proof. apply respects_held_guarded. apply _. Qed.

#[local] Hint Resolve held_notice kept_notice held_add_event : respects.

Lemma kept_applied key st : respects kept (notify_strategy_applied key st).
Proof.
  unfold notify_strategy_applied, add_event. respects_tac.
  apply respects_step. intros s. eexists _, _. split; [reflexivity|].
  split; cbn; [|by auto]. intros e [?|He]%elem_of_app; [by left|].
  apply list_elem_of_singleton in He as ->. by right.
Qed.

Lemma kept_apply_first key ss : respects kept (apply_first key ss).
Proof.
  pose proof kept_applied. induction ss as [|st ss IH]; cbn [apply_first];
    unfold apply_strategy_internal; respects_tac.
Qed.

Lemma held_apply_first key ss : respects (held kept) (apply_first key ss).
Proof.
  induction ss as [|st ss IH]; cbn [apply_first];
    unfold apply_strategy_internal, notify_strategy_applied; respects_tac.
Qed.

Lemma kept_detect_loop keys found : respects kept (detect_loop keys found).
Proof.
  revert found. induction keys as [|k keys IH]; intros found; cbn [detect_loop]; respects_tac.
  all: try (apply kept_recorder; respects_tac).
Qed.

Lemma kept_detect_hotspots : respects kept detect_hotspots.
Proof.
  pose proof kept_detect_loop. unfold detect_hotspots. respects_tac.
  all: try (apply kept_recorder; respects_tac).
Qed.

Lemma held_record_hotspot h : respects (held kept) (record_hotspot h).
Proof.
  unfold record_hotspot, notify_hotspot_detected. respects_tac.
  apply held_on_hs; [done| |done]. intros m k _ Hk. cbn. rewrite lookup_insert.
  case_decide; eauto.
Qed.

Lemma kept_detection_turn : respects kept detection_turn.
Proof.
  pose proof kept_detect_hotspots. pose proof held_record_hotspot. unfold detection_turn.
  apply respects_bind; [apply _|done|]. intros detected.
  apply respects_guarded_held; [apply _|apply kept_owned|respects_tac].
Qed.

Lemma held_detection_turn : respects (held kept) detection_turn.
Proof. unfold detection_turn, detect_hotspots. respects_tac. Qed.

Lemma kept_handle_hotspot key ss : respects kept (handle_hotspot key ss).
Proof. pose proof kept_apply_first. unfold handle_hotspot. respects_tac. Qed.

Lemma kept_handling_turn : respects kept (handling_turn order_keys).
Proof. pose proof kept_handle_hotspot. unfold handling_turn. respects_tac. Qed.

Lemma held_handling_turn : respects (held kept) (handling_turn order_keys).
Proof. pose proof held_apply_first. unfold handling_turn, handle_hotspot. respects_tac. Qed.

(** A key that has cooled down is not taken out: telling of it comes first. *)
Lemma held_cool now key : respects (held kept) (cool now key).
Proof.
  apply (respects_gets_then (held kept)). intros s.
  destruct (current_hotspots_ s.2 !! key) as [i|]; [|by apply (respects_ret (held kept))].
  destruct (_ <? _)%Z; [|by apply (respects_ret (held kept))].
  assert (respects (held kept) (notify_hotspot_resolved key)) as Hn
    by (unfold notify_hotspot_resolved; respects_tac).
  destruct (Hn s) as [_ H]. unfold respects_from, wlp, throws_in, mbind, M_bind in *.
  destruct (owned s) eqn:Hs.
  - assert (∃ s', notify_hotspot_resolved key s = Throws HotspotMutex s') as [s' E].
    { destruct s as [c m]. eexists. unfold notify_hotspot_resolved.
      mstep (eq_refl : hs_now (c, m) = Returns (tick c).1 ((tick c).2, m)).
      mstep (eq_refl : hs_now ((tick c).2, m) = Returns (tick (tick c).2).1 ((tick (tick c).2).2, m)).
      unfold add_event. by rewrite guarded_relock. }
    rewrite E in *. by split.
  - unfold held. rewrite Hs. by destruct (notify_hotspot_resolved key s).
Qed.

Lemma held_trim (s : HsSt) n :
  owned s = true →
  (owned (s.1, hs_set_events (drop n (recent_events_ s.2)) s.2) = true ∧
   kept s (s.1, hs_set_events (drop n (recent_events_ s.2)) s.2)).
Proof.
  intros Hs. split; [exact Hs|]. split; cbn; [|by auto]. intros e He. left.
  rewrite <- (take_drop n (recent_events_ s.2)). apply elem_of_app. by right.
Qed.

Lemma kept_cleanup_turn : respects kept (cleanup_turn order_keys).
Proof.
  pose proof held_cool. unfold cleanup_turn.
  apply respects_bind; [apply _|apply kept_now|]. intros now.
  apply respects_guarded_held; [apply _|apply kept_owned|]. respects_tac.
  apply respects_step. intros s. eexists _, _. split; [reflexivity|].
  intros Hs. exact (held_trim s _ Hs).
Qed.

Lemma held_cleanup_turn : respects (held kept) (cleanup_turn order_keys).
Proof. unfold cleanup_turn. respects_tac. Qed.

Lemma kept_resolve key : ¬ K key → respects kept (resolve_hotspot key).
Proof.
  intros Hk. unfold resolve_hotspot, notify_hotspot_resolved.
  apply respects_guarded_held; [apply _|apply kept_owned|]. respects_tac.
  apply held_on_hs; [done| |done]. intros m k Hk2 Hs. cbn. rewrite lookup_delete_ne; [done|].
  by intros ->.
Qed.

Lemma kept_stop : respects kept (hs_stop_threads order_keys).
Proof.
  pose proof held_detection_turn. pose proof held_handling_turn. pose proof held_cleanup_turn.
  unfold hs_stop_threads, hs_join. apply respects_guarded_held; [apply _|apply kept_owned|].
  respects_tac.
Qed.

Lemma kept_run call :
  (∀ key, call = HsResolve key → ¬ K key) → respects kept (hs_run call).
Proof.
  pose proof kept_detection_turn. pose proof kept_handling_turn. pose proof kept_cleanup_turn.
  pose proof kept_handle_hotspot. pose proof kept_detect_hotspots. pose proof kept_resolve.
  pose proof kept_stop. intros Hr.
  destruct call; cbn [hs_run]; unfold hs_ignore, hs_start, record_access,
    get_current_hotspots, get_hotspot_level, get_top_accessed_keys, get_key_info,
    get_recent_events, hs_detection_check, hs_detection_loop_turn, hs_handling_check,
    hs_handling_loop_turn, hs_cleanup_check, hs_cleanup_loop_turn, thread_check, thread_turn;
    respects_tac; try (apply kept_recorder; respects_tac); eauto.
Qed.
End kept.

Lemma kept_runs calls :
  respects (kept (λ k, HsResolve k ∉ calls)) (hs_caught calls).
Proof.
  assert (∀ K calls, (∀ k, K k → HsResolve k ∉ calls) → respects (kept K) (hs_caught calls)) as H.
  { clear calls. intros K calls. induction calls as [|call calls IH]; intros HK; unfold hs_caught; cbn [mfor].
    - apply respects_ret, kept_preorder.
    - apply respects_bind; [apply kept_preorder| |].
      + apply respects_catching, kept_run. intros k -> Hk. destruct (HK k Hk). apply list_elem_of_here.
      + intros _. apply IH. intros k Hk Hin. by apply (HK k Hk), list_elem_of_further. }
  by apply H.
Qed.

(** Looking for hot keys. *)
Definition looked : relation HsSt := λ s s',
  current_hotspots_ s'.2 = current_hotspots_ s.2 ∧ recent_events_ s'.2 = recent_events_ s.2 ∧
  hs_detection s'.2 = hs_detection s.2.

#[local] Instance looked_preorder : PreOrder looked.
Proof. split; [by intros s|]. intros s t u (?&?&?) (?&?&?). split_and!; congruence. Qed.

Lemma looked_detect_hotspots : respects looked detect_hotspots.
Proof.
  assert (∀ A (m : M R A) otherwise, respects looked otherwise →
    respects looked (on_recorder m otherwise)) as Hr.
  { intros A m otherwise Ho s. unfold wlp, throws_in, on_recorder.
    destruct (access_recorder_ s.2); [|apply Ho]. by destruct (m r). }
  unfold detect_hotspots. apply respects_guarded; [apply _|by intros ? []|].
  apply respects_bind; [apply _|apply Hr; respects_tac|]. intros keys.
  generalize (@nil HotspotKeyInfo). induction keys as [|k keys IH]; intros found; cbn [detect_loop].
  - apply respects_ret, _.
  - apply respects_bind; [apply _|apply Hr; respects_tac|]. intros i. respects_tac; apply IH.
Qed.

(** The turn that finds hot keys. *)
Lemma detection_loop_turn_found c m h rest s :
  hs_detection m = Some InTurn → detect_hotspots (c, m) = Returns (h :: rest) s →
  ∃ c2 m2, hs_detection_loop_turn (c, m) = Returns tt (c2, m2) ∧
    current_hotspots_ m2 = <[hk_key h := h]> (current_hotspots_ m) ∧
    recent_events_ m2 = recent_events_ m ∧ hs_detection m2 = Some AtCheck.
Proof.
  intros Ht H. pose proof (guarded_returns_inv _ _ _ _ H) as (_ & Hf & _).
  pose proof (respects_returns _ _ _ _ _ looked_detect_hotspots H) as (E1 & E2 & E3).
  cbn [snd] in E1, E2, E3. unfold hs_detection_loop_turn, thread_turn. rewrite M_bind_gets.
  cbn [snd]. rewrite Ht.
  assert (∃ s1, detection_turn (c, m) = Throws HotspotMutex s1 ∧
    current_hotspots_ s1.2 = <[hk_key h := h]> (current_hotspots_ m) ∧
    recent_events_ s1.2 = recent_events_ m ∧ hs_detection s1.2 = hs_detection m) as (s1 & Hs & F1 & F2 & F3).
  { unfold detection_turn. mstep H. unfold guarded. rewrite Hf. cbn [mfor].
    destruct s as [c1 [dc hc ar hh eh hs ev ru d ha cl st mx]].
    cbn in Hf, E1, E2, E3 |- *. subst. destruct eh as [ns|]; by eexists. }
  assert (catching detection_turn (c, m) = Returns tt s1) as Hc by (unfold catching; by rewrite Hs).
  mstep Hc. eexists _, _. split; [reflexivity|]. cbn. by rewrite F3, Ht.
Qed.
End runs.

(** C36. Recording the event that a key became hot, or no longer is, throws,
    since add_event locks the mutex that the loops of detection and clean-up
    hold, and the loops catch it. So over any calls, and turns of the threads,
    each returning or left by an exception that its caller catches, and over any
    access recorder: no event but STRATEGY_APPLIED is ever added to the queue,
    so that the queue never tells of the detection or the resolution of a hot
    key; a hot key, once in the table, stays there for ever unless
    resolve_hotspot is called for it, however long it has cooled; and a turn of
    the detection thread that finds hot keys records only the first of them in
    the table, adds no event, and the thread goes on. *)
Theorem hot_keys_stay_untold {R} `{!AccessRecorder R} order_keys (calls : list hs_call)
    c (m : HotspotManager R) c' m' :
  hs_caught order_keys calls (c, m) = Returns tt (c', m') →
  (∀ e, e ∈ recent_events_ m' → e ∈ recent_events_ m ∨
     he_type e = HotspotEventType.STRATEGY_APPLIED) ∧
  (∀ k, HsResolve k ∉ calls → is_Some (current_hotspots_ m !! k) →
     is_Some (current_hotspots_ m' !! k)) ∧
  (∀ h rest s, hs_detection m' = Some InTurn → detect_hotspots (c', m') = Returns (h :: rest) s →
     ∃ c2 m2, hs_detection_loop_turn (c', m') = Returns tt (c2, m2) ∧
       current_hotspots_ m2 = <[hk_key h := h]> (current_hotspots_ m') ∧
       recent_events_ m2 = recent_events_ m' ∧ hs_detection m2 = Some AtCheck).
Proof.
  intros H. apply (respects_returns _ _ _ _ _ (kept_runs order_keys calls)) in H as [H1 H2].
  split_and!; [exact H1|exact H2|]. intros h rest s. apply detection_loop_turn_found.
Qed.

Section events.
Context {R : Type} `{!AccessRecorder R}.
Context (order_keys : gset MultiLevelKey → list MultiLevelKey).
(** ** Events *)

(** Handling a key succeeds, whatever the strategies, and appends one event to
    the queue; but get_recent_events reads the queue from its old end, so that
    once it holds as many events as asked for, the new one is not among them. *)
Theorem recent_events_are_the_oldest key strategies limit c (m : HotspotManager R) :
  hs_mutex m = false → hotspot_handler_ m = Some MkHandler →
  ∃ c' m' event, handle_hotspot key strategies (c, m) = Returns (ROk tt) (c', m') ∧
    recent_events_ m' = recent_events_ m ++ [event] ∧
    he_type event = HotspotEventType.STRATEGY_APPLIED ∧ he_key event = key ∧
    (get_recent_events limit (c', m') =
       Returns (take (N.to_nat limit) (recent_events_ m ++ [event])) (c', m')) ∧
    (N.to_nat limit ≤ length (recent_events_ m) →
     take (N.to_nat limit) (recent_events_ m ++ [event]) =
       take (N.to_nat limit) (recent_events_ m)).
Proof.
  intros Hm Hh. destruct m as [dc hc ar hh eh hs ev ru d ha cl st mx]. cbn in Hm, Hh. subst.
  set (ss := if bool_decide (strategies = []) then
    [HotspotStrategy.REPLICATION; HotspotStrategy.LOAD_BALANCING] else strategies).
  assert (ss ≠ []) as Hss by (unfold ss; by case_bool_decide).
  unfold handle_hotspot. rewrite M_bind_gets. cbn [snd hotspot_handler_]. fold ss.
  destruct ss as [|st0 ss']; [done|]. cbn [apply_first].
  destruct eh as [ns|]; (eexists _, _, _; split; [reflexivity|]);
    (split; [reflexivity|]); (split; [reflexivity|]); (split; [reflexivity|]);
    (split; [reflexivity|]); intros Hl; by rewrite take_app_le.
Qed.

(** With no hot key recorded, a turn of the cleanup thread keeps the newest
    thousand events and nothing else changes. *)
Theorem cleanup_keeps_newest_events c (m : HotspotManager R) :
  hs_mutex m = false → current_hotspots_ m = ∅ →
  (∀ s, order_keys s ≡ₚ elements s) →
  ∃ c' m', cleanup_turn order_keys (c, m) = Returns tt (c', m') ∧
    m' = hs_set_events (drop (length (recent_events_ m) - 1000) (recent_events_ m)) m ∧
    length (recent_events_ m') = Nat.min 1000 (length (recent_events_ m)).
Proof.
  intros Hm Hc Ho.
  assert (order_keys (dom (current_hotspots_ m)) = []) as Hnil.
  { rewrite Hc, dom_empty_L. apply Permutation_nil. by rewrite Ho, elements_empty. }
  exists (tick c).2, (hs_set_events (drop (length (recent_events_ m) - 1000) (recent_events_ m)) m).
  split; [|split; [done|]; cbn [recent_events_ hs_set_events]; rewrite length_drop; lia].
  unfold cleanup_turn. rewrite (M_bind_step _ _ _ (tick c).1 ((tick c).2, m)) by done.
  rewrite (guarded_returns _ _ tt (set_owned true ((tick c).2,
    hs_set_events (drop (length (recent_events_ m) - 1000) (recent_events_ m)) m))); [|done|].
  - cbn. destruct m. cbn in Hm. by subst.
  - rewrite M_bind_gets. cbn [snd set_owned HotspotManager_mutex].
    change (current_hotspots_ (hs_set_mutex true m)) with (current_hotspots_ m).
    by rewrite Hnil.
Qed.
End events.

(** ** A recorder, and witnesses *)

(** It keeps the accesses themselves. *)
#[export] Instance log_recorder : AccessRecorder (list MultiLevelKey) := {|
  ar_record_access := λ key _ _, modify (λ log, log ++ [key]);
  ar_get_key_stats := λ key, gets (λ log,
    let n := N.of_nat (length (filter (λ k, k = key) log)) in
    MkHotKey key HotspotLevel.NORMAL AccessPattern.MIXED n n 0 d0 0 0 60000 ∅ []);
  ar_get_top_keys := λ limit, gets (λ log, take (N.to_nat limit) (remove_dups log))
|}.

Definition hot_config : HotspotDetectionConfig :=
  MkDetectionConfig 2 3 5 60000 300000 d1 2 true 10000 d1.
Definition busy_manager : HotspotManager (list MultiLevelKey) :=
  hs_set_threads true false (Some AtCheck) (Some AtCheck) (Some AtCheck)
    (hs_set_configs hot_config HotspotHandlingConfig_default
       (HotspotManager_new [MkKey "u" "1"; MkKey "u" "2"; MkKey "u" "1"])).
Definition still_clock : Clock := MkClock (λ _, 7%Z) 0.

Lemma hotspot_level_counts_witness :
  let i := MkHotKey (MkKey "u" "1") HotspotLevel.NORMAL AccessPattern.MIXED 2 2 0 d0 0 0 0 ∅ [] in
  let j := MkHotKey (MkKey "u" "1") HotspotLevel.NORMAL AccessPattern.MIXED 4 4 0 d0 0 0 0 ∅ [] in
  HotspotLevel.rank (calculate_hotspot_level hot_config i) = 1 ∧
  HotspotLevel.rank (calculate_hotspot_level hot_config i) ≤
    HotspotLevel.rank (calculate_hotspot_level hot_config j).
Proof.
  intros i j. split; [reflexivity|].
  apply (proj1 (hotspot_level_counts hot_config i j)). vm_compute. discriminate.
Defined.

(** A key becomes hot, is found twice, cools down and stays. *)
Definition hot_calls : list hs_call :=
  [HsDetectionCheck; HsDetectionTurn; HsHandlingCheck; HsHandlingTurn; HsCleanupCheck;
   HsCleanupTurn; HsDetectionCheck].
Definition hot_start : Clock * HotspotManager (list MultiLevelKey) :=
  (MkClock (λ n, Z.of_nat n * 600000000000)%Z 0, busy_manager).
Definition hot_later : Clock * HotspotManager (list MultiLevelKey) :=
  match hs_caught elements hot_calls hot_start with
  | Returns _ s => s
  | _ => hot_start
  end.

Lemma hot_keys_stay_untold_witness :
  dom (current_hotspots_ hot_later.2) = {[ MkKey "u" "1" ]} ∧
  hs_detection hot_later.2 = Some InTurn ∧
  (∀ e, e ∈ recent_events_ hot_later.2 → e ∈ recent_events_ hot_start.2 ∨
     he_type e = HotspotEventType.STRATEGY_APPLIED) ∧
  (∀ k, HsResolve k ∉ hot_calls → is_Some (current_hotspots_ hot_start.2 !! k) →
     is_Some (current_hotspots_ hot_later.2 !! k)) ∧
  (∀ h rest s, hs_detection hot_later.2 = Some InTurn →
     detect_hotspots (hot_later.1, hot_later.2) = Returns (h :: rest) s →
     ∃ c2 m2, hs_detection_loop_turn (hot_later.1, hot_later.2) = Returns tt (c2, m2) ∧
       current_hotspots_ m2 = <[hk_key h := h]> (current_hotspots_ hot_later.2) ∧
       recent_events_ m2 = recent_events_ hot_later.2 ∧ hs_detection m2 = Some AtCheck).
Proof.
  split; [vm_compute; reflexivity|]. split; [vm_compute; reflexivity|].
  apply (hot_keys_stay_untold elements hot_calls hot_start.1 hot_start.2 hot_later.1 hot_later.2).
  vm_compute. reflexivity.
Defined.

Lemma recent_events_are_the_oldest_witness :
  ∃ c' m' event, handle_hotspot (MkKey "u" "1") [] (still_clock, busy_manager)
      = Returns (ROk tt) (c', m') ∧
    recent_events_ m' = recent_events_ busy_manager ++ [event] ∧
    he_type event = HotspotEventType.STRATEGY_APPLIED ∧ he_key event = MkKey "u" "1" ∧
    (get_recent_events 0 (c', m') =
       Returns (take (N.to_nat 0) (recent_events_ busy_manager ++ [event])) (c', m')) ∧
    (N.to_nat 0 ≤ length (recent_events_ busy_manager) →
     take (N.to_nat 0) (recent_events_ busy_manager ++ [event]) =
       take (N.to_nat 0) (recent_events_ busy_manager)).
Proof.
  apply (recent_events_are_the_oldest (MkKey "u" "1") [] 0 still_clock busy_manager); reflexivity.
Defined.

Lemma cleanup_keeps_newest_events_witness :
  ∃ c' m', cleanup_turn elements (still_clock, busy_manager) = Returns tt (c', m') ∧
    m' = hs_set_events (drop (length (recent_events_ busy_manager) - 1000)
           (recent_events_ busy_manager)) busy_manager ∧
    length (recent_events_ m') = Nat.min 1000 (length (recent_events_ busy_manager)).
Proof.
  apply (cleanup_keeps_newest_events elements still_clock busy_manager); [reflexivity..|].
  intros s. reflexivity.
Defined.

(** The square of a load wraps: two nodes with the same load of 2^32 have a
    factor of -1, as if the variance were negative. *)
Theorem load_balance_factor_wraps :
  calculate_load_balance_factor [("a", 2 ^ 32); ("b", 2 ^ 32)]%N = of_int (-1).
Proof. vm_compute. reflexivity. Qed.
