(* ===== verification/ServiceTypes.v ===== *)
(** * ServiceTypes: the data of the declared interfaces

    The headers [cluster/raft.h], [cluster/shard_manager.h],
    [cluster/cluster_manager.h], [security/auth_manager.h],
    [network/cache_service.h] and [monitoring/monitor.h] declare classes that
    no file of the repository implements; what they do define are the types of
    the data those would exchange, with their constructors and small methods.
    A constructor takes the clock readings it makes; a point in time that
    nothing sets is the epoch. *)

From Stdlib Require Import Ascii String ZArith NArith Lia SpecFloat.
From stdpp Require Import base numbers list strings gmap pretty.
From S2P Require Import Prelude Bytes Numerals OrdMap Types Doubles.

(** ** Raft: [cluster/raft.h] *)

Record LogEntry := MkLogEntry {
  log_term : N;
  log_index : N;
  command : string;
  log_timestamp : Z
}.

Definition LogEntry_default : LogEntry := MkLogEntry 0 0 "" 0.
Definition LogEntry_of (now : Z) (t i : N) (cmd : string) : LogEntry := MkLogEntry t i cmd now.

Record RaftConfig := MkRaftConfig {
  raft_node_id : string;
  cluster_members : list string;
  election_timeout_min_ms : N;
  election_timeout_max_ms : N;
  raft_heartbeat_interval_ms : N;
  log_directory : string;
  max_log_entries : N
}.

Definition RaftConfig_default : RaftConfig := MkRaftConfig "" [] 150 300 50 "" 10000.

(** ** Shards: [cluster/shard_manager.h] *)

Record ShardInfo := MkShardInfo {
  shard_id : N;
  replicas : list string;
  primary : string;
  data_size : N;
  key_count : N;
  shard_last_updated : Z
}.

Definition ShardInfo_default : ShardInfo := MkShardInfo 0 [] "" 0 0 0.
Definition ShardInfo_of (now : Z) (id : N) : ShardInfo := MkShardInfo id [] "" 0 0 now.

Definition has_replica (node_id : string) (s : ShardInfo) : bool :=
  bool_decide (node_id ∈ replicas s).
Definition is_primary (node_id : string) (s : ShardInfo) : bool :=
  bool_decide (primary s = node_id).

Record MigrationTask := MkMigrationTask {
  mt_shard_id : N;
  source_node : string;
  target_node : string;
  total_keys : N;
  migrated_keys : N;
  mt_start_time : Z;
  completed : bool
}.

Definition MigrationTask_default : MigrationTask := MkMigrationTask 0 "" "" 0 0 0 false.
Definition MigrationTask_of (now : Z) (id : N) (src dst : string) : MigrationTask :=
  MkMigrationTask id src dst 0 0 now false.

Definition progress (t : MigrationTask) : double :=
  if (0 <? total_keys t)%N then ddiv (of_nat64 (migrated_keys t)) (of_nat64 (total_keys t))
  else d0.

(** ** The cluster: [cluster/cluster_manager.h] *)

Record NodeInfo := MkNodeInfo {
  ni_node_id : string;
  address : string;
  port : N;
  ni_last_heartbeat : Z;
  is_alive : bool;
  shards : gset N
}.

Definition NodeInfo_default : NodeInfo := MkNodeInfo "" "" 0 0 false ∅.
Definition NodeInfo_of (now : Z) (id addr : string) (p : N) : NodeInfo :=
  MkNodeInfo id addr p now true ∅.

Definition endpoint (n : NodeInfo) : string := address n +:+ ":" +:+ pretty (port n).

Module MembershipEventType.
Inductive t :=
  | NODE_JOINED | NODE_LEFT | NODE_FAILED | SHARD_MOVED | REBALANCE_STARTED
  | REBALANCE_COMPLETED.
End MembershipEventType.

Record MembershipEvent := MkMembershipEvent {
  me_type : MembershipEventType.t;
  me_node_id : string;
  me_timestamp : Z;
  me_details : string
}.

Definition MembershipEvent_of (now : Z) (t : MembershipEventType.t) (id d : string) :
    MembershipEvent := MkMembershipEvent t id now d.

(** ** Users: [security/auth_manager.h] *)

Module Permission.
Inductive t := READ | WRITE | DELETE | ADMIN | STATS.
#[global] Instance t_eq_dec : EqDecision t.
Proof. solve_decision. Defined.
#[global] Instance t_countable : Countable t.
Proof.
  refine (inj_countable'
    (λ p, match p with READ => 0 | WRITE => 1 | DELETE => 2 | ADMIN => 3 | STATS => 4 end%N)
    (λ n, match n with 0 => READ | 1 => WRITE | 2 => DELETE | 3 => ADMIN | _ => STATS end%N) _).
  by intros [].
Defined.
End Permission.

Record User := MkUser {
  user_id : string;
  username : string;
  password_hash : string;
  permissions : gset Permission.t;
  created_at : Z;
  last_login : Z;
  is_active : bool
}.

Definition User_default (now : Z) : User := MkUser "" "" "" ∅ now 0 true.

Definition has_permission (perm : Permission.t) (u : User) : bool :=
  bool_decide (perm ∈ permissions u).

Record AuthToken := MkAuthToken {
  token : string;
  token_user_id : string;
  issued_at : Z;
  expires_at : Z;
  is_valid : bool
}.

Definition AuthToken_default : AuthToken := MkAuthToken "" "" 0 0 false.

Definition is_expired (now : Z) (t : AuthToken) : bool := (expires_at t <? now)%Z.

Record ACLEntry := MkACLEntry {
  resource_pattern : string;
  acl_user_id : string;
  acl_permissions : gset Permission.t;
  acl_created_at : Z
}.

Definition ACLEntry_default (now : Z) : ACLEntry := MkACLEntry "" "" ∅ now.

Record AuthResult := MkAuthResult {
  success : bool;
  auth_user_id : string;
  auth_permissions : gset Permission.t;
  auth_error_message : string
}.

Definition AuthResult_default : AuthResult := MkAuthResult false "" ∅ "".
Definition AuthResult_of (s : bool) (uid : string) (perms : gset Permission.t) : AuthResult :=
  MkAuthResult s uid perms "".

(** ** The network: [network/cache_service.h] *)

Module RequestType.
Inductive t := GET | PUT | DELETE | RANGE_SCAN | MULTI_GET | MULTI_PUT | PING | STATS.
Definition code (r : t) : N :=
  match r with
  | GET => 1 | PUT => 2 | DELETE => 3 | RANGE_SCAN => 4
  | MULTI_GET => 5 | MULTI_PUT => 6 | PING => 7 | STATS => 8
  end.
End RequestType.

Record CacheRequest := MkCacheRequest {
  req_type : RequestType.t;
  request_id : string;
  client_id : string;
  auth_token : string;
  req_timestamp : Z
}.

Definition CacheRequest_default (now : Z) : CacheRequest :=
  MkCacheRequest RequestType.PING "" "" "" now.

(** A derived request is its base and its own fields; its constructor runs that
    of the base first and then sets the type. *)
Definition request_of (type : RequestType.t) (now : Z) : CacheRequest :=
  let r := CacheRequest_default now in
  MkCacheRequest type (request_id r) (client_id r) (auth_token r) (req_timestamp r).

Record CacheResponse := MkCacheResponse {
  resp_status : Status.t;
  resp_request_id : string;
  resp_error_message : string;
  resp_timestamp : Z;
  latency_ms : N
}.

Definition CacheResponse_default (now : Z) : CacheResponse :=
  MkCacheResponse Status.OK "" "" now 0.

Record GetRequest := MkGetRequest { get_base : CacheRequest; get_key : MultiLevelKey }.
Definition GetRequest_default (now : Z) : GetRequest :=
  MkGetRequest (request_of RequestType.GET now) (MkKey "" "").

(** The entry of the response reads the clock after the base did. *)
Record GetResponse := MkGetResponse {
  get_resp_base : CacheResponse; get_data : DataEntry; found : bool }.
Definition GetResponse_default (now1 now2 : Z) : GetResponse :=
  MkGetResponse (CacheResponse_default now1) (DataEntry_default now2) false.

Record PutRequest := MkPutRequest {
  put_base : CacheRequest; put_key : MultiLevelKey; put_data : DataEntry;
  put_require_version_match : bool; put_expected_version : N }.
Definition PutRequest_default (now1 now2 : Z) : PutRequest :=
  MkPutRequest (request_of RequestType.PUT now1) (MkKey "" "") (DataEntry_default now2) false 0.

Record PutResponse := MkPutResponse { put_resp_base : CacheResponse; new_version : N }.
Definition PutResponse_default (now : Z) : PutResponse :=
  MkPutResponse (CacheResponse_default now) 0.

Record DeleteRequest := MkDeleteRequest {
  delete_base : CacheRequest; delete_key : MultiLevelKey;
  delete_require_version_match : bool; delete_expected_version : N }.
Definition DeleteRequest_default (now : Z) : DeleteRequest :=
  MkDeleteRequest (request_of RequestType.DELETE now) (MkKey "" "") false 0.

Record DeleteResponse := MkDeleteResponse {
  delete_resp_base : CacheResponse; resp_deleted : bool }.
Definition DeleteResponse_default (now : Z) : DeleteResponse :=
  MkDeleteResponse (CacheResponse_default now) false.

Record RangeScanRequest := MkRangeScanRequest { scan_base : CacheRequest; query : RangeQuery }.
Definition RangeScanRequest_default (now : Z) : RangeScanRequest :=
  MkRangeScanRequest (request_of RequestType.RANGE_SCAN now)
    (RangeQuery_default (MkKey "" "") (MkKey "" "")).

Record RangeScanResponse := MkRangeScanResponse {
  scan_resp_base : CacheResponse; results : list (MultiLevelKey * DataEntry);
  has_more : bool }.
Definition RangeScanResponse_default (now : Z) : RangeScanResponse :=
  MkRangeScanResponse (CacheResponse_default now) [] false.

Record MultiGetRequest := MkMultiGetRequest {
  multi_get_base : CacheRequest; keys : list MultiLevelKey }.
Definition MultiGetRequest_default (now : Z) : MultiGetRequest :=
  MkMultiGetRequest (request_of RequestType.MULTI_GET now) [].

Record MultiPutRequest := MkMultiPutRequest {
  multi_put_base : CacheRequest; entries : list (MultiLevelKey * DataEntry); atomic : bool }.
Definition MultiPutRequest_default (now : Z) : MultiPutRequest :=
  MkMultiPutRequest (request_of RequestType.MULTI_PUT now) [] false.

Record StatsRequest := MkStatsRequest {
  stats_base : CacheRequest; include_cluster_stats : bool; include_shard_stats : bool }.
Definition StatsRequest_default (now : Z) : StatsRequest :=
  MkStatsRequest (request_of RequestType.STATS now) false false.

(** ** Monitoring: [monitoring/monitor.h] *)

Module MetricType.
Inductive t := COUNTER | GAUGE | HISTOGRAM | TIMER.
End MetricType.

Record MetricPoint := MkMetricPoint {
  metric_name : string;
  metric_type : MetricType.t;
  metric_value : double;
  metric_timestamp : Z;
  tags : gmap string string
}.

Definition MetricPoint_default (now : Z) : MetricPoint :=
  MkMetricPoint "" MetricType.GAUGE d0 now ∅.
Definition MetricPoint_of (now : Z) (n : string) (t : MetricType.t) (v : double) : MetricPoint :=
  MkMetricPoint n t v now ∅.

Record HotKey := MkHotKey {
  hk_key : MultiLevelKey;
  hk_access_count : N;
  hk_read_count : N;
  hk_write_count : N;
  hk_access_rate : double;
  first_seen : Z;
  hk_last_access : Z
}.

Definition HotKey_default : HotKey := MkHotKey (MkKey "" "") 0 0 0 d0 0 0.
Definition HotKey_of (now : Z) (k : MultiLevelKey) : HotKey := MkHotKey k 0 0 0 d0 now now.

Module AlertLevel.
Inductive t := INFO | WARNING | ERROR | CRITICAL.
End AlertLevel.

Record Alert := MkAlert {
  alert_id : string;
  alert_level : AlertLevel.t;
  title : string;
  description : string;
  alert_source : string;
  triggered_at : Z;
  acknowledged : bool
}.

Definition Alert_default (now : Z) : Alert :=
  MkAlert "" AlertLevel.INFO "" "" "" now false.

(** [generate_alert_id] is declared and has no body. *)
Definition Alert_of (generate_alert_id : string) (now : Z) (lvl : AlertLevel.t)
    (t desc src : string) : Alert := MkAlert generate_alert_id lvl t desc src now false.

(** ** What the small methods do *)

(** A token is still good at the instant it expires. *)
Lemma is_expired_spec now t : is_expired now t = true ↔ (expires_at t < now)%Z.
Proof. apply Z.ltb_lt. Qed.

(** An endpoint can be taken apart, colons in the address included. *)
Lemma endpoint_inj a b : endpoint a = endpoint b → address a = address b ∧ port a = port b.
Proof.
  assert (∀ n, split_last ":" (bytes_of (endpoint n)) =
    Some (bytes_of (address n), bytes_of (pretty (port n)))) as H.
  { intros n. unfold endpoint. rewrite !bytes_of_app. apply split_last_app. intros Hin.
    pose proof (pretty_digits (port n)) as Hd. rewrite Forall_forall in Hd. by apply Hd in Hin. }
  intros E. pose proof (H a) as Ha. rewrite E, H in Ha. injection Ha as E1 E2.
  apply (f_equal string_of) in E1, E2. rewrite !string_of_bytes_of in E1, E2. subst.
  split; [done|]. by apply (inj pretty) in E2.
Qed.

(** A task without keys has made no progress, one with keys is done at one. *)
Example progress_values :
  progress (MkMigrationTask 1 "a" "b" 0 0 0 false) = d0 ∧
  progress (MkMigrationTask 1 "a" "b" 7 7 0 false) = d1 ∧
  progress (MkMigrationTask 1 "a" "b" 4 2 0 false) = d_half.
Proof. split_and!; vm_compute; reflexivity. Qed.
