(* ===== verification/Server.v ===== *)
(** * Server: [cache_server.cpp] and [main.cpp]

    The server object, whose components are not connected yet: it keeps a
    configuration, two flags, statistics and a thread for them, and writes what
    it does to its output.  The options of the command line become its
    configuration, and the process keeps it until a signal ends it.  [getopt_long] splits the
    command line; its result is an argument here, as are those of the system
    calls that make a daemon. *)

From Stdlib Require Import Ascii String ZArith NArith Lia.
From stdpp Require Import base numbers list strings gmap pretty.
From S2P Require Import Prelude Bytes Numerals OrdMap Types LSMTree Doubles ServiceTypes.

(** ** Configuration *)

Record ClusterConfig := MkClusterConfig {
  cc_node_id : string;
  cc_listen_address : string;
  cc_listen_port : N;
  seed_nodes : list string;
  replication_factor : N;
  shard_count : N;
  heartbeat_interval_ms : N;
  failure_detection_timeout_ms : N;
  enable_auto_rebalance : bool
}.

Definition ClusterConfig_default : ClusterConfig :=
  MkClusterConfig "" "" 0 [] 3 1024 1000 5000 true.

(** Durations in seconds; the default number of threads is the one of the
    machine. *)
Record ServerConfig := MkServerConfig {
  listen_address : string;
  listen_port : N;
  max_connections : N;
  request_timeout_ms : N;
  data_directory : string;
  storage_engine_type : EngineType.t;
  storage_config : gmap string string;
  cluster_config : ClusterConfig;
  enable_authentication : bool;
  auth_token_secret : string;
  token_expiry_time : Z;
  enable_monitoring : bool;
  metrics_port : N;
  metric_retention_period : Z;
  thread_pool_size : N;
  max_batch_size : N;
  sv_enable_compression : bool
}.

(** Times in nanoseconds, [uptime] in milliseconds. *)
Record ServerStats := MkStats {
  start_time : Z;
  uptime : Z;
  total_connections : N;
  active_connections : N;
  total_requests : N;
  successful_requests : N;
  failed_requests : N;
  average_latency_ms : double;
  p99_latency_ms : double;
  keys_count : N;
  memory_usage_bytes : N;
  disk_usage_bytes : N;
  cache_hit_ratio : double;
  cluster_size : N;
  healthy_nodes : N;
  is_leader : bool;
  load_balance_factor : double
}.

Definition ServerStats_new (now : Z) : ServerStats :=
  MkStats now 0 0 0 0 0 0 d0 d0 0 0 0 d0 0 0 false d1.

(** What [main] asks of the system when it becomes a daemon: the two calls of
    [fork], [setsid] and [chdir], each with its result, and the time of day when
    the server is built. *)
Record Syscalls := MkSyscalls {
  first_fork : Z;
  set_sid : Z;
  second_fork : Z;
  change_dir : Z;
  built_at : Z
}.

(** A signal is handled on whichever thread of the process the system picks. *)
Inductive thread := MainThread | StatsThread.
#[export] Instance thread_eq_dec : EqDecision thread.
Proof. solve_decision. Defined.

Section server.
(** [std::thread::hardware_concurrency()], what the shutdown handler of the
    user writes to the output, and the system calls. *)
Context (hardware_concurrency : N) (handler_output : list string) (sys : Syscalls).

Definition ServerConfig_default : ServerConfig :=
  MkServerConfig "0.0.0.0" 8080 1000 100 "./data" EngineType.LSM_TREE ∅ ClusterConfig_default
    true "" 86400 true 9090 86400 hardware_concurrency 1000 false.

Definition validate (c : ServerConfig) : Result unit :=
  if (listen_port c =? 0)%N then RErr Status.INVALID_ARGUMENT "Invalid listen port"
  else if bool_decide (data_directory c = "")
  then RErr Status.INVALID_ARGUMENT "Data directory cannot be empty"
  else ROk tt.

(** ** The server *)

Record CacheServer := MkServer {
  stats_ : ServerStats;
  sv_config : ServerConfig;
  sv_running : bool;
  shutdown_requested : bool;
  has_shutdown_handler : bool;
  stats_thread : bool;
  stop_stats : bool;
  output : list string
}.

Definition CacheServer_new (now : Z) (c : ServerConfig) : CacheServer :=
  MkServer (ServerStats_new now) c false false false false false [].

Definition write_line (l : string) : M CacheServer unit := modify (λ s,
  MkServer (stats_ s) (sv_config s) (sv_running s) (shutdown_requested s) (has_shutdown_handler s)
    (stats_thread s) (stop_stats s) (output s ++ [l])).
Definition set_running (running requested : bool) : M CacheServer unit := modify (λ s,
  MkServer (stats_ s) (sv_config s) running requested (has_shutdown_handler s) (stats_thread s)
    (stop_stats s) (output s)).
Definition set_stats (thread stopping : bool) : M CacheServer unit := modify (λ s,
  MkServer (stats_ s) (sv_config s) (sv_running s) (shutdown_requested s) (has_shutdown_handler s)
    thread stopping (output s)).

Definition initialize_storage : M CacheServer (Result unit) :=
  _ ← write_line "[INFO] Initializing storage..."; mret (ROk tt).
Definition initialize_cluster : M CacheServer (Result unit) :=
  _ ← write_line "[INFO] Initializing cluster..."; mret (ROk tt).
Definition initialize_security : M CacheServer (Result unit) :=
  _ ← write_line "[INFO] Initializing security..."; mret (ROk tt).
Definition initialize_monitoring : M CacheServer (Result unit) :=
  _ ← write_line "[INFO] Initializing monitoring..."; mret (ROk tt).
Definition initialize_network : M CacheServer (Result unit) :=
  _ ← write_line "[INFO] Initializing network..."; mret (ROk tt).

Definition cleanup_storage : M CacheServer unit := write_line "[INFO] Cleaning up storage...".
Definition cleanup_cluster : M CacheServer unit := write_line "[INFO] Cleaning up cluster...".
Definition cleanup_security : M CacheServer unit := write_line "[INFO] Cleaning up security...".
Definition cleanup_monitoring : M CacheServer unit :=
  write_line "[INFO] Cleaning up monitoring...".
Definition cleanup_network : M CacheServer unit := write_line "[INFO] Cleaning up network...".

(** Assigning to a thread that was not joined ends the program. *)
Definition start_stats_collection : M CacheServer unit :=
  running ← gets stats_thread;
  if running : bool then undefined Terminated else set_stats true false.
(** The thread only locks a mutex of its own, so that joining it ends, unless
    it is the thread itself that joins, which throws. *)
Definition stop_stats_collection (caller : thread) : M CacheServer unit :=
  joinable ← gets stats_thread;
  _ ← set_stats joinable true;
  if joinable : bool then
    if decide (caller = StatsThread) then undefined Terminated else set_stats false true
  else mret tt.

Definition server_start : M CacheServer (Result unit) :=
  running ← gets sv_running;
  if running : bool
  then mret (RErr Status.ALREADY_EXISTS "Server is already running")
  else
    _ ← write_line "[INFO] Starting cache server...";
    _ ←? initialize_storage;
    result ← initialize_cluster;
    if negb (is_ok result) then _ ← cleanup_storage; mret result
    else
      result ← initialize_security;
      if negb (is_ok result) then _ ← cleanup_cluster; _ ← cleanup_storage; mret result
      else
        result ← initialize_monitoring;
        if negb (is_ok result)
        then _ ← cleanup_security; _ ← cleanup_cluster; _ ← cleanup_storage; mret result
        else
          result ← initialize_network;
          if negb (is_ok result)
          then
            _ ← cleanup_monitoring; _ ← cleanup_security; _ ← cleanup_cluster;
            _ ← cleanup_storage; mret result
          else
            _ ← start_stats_collection;
            requested ← gets shutdown_requested;
            _ ← set_running true requested;
            _ ← write_line "[INFO] Cache server started successfully";
            mret (ROk tt).

Definition server_stop (caller : thread) : M CacheServer (Result unit) :=
  running ← gets sv_running;
  if negb running then mret (ROk tt)
  else
    _ ← write_line "[INFO] Stopping cache server...";
    _ ← set_running false true;
    _ ← stop_stats_collection caller;
    _ ← cleanup_network;
    _ ← cleanup_monitoring;
    _ ← cleanup_security;
    _ ← cleanup_cluster;
    _ ← cleanup_storage;
    _ ← write_line "[INFO] Cache server stopped";
    mret (ROk tt).

Definition server_restart (caller : thread) : M CacheServer (Result unit) :=
  stop_result ← server_stop caller;
  if negb (is_ok stop_result) then mret stop_result else server_start.

Definition server_update_config (c : ServerConfig) : M CacheServer (Result unit) :=
  _ ← modify (λ s, MkServer (stats_ s) c (sv_running s) (shutdown_requested s)
                     (has_shutdown_handler s) (stats_thread s) (stop_stats s) (output s));
  mret (ROk tt).
Definition get_stats : M CacheServer ServerStats := gets stats_.
(** What the statistics thread does over and over. *)
Definition update_stats : M CacheServer unit := mret tt.
Definition get_health_status : M CacheServer string :=
  gets (λ s, if sv_running s then "healthy" else "stopped").
Definition set_shutdown_handler : M CacheServer unit := modify (λ s,
  MkServer (stats_ s) (sv_config s) (sv_running s) (shutdown_requested s) true (stats_thread s)
    (stop_stats s) (output s)).

(** The operations of administration, none of which is implemented. *)
Definition reload_config (config_file : string) : M CacheServer (Result unit) :=
  mret (RErr Status.NOT_IMPLEMENTED "Config reload not implemented").
Definition flush_all_data : M CacheServer (Result unit) :=
  mret (RErr Status.NOT_IMPLEMENTED "Flush all data not implemented").
Definition compact_storage : M CacheServer (Result unit) :=
  mret (RErr Status.NOT_IMPLEMENTED "Compact storage not implemented").
Definition backup_data (backup_path : string) : M CacheServer (Result unit) :=
  mret (RErr Status.NOT_IMPLEMENTED "Backup not implemented").
Definition restore_data (backup_path : string) : M CacheServer (Result unit) :=
  mret (RErr Status.NOT_IMPLEMENTED "Restore not implemented").
Definition join_cluster : M CacheServer (Result unit) :=
  mret (RErr Status.NOT_IMPLEMENTED "Join cluster not implemented").
Definition leave_cluster : M CacheServer (Result unit) :=
  mret (RErr Status.NOT_IMPLEMENTED "Leave cluster not implemented").
Definition trigger_rebalance : M CacheServer (Result unit) :=
  mret (RErr Status.NOT_IMPLEMENTED "Trigger rebalance not implemented").
Definition delete_user (username : string) : M CacheServer (Result unit) :=
  mret (RErr Status.NOT_IMPLEMENTED "Delete user not implemented").
Definition create_user (username password : string) (permissions : gset Permission.t) :
    M CacheServer (Result unit) :=
  mret (RErr Status.NOT_IMPLEMENTED "Create user not implemented").
Definition update_user_permissions (username : string) (permissions : gset Permission.t) :
    M CacheServer (Result unit) :=
  mret (RErr Status.NOT_IMPLEMENTED "Update user permissions not implemented").
Definition get_cluster_nodes : M CacheServer (list NodeInfo) := mret [].
Definition get_active_alerts : M CacheServer (list Alert) := mret [].
Definition get_hot_keys (limit : N) : M CacheServer (list HotKey) := mret [].
Definition export_metrics (format : string) : M CacheServer string :=
  mret ("# No metrics available" +:+ String (ascii_of_nat 10) EmptyString).

(** [CacheServer::signal_handler] of the server whose constructor ran last. *)
Definition server_signal (caller : thread) (signal : N) : M CacheServer unit :=
  _ ← write_line ("[INFO] Received signal " +:+ pretty signal +:+ ", shutting down gracefully...");
  running ← gets sv_running;
  _ ← set_running running true;
  handler ← gets has_shutdown_handler;
  _ ← (if handler : bool then mfor write_line handler_output else mret tt);
  _ ← server_stop caller;
  mret tt.

Definition CacheServer_destroy (caller : thread) : M CacheServer unit :=
  running ← gets sv_running;
  if running : bool then _ ← server_stop caller; mret tt else mret tt.

(** The rest of [namespace config], of which only the environment is read. *)
Definition parse_config_file (filename : string) : Result ServerConfig :=
  RErr Status.NOT_IMPLEMENTED "Config file parsing not implemented".
Definition validate_config (c : ServerConfig) : Result unit := ROk tt.
Definition generate_default_config : string :=
  "# Default configuration" +:+ String (ascii_of_nat 10) EmptyString.
Definition get_env_var (getenv : string → option string) (name default_value : string) : string :=
  default default_value (getenv name).
Definition save_to_file (config_file : string) (c : ServerConfig) : Result unit :=
  RErr Status.NOT_IMPLEMENTED "Save to file not implemented".

(** ** The command line *)

(** What [getopt_long] returns, and the argument. *)
Record Options := MkOptions {
  opt_config_file : string;
  opt_listen_address : string;
  opt_listen_port : N;
  opt_data_dir : string;
  opt_node_id : string;
  opt_seed_nodes : string;
  opt_log_level : string;
  run_as_daemon : bool
}.

Definition Options_default : Options :=
  MkOptions "config.yaml" "0.0.0.0" 8080 "./data" "" "" "info" false.

(** [static_cast<uint16_t>]. *)
Definition to_uint16 (z : Z) : N := Z.to_N (z `mod` 2 ^ 16).

Inductive parsed :=
  | Parsed (o : Options)
  | ExitWith (code : N)
  | Uncaught.

(** The loop over the options; the conversion of the port is outside the
    [try] block. *)
Fixpoint parse_options (args : list (ascii * string)) (o : Options) : parsed :=
  match args with
  | [] => Parsed o
  | (c, optarg) :: args =>
      if bool_decide (c = "c"%char) then
        parse_options args (MkOptions optarg (opt_listen_address o) (opt_listen_port o)
          (opt_data_dir o) (opt_node_id o) (opt_seed_nodes o) (opt_log_level o) (run_as_daemon o))
      else if bool_decide (c = "p"%char) then
        match stoi optarg with
        | None => Uncaught
        | Some port =>
            parse_options args (MkOptions (opt_config_file o) (opt_listen_address o)
              (to_uint16 port) (opt_data_dir o) (opt_node_id o) (opt_seed_nodes o)
              (opt_log_level o) (run_as_daemon o))
        end
      else if bool_decide (c = "a"%char) then
        parse_options args (MkOptions (opt_config_file o) optarg (opt_listen_port o)
          (opt_data_dir o) (opt_node_id o) (opt_seed_nodes o) (opt_log_level o) (run_as_daemon o))
      else if bool_decide (c = "d"%char) then
        parse_options args (MkOptions (opt_config_file o) (opt_listen_address o)
          (opt_listen_port o) optarg (opt_node_id o) (opt_seed_nodes o) (opt_log_level o)
          (run_as_daemon o))
      else if bool_decide (c = "n"%char) then
        parse_options args (MkOptions (opt_config_file o) (opt_listen_address o)
          (opt_listen_port o) (opt_data_dir o) optarg (opt_seed_nodes o) (opt_log_level o)
          (run_as_daemon o))
      else if bool_decide (c = "s"%char) then
        parse_options args (MkOptions (opt_config_file o) (opt_listen_address o)
          (opt_listen_port o) (opt_data_dir o) (opt_node_id o) optarg (opt_log_level o)
          (run_as_daemon o))
      else if bool_decide (c = "l"%char) then
        parse_options args (MkOptions (opt_config_file o) (opt_listen_address o)
          (opt_listen_port o) (opt_data_dir o) (opt_node_id o) (opt_seed_nodes o) optarg
          (run_as_daemon o))
      else if bool_decide (c = "D"%char) then
        parse_options args (MkOptions (opt_config_file o) (opt_listen_address o)
          (opt_listen_port o) (opt_data_dir o) (opt_node_id o) (opt_seed_nodes o)
          (opt_log_level o) true)
      else if bool_decide (c = "h"%char) then ExitWith 0
      else if bool_decide (c = "v"%char) then ExitWith 0
      else if bool_decide (c = "?"%char) then ExitWith 1
      else parse_options args o
  end.

(** [while (std::getline(ss, node, ','))]; [line] is the node read so far. *)
Fixpoint split_seeds (s : bytes) (line : bytes) : list string :=
  match s with
  | [] => if bool_decide (line = []) then [] else [string_of line]
  | c :: s =>
      if bool_decide (c = ","%char) then string_of line :: split_seeds s []
      else split_seeds s (line ++ [c])
  end.

(** The file is not read: loading it gives the default configuration. *)
Definition load_from_file (config_file : string) : Result ServerConfig := ROk ServerConfig_default.

(** [config::apply_env_overrides]: nothing in the environment changes it. *)
Definition apply_env_overrides (c : ServerConfig) : ServerConfig := c.

(** The configuration [main] makes of the options. *)
Definition configure (o : Options) : ServerConfig :=
  let c :=
    if bool_decide (opt_config_file o = "") then ServerConfig_default
    else match load_from_file (opt_config_file o) with
         | ROk c => c
         | RErr _ _ => ServerConfig_default
         end in
  let cc := cluster_config c in
  let cc :=
    if bool_decide (opt_node_id o = "") then cc
    else MkClusterConfig (opt_node_id o) (cc_listen_address cc) (cc_listen_port cc)
      (seed_nodes cc) (replication_factor cc) (shard_count cc) (heartbeat_interval_ms cc)
      (failure_detection_timeout_ms cc) (enable_auto_rebalance cc) in
  let cc :=
    if bool_decide (opt_seed_nodes o = "") then cc
    else MkClusterConfig (cc_node_id cc) (cc_listen_address cc) (cc_listen_port cc)
      (split_seeds (bytes_of (opt_seed_nodes o)) []) (replication_factor cc) (shard_count cc)
      (heartbeat_interval_ms cc) (failure_detection_timeout_ms cc) (enable_auto_rebalance cc) in
  apply_env_overrides
    (MkServerConfig (opt_listen_address o) (opt_listen_port o) (max_connections c)
       (request_timeout_ms c) (opt_data_dir o) (storage_engine_type c) (storage_config c) cc
       (enable_authentication c) (auth_token_secret c) (token_expiry_time c)
       (enable_monitoring c) (metrics_port c) (metric_retention_period c) (thread_pool_size c)
       (max_batch_size c) (sv_enable_compression c)).

(** ** The process *)

(** The signals that [main] and the server handle, and the others by number. *)
Inductive signal := SIGINT | SIGQUIT | SIGTERM | SIGPIPE | OtherSignal (number : N).
#[local] Instance signal_eq_dec : EqDecision signal.
Proof. solve_decision. Defined.

Definition signal_number (sig : signal) : N :=
  match sig with
  | SIGINT => 2 | SIGQUIT => 3 | SIGTERM => 15 | SIGPIPE => 13 | OtherSignal number => number
  end.

(** Whether the default action of the system ends the process; otherwise the
    signal is ignored, or stops the process until another one continues it. *)
Context (ends_by_default : signal → bool).

(** What a signal does: [signal_handler] of [main.cpp] or the one of the
    server, or what the process inherited. *)
Inductive disposition := SigDefault | SigIgnored | MainHandler | ServerHandler.

(** [::signal(sig, d)]. *)
Definition set_action (sig : signal) (d : disposition) (actions : signal → disposition) :
    signal → disposition :=
  λ sig', if decide (sig' = sig) then d else actions sig'.

Definition setup_signal_handlers (actions : signal → disposition) : signal → disposition :=
  set_action SIGPIPE SigIgnored (set_action SIGQUIT MainHandler
    (set_action SIGTERM MainHandler (set_action SIGINT MainHandler actions))).
Definition server_setup_signal_handlers (actions : signal → disposition) :
    signal → disposition :=
  set_action SIGTERM ServerHandler (set_action SIGINT ServerHandler actions).

Record Process := MkProcess {
  g_server : CacheServer;
  actions : signal → disposition
}.

Inductive fate :=
  | Exits (code : N)
  | Killed (sig : signal)
  | Crashes
  | Serves (p : Process).

(** [None] is the exit of a parent process. *)
Definition daemonize : option bool :=
  if (first_fork sys <? 0)%Z then Some false
  else if (0 <? first_fork sys)%Z then None
  else if (set_sid sys <? 0)%Z then Some false
  else if (second_fork sys <? 0)%Z then Some false
  else if (0 <? second_fork sys)%Z then None
  else if (change_dir sys <? 0)%Z then Some false
  else Some true.

(** The constructor of the server installs its handlers over those of [main]. *)
Definition run_server (o : Options) (actions : signal → disposition) : fate :=
  let c := configure o in
  match validate c with
  | RErr _ _ => Exits 1
  | ROk _ =>
      match server_start (CacheServer_new (built_at sys) c) with
      | Undefined _ | Throws _ _ => Crashes
      | Returns (RErr _ _) _ => Exits 1
      | Returns (ROk _) s => Serves (MkProcess s (server_setup_signal_handlers actions))
      end
  end.

(** [main] up to the loop that waits for the server to stop.  A new program
    inherits which signals are ignored; the others have their default action. *)
Definition main (ignored : signal → bool) (args : list (ascii * string)) : fate :=
  match parse_options args Options_default with
  | ExitWith code => Exits code
  | Uncaught => Crashes
  | Parsed o =>
      let actions := setup_signal_handlers
        (λ sig, if ignored sig then SigIgnored else SigDefault) in
      if run_as_daemon o then
        match daemonize with
        | None => Exits 0
        | Some false => Exits 1
        | Some true => run_server o actions
        end
      else run_server o actions
  end.

(** [signal_handler] of [main.cpp] exits; destroying the server it stopped
    does nothing more. *)
Definition take_signal (t : thread) (sig : signal) (p : Process) : fate :=
  match actions p sig with
  | SigDefault => if ends_by_default sig then Killed sig else Serves p
  | SigIgnored => Serves p
  | MainHandler =>
      match server_stop t (g_server p) with
      | Returns _ _ => Exits 0
      | Undefined _ | Throws _ _ => Crashes
      end
  | ServerHandler =>
      match server_signal t (signal_number sig) (g_server p) with
      | Returns _ s => Serves (MkProcess s (actions p))
      | Undefined _ | Throws _ _ => Crashes
      end
  end.

(** The loop at the end of [main], which ends when the server has stopped. *)
Fixpoint main_loop (signals : list (thread * signal)) (p : Process) : fate :=
  if negb (sv_running (g_server p)) then Exits 0
  else
    match signals with
    | [] => Serves p
    | (t, sig) :: signals =>
        match take_signal t sig p with
        | Serves p => main_loop signals p
        | f => f
        end
    end.
End server.
