(* ===== verification/ServerRuns.v ===== *)
(** * ServerRuns: the server object, its command line and its process *)

From Stdlib Require Import Ascii String ZArith NArith Lia.
From stdpp Require Import base numbers list strings gmap pretty.
From S2P Require Import Prelude Bytes Numerals OrdMap Types LSMTree Server.

(** ** Runs of the server *)

Section runs.
Context (handler_output : list string).

Inductive server_call :=
  | SvStart | SvStop | SvRestart | SvUpdate (c : ServerConfig) | SvHealth | SvStats
  | SvSetHandler | SvSignal (signal : N) | SvDestroy.

Definition server_run (call : server_call) : M CacheServer unit :=
  match call with
  | SvStart => _ ← server_start; mret tt
  | SvStop => _ ← server_stop MainThread; mret tt
  | SvRestart => _ ← server_restart MainThread; mret tt
  | SvUpdate c => _ ← server_update_config c; mret tt
  | SvHealth => _ ← get_health_status; mret tt
  | SvStats => _ ← get_stats; mret tt
  | SvSetHandler => set_shutdown_handler
  | SvSignal signal => server_signal handler_output MainThread signal
  | SvDestroy => CacheServer_destroy MainThread
  end.

(** The statistics thread exists exactly while the server runs. *)
Definition server_ok (s : CacheServer) : Prop := stats_thread s = sv_running s.

Definition is_start (call : server_call) : bool :=
  match call with SvStart | SvRestart => true | _ => false end.
Definition is_stop (call : server_call) : bool :=
  match call with SvStop | SvSignal _ | SvDestroy => true | _ => false end.

Lemma mfor_write_line ls s :
  ∃ out, mfor write_line ls s = Returns tt (MkServer (stats_ s) (sv_config s) (sv_running s)
    (shutdown_requested s) (has_shutdown_handler s) (stats_thread s) (stop_stats s) out).
Proof.
  revert s. induction ls as [|l ls IH]; intros s; cbn [mfor].
  - exists (output s). by destruct s.
  - destruct (IH (MkServer (stats_ s) (sv_config s) (sv_running s)
      (shutdown_requested s) (has_shutdown_handler s) (stats_thread s) (stop_stats s)
      (output s ++ [l]))) as [out E]. exists out. exact E.
Qed.

(** What starting and stopping write. *)
Definition write_lines (lines : list string) (out : list string) : list string :=
  foldl (λ out l, out ++ [l]) out lines.
Definition start_lines : list string :=
  ["[INFO] Starting cache server..."; "[INFO] Initializing storage...";
   "[INFO] Initializing cluster..."; "[INFO] Initializing security...";
   "[INFO] Initializing monitoring..."; "[INFO] Initializing network...";
   "[INFO] Cache server started successfully"].
Definition stop_lines : list string :=
  ["[INFO] Stopping cache server..."; "[INFO] Cleaning up network...";
   "[INFO] Cleaning up monitoring..."; "[INFO] Cleaning up security...";
   "[INFO] Cleaning up cluster..."; "[INFO] Cleaning up storage...";
   "[INFO] Cache server stopped"].

(** The states the operations end in, apart from the output. *)
Lemma server_stop_state s :
  server_ok s → ∃ p out, server_stop MainThread s = Returns (ROk tt)
    (MkServer (stats_ s) (sv_config s) false (sv_running s || shutdown_requested s)
       (has_shutdown_handler s) false p out).
Proof.
  unfold server_ok. destruct s as [st c r q h t p out]. cbn. intros ->.
  destruct r; [exists true, (write_lines stop_lines out)|exists p, out];
    vm_compute; reflexivity.
Qed.

Lemma server_start_state s :
  server_ok s → ∃ p out, server_start s = Returns
    (if sv_running s then RErr Status.ALREADY_EXISTS "Server is already running" else ROk tt)
    (MkServer (stats_ s) (sv_config s) true (shutdown_requested s) (has_shutdown_handler s)
       true p out).
Proof.
  unfold server_ok. destruct s as [st c r q h t p out]. cbn. intros ->.
  destruct r; [exists p, out|exists false, (write_lines start_lines out)]; vm_compute; reflexivity.
Qed.

(** A signal makes the thread that takes it stop the server. *)
Lemma server_signal_stop t signal s :
  ∃ out, server_signal handler_output t signal s =
    (_ ← server_stop t; mret tt) (MkServer (stats_ s) (sv_config s) (sv_running s) true
      (has_shutdown_handler s) (stats_thread s) (stop_stats s) out).
Proof.
  unfold server_signal.
  set (line := "[INFO] Received signal " +:+ _). generalize line. clear line. intros line.
  set (s1 := MkServer (stats_ s) (sv_config s) (sv_running s) true (has_shutdown_handler s)
               (stats_thread s) (stop_stats s) (output s ++ [line])).
  assert (∃ out, (if has_shutdown_handler s then mfor write_line handler_output else mret tt) s1
    = Returns tt (MkServer (stats_ s) (sv_config s) (sv_running s) true (has_shutdown_handler s)
        (stats_thread s) (stop_stats s) out)) as [out E].
  { destruct (has_shutdown_handler s) eqn:Eh.
    - destruct (mfor_write_line handler_output s1) as [out E]. exists out. rewrite E. by cbn.
    - exists (output s ++ [line]). by unfold s1. }
  exists out.
  rewrite (M_bind_step (write_line line) _ _ tt (MkServer (stats_ s) (sv_config s) (sv_running s)
    (shutdown_requested s) (has_shutdown_handler s) (stats_thread s) (stop_stats s)
    (output s ++ [line]))) by done.
  rewrite M_bind_gets. cbn [sv_running].
  rewrite (M_bind_step (set_running (sv_running s) true) _ _ tt s1) by done.
  rewrite M_bind_gets. cbn [has_shutdown_handler s1]. by mstep E.
Qed.

Lemma server_signal_state signal s :
  server_ok s → ∃ p out, server_signal handler_output MainThread signal s = Returns tt
    (MkServer (stats_ s) (sv_config s) false true (has_shutdown_handler s) false p out).
Proof.
  intros Hok. destruct (server_signal_stop MainThread signal s) as [out ->].
  destruct (server_stop_state (MkServer (stats_ s) (sv_config s) (sv_running s) true
    (has_shutdown_handler s) (stats_thread s) (stop_stats s) out) Hok) as (p & out2 & E2).
  exists p, out2. cbn in E2. rewrite orb_true_r in E2. by mstep E2.
Qed.

(** The statistics thread cannot stop a running server: it would join itself. *)
Lemma server_stop_on_stats_thread s :
  server_ok s → sv_running s = true → server_stop StatsThread s = Undefined Terminated.
Proof. unfold server_ok. destruct s. cbn. intros -> ->. vm_compute. reflexivity. Qed.

Lemma server_signal_on_stats_thread signal s :
  server_ok s → sv_running s = true →
  server_signal handler_output StatsThread signal s = Undefined Terminated.
Proof.
  intros Hok Hr. destruct (server_signal_stop StatsThread signal s) as [out ->].
  unfold mbind, M_bind. by rewrite server_stop_on_stats_thread.
Qed.

(** Every call on the server returns, and keeps the statistics thread alive
    exactly while the server runs: starting and restarting leave it running,
    stopping, a signal and destroying it leave it stopped. Once a stop was
    requested, nothing withdraws the request, not even a restart. The statistics
    are those of the constructor for ever. *)
Theorem server_calls_return call s :
  server_ok s →
  ∃ s', server_run call s = Returns tt s' ∧ server_ok s' ∧
    (is_start call = true → sv_running s' = true) ∧
    (is_stop call = true → sv_running s' = false) ∧
    (is_start call = false → is_stop call = false → sv_running s' = sv_running s) ∧
    (shutdown_requested s = true → shutdown_requested s' = true) ∧ stats_ s' = stats_ s.
Proof.
  intros Hok. destruct call; cbn [server_run is_start is_stop].
  - destruct (server_start_state s Hok) as (p & out & E). mstep E. eexists. split; [reflexivity|]. by cbn.
  - destruct (server_stop_state s Hok) as (p & out & E). mstep E. eexists. split; [reflexivity|].
    split_and!; try done. intros Hq. cbn. rewrite Hq. apply orb_true_r.
  - destruct (server_stop_state s Hok) as (p & out & E).
    unfold server_restart. rewrite M_bind_assoc. mstep E. cbn [negb is_ok].
    destruct (server_start_state (MkServer (stats_ s) (sv_config s) false
      (sv_running s || shutdown_requested s) (has_shutdown_handler s) false p out) eq_refl) as (p2 & out2 & E2).
    mstep E2. eexists. split; [reflexivity|]. split_and!; try done.
    intros Hq. cbn. rewrite Hq. apply orb_true_r.
  - eexists. split; [reflexivity|]. cbn. by unfold server_ok.
  - eexists. split; [reflexivity|]. by unfold server_ok.
  - eexists. split; [reflexivity|]. by unfold server_ok.
  - eexists. split; [reflexivity|]. cbn. by unfold server_ok.
  - destruct (server_signal_state signal s Hok) as (p & out & E). rewrite E.
    eexists. split; [reflexivity|]. by cbn.
  - unfold CacheServer_destroy. rewrite M_bind_gets. destruct (sv_running s) eqn:Er.
    + destruct (server_stop_state s Hok) as (p & out & E). mstep E. eexists. split; [reflexivity|].
      split_and!; try done. intros Hq. cbn. rewrite Hq. apply orb_true_r.
    + exists s. split; [reflexivity|]. by rewrite Er.
Qed.
End runs.

Lemma server_calls_return_witness :
  let s := CacheServer_new 0 (ServerConfig_default 4) in
  server_ok s ∧ ∃ s', server_run ["bye"] SvRestart s = Returns tt s' ∧ server_ok s' ∧
    (is_start SvRestart = true → sv_running s' = true) ∧
    (is_stop SvRestart = true → sv_running s' = false) ∧
    (is_start SvRestart = false → is_stop SvRestart = false → sv_running s' = sv_running s) ∧
    (shutdown_requested s = true → shutdown_requested s' = true) ∧ stats_ s' = stats_ s.
Proof.
  intros s. split; [reflexivity|]. apply (server_calls_return ["bye"] SvRestart s). reflexivity.
Defined.

(** ** The command line *)

Definition no_comma (s : bytes) : Prop := ","%char ∉ s.

Lemma split_seeds_line s rest line :
  no_comma s → split_seeds (s ++ ","%char :: rest) line = string_of (line ++ s) :: split_seeds rest [].
Proof.
  revert line. induction s as [|c s IH]; intros line Hs; cbn [app split_seeds].
  - by rewrite app_nil_r.
  - apply not_elem_of_cons in Hs as [Hc Hs].
    rewrite bool_decide_false by done. rewrite IH by done. by rewrite <- (assoc_L (++)).
Qed.

Lemma split_seeds_last s line :
  no_comma s → line ++ s ≠ [] → split_seeds s line = [string_of (line ++ s)].
Proof.
  revert line. induction s as [|c s IH]; intros line Hs Hne; cbn [split_seeds].
  - rewrite app_nil_r in *. by rewrite bool_decide_false.
  - apply not_elem_of_cons in Hs as [Hc Hs]. rewrite bool_decide_false by done.
    rewrite IH; [by rewrite <- (assoc_L (++))|done|by destruct line].
Qed.

(** The seeds with a comma between each two. *)
Fixpoint join_seeds (nodes : list bytes) : bytes :=
  match nodes with
  | [] => []
  | [n] => n
  | n :: nodes => n ++ ","%char :: join_seeds nodes
  end.

(** Seed nodes that are joined by commas are read back as they were, whatever
    else they contain, as long as the last one is not empty (an empty last one
    is dropped). *)
Theorem seeds_round_trip nodes :
  Forall no_comma nodes → (∃ l, last nodes = Some l ∧ l ≠ []) →
  split_seeds (join_seeds nodes) [] = string_of <$> nodes.
Proof.
  induction nodes as [|n nodes IH]; intros Hc (l & Hl & Hne); [done|].
  apply Forall_cons in Hc as [Hn Hnodes]. destruct nodes as [|n2 nodes].
  - cbn in Hl. simplify_eq. cbn [join_seeds]. by apply (split_seeds_last l []).
  - change (join_seeds (n :: n2 :: nodes)) with (n ++ ","%char :: join_seeds (n2 :: nodes)).
    rewrite split_seeds_line by done. rewrite IH; [done..|]. exists l. by rewrite last_cons_cons in Hl.
Qed.

Lemma seeds_round_trip_witness :
  split_seeds (bytes_of "node2:8080,,node3:8080") [] = ["node2:8080"; ""; "node3:8080"].
Proof.
  refine (seeds_round_trip [bytes_of "node2:8080"; []; bytes_of "node3:8080"] _ _).
  - repeat constructor; apply (bool_decide_unpack _); vm_compute; exact I.
  - exists (bytes_of "node3:8080"). split; [reflexivity|discriminate].
Defined.

(** The port of the command line is taken modulo 2^16: the server is started on
    what is left, or the program exits if that is zero; and an argument that is
    no number, or too large for an int, ends the program by an exception that
    nothing catches. *)
Theorem main_port hardware_concurrency sys ignored arg :
  match stoi arg with
  | None => main hardware_concurrency sys ignored [("p"%char, arg)] = Crashes
  | Some port =>
      if (port `mod` 2 ^ 16 =? 0)%Z
      then main hardware_concurrency sys ignored [("p"%char, arg)] = Exits 1
      else ∃ p, main hardware_concurrency sys ignored [("p"%char, arg)] = Serves p ∧
             sv_running (g_server p) = true ∧
             Z.of_N (listen_port (sv_config (g_server p))) = (port `mod` 2 ^ 16)%Z
  end.
Proof.
  unfold main. cbn [parse_options]. rewrite bool_decide_false by done.
  rewrite bool_decide_true by done. destruct (stoi arg) as [port|]; [|done].
  pose proof (Z.mod_pos_bound port (2 ^ 16) ltac:(done)) as Hb.
  assert (Z.of_N (to_uint16 port) = port `mod` 2 ^ 16)%Z as Ep by (unfold to_uint16; lia).
  cbn [parse_options run_as_daemon]. unfold run_server, validate, configure, apply_env_overrides.
  cbn [listen_port opt_listen_port data_directory opt_data_dir].
  destruct (Z.eqb_spec (port `mod` 2 ^ 16) 0) as [E|E].
  - by rewrite (proj2 (N.eqb_eq _ _)) by lia.
  - rewrite (proj2 (N.eqb_neq _ _)) by lia. rewrite bool_decide_false by done.
    set (c := MkServerConfig _ _ _ _ _ _ _ _ _ _ _ _ _ _ _ _ _).
    destruct (server_start_state (CacheServer_new (built_at sys) c) eq_refl) as (p & out & E2).
    rewrite E2. cbn [sv_running CacheServer_new]. eexists. split; [reflexivity|].
    split; [done|]. exact Ep.
Qed.

Example main_port_wraps sys :
  main 4 sys (λ _, false) [("p"%char, "73616")] =
  main 4 sys (λ _, false) [("p"%char, "8080")].
Proof. vm_compute. reflexivity. Qed.

(** ** The process *)

(** What [main] serves is running, and its signals have the actions of
    [setup_signal_handlers] and of the constructor of the server. *)
Lemma run_server_serves hardware_concurrency sys o actions p :
  run_server hardware_concurrency sys o actions = Serves p →
  server_ok (g_server p) ∧ sv_running (g_server p) = true ∧
  Server.actions p = server_setup_signal_handlers actions.
Proof.
  unfold run_server. destruct (validate _) as [[]|]; [|done].
  destruct (server_start_state
    (CacheServer_new (built_at sys) (configure hardware_concurrency o)) eq_refl) as (q & out & ->).
  cbn [sv_running CacheServer_new]. by intros [= <-].
Qed.

Lemma main_serves hardware_concurrency sys ignored args p :
  main hardware_concurrency sys ignored args = Serves p →
  server_ok (g_server p) ∧ sv_running (g_server p) = true ∧
  actions p = server_setup_signal_handlers (setup_signal_handlers
    (λ sig, if ignored sig then SigIgnored else SigDefault)).
Proof.
  unfold main. destruct (parse_options args Options_default) as [o| |]; [|done..].
  destruct (run_as_daemon o); [destruct (daemonize sys) as [[]|]; [|done..]|];
    apply run_server_serves.
Qed.

(** What a signal does to the process when it arrives at a thread. *)
Definition signal_fate (ends_by_default ignored : signal → bool) (t : thread) (sig : signal) :
    option fate :=
  match sig, t with
  | SIGPIPE, _ => None
  | OtherSignal _, _ =>
      if negb (ignored sig) && ends_by_default sig then Some (Killed sig) else None
  | _, MainThread => Some (Exits 0)
  | _, StatsThread => Some Crashes
  end.

(** The first signal that ends the process decides. *)
Fixpoint first_fate (ends_by_default ignored : signal → bool) (signals : list (thread * signal)) :
    option fate :=
  match signals with
  | [] => None
  | (t, sig) :: signals =>
      match signal_fate ends_by_default ignored t sig with
      | None => first_fate ends_by_default ignored signals
      | f => f
      end
  end.

(** C39. Once main has a server running, daemon or not, the first signal that
    ends the process decides how: SIGINT, SIGQUIT or SIGTERM end it with exit
    code 0, the server stopped, if the main thread takes the signal, and by an
    exception that nothing catches if the system gives it to the statistics
    thread, which joins itself. SIGPIPE is ignored. Any other signal, for which
    no handler is installed, kills the process exactly if the process did not
    inherit that it is ignored and its default action is to end the process;
    otherwise it changes nothing. *)
Theorem signals_end_the_process hardware_concurrency handler_output ends_by_default sys ignored
    args p signals :
  main hardware_concurrency sys ignored args = Serves p →
  main_loop handler_output ends_by_default signals p =
    default (Serves p) (first_fate ends_by_default ignored signals).
Proof.
  intros (Hok & Hr & Ha)%main_serves.
  induction signals as [|[t sig] signals IH]; cbn [main_loop first_fate]; rewrite Hr; [done|].
  cbn [negb]. unfold take_signal, signal_fate. rewrite Ha.
  destruct sig as [| | | |number]; cbn [server_setup_signal_handlers
    setup_signal_handlers set_action decide]; [| | |exact IH|].
  - destruct t; cbn -[signal_number].
    + destruct (server_signal_state handler_output (signal_number SIGINT) (g_server p) Hok)
        as (q & out & E). rewrite E. by destruct signals as [|[]].
    + by rewrite server_signal_on_stats_thread.
  - destruct t; cbn.
    + by destruct (server_stop_state (g_server p) Hok) as (q & out & ->).
    + by rewrite server_stop_on_stats_thread.
  - destruct t; cbn -[signal_number].
    + destruct (server_signal_state handler_output (signal_number SIGTERM) (g_server p) Hok)
        as (q & out & E). rewrite E. by destruct signals as [|[]].
    + by rewrite server_signal_on_stats_thread.
  - unfold server_setup_signal_handlers, setup_signal_handlers, set_action.
    rewrite !decide_False by done. destruct (ignored _); cbn [negb andb]; [exact IH|].
    destruct (ends_by_default _); [done|exact IH].
Qed.

(** The child of the second [fork] serves; the terminal goes away. *)
Definition daemon_calls : Syscalls := MkSyscalls 0 4711 0 0 0.

(** A child ends (17), the window changes (28), the terminal hangs up (1). *)
Definition usual_actions (sig : signal) : bool :=
  match sig with OtherSignal 17 | OtherSignal 28 => false | _ => true end.

Lemma signals_end_the_process_witness :
  match main 4 daemon_calls (λ _, false) [("D"%char, "")] with
  | Serves p =>
      main_loop [] usual_actions
        [(StatsThread, SIGPIPE); (MainThread, OtherSignal 17); (MainThread, SIGTERM)] p = Exits 0 ∧
      main_loop [] usual_actions [(MainThread, SIGPIPE); (StatsThread, SIGINT)] p = Crashes ∧
      main_loop [] usual_actions [(MainThread, OtherSignal 28); (StatsThread, OtherSignal 1)] p =
        Killed (OtherSignal 1)
  | _ => False
  end.
Proof.
  destruct (main 4 daemon_calls (λ _, false) [("D"%char, "")]) as [| | |p] eqn:E;
    [vm_compute in E; discriminate..|].
  split; [|split].
  - exact (signals_end_the_process 4 [] usual_actions daemon_calls (λ _, false) [("D"%char, "")] p
      [(StatsThread, SIGPIPE); (MainThread, OtherSignal 17); (MainThread, SIGTERM)] E).
  - exact (signals_end_the_process 4 [] usual_actions daemon_calls (λ _, false) [("D"%char, "")] p
      [(MainThread, SIGPIPE); (StatsThread, SIGINT)] E).
  - exact (signals_end_the_process 4 [] usual_actions daemon_calls (λ _, false) [("D"%char, "")] p
      [(MainThread, OtherSignal 28); (StatsThread, OtherSignal 1)] E).
Defined.
